(* ===== verification/_CoqProject ===== *)
-Q . S2P
Prelude.v
Words.v
Machine.v
SepLogic.v
Alloc.v
Script.v
Basic.v
Chain.v
Freelist.v
Pooled.v
Stack.v
Queue.v
Slist.v
Ringbuffer.v
Memtrie.v
MemtrieThreads.v
Divergence.v
Hashmap.v
HashmapThreads.v
Binarytree.v
Objects.v
FreelistAtomic.v
FreelistThreads.v
Hashfunc.v
Bloom.v
StateMonad.v
Sizeclass.v
Makechunk.v
FutexMutex.v
Huge.v
Small.v
SmallSpec.v
SmallAlloc.v
SmallProgram.v
Footprint.v
Large.v
LargeProgram.v
Cache.v
CacheSpec.v
Bins.v
CacheProgram.v
Supermalloc.v
SupermallocSpec.v
SupermallocOps.v
Programs.v
