(* ===== verification/Prelude.v ===== *)
(** * A verification library for lockfreec

    The repository has lock-free structures on C11-style primitives (src/basic),
    a trie, a hash map and a binary tree on the same primitives (src/advance), hash
    functions and a bloom filter (src/advance/hashfunc), and a memory allocator, SuperMalloc (src/memory).  This library models them as
    Rocq functions and proves what they promise to their clients.

    ** How the parts fit together

    The structures of src/basic share [abstraction_cas], [abstraction_dcas],
    [abstraction_increment] and [aligned_malloc] of lf_basic.c.  The freelist is a
    stack of reusable elements; the stack and the queue take their elements from a
    freelist, the singly linked list allocates its own; the ring buffer joins a
    freelist of elements to write and a queue of elements to read.
    The trie, the hash map and the binary tree of src/advance take their nodes from lists
    that are filled when the structure is made.  The bloom filter hashes
    keys with MurmurHash3 and sets bits of a bit vector.  In src/memory,
    [MALLOC] of malloc.cpp asks [size_2_bin] for a bin; objects of a small or a
    large bin come from the caches of cache.cpp, which fall back on
    small_malloc.cpp and large_malloc.cpp; these take chunks, and [MALLOC] takes
    huge blocks, from huge_malloc.cpp; makechunk.cpp maps chunks from the kernel;
    footprint.cpp counts the pages of the large objects; futex_mutex.cpp is the lock that
    protects them.

    ** Files

    - Prelude: 64-bit words, tactics, lemmas on lists and options.  Words: machine
      integers of any width, shifts, rotations, bit counts.
    - src/basic.  Machine: memory as a map from addresses to words, C functions as
      trees of atomic actions ([prog]), sequential runs and interleavings.
      SepLogic: a separation logic for total correctness over it, with the Iris
      proof mode; its assertions cannot be forgotten, so a specification that
      ends in no memory excludes leaks.  Alloc: concrete [malloc]s.  Script: what it
      means that every sequence of operations answers as an abstract machine
      does.  Basic, Freelist, Stack, Queue, Slist, Ringbuffer: the file of the same
      name, one definition per function; a loop of the code is a [Loop] of the
      machine and its body a definition with the suffix [_body].  Chain: the walks
      that the validation functions share.  Pooled: elements that live in a freelist.
    - src/advance.  Memtrie, Hashmap, Binarytree: lf_memtrie.c, lf_hashmap.c and
      lf_binarytree.c, over the same machine.  MemtrieThreads, HashmapThreads:
      interleavings of threads that fail, and runs that fault.  Divergence: runs that
      come back to where they were, and so do not end.
    - src/advance/hashfunc.  Hashfunc: [__hash_func] and the three variants of
      MurmurHash3.  Bloom: the bit vector and the bloom filter.
    - src/memory.  StateMonad: functions over global variables, [None] being a
      failed [bassert] or an access outside of a table.  Sizeclass:
      malloc_internal.h, generated_constants.h and generated_constants.cpp.
      Makechunk, Huge, Footprint, Large, Cache: the file of that name.  FutexMutex:
      futex_mutex.cpp, for any number of threads.  Small:
      the functions of small_malloc.cpp, with its proofs in SmallSpec and SmallAlloc.
      CacheSpec: the proofs about the caches.  Bins: small, large and huge together
      as the allocator below the caches.  Supermalloc: malloc.cpp and rng.cpp, with
      its proofs in SupermallocSpec and SupermallocOps.  SmallProgram, LargeProgram,
      CacheProgram, Programs: what any program above the component can rely on.
    - Threads.  Objects: clients of an object whose operations take one step, the C
      code that stands for the operations, and the class [Implements] with what has to be
      shown of that code so that every interleaving of its memory accesses is one of
      the operations.  FreelistAtomic: an instance for [freelist_pop] and
      [freelist_push], with the invariant that their counters keep.  FreelistThreads:
      threads that take, write and give back elements of a freelist.

    ** What the theorems show

    - Refinement ([freelist_refines], [stack_refines], [queue_refines],
      [slist_refines], [ringbuffer_refines]): a structure that is made, used by any
      sequence of operations and deleted answers what an abstract list answers,
      terminates, and gives all its memory back; the client of the ring buffer reads
      what is left and gives its elements back before it deletes.  [trie_refines] and
      [hash_refines]: the trie is a set of strings closed under prefixes, as long as it
      does not run out of nodes, the hash map a finite map.  [binarytree_nodes]: the list
      of nodes of the binary tree is a stack, as long as it is not empty.  Both lists of
      nodes end in what [malloc] left in their first word, so what an empty list answers
      is proved only for a [malloc] that answers zeros ([trie_refines_zeros],
      [trie_free_leaks], which are not properties of the code with any [malloc]).
    - Threads: [freelist_linearizable], any client of [freelist_pop] and
      [freelist_push] sees operations that take one step; [freelist_shared], no thread
      faults, holds an element of another one or loses what it wrote;
      [freelist_lock_free], all threads end under every scheduler.  The counter that
      tells a reused element from an old one must not wrap around, and the theorems
      bound the number of steps by what is left of [2 ^ 64].  [futex_mutual_exclusion],
      [futex_no_deadlock] and [futex_subscribe_owned]: the lock of the allocator excludes
      threads and loses no wake-up.
    - The allocator: [malloc_refines] and [malloc_progress], any program that calls
      the allocator sees fresh, disjoint and mapped blocks that keep their contents,
      and every call is granted unless the kernel refuses the very number of chunks
      that the call needs ([refused], [malloc_asks], [aligned_asks]); the alignment of a
      block is kept up to that of a page, and [aligned_alloc_misaligns] shows where it is
      not; [malloc_object], interior pointers; [cache_refines] and [cache_bounds], the caches neither lose an object
      nor hand it out twice and stay within their limits; [small_lists],
      [huge_blocks_apart], [large_footprint_sum], [mmap_chunk_aligned], the invariants
      of the parts; [size_2_bin_smallest], [magic_division], [bin_and_size_roundtrip],
      [small_bin_regions], the generated tables.
    - Hashing: [murmur_x64_128_block], [murmur_x86_32_block], [fmix_bijective],
      [hash_func_fold]; the filter has no false negatives
      ([bloom_no_false_negatives], [bloom_add_answers], [bitvector_operations]).
    - Validation and memory: [freelist_validate_decides], [aligned_malloc_free].
    - Behaviour that the code does not intend.  Lost updates and repeated calls:
      [slist_link_after_loses], [slist_destructor_twice], [queue_count_fails],
      [small_fullest_skips].  Threads: [trie_aba], [trie_pop_race], [hash_add_race].  Runs that do not
      end: [hash_add_starves], [binarytree_search_root], [binarytree_insert_diverges].
      Faults and leaks: [hash_free_twice], [hash_lookup_faults], [binarytree_new_faults],
      [ringbuffer_delete_leaks], [freelist_new_element_no_memory], [stack_new_no_memory],
      [bloom_get_no_memory]; and what the code does when memory runs out where it does
      intend something, [freelist_new_no_memory] and [queue_new_no_memory].

    ** Code that is not here

    The C library's [malloc] and [free] (class [Allocator] of Machine), the callbacks
    of the structures (class [Linker] of Basic), [mmap], [munmap] and [madvise] ([Kernel]
    of Makechunk), futexes ([Futex] of FutexMutex), [sched_getcpu] ([Scheduler] of Footprint), the floating-point
    functions and [calloc] in Bloom are parameters; their laws are what their
    documentation states, and each has a concrete instance with which the
    witnesses run.

    ** Bounds and fuel

    A run of the machine takes the number of steps as an argument; the program logic
    proves that some number is enough.  In src/memory a loop has fuel:
    [pieces_fuel] is 64, twice the bits of a chunk number, since each piece of a
    split block doubles or halves; [collect_fuel] is the 8 KB of a thread's cache
    over the smallest object, and [destroy_fuel] twice that; the specifications
    show that the loops end before.  [small_malloc] and [large_malloc] try again
    once after they have made a chunk, and the specifications show that the second
    attempt succeeds.  Sizes are bounded by [2 ^ 46], where chunk numbers of 27
    bits still name every chunk of a rounded block.  The futex mutex has at most [2 ^ 29]
    threads, so that its counters of 32 bits do not overflow.

    ** What is not modelled

    - Weak memory: an interleaving executes one atomic action at a time.  The stack,
      the queue, the list, the ring buffer, the trie and the hash map are proved correct
      for one thread.  The theorems about threads of the trie and the hash map exhibit
      schedules that fail, so no theorem for all schedules of these can hold.
    - In src/advance, [lf_hash_delete] has an empty body; the messages that the hash map
      prints are left out.  [hash_new] makes lists of thirty million nodes; the theorems
      are about [hash_new_sized], which has these numbers as arguments.  The deallocation
      functions of the bloom filter are left out.
    - src/memory runs in one thread, FutexMutex apart: locks and hardware transactions
      (atomically.h, has_tsx.cpp) protect sections that the model executes whole; the compare-and-swap loops of huge_malloc.cpp and
      large_malloc.cpp succeed at once.  The prefetching variants of the critical
      sections (predo) have no effect on the state.  Contents of memory that the
      program does not hold are not tracked, so what the [madvise] of the frees does to
      them is not visible: there, only its answer and the state of the kernel are
      modelled.  The [madvise] of [CALLOC] is about a held block, and [dont_need] clears it.
      Statistics, printing and the tests that are
      compiled into the files are left out.
    - The other headers of src/advance have no operations.  The benchmark (src/bench), the
      bw-tree (src/btree), the queue of src/moody, src/mwcas, src/hash and src/persist
      are separate C++ code bases, most of them with templates, epoch-based reclamation
      and explicit memory orders; src/cases, src/compare, src/misc and src/sandbox are
      drivers that time and print. *)
From Corelib Require Export ssreflect.
From stdpp Require Export prelude gmap list.
From Stdlib Require Export ZArith Lia.

#[export] Set Default Goal Selector "!".

(** ** 64-bit words

    [atom_t] of src/basic/lf_basic.h is [unsigned long long int]; a word is a
    [Z] and every arithmetic operation of the code on words wraps at [2^64]. *)

Declare Scope word_scope.
Delimit Scope word_scope with W.
Global Open Scope general_if_scope.
Global Open Scope Z_scope.

Definition word_mod : Z := 2 ^ 64.
Definition wrap (z : Z) : Z := z mod word_mod.

Notation "x +w y" := (wrap (x + y)) (at level 50, left associativity) : word_scope.
Notation "x -w y" := (wrap (x - y)) (at level 50, left associativity) : word_scope.
Global Open Scope word_scope.

Definition is_word (z : Z) : Prop := 0 <= z < word_mod.

#[export] Instance is_word_dec z : Decision (is_word z).
Proof. unfold is_word. apply _. Defined.

Lemma word_mod_pos : 0 < word_mod.
Proof. done. Qed.

Lemma wrap_is_word z : is_word (wrap z).
Proof. apply Z.mod_pos_bound, word_mod_pos. Qed.

Lemma wrap_small z : is_word z -> wrap z = z.
Proof. intros H. by apply Z.mod_small. Qed.

Lemma wrap_wrap z : wrap (wrap z) = wrap z.
Proof. apply wrap_small, wrap_is_word. Qed.

Lemma wrap_add_l x y : wrap (wrap x + y) = wrap (x + y).
Proof. apply Z.add_mod_idemp_l. done. Qed.

Lemma wrap_add_r x y : wrap (x + wrap y) = wrap (x + y).
Proof. apply Z.add_mod_idemp_r. done. Qed.

Lemma wrap_sub_l x y : wrap (wrap x - y) = wrap (x - y).
Proof. apply Zminus_mod_idemp_l. Qed.

Lemma wrap_sub_r x y : wrap (x - wrap y) = wrap (x - y).
Proof. apply Zminus_mod_idemp_r. Qed.

Create HintDb word discriminated.
Create Rewrite HintDb word_rw.
#[export] Hint Resolve wrap_is_word : word.
#[export] Hint Rewrite wrap_wrap wrap_add_l wrap_add_r wrap_sub_l wrap_sub_r : word_rw.

(** Truth values of C: any non-zero word is true. *)
Definition truthy (z : Z) : bool := negb (z =? 0).
Definition of_bool (b : bool) : Z := if b then 1 else 0.

Lemma truthy_of_bool b : truthy (of_bool b) = b.
Proof. by destruct b. Qed.

(** ** Tactics *)

(** Case analysis on the boolean comparison of two words in the goal. *)
Ltac case_eqb :=
  match goal with
  | |- context [?x =? ?y] => destruct (Z.eqb_spec x y); simplify_eq
  end.

Ltac case_ltb :=
  match goal with
  | |- context [?x <? ?y] => destruct (Z.ltb_spec x y)
  end.

(** ** Lists *)

Lemma last_cons_snoc {A} (l : list A) (x : A) :
  exists l' y, x :: l = l' ++ [y].
Proof.
  destruct (exists_last (l := x :: l)) as (l' & y & ->); [done|]. eauto.
Qed.

Lemma replicate_S_snoc {A} n (x : A) : replicate (S n) x = replicate n x ++ [x].
Proof. induction n as [|n IH]; [done|]. simpl. f_equal. exact IH. Qed.

Lemma not_NoDup_repeat {A} `{!EqDecision A} (l : list A) : ~ NoDup l ->
  exists i j x, (i < j)%nat /\ l !! i = Some x /\ l !! j = Some x.
Proof.
  induction l as [|x l IH]; intros Hnd; [by destruct Hnd; constructor|].
  destruct (decide (x ∈ l)) as [[j Hj]%list_elem_of_lookup|Hx].
  - exists 0%nat, (S j), x. split_and!; [lia|done|done].
  - destruct IH as (i & j & y & Hij & Hi & Hj); [intros Hl; apply Hnd; by constructor|].
    exists (S i), (S j), y. split_and!; [lia|done|done].
Qed.

Lemma foldl_pointwise {A B} (f g : A -> B -> A) (l : list B) (a : A) :
  (forall a b, f a b = g a b) -> foldl f a l = foldl g a l.
Proof. intros Hfg. revert a. induction l as [|b l IH]; intros a; [done|]. simpl. by rw Hfg IH. Qed.

Lemma Forall2_impl_lookup {A B} (P Q : A -> B -> Prop) l k :
  Forall2 P l k -> (forall i x y, l !! i = Some x -> k !! i = Some y -> P x y -> Q x y) -> Forall2 Q l k.
Proof.
  intros HF HPQ. apply Forall2_same_length_lookup_2; [by eapply Forall2_length|].
  intros i x y Hx Hy. apply (HPQ i); [done..|]. by apply (Forall2_lookup_lr _ _ _ i x y HF).
Qed.

(** Different entries of a list whose flattening has no duplicates have nothing in common. *)
Lemma NoDup_bind_disjoint {A B} (f : A -> list B) (l : list A) i j x y b :
  NoDup (l ≫= f) -> l !! i = Some x -> l !! j = Some y -> b ∈ f x -> b ∈ f y -> i = j.
Proof.
  intros Hnd Hi Hj Hx Hy. destruct (decide (i = j)) as [|Hne]; [done|]. exfalso.
  rewrite -> (delete_Permutation l i x Hi) in Hnd. simpl in Hnd. apply NoDup_app in Hnd as (_ & Hd & _).
  apply (Hd b Hx), list_elem_of_bind. exists y. split; [done|]. apply list_elem_of_lookup.
  destruct (decide (j < i)%nat).
  - exists j. by rewrite -> list_lookup_delete_lt by lia.
  - exists (j - 1)%nat. rewrite -> list_lookup_delete_ge by lia. rw -Hj. f_equal. lia.
Qed.
