(* ===== verification/Words.v ===== *)
(** * Unsigned machine integers of any width.

    A [uint16_t], [uint32_t] or [uint64_t] is a [Z]; the operations of the code
    wrap at the width of the type. *)
From S2P Require Import Prelude.
#[local] Open Scope Z_scope.

(** ** Unsigned integers of [w] bits *)

Definition uwrap (w z : Z) : Z := z mod 2 ^ w.
Definition is_uint (w z : Z) : Prop := 0 <= z < 2 ^ w.
Definition umul (w a b : Z) : Z := uwrap w (a * b).
Definition uadd (w a b : Z) : Z := uwrap w (a + b).

(** Conversion to an [int] of 32 bits. *)
Definition to_int (v : Z) : Z := let u := v mod 2 ^ 32 in if u <? 2 ^ 31 then u else u - 2 ^ 32.

(** ** Bits of unsigned integers *)

Lemma uwrap_uint w z : 0 <= w -> is_uint w (uwrap w z).
Proof. intros Hw. apply Z.mod_pos_bound, Z.pow_pos_nonneg; lia. Qed.

Lemma uwrap_small w z : is_uint w z -> uwrap w z = z.
Proof. intros H. by apply Z.mod_small. Qed.

Lemma to_int_small z : 0 <= z < 2147483648 -> to_int z = z.
Proof.
  intros H. unfold to_int. assert (z mod 2 ^ 32 = z) as -> by (apply Z.mod_small; change (2 ^ 32) with 4294967296; lia).
  cbv zeta. change (2 ^ 31) with 2147483648. by assert ((z <? 2147483648) = true) as -> by (apply Z.ltb_lt; lia).
Qed.

Lemma uint_bits w x i : is_uint w x -> w <= i -> Z.testbit x i = false.
Proof.
  intros [H0 Hlt] Hi. destruct (decide (x = 0)) as [->|Hne]; [apply Z.testbit_0_l|].
  apply Z.bits_above_log2; [lia|]. apply Z.log2_lt_pow2 in Hlt; lia.
Qed.

Lemma bits_uint w x : 0 <= w -> 0 <= x -> (forall i, w <= i -> Z.testbit x i = false) -> is_uint w x.
Proof.
  intros Hw Hx Hb. split; [done|]. destruct (decide (x = 0)) as [->|Hne].
  { apply Z.pow_pos_nonneg; lia. }
  apply Z.log2_lt_pow2; [lia|]. apply Z.lt_nge. intros Hle.
  specialize (Hb _ Hle). rewrite -> Z.bit_log2 in Hb by lia. done.
Qed.

Lemma uwrap_bit w x i : 0 <= w -> 0 <= i ->
  Z.testbit (uwrap w x) i = if decide (i < w) then Z.testbit x i else false.
Proof.
  intros Hw Hi. unfold uwrap. case_decide.
  - by apply Z.mod_pow2_bits_low.
  - apply Z.mod_pow2_bits_high. lia.
Qed.

Lemma lxor_uint w x y : 0 <= w -> is_uint w x -> is_uint w y -> is_uint w (Z.lxor x y).
Proof.
  intros Hw Hx Hy. apply bits_uint; [done| |].
  - apply Z.lxor_nonneg. unfold is_uint in *. lia.
  - intros i Hi. rw Z.lxor_spec (uint_bits w x i) // (uint_bits w y i) //.
Qed.

Lemma shiftr_uint w x s : 0 <= w -> 0 <= s -> is_uint w x -> is_uint w (Z.shiftr x s).
Proof.
  intros Hw Hs Hx. apply bits_uint; [done| |].
  - apply Z.shiftr_nonneg. by destruct Hx.
  - intros i Hi. rewrite -> Z.shiftr_spec by lia. apply (uint_bits w); [done|lia].
Qed.

Lemma shiftr_zero w x s : w <= s -> is_uint w x -> Z.shiftr x s = 0.
Proof.
  intros Hs Hx. apply Z.bits_inj'. intros i Hi. rw Z.shiftr_spec // Z.testbit_0_l.
  apply (uint_bits w); [done|lia].
Qed.

Lemma lxor_cancel_r x y z : Z.lxor x z = Z.lxor y z -> x = y.
Proof.
  intros E. rw -(Z.lxor_0_r x) -(Z.lxor_0_r y) -(Z.lxor_nilpotent z) -!Z.lxor_assoc. by rw E.
Qed.

Lemma lxor_cancel_l x y z : Z.lxor z x = Z.lxor z y -> x = y.
Proof. rw !(Z.lxor_comm z). apply lxor_cancel_r. Qed.

Lemma lor_uint w x y : 0 <= w -> is_uint w x -> is_uint w y -> is_uint w (Z.lor x y).
Proof.
  intros Hw Hx Hy. apply bits_uint; [done| |].
  - apply Z.lor_nonneg. unfold is_uint in *. lia.
  - intros i Hi. rw Z.lor_spec (uint_bits w x i) // (uint_bits w y i) //.
Qed.

Lemma land_uint w x y : 0 <= w -> is_uint w x -> 0 <= y -> is_uint w (Z.land x y).
Proof.
  intros Hw Hx Hy. apply bits_uint; [done| |].
  - apply Z.land_nonneg. by right.
  - intros i Hi. rw Z.land_spec (uint_bits w x i) //.
Qed.

(** Clearing the [k] lowest bits rounds down to a multiple of [2 ^ k]. *)
Lemma mask_down w k a : 0 <= k <= w -> is_uint w a ->
  Z.land a (uwrap w (Z.lnot (2 ^ k - 1))) = a / 2 ^ k * 2 ^ k.
Proof.
  intros Hk Ha. replace (2 ^ k - 1) with (Z.ones k) by (rw Z.ones_equiv; lia).
  apply Z.bits_inj'. intros i Hi. rw Z.land_spec. rewrite -> uwrap_bit by lia.
  destruct (Z.lt_ge_cases i k) as [Hlt|Hge].
  - rewrite -> decide_True by lia. rewrite -> Z.lnot_spec, Z.ones_spec_low by lia.
    rewrite -> Z.mul_pow2_bits_low by lia. apply andb_false_r.
  - rewrite -> Z.mul_pow2_bits by lia. rewrite -> Z.div_pow2_bits by lia. rw Z.sub_add. case_decide.
    + rewrite -> Z.lnot_spec, Z.ones_spec_high by lia. apply andb_true_r.
    + rewrite -> (uint_bits w a i) by (done || lia). done.
Qed.

(** ** The bit-counting builtins *)

(** [__builtin_clzl] and the like, of a number that is not 0. *)
Definition clz (w a : Z) : Z := w - 1 - Z.log2 a.

Fixpoint pos_ctz (p : positive) : Z :=
  match p with
  | xO p => 1 + pos_ctz p
  | _ => 0
  end.

(** [__builtin_ctzl] of a number that is not 0. *)
Definition ctz (a : Z) : Z :=
  match a with
  | Zpos p => pos_ctz p
  | _ => 0
  end.

Fixpoint pos_popcount (p : positive) : Z :=
  match p with
  | xH => 1
  | xO p => pos_popcount p
  | xI p => 1 + pos_popcount p
  end.

(** [__builtin_popcountl]. *)
Definition popcount (a : Z) : Z :=
  match a with
  | Zpos p => pos_popcount p
  | _ => 0
  end.

Lemma pos_ctz_nonneg p : 0 <= pos_ctz p.
Proof. induction p as [p _|p IH|]; simpl; lia. Qed.

Lemma pos_ctz_divide p : exists q, Zpos p = (2 * q + 1) * 2 ^ pos_ctz p.
Proof.
  induction p as [p _|p [q IH]|].
  - exists (Zpos p). simpl pos_ctz. lia.
  - exists q. pose proof (pos_ctz_nonneg p). change (pos_ctz p~0) with (1 + pos_ctz p).
    rewrite -> Z.pow_add_r by lia. lia.
  - by exists 0.
Qed.

(** [a] is an odd multiple of [2 ^ ctz a]. *)
Lemma ctz_spec a : 0 < a -> 0 <= ctz a /\ exists q, a = (2 * q + 1) * 2 ^ ctz a.
Proof.
  intros Ha. destruct a as [|p|p]; [lia| |lia]. split; [apply pos_ctz_nonneg|apply pos_ctz_divide].
Qed.

Lemma ctz_pow2 n : 0 <= n -> ctz (2 ^ n) = n.
Proof.
  intros Hn. assert (0 < 2 ^ n) as Hp by (apply Z.pow_pos_nonneg; lia).
  destruct (ctz_spec (2 ^ n) Hp) as [H0 [q Hq]]. set (m := ctz (2 ^ n)) in *.
  destruct (Z.lt_trichotomy m n) as [Hlt|[->|Hgt]]; [|done|].
  - exfalso. replace n with (m + 1 + (n - m - 1)) in Hq by lia.
    rewrite -> !Z.pow_add_r in Hq by lia.
    assert (2 ^ m * (2 * 2 ^ (n - m - 1)) = 2 ^ m * (2 * q + 1)) as E by lia.
    apply Z.mul_reg_l in E; [lia|]. apply Z.pow_nonzero; lia.
  - exfalso. assert (2 ^ n < 2 ^ m) by (apply Z.pow_lt_mono_r; lia).
    assert (0 < 2 * q + 1) by nia. nia.
Qed.

(** The bit [ctz a] is the lowest one that is set. *)
Lemma ctz_testbit a : 0 < a -> Z.testbit a (ctz a) = true.
Proof.
  intros Ha. destruct (ctz_spec a Ha) as [H0 [q Hq]]. set (m := ctz a) in *. rw Hq.
  rewrite -> Z.mul_pow2_bits by lia. rw Z.sub_diag. apply Z.testbit_odd_0.
Qed.

Lemma ctz_below a i : 0 < a -> 0 <= i < ctz a -> Z.testbit a i = false.
Proof.
  intros Ha Hi. destruct (ctz_spec a Ha) as [H0 [q Hq]]. set (m := ctz a) in *. rw Hq.
  rewrite -> Z.mul_pow2_bits by lia. apply Z.testbit_neg_r. lia.
Qed.

Lemma ctz_lt w a : 0 <= w -> 0 < a -> is_uint w a -> 0 <= ctz a < w.
Proof.
  intros Hw Ha Hu. destruct (ctz_spec a Ha) as [H0 _]. split; [done|].
  destruct (Z.lt_ge_cases (ctz a) w) as [|Hge]; [done|].
  pose proof (ctz_testbit a Ha) as Hb. by rewrite -> (uint_bits w) in Hb.
Qed.

Lemma popcount_nonneg a : 0 <= popcount a.
Proof. destruct a as [|p|p]; simpl; [lia| |lia]. induction p as [p IH|p IH|]; simpl; lia. Qed.

Lemma popcount_half a : 0 <= a -> popcount a = a mod 2 + popcount (a / 2).
Proof.
  intros Ha. rw -Z.div2_div -Z.bit0_mod Z.bit0_odd. destruct a as [|p|p]; [done| |lia]. by destruct p.
Qed.

Lemma testbit_half a i : 0 <= i -> Z.testbit (a / 2) i = Z.testbit a (Z.succ i).
Proof. intros Hi. rw -Z.div2_div Z.div2_spec. by rewrite -> Z.shiftr_spec by lia. Qed.

(** A bit that is set in addition adds one to the population count. *)
Lemma popcount_flip a b k : 0 <= a -> 0 <= b -> 0 <= k ->
  Z.testbit a k = false -> Z.testbit b k = true ->
  (forall i, 0 <= i -> i <> k -> Z.testbit b i = Z.testbit a i) -> popcount b = popcount a + 1.
Proof.
  intros Ha Hb Hk. revert a b Ha Hb. pattern k. apply natlike_ind; [| |done]; clear k Hk.
  - intros a b Ha Hb Ka Kb Hi. rw (popcount_half a) // (popcount_half b) // -!Z.bit0_mod Ka Kb.
    replace (b / 2) with (a / 2); [simpl; lia|]. apply Z.bits_inj'. intros i Hi0.
    rw !testbit_half // Hi //; lia.
  - intros k Hk IH a b Ha Hb Ka Kb Hi. rw (popcount_half a) // (popcount_half b) // -!Z.bit0_mod.
    rewrite -> (Hi 0) by lia. rewrite -> (IH (a / 2) (b / 2)); [lia|apply Z.div_pos; lia..| | |].
    + by rw testbit_half.
    + by rw testbit_half.
    + intros i Hi0 Hne. rw !testbit_half //. apply Hi; lia.
Qed.

Lemma half_uint w a : 0 <= w -> is_uint (Z.succ w) a -> is_uint w (a / 2).
Proof.
  intros Hw [H0 Hlt]. split; [apply Z.div_pos; lia|]. apply Z.div_lt_upper_bound; [lia|].
  by rw Z.pow_succ_r in Hlt.
Qed.

Lemma popcount_le w a : 0 <= w -> is_uint w a -> popcount a <= w.
Proof.
  intros Hw. revert a. pattern w. apply natlike_ind; [| |done]; clear w Hw.
  - intros a Ha. assert (a = 0) as -> by (unfold is_uint in Ha; lia). done.
  - intros w Hw IH a Ha. rewrite -> popcount_half by apply Ha.
    specialize (IH (a / 2) (half_uint w a Hw Ha)). pose proof (Z.mod_pos_bound a 2). lia.
Qed.

(** Only the number with every bit set has a full population count. *)
Lemma popcount_full w a : 0 <= w -> is_uint w a -> popcount a = w -> a = 2 ^ w - 1.
Proof.
  intros Hw. revert a. pattern w. apply natlike_ind; [| |done]; clear w Hw.
  - intros a Ha _. unfold is_uint in Ha. lia.
  - intros w Hw IH a Ha. rewrite -> popcount_half by apply Ha. intros Hp.
    pose proof (half_uint w a Hw Ha) as Hu. pose proof (popcount_le w (a / 2) Hw Hu).
    pose proof (Z.mod_pos_bound a 2 ltac:(lia)). rewrite -> (Z.div_mod a 2) by lia.
    rewrite -> (IH (a / 2)) by (done || lia). rw Z.pow_succ_r //. lia.
Qed.
