(* ===== verification/Machine.v ===== *)
(** * The machine: word memory, C programs as trees of atomic actions,
      sequential runs and interleavings of threads. *)
From Stdlib Require Import FunctionalExtensionality.
From S2P Require Import Prelude.

(** ** Memory

    The words of memory are keyed by their byte address; every field of the
    structures of the library occupies one word.  [Hdr p] is the record that
    the C library's [malloc] keeps of the live block at [p]: its size in
    bytes. *)

Inductive key : Set :=
| Word (a : Z)
| Hdr (p : Z).

#[export] Instance key_eq_dec : EqDecision key.
Proof. solve_decision. Defined.

#[export] Instance key_countable : Countable key.
Proof.
  refine (inj_countable'
    (fun k => match k with Word a => inl a | Hdr p => inr p end)
    (fun s => match s with inl a => Word a | inr p => Hdr p end) _).
  by intros [].
Defined.

Abbreviation heap := (gmap key Z).

(** The words [vs] laid out from address [a]. *)
Fixpoint words_map (a : Z) (vs : list Z) : heap :=
  match vs with
  | [] => ∅
  | v :: vs => <[Word a := v]> (words_map (a + 8) vs)
  end.

(** Words of a block of [n] bytes. *)
Definition nwords (n : Z) : nat := Z.to_nat ((n + 7) / 8).

(** ** The allocator

    [malloc] and [free] are code of the C library.  [alloc_base h n] is the
    address [malloc (n)] returns in memory [h], [0] when it fails;
    [alloc_junk] is what the fresh words hold; [alloc_room] is the number of
    bytes the allocator is sure to serve from [h].  The laws ([AllocatorOk],
    below) are those ISO C gives: a block does not overlap a live one and is
    aligned for any object. *)

Class Allocator := {
  alloc_base : heap -> Z -> Z;
  alloc_junk : heap -> nat -> Z;
  alloc_room : heap -> nat;
}.

Definition junk_words `{Allocator} (h : heap) (n : Z) : list Z :=
  alloc_junk h <$> seq 0 (nwords n).

(** ** Atomic actions *)

Inductive action : Set :=
| ALoad (a : Z)
| AStore (a v : Z)
| ACas (a exchange compare : Z)
| ADcas (a x0 x1 c0 c1 : Z)
| AAddFetch (a d : Z)
| AMalloc (n : Z)
| AFree (p : Z).

(** [cmpxchg16b] faults on an operand that is not 16-byte aligned. *)
Definition dcas_aligned (a : Z) : bool := a mod 16 =? 0.

(** What an action answers: [ADcas] gives the success flag and the pair that
    [cmpxchg16b] leaves in the compare registers. *)
Definition resp (x : action) : Set :=
  match x with
  | ALoad _ | ACas _ _ _ | AAddFetch _ _ | AMalloc _ => Z
  | AStore _ _ | AFree _ => unit
  | ADcas _ _ _ _ _ => bool * Z * Z
  end.

Definition exec_malloc `{Allocator} (n : Z) (h : heap) : Z * heap :=
  let p := alloc_base h n in
  if p =? 0 then (0, h)
  else (p, <[Hdr p := n]> (words_map p (junk_words h n) ∪ h)).

Definition fresh_block (h : heap) (p n : Z) : Prop :=
  h !! Hdr p = None /\ forall a, p <= a < p + 8 * Z.of_nat (nwords n) -> h !! Word a = None.

(** What a block of [n] bytes may take from the room that is left. *)
Definition malloc_cost (n : Z) : nat := (Z.to_nat n + 32)%nat.

Definition exec_free (p : Z) (h : heap) : option heap :=
  if p =? 0 then Some h
  else n ← h !! Hdr p;
       Some (delete (Hdr p) (h ∖ words_map p (replicate (nwords n) 0))).

(** The laws of the allocator: a block it answers is fresh, and as long as it
    has room it does not fail. *)
Class AllocatorOk `{Allocator} : Prop := {
  alloc_ok h n : alloc_base h n ≠ 0 ->
    0 < alloc_base h n /\ alloc_base h n + n <= word_mod /\
    alloc_base h n mod 8 = 0 /\ fresh_block h (alloc_base h n) n;
  alloc_junk_word h i : is_word (alloc_junk h i);
  alloc_room_malloc h n : (malloc_cost n <= alloc_room h)%nat ->
    alloc_base h n ≠ 0 /\ (alloc_room h <= alloc_room (exec_malloc n h).2 + malloc_cost n)%nat;
  alloc_room_free h h' p : exec_free p h = Some h' -> (alloc_room h <= alloc_room h')%nat;
  alloc_room_store h a v w : h !! Word a = Some v ->
    alloc_room (<[Word a := w]> h) = alloc_room h;
}.

(** An allocator that may fail at any time promises no room. *)
Class NoRoom `{Allocator} : Prop := no_room h : alloc_room h = 0%nat.

(** [None]: the action touches memory that is not there. *)
Definition exec_action `{Allocator} (x : action) (h : heap) : option (resp x * heap) :=
  match x return option (resp x * heap) with
  | ALoad a => v ← h !! Word a; Some (v, h)
  | AStore a v => _ ← h !! Word a; Some (tt, <[Word a := v]> h)
  | ACas a e c =>
      v ← h !! Word a; Some (v, if v =? c then <[Word a := e]> h else h)
  | ADcas a x0 x1 c0 c1 =>
      _ ← (if dcas_aligned a then Some tt else None);
      v0 ← h !! Word a;
      v1 ← h !! Word (a + 8);
      if (v0 =? c0) && (v1 =? c1)
      then Some ((true, v0, v1), <[Word a := x0]> (<[Word (a + 8) := x1]> h))
      else Some ((false, v0, v1), h)
  | AAddFetch a d =>
      v ← h !! Word a; Some (v +w d, <[Word a := v +w d]> h)
  | AMalloc n => Some (exec_malloc n h)
  | AFree p => h' ← exec_free p h; Some (tt, h')
  end.

(** ** Programs

    A C function is a tree of actions.  [Loop body s k] runs [body] from the
    loop state [s] until it answers [inr], then continues with [k]. *)

Inductive fault : Set :=
| AssertionFailed
| BadAccess.

Inductive prog (A : Set) : Type :=
| Ret (a : A)
| Crash (e : fault)
| Act (x : action) (k : resp x -> prog A)
| Loop (S B : Set) (body : S -> prog (S + B)) (s : S) (k : B -> prog A).

Arguments Ret {A} a.
Arguments Crash {A} e.
Arguments Act {A} x k.
Arguments Loop {A S B} body s k.

Fixpoint bind {A B : Set} (p : prog A) (f : A -> prog B) : prog B :=
  match p with
  | Ret a => f a
  | Crash e => Crash e
  | Act x k => Act x (fun r => bind (k r) f)
  | Loop body s k => Loop body s (fun b => bind (k b) f)
  end.

Lemma bind_ret_l {A B : Set} (a : A) (f : A -> prog B) : bind (Ret a) f = f a.
Proof. done. Qed.

Declare Scope prog_scope.
Delimit Scope prog_scope with prog.
Notation "'let!' x ':=' p 'in' q" := (bind p (fun x => q))
  (at level 10, x pattern, p at level 100, q at level 200,
   format "'[v' 'let!'  x  ':='  p  'in' '/' q ']'") : prog_scope.
Notation "p ;; q" := (bind p (fun _ => q))
  (at level 100, q at level 200, right associativity,
   format "'[v' p ;; '/' q ']'") : prog_scope.
Global Open Scope prog_scope.
Bind Scope prog_scope with prog.

Definition load (a : Z) : prog Z := Act (ALoad a) Ret.
Definition store (a v : Z) : prog unit := Act (AStore a v) Ret.
Definition cas (a exchange compare : Z) : prog Z := Act (ACas a exchange compare) Ret.
Definition dcas (a x0 x1 c0 c1 : Z) : prog (bool * Z * Z) := Act (ADcas a x0 x1 c0 c1) Ret.
Definition add_fetch (a d : Z) : prog Z := Act (AAddFetch a d) Ret.
Definition malloc (n : Z) : prog Z := Act (AMalloc n) Ret.
Definition free (p : Z) : prog unit := Act (AFree p) Ret.
Definition loop {S B : Set} (body : S -> prog (S + B)) (s : S) : prog B := Loop body s Ret.

(** [assert (b)] of <assert.h>. *)
Definition c_assert (b : bool) : prog unit := if b then Ret tt else Crash AssertionFailed.

(** A memory barrier orders the accesses around it; interleavings of atomic
    actions are already ordered. *)
Definition barrier : prog unit := Ret tt.

(** [memset (p, 0, 8 * n)]. *)
Fixpoint memset0 (p : Z) (n : nat) : prog unit :=
  match n with
  | O => Ret tt
  | S n => store p 0;; memset0 (p + 8) n
  end.

(** ** Steps and runs *)

Definition loop_next {A S B : Set} (body : S -> prog (S + B)) (k : B -> prog A) (r : S + B)
  : prog A :=
  match r with inl s => Loop body s k | inr b => k b end.

Definition step `{Allocator} {A : Set} (p : prog A) (h : heap) : option (prog A * heap) :=
  match p with
  | Ret _ | Crash _ => None
  | Act x k =>
      match exec_action x h with
      | Some (r, h') => Some (k r, h')
      | None => Some (Crash BadAccess, h)
      end
  | Loop body s k => Some (bind (body s) (loop_next body k), h)
  end.

Inductive outcome (A : Set) : Type :=
| Done (a : A) (h : heap)
| Error (e : fault) (h : heap)
| Timeout.
Arguments Done {A} a h.
Arguments Error {A} e h.
Arguments Timeout {A}.

(** [n] bounds the number of machine steps. *)
Fixpoint run `{Allocator} {A : Set} (n : nat) (p : prog A) (h : heap) : outcome A :=
  match p with
  | Ret a => Done a h
  | Crash e => Error e h
  | _ => match n with
         | O => Timeout
         | S n => match step p h with
                  | Some (p', h') => run n p' h'
                  | None => Timeout
                  end
         end
  end.

(** What a run answers, without the memory. *)
Definition answer {A : Set} (o : outcome A) : option (A + fault) :=
  match o with Done a _ => Some (inl a) | Error e _ => Some (inr e) | Timeout => None end.

Lemma answer_done {A : Set} (o : outcome A) a : answer o = Some (inl a) -> exists h, o = Done a h.
Proof. destruct o; simpl; intros [=]; subst; eauto. Qed.

Lemma answer_error {A : Set} (o : outcome A) e : answer o = Some (inr e) -> exists h, o = Error e h.
Proof. destruct o; simpl; intros [=]; subst; eauto. Qed.

(** Threads: one step of any thread, over the shared memory. *)
Definition config (A : Set) : Type := list (prog A) * heap.

Inductive cstep `{Allocator} {A : Set} : config A -> config A -> Prop :=
| CStep ts1 p ts2 h p' h' :
    step p h = Some (p', h') ->
    cstep (ts1 ++ p :: ts2, h) (ts1 ++ p' :: ts2, h').

(** A schedule names the thread that moves at each step. *)
Fixpoint run_schedule `{Allocator} {A : Set} (sched : list nat) (c : config A) : config A :=
  match sched with
  | [] => c
  | i :: sched =>
      let '(ts, h) := c in
      match p ← ts !! i; step p h with
      | Some (p', h') => run_schedule sched (<[i := p']> ts, h')
      | None => run_schedule sched c
      end
  end.

(** ** Facts about runs *)

Lemma bind_ret_r {A : Set} (p : prog A) : bind p Ret = p.
Proof.
  induction p as [| |A x k IH|A S B body IHb s k IH]; simpl; [done|done| |].
  - f_equal. extensionality r. apply IH.
  - f_equal. extensionality r. apply IH.
Qed.

Lemma bind_assoc {A B C : Set} (p : prog A) (f : A -> prog B) (g : B -> prog C) :
  bind (bind p f) g = bind p (fun a => bind (f a) g).
Proof.
  revert f. induction p as [| |A x k IH|A S D body IHb s k IH]; intros f; simpl; [done|done| |].
  - f_equal. extensionality r. apply IH.
  - f_equal. extensionality r. apply IH.
Qed.

Section runs.
Context `{Allocator}.

Lemma run_ret {A : Set} n (a : A) h : run n (Ret a) h = Done a h.
Proof. by destruct n. Qed.

Lemma run_step {A : Set} n (p p' : prog A) h h' :
  step p h = Some (p', h') -> run (S n) p h = run n p' h'.
Proof. destruct p; intros Hs; [done|done| |]; cbn [run]; by rw Hs. Qed.

Lemma run_step_inv {A : Set} n (p p' : prog A) h h' a h'' :
  step p h = Some (p', h') -> run n p h = Done a h'' ->
  exists n', n = S n' /\ run n' p' h' = Done a h''.
Proof.
  destruct n as [|n].
  - destruct p; simpl; intros; simplify_eq.
  - intros Hs Hr. exists n. split; [done|]. by rw -(run_step n p p' h h').
Qed.

Lemma step_bind {A B : Set} (p p' : prog A) (f : A -> prog B) h h' :
  step p h = Some (p', h') -> step (bind p f) h = Some (bind p' f, h').
Proof.
  destruct p as [| |x k|S' B' body s k]; simpl; [done|done| |].
  - destruct (exec_action x h) as [[r h1]|]; intros; simplify_eq; done.
  - intros; simplify_eq. rw bind_assoc. do 3 f_equal.
    extensionality r. by destruct r.
Qed.

Lemma step_None {A : Set} (p : prog A) h :
  step p h = None -> (exists a, p = Ret a) \/ (exists e, p = Crash e).
Proof.
  destruct p as [| |x k|]; simpl; intros Hs; [eauto|eauto| |done].
  by destruct (exec_action x h) as [[??]|].
Qed.

(** More fuel does not change a finished run. *)
Lemma run_mono {A : Set} n m (p : prog A) h a h' :
  run n p h = Done a h' -> (n <= m)%nat -> run m p h = Done a h'.
Proof.
  revert m p h. induction n as [|n IH]; intros m p h Hr Hle.
  - destruct p; simpl in Hr; simplify_eq. by rw run_ret.
  - destruct (step p h) as [[p1 h1]|] eqn:Hs.
    + destruct m as [|m]; [lia|].
      rw (run_step _ _ _ _ _ Hs) in Hr. rw (run_step _ _ _ _ _ Hs).
      apply IH; [done|lia].
    + apply step_None in Hs as [[b ->]|[e ->]]; simpl in Hr; simplify_eq.
      by rw run_ret.
Qed.

Lemma run_bind {A B : Set} n (p : prog A) (f : A -> prog B) h a h' m b h'' :
  run n p h = Done a h' -> run m (f a) h' = Done b h'' ->
  run (n + m) (bind p f) h = Done b h''.
Proof.
  revert p h. induction n as [|n IH]; intros p h Hp Hf.
  - destruct p; simpl in Hp; simplify_eq. done.
  - destruct (step p h) as [[p1 h1]|] eqn:Hs.
    + rw (run_step _ _ _ _ _ Hs) in Hp. rw Nat.add_succ_l.
      rw (run_step _ _ _ _ _ (step_bind _ _ f _ _ Hs)). by apply IH.
    + apply step_None in Hs as [[b' ->]|[e ->]]; simpl in Hp; simplify_eq.
      apply run_mono with m; [done|lia].
Qed.

(** A run has one outcome, whatever the fuel. *)
Lemma run_det {A : Set} n m (p : prog A) h a b h1 h2 :
  run n p h = Done a h1 -> run m p h = Done b h2 -> a = b /\ h1 = h2.
Proof.
  intros H1 H2.
  apply (run_mono _ (n + m)) in H1; [|lia].
  apply (run_mono _ (n + m)) in H2; [|lia]. rw H1 in H2. by injection H2.
Qed.

Lemma run_act {A : Set} n x (k : resp x -> prog A) h r h' :
  exec_action x h = Some (r, h') -> run (S n) (Act x k) h = run n (k r) h'.
Proof. intros E. apply run_step. simpl. by rw E. Qed.

(** A scheduled run is a path of the interleaving relation. *)
Lemma run_schedule_cstep {A : Set} sched (c : config A) :
  rtc cstep c (run_schedule sched c).
Proof.
  revert c. induction sched as [|i sched IH]; intros [ts h]; simpl; [apply rtc_refl|].
  destruct (ts !! i) as [p|] eqn:Hi; simpl; [|apply IH].
  destruct (step p h) as [[p' h']|] eqn:Hs; [|apply IH].
  eapply rtc_l; [|apply IH].
  rw -{1}(take_drop_middle ts i p) // insert_take_drop.
  - by eapply lookup_lt_Some.
  - by constructor.
Qed.
End runs.

#[global] Arguments bind : simpl never.
