(* ===== verification/SepLogic.v ===== *)
(** * A separation logic for total correctness of sequential runs.

    Assertions are predicates on the part of memory a function owns; they form
    a linear logic (memory cannot be forgotten, so a specification that ends in
    [emp] rules out leaks), instantiated as a [bi] to use the Iris proof mode.
    [wp p Q] says that [p] terminates without a fault, from the owned memory
    inside any larger memory, and leaves the rest of memory unchanged. *)
From iris.bi Require Export bi.
From iris.proofmode Require Export proofmode.
From iris.proofmode Require Import coq_tactics reduction environments.
From S2P Require Import Prelude Machine.

(** ** Resources

    What a function owns: a part of memory, and a number of bytes the allocator
    is sure to serve. *)

Definition res : Type := heap * nat.
Definition radd (r s : res) : res := (r.1 ∪ s.1, (r.2 + s.2)%nat).
Definition rdisj (r s : res) : Prop := r.1 ##ₘ s.1.
Definition rnil : res := (∅, 0%nat).

Infix "∪r" := radd (at level 50, left associativity) : stdpp_scope.
Infix "##r" := rdisj (at level 70) : stdpp_scope.

Lemma radd_nil_l r : rnil ∪r r = r.
Proof. destruct r. unfold radd. simpl. by rw left_id_L. Qed.
Lemma radd_nil_r r : r ∪r rnil = r.
Proof. destruct r. unfold radd. simpl. rw right_id_L. f_equal. lia. Qed.
Lemma radd_assoc r s t : r ∪r (s ∪r t) = (r ∪r s) ∪r t.
Proof. unfold radd. simpl. rw assoc_L. f_equal. lia. Qed.
Lemma radd_comm r s : r ##r s -> r ∪r s = s ∪r r.
Proof. intros Hd. unfold radd. rw map_union_comm //. f_equal. lia. Qed.
Lemma rdisj_sym r s : r ##r s -> s ##r r.
Proof. unfold rdisj. intros ?. by symmetry. Qed.
Lemma rdisj_nil_l r : rnil ##r r.
Proof. apply map_disjoint_empty_l. Qed.
Lemma rdisj_nil_r r : r ##r rnil.
Proof. apply map_disjoint_empty_r. Qed.
Lemma rdisj_add_l r s t : r ∪r s ##r t <-> r ##r t /\ s ##r t.
Proof. apply map_disjoint_union_l. Qed.
Lemma rdisj_add_r r s t : r ##r s ∪r t <-> r ##r s /\ r ##r t.
Proof. apply map_disjoint_union_r. Qed.

#[local] Hint Resolve rdisj_nil_l rdisj_nil_r rdisj_sym : core.

(** ** Assertions *)

Record hProp : Type := HProp { holds : res -> Prop }.
Bind Scope bi_scope with hProp.
Arguments holds _%_I _ : simpl never.
Add Printing Constructor hProp.

Section hprop_ofe.
Record hequiv (P Q : hProp) : Prop := HEquiv { equiv_at : forall r, holds P r <-> holds Q r }.

#[local] Instance hProp_equiv : Equiv hProp := hequiv.

#[local] Instance hProp_equivalence : Equivalence (≡@{hProp}).
Proof.
  split.
  - intros P. by apply HEquiv.
  - intros P Q [E]. apply HEquiv. intros r. by rw E.
  - intros P Q R [E1] [E2]. apply HEquiv. intros r. by rw E1 E2.
Qed.

#[local] Instance hProp_dist {SI : sidx} : Dist hProp := fun _ P Q => P ≡ Q.

Definition hProp_ofe_mixin {SI : sidx} : OfeMixin hProp := discrete_ofe_mixin hProp_equivalence.

Canonical Structure hPropO {SI : sidx} : ofe := Ofe hProp hProp_ofe_mixin.

#[global] Instance hProp_cofe {SI : sidx} : Cofe hPropO := discrete_cofe hProp_equivalence.
End hprop_ofe.
Arguments HEquiv {P Q} _.
Arguments equiv_at {P Q} _ _.

Record hentails (P Q : hProp) : Prop := HEntails { entails_at : forall r, holds P r -> holds Q r }.
Arguments HEntails {P Q} _.
Arguments entails_at {P Q} _ _ _.

Definition hpure (φ : Prop) : hProp := HProp (fun _ => φ).
Definition hemp : hProp := HProp (fun r => r = rnil).
Definition hand (P Q : hProp) : hProp := HProp (fun r => holds P r /\ holds Q r).
Definition hor (P Q : hProp) : hProp := HProp (fun r => holds P r \/ holds Q r).
Definition himpl (P Q : hProp) : hProp := HProp (fun r => holds P r -> holds Q r).
Definition hforall (A : Type) (Ψ : A -> hProp) : hProp := HProp (fun r => forall a, holds (Ψ a) r).
Definition hexist (A : Type) (Ψ : A -> hProp) : hProp := HProp (fun r => exists a, holds (Ψ a) r).

(** Ownership of two disjoint parts. *)
Definition hsep (P Q : hProp) : hProp :=
  HProp (fun r => exists r1 r2, r = r1 ∪r r2 /\ r1 ##r r2 /\ holds P r1 /\ holds Q r2).
Definition hwand (P Q : hProp) : hProp :=
  HProp (fun r => forall r', r ##r r' -> holds P r' -> holds Q (r ∪r r')).
Definition hpers (P : hProp) : hProp := hpure (hentails hemp P).
Definition hlater (P : hProp) : hProp := P.

Lemma hProp_bi_mixin :
  BiMixin hentails hemp hpure hand hor himpl hforall hexist hsep hwand.
Proof.
  split.
  - split.
    + intros P. by apply HEntails.
    + intros P Q R [H1] [H2]. apply HEntails. auto.
  - intros P Q. split.
    + intros [E]. split; apply HEntails; intros r ?; by apply E.
    + intros [[E1] [E2]]. apply HEquiv. split; [apply E1|apply E2].
  - intros n φ ψ E. by apply HEquiv.
  - intros n P P' [EP] Q Q' [EQ]. apply HEquiv. intros r. split; intros []; split; by (apply EP || apply EQ).
  - intros n P P' [EP] Q Q' [EQ]. apply HEquiv. intros r.
    split; (intros [|]; [left; by apply EP|right; by apply EQ]).
  - intros n P P' [EP] Q Q' [EQ]. apply HEquiv. intros r.
    split; intros HPQ HP; apply EQ, HPQ, EP, HP.
  - intros A n Φ Ψ E. apply HEquiv. intros r. split; intros HΦ a; by apply (E a).
  - intros A n Φ Ψ E. apply HEquiv. intros r. split; intros [a Ha]; exists a; by apply (E a).
  - intros n P P' [EP] Q Q' [EQ]. apply HEquiv. intros r.
    split; (intros (r1 & r2 & -> & ? & ? & ?); exists r1, r2;
      split_and!; [done|done|by apply EP|by apply EQ]).
  - intros n P P' [EP] Q Q' [EQ]. apply HEquiv. intros r.
    split; (intros HPQ r' ? ?; apply EQ, HPQ; [done|by apply EP]).
  - intros φ P Hφ. by apply HEntails.
  - intros φ P HφP. apply HEntails. intros r Hφ. by apply (HφP Hφ).
  - intros P Q. by apply HEntails; intros r [].
  - intros P Q. by apply HEntails; intros r [].
  - intros P Q R [HQ] [HR]. apply HEntails. intros r HP. split; auto.
  - intros P Q. apply HEntails. by left.
  - intros P Q. apply HEntails. by right.
  - intros P Q R [HP] [HQ]. apply HEntails. intros r [|]; auto.
  - intros P Q R [HPQ]. apply HEntails. intros r HP HQ. by apply HPQ.
  - intros P Q R [HPQ]. apply HEntails. intros r [HP HQ]. by apply (HPQ r HP).
  - intros A P Ψ HΨ. apply HEntails. intros r HP a. by apply HΨ.
  - intros A Ψ a. apply HEntails. intros r HΨ. apply HΨ.
  - intros A Ψ a. apply HEntails. intros r HΨ. by exists a.
  - intros A Φ Q HΦ. apply HEntails. intros r [a Ha]. by apply (HΦ a).
  - intros P P' Q Q' [HPQ] [HPQ']. apply HEntails. intros r (r1 & r2 & -> & ? & ? & ?).
    exists r1, r2. split_and!; auto.
  - intros P. apply HEntails. intros r HP. exists rnil, r. rw radd_nil_l. split_and!; auto. done.
  - intros P. apply HEntails. intros r (r1 & r2 & -> & ? & -> & HP). by rw radd_nil_l.
  - intros P Q. apply HEntails. intros r (r1 & r2 & -> & ? & ? & ?). exists r2, r1.
    split_and!; auto. by apply radd_comm.
  - intros P Q R. apply HEntails.
    intros r (r12 & r3 & -> & Hd & (r1 & r2 & -> & ? & ? & ?) & ?).
    apply rdisj_add_l in Hd as [??].
    exists r1, (r2 ∪r r3). rw radd_assoc. split; [done|].
    split; [by apply rdisj_add_r|]. split; [done|]. by exists r2, r3.
  - intros P Q R [HPQ]. apply HEntails. intros r HP r' ? HQ. apply HPQ. by exists r, r'.
  - intros P Q R [HPQ]. apply HEntails. intros r (r1 & r2 & -> & ? & HP & HQ). by apply HPQ.
Qed.

Lemma hProp_persistently_mixin :
  BiPersistentlyMixin hentails hemp hand hexist hsep hpers.
Proof.
  eapply bi_persistently_mixin_discrete; [done| |done|apply hProp_bi_mixin].
  intros A Φ [HΦ]. destruct (HΦ rnil eq_refl) as [a Ha]. exists a. by apply HEntails; intros r ->.
Qed.

Lemma hProp_later_mixin :
  BiLaterMixin hentails hpure hor himpl hforall hexist hsep hpers hlater.
Proof. eapply bi_later_mixin_id; [done|apply hProp_bi_mixin]. Qed.

Canonical Structure hPropI : bi := {|
  bi_ofe_mixin := ofe_mixin_of hProp;
  bi_bi_mixin := hProp_bi_mixin;
  bi_bi_persistently_mixin := hProp_persistently_mixin;
  bi_bi_later_mixin := hProp_later_mixin
|}.

#[export] Instance hProp_pure_forall : BiPureForall hPropI.
Proof. intros A φ. by apply HEntails. Qed.

(** A fact that owns no memory. *)
Notation "⟨ φ ⟩" := (bi_affinely (bi_pure φ%stdpp%Z)) (at level 0, φ at level 200) : bi_scope.

(** ** Memory assertions *)

Definition pointsto (a v : Z) : hProp := HProp (fun r => r = ({[Word a := v]}, 0%nat)).
Notation "a ↦ v" := (pointsto a v) (at level 20, format "a  ↦  v") : bi_scope.

Lemma holds_pointsto a v r : holds (a ↦ v) r -> r = ({[Word a := v]}, 0%nat).
Proof. done. Qed.

(** Some word is at [a]. *)
Definition cell (a : Z) : hProp := (∃ v, a ↦ v)%I.

(** The live block [malloc] returned at [p], [n] bytes long. *)
Definition block (p n : Z) : hProp := HProp (fun r => r = ({[Hdr p := n]}, 0%nat)).

(** [n] bytes the allocator is sure to serve. *)
Definition credits (n : nat) : hProp := HProp (fun r => r = (∅, n)).

Lemma credits_add n m : credits (n + m) ⊣⊢ credits n ∗ credits m.
Proof.
  apply HEquiv. intros r. split.
  - intros ->. exists (∅, n), (∅, m). split_and!; [|apply map_disjoint_empty_l|done|done].
    unfold radd. simpl. by rw left_id_L.
  - intros (r1 & r2 & -> & _ & -> & ->). unfold radd. simpl. by rw left_id_L.
Qed.

Fixpoint array (a : Z) (vs : list Z) : hProp :=
  match vs with
  | [] => emp
  | v :: vs => a ↦ v ∗ array (a + 8) vs
  end%I.
Notation "a ↦∗ vs" := (array a vs) (at level 20, format "a  ↦∗  vs") : bi_scope.

Lemma words_map_lookup a vs k :
  (forall (i : nat) v, vs !! i = Some v -> k ≠ Word (a + 8 * i)) -> words_map a vs !! k = None.
Proof.
  revert a. induction vs as [|v vs IH]; intros a Hk; simpl; [apply lookup_empty|].
  rw lookup_insert_ne.
  - apply IH. intros i v' Hi ->. apply (Hk (S i) v'); [done|]. f_equal; lia.
  - intros <-. apply (Hk O v); [done|]. f_equal; lia.
Qed.

Lemma words_map_dom a vs k z :
  words_map a vs !! k = Some z -> exists i : nat, (i < length vs)%nat /\ k = Word (a + 8 * i).
Proof.
  revert a. induction vs as [|v vs IH]; intros a; simpl; [by rw lookup_empty|].
  rw lookup_insert_Some. intros [[<- _]|[_ H]].
  - exists O. split; [lia|]. f_equal; lia.
  - apply IH in H as (i & ? & ->). exists (S i). split; [lia|]. f_equal; lia.
Qed.

Lemma words_map_same_dom a vs ws k :
  length vs = length ws -> words_map a vs !! k = None -> words_map a ws !! k = None.
Proof.
  revert a ws. induction vs as [|v vs IH]; intros a [|w ws] Hl; simplify_eq/=; [done|].
  rw !lookup_insert_None. intros [? ?]. split; [by eapply IH|done].
Qed.

Lemma array_holds a vs r : holds (a ↦∗ vs) r <-> r = (words_map a vs, 0%nat).
Proof.
  revert a r. induction vs as [|v vs IH]; intros a r; simpl; [done|].
  assert (words_map (a + 8) vs !! Word a = None) as Hnone.
  { apply words_map_lookup. intros i w _ [=]. lia. }
  split.
  - intros (r1 & r2 & -> & ? & H1 & ->%IH). rw (holds_pointsto _ _ _ H1).
    unfold radd. simpl. by rw -insert_union_singleton_l.
  - intros ->. exists ({[Word a := v]}, 0%nat), (words_map (a + 8) vs, 0%nat).
    unfold radd. simpl. rw -insert_union_singleton_l. split_and!; [done| |done|by apply IH].
    by apply map_disjoint_singleton_l.
Qed.

Lemma array_app a vs ws : a ↦∗ (vs ++ ws) ⊣⊢ a ↦∗ vs ∗ (a + 8 * length vs) ↦∗ ws.
Proof.
  revert a. induction vs as [|v vs IH]; intros a; simpl.
  - rw left_id. by replace (a + 8 * 0%nat) with a by lia.
  - rw IH assoc. by replace (a + 8 * S (length vs)) with (a + 8 + 8 * length vs) by lia.
Qed.

Lemma pointsto_ne a b v w : a ↦ v ∗ b ↦ w ⊢ ⌜a ≠ b⌝.
Proof.
  apply HEntails. intros r (r1 & r2 & -> & Hd & -> & ->) <-.
  unfold rdisj in Hd. simpl in Hd. apply map_disjoint_singleton_l in Hd. by rw lookup_singleton_eq in Hd.
Qed.

(** All of the memory [h]. *)
Definition exactly (h : heap) : hProp := HProp (fun r => r = (h, 0%nat)).

Lemma exactly_acc h a v : h !! Word a = Some v ->
  exactly h ⊢ a ↦ v ∗ (a ↦ v -∗ exactly h).
Proof.
  intros Ha. apply HEntails. intros r ->.
  exists ({[Word a := v]}, 0%nat), (delete (Word a) h, 0%nat).
  assert ({[Word a := v]} ##ₘ delete (Word a) h) as Hd
    by by apply map_disjoint_singleton_l_2, lookup_delete_eq.
  assert ({[Word a := v]} ∪ delete (Word a) h = h) as Eh
    by by rw -insert_union_singleton_l insert_delete_id.
  split_and!; [by unfold radd; rw /= Eh|done|done|].
  intros r' _ ->%holds_pointsto. unfold radd. simpl. by rw map_union_comm // Eh.
Qed.

(** ** Weakest preconditions *)

(** [r] is owned inside the memory [h]: with the rest [rf], it is all of [h],
    and its credits are covered by the room that is left. *)
Definition owned `{Allocator} (r rf : res) (h : heap) : Prop :=
  r ##r rf /\ h = (r ∪r rf).1 /\ ((r ∪r rf).2 <= alloc_room h)%nat.

Definition wp `{Allocator} {A : Set} (p : prog A) (Q : A -> hProp) : hProp :=
  HProp (fun r => forall rf h, owned r rf h ->
    exists n a r' h', run n p h = Done a h' /\ owned r' rf h' /\ holds (Q a) r').

Notation "'WP' p {{ v , Q } }" := (wp p (fun v => Q%I))
  (at level 0, p, Q at level 200, v pattern,
   format "'[hv' 'WP'  p  '/  ' {{  v ,  Q  } } ']'") : bi_scope.

(** A specification in the form callers use: own [P], run [p], go on with
    what [Q] says of its result. *)
#[warnings="-closed-notation-not-level-0"]
Notation "'{{{' P } } } p {{{ v , Q } } }" :=
  (forall Φ, P%I -∗ (∀ v, Q%I -∗ Φ v) -∗ wp p Φ)
  (at level 20, p at level 200, v name,
   format "'[hv' {{{  P  } } }  '/  ' p  '/' {{{  v ,  Q  } } } ']'") : stdpp_scope.

Section wp_rules.
Context `{Allocator}.
Implicit Types (h : heap) (r rf : res).

(** What a proved specification says of the machine. *)
Lemma wp_run {A : Set} (p : prog A) (Q : A -> hProp) h c :
  holds (wp p Q) (h, c) -> (c <= alloc_room h)%nat ->
  exists n a h' c', run n p h = Done a h' /\ holds (Q a) (h', c').
Proof.
  intros Hp Hc. destruct (Hp rnil h) as (n & a & [h1 c'] & h' & Hr & (_ & -> & _) & HQ).
  { split; [auto|]. rw radd_nil_r. done. }
  rw radd_nil_r in Hr. by exists n, a, h1, c'.
Qed.

Lemma wp_ret {A : Set} (a : A) Q : Q a ⊢ wp (Ret a) Q.
Proof. apply HEntails. intros r HQ rf h Ho. by exists O, a, r, h. Qed.

Lemma wp_bind {A B : Set} (p : prog A) (f : A -> prog B) Q :
  wp p (fun a => wp (f a) Q) ⊢ wp (bind p f) Q.
Proof.
  apply HEntails. intros r Hp rf h Ho.
  destruct (Hp rf h Ho) as (n & a & r1 & h1 & Hr & Ho1 & Hf).
  destruct (Hf rf h1 Ho1) as (m & b & r2 & h2 & Hr2 & Ho2 & HQ).
  exists (n + m)%nat, b, r2, h2. split; [by eapply run_bind|done].
Qed.

Lemma wp_mono {A : Set} (p : prog A) (Q R : A -> hProp) :
  (forall a, Q a ⊢ R a) -> wp p Q ⊢ wp p R.
Proof.
  intros HQR. apply HEntails. intros r Hp rf h Ho.
  destruct (Hp rf h Ho) as (n & a & r' & h' & Hr & Ho' & HQ).
  exists n, a, r', h'. split; [done|]. split; [done|]. by apply (entails_at (HQR a)).
Qed.

Lemma owned_assoc r1 r2 rf h : r1 ##r r2 -> owned (r1 ∪r r2) rf h -> owned r1 (r2 ∪r rf) h.
Proof.
  intros Hd (Hd' & -> & Hc). apply rdisj_add_l in Hd' as [??].
  split; [by apply rdisj_add_r|]. by rw radd_assoc.
Qed.

Lemma owned_assoc' r1 r2 rf h : r2 ##r rf ->
  owned r1 (r2 ∪r rf) h -> r1 ##r r2 /\ owned (r1 ∪r r2) rf h.
Proof.
  intros Hd (Hd' & -> & Hc). apply rdisj_add_r in Hd' as [??].
  split; [done|]. split; [by apply rdisj_add_l|]. by rw radd_assoc in Hc |- *.
Qed.

Lemma wp_frame {A : Set} (p : prog A) (Q : A -> hProp) R :
  wp p Q ∗ R ⊢ wp p (fun a => Q a ∗ R).
Proof.
  apply HEntails. intros r (r1 & r2 & -> & Hd12 & Hp & HR) rf h Ho.
  assert (r2 ##r rf) by (destruct Ho as ([??]%rdisj_add_l & _); done).
  destruct (Hp (r2 ∪r rf) h) as (n & a & r' & h' & Hr & Ho' & HQ); [by apply owned_assoc|].
  apply owned_assoc' in Ho' as [? Ho']; [|done].
  exists n, a, (r' ∪r r2), h'. split_and!; [done|done|]. by exists r', r2.
Qed.

(** Credits may be given up. *)
Lemma wp_credits {A : Set} n (p : prog A) Q : credits n ∗ wp p Q ⊢ wp p Q.
Proof.
  apply HEntails. intros r (r1 & r2 & -> & Hd12 & -> & Hp) rf h (Hd & -> & Hc).
  apply Hp. apply rdisj_add_l in Hd as [_ ?]. split; [done|].
  unfold radd in *. simpl in *. rw left_id_L in Hc |- *. split; [done|lia].
Qed.

Lemma wp_wand {A : Set} (p : prog A) (Q R : A -> hProp) :
  wp p Q -∗ (∀ a, Q a -∗ R a) -∗ wp p R.
Proof.
  iIntros "Hp HQR". iDestruct (wp_frame p Q (∀ a, Q a -∗ R a) with "[$Hp $HQR]") as "Hp".
  iApply (wp_mono with "Hp"). iIntros (a) "[HQ HQR]". by iApply "HQR".
Qed.

Lemma spec_wp {A : Set} (P : hProp) (p : prog A) (Q : A -> hProp) :
  {{{ P }}} p {{{ v, Q v }}} -> P ⊢ wp p Q.
Proof. iIntros (Hs) "HP". iApply (Hs with "HP"). by iIntros (v) "HQ". Qed.

(** One action: from the owned memory, inside any memory, the action answers
    and the continuation is safe. *)
Lemma wp_act {A : Set} x (k : resp x -> prog A) (P : hProp) Q :
  (forall r rf h, holds P r -> owned r rf h -> exists a r' h',
     exec_action x h = Some (a, h') /\ owned r' rf h' /\ holds (wp (k a) Q) r') ->
  P ⊢ wp (Act x k) Q.
Proof.
  intros Hx. apply HEntails. intros r HP rf h Ho.
  destruct (Hx r rf h HP Ho) as (a & r' & h' & He & Ho' & Hk).
  destruct (Hk rf h' Ho') as (n & b & r'' & h'' & Hr & Ho'' & HQ).
  exists (S n), b, r'', h''. split; [|done]. by rw (run_act _ _ _ _ a h').
Qed.

Lemma wp_loop_unfold {A S B : Set} (body : S -> prog (S + B)) s (k : B -> prog A) Q :
  wp (body s) (fun x => wp (loop_next body k x) Q) ⊢ wp (Loop body s k) Q.
Proof.
  apply HEntails. intros r Hp rf h Ho.
  destruct (entails_at (wp_bind _ _ _) r Hp rf h Ho) as (n & a & r' & h' & Hr & HQ).
  by exists (Datatypes.S n), a, r', h'.
Qed.

(** A loop of the C code: one iteration, then the loop again or its result. *)
Lemma wp_loop {S B : Set} (body : S -> prog (S + B)) s (Q : B -> hProp) :
  wp (body s) (fun x => match x with inl s' => wp (loop body s') Q | inr b => Q b end)
  ⊢ wp (loop body s) Q.
Proof.
  rw -wp_loop_unfold. apply wp_mono. intros [s'|b]; [done|]. apply wp_ret.
Qed.

(** *** Memory actions *)

Lemma holds_pointsto_wand `{!AllocatorOk} a v w (P : hProp) r rf h :
  holds (a ↦ v ∗ (a ↦ w -∗ P)) r -> owned r rf h ->
  h !! Word a = Some v /\ exists r', owned r' rf (<[Word a := w]> h) /\ holds P r'.
Proof.
  intros (r1 & [h2 c2] & -> & Hd & H1 & HP) (Hd' & -> & Hc).
  rw (holds_pointsto _ _ _ H1) in Hd, Hd', Hc |- *.
  unfold radd, rdisj in *. simpl in *.
  apply map_disjoint_union_l in Hd' as [Hd1 Hd2].
  assert (h2 !! Word a = None) as Hn2 by by apply map_disjoint_singleton_l in Hd.
  assert (rf.1 !! Word a = None) as Hnf by by apply map_disjoint_singleton_l in Hd1.
  assert (({[Word a := v]} ∪ h2 ∪ rf.1) !! Word a = Some v) as Hl.
  { by rw -assoc_L -insert_union_singleton_l lookup_insert_eq. }
  split; [done|].
  exists ((h2, c2) ∪r ({[Word a := w]}, 0%nat)). split.
  - split; [|split].
    + apply rdisj_add_l. split; [done|]. by apply map_disjoint_singleton_l.
    + unfold radd. simpl.
      rw -!assoc_L -!insert_union_singleton_l insert_insert_eq insert_union_r //.
    + rw (alloc_room_store _ _ _ _ Hl). unfold radd. simpl. lia.
  - apply HP; [|done]. by apply map_disjoint_singleton_r.
Qed.

Context `{!AllocatorOk}.

Lemma wp_load {A : Set} a v (k : Z -> prog A) Q :
  a ↦ v ∗ (a ↦ v -∗ wp (k v) Q) ⊢ wp (bind (load a) k) Q.
Proof.
  apply wp_act. intros r rf h HP Ho. simpl.
  destruct (holds_pointsto_wand _ _ _ _ _ _ _ HP Ho) as (Hl & r' & Ho' & HQ).
  rw Hl. rw insert_id // in Ho'. simpl. eauto 10.
Qed.

Lemma wp_store {A : Set} a v w (k : unit -> prog A) Q :
  a ↦ v ∗ (a ↦ w -∗ wp (k tt) Q) ⊢ wp (bind (store a w) k) Q.
Proof.
  apply wp_act. intros r rf h HP Ho. simpl.
  destruct (holds_pointsto_wand _ _ _ _ _ _ _ HP Ho) as (Hl & r' & Ho' & HQ).
  rw Hl. simpl. eauto 10.
Qed.

Lemma wp_add_fetch {A : Set} a v d (k : Z -> prog A) Q :
  a ↦ v ∗ (a ↦ (v +w d) -∗ wp (k (v +w d)) Q) ⊢ wp (bind (add_fetch a d) k) Q.
Proof.
  apply wp_act. intros r rf h HP Ho. simpl.
  destruct (holds_pointsto_wand _ _ _ _ _ _ _ HP Ho) as (Hl & r' & Ho' & HQ).
  rw Hl. simpl. eauto 10.
Qed.

(** A compare-and-swap that nobody else can disturb succeeds iff the word
    holds the value compared with. *)
Lemma wp_cas {A : Set} a v e c (k : Z -> prog A) Q :
  a ↦ v ∗ (a ↦ (if v =? c then e else v) -∗ wp (k v) Q) ⊢ wp (bind (cas a e c) k) Q.
Proof.
  apply wp_act. intros r rf h HP Ho. simpl.
  destruct (holds_pointsto_wand _ _ _ _ _ _ _ HP Ho) as (Hl & r' & Ho' & HQ).
  rw Hl. simpl. exists v, r'. eexists. split_and!; [done| |done].
  destruct (v =? c); [done|]. by rw insert_id in Ho'.
Qed.

Lemma wp_dcas {A : Set} a v0 v1 x0 x1 c0 c1 (k : bool * Z * Z -> prog A) Q :
  a mod 16 = 0 ->
  let b := (v0 =? c0) && (v1 =? c1) in
  a ↦ v0 ∗ (a + 8) ↦ v1 ∗
  (a ↦ (if b then x0 else v0) -∗ (a + 8) ↦ (if b then x1 else v1) -∗ wp (k (b, v0, v1)) Q)
  ⊢ wp (bind (dcas a x0 x1 c0 c1) k) Q.
Proof.
  intros Ha b. apply wp_act. intros r rf h HP Ho. simpl.
  assert (holds ((a + 8) ↦ v1 ∗
    ((a + 8) ↦ (if b then x1 else v1) -∗ a ↦ v0 ∗
      (a ↦ (if b then x0 else v0) -∗ wp (k (b, v0, v1)) Q))) r) as HP'.
  { revert HP. apply entails_at. iIntros "(H0 & $ & HQ) H1". iFrame "H0". iIntros "H0".
    iApply ("HQ" with "H0 H1"). }
  destruct (holds_pointsto_wand _ _ _ _ _ _ _ HP' Ho) as (Hl1 & r1 & Ho1 & HP1).
  destruct (holds_pointsto_wand _ _ _ _ _ _ _ HP1 Ho1) as (Hl0 & r2 & Ho2 & HP2).
  assert (h !! Word a = Some v0) as Hl0'.
  { rw lookup_insert_ne // in Hl0. intros [=]. lia. }
  unfold dcas_aligned. rw Ha /=. rw Hl0' Hl1 /=. subst b.
  destruct ((v0 =? c0) && (v1 =? c1)); eexists _, r2, _; (split; [done|]); [done|].
  rw (insert_id h) // insert_id // in Ho2.
Qed.

(** *** Allocation *)

Lemma fresh_words_disjoint h p n vs :
  length vs = nwords n -> fresh_block h p n -> words_map p vs ##ₘ h.
Proof.
  intros Hl [_ Hf]. apply map_disjoint_spec. intros k x y Hx Hy.
  apply words_map_dom in Hx as (i & Hi & ->). rw Hl in Hi.
  rw Hf in Hy; [done|lia].
Qed.

(** The block of a successful [malloc] is new memory. *)
Lemma malloc_owned n r rf h p vs :
  p = alloc_base h n -> p ≠ 0 -> vs = junk_words h n -> r ##r rf -> h = (r ∪r rf).1 ->
  fresh_block h p n /\ length vs = nwords n /\
  let h' := <[Hdr p := n]> (words_map p vs ∪ h) in
  r ##r ({[Hdr p := n]}, 0%nat) /\ r ∪r ({[Hdr p := n]}, 0%nat) ##r (words_map p vs, 0%nat) /\
  r ∪r ({[Hdr p := n]}, 0%nat) ∪r (words_map p vs, 0%nat) ##r rf /\
  h' = (r ∪r ({[Hdr p := n]}, 0%nat) ∪r (words_map p vs, 0%nat) ∪r rf).1.
Proof.
  intros Ep Hne Evs Hd Eh.
  destruct (alloc_ok h n) as (_ & _ & _ & Hfresh); [by rw -Ep|]. rw -Ep in Hfresh.
  assert (length vs = nwords n) as Hlen by (subst vs; unfold junk_words; by rw length_fmap length_seq).
  split; [done|]. split; [done|].
  pose proof (fresh_words_disjoint _ _ _ _ Hlen Hfresh) as Hdw.
  destruct Hfresh as [Hnone _]. clear Ep Evs.
  destruct r as [h1 c], rf as [hf cf]. unfold radd, rdisj in *. simpl in *. subst h.
  apply map_disjoint_union_r in Hdw as [Hdw Hdwf].
  apply lookup_union_None in Hnone as [Hh Hhf].
  assert (words_map p vs !! Hdr p = None) as Hwh by by apply words_map_lookup.
  split_and!.
  - by apply map_disjoint_singleton_r.
  - apply map_disjoint_union_l. split; [done|by apply map_disjoint_singleton_l].
  - rw !map_disjoint_union_l. split_and!; [done|by apply map_disjoint_singleton_l|done].
  - rw (map_union_comm h1 {[Hdr p := n]}); last by apply map_disjoint_singleton_r.
    rw -!assoc_L -insert_union_singleton_l. f_equal.
    rw !assoc_L. f_equal. by apply map_union_comm.
Qed.

(** What the continuation of a successful [malloc] gets. *)
Definition malloc_post (n p : Z) (vs : list Z) : Prop :=
  0 < p /\ p + n <= word_mod /\ p mod 8 = 0 /\ length vs = nwords n.

Lemma malloc_success (J : Z -> Prop) n (P : Z -> hProp) r rf h c :
  alloc_base h n ≠ 0 -> (forall i, J (alloc_junk h i)) ->
  r ##r rf -> h = (r ∪r rf).1 -> (r.2 + rf.2 + c <= alloc_room (exec_malloc n h).2)%nat ->
  holds (∀ p vs, ⟨malloc_post n p vs /\ Forall J vs⟩ -∗ block p n -∗ p ↦∗ vs -∗ P p) r ->
  exists p r' h', exec_malloc n h = (p, h') /\ owned r' rf h' /\ holds (P p) r'.
Proof.
  intros Hne HJ Hd Eh Hc HP.
  destruct (alloc_ok h n Hne) as (Hpos & Hmax & Hal & _).
  destruct (malloc_owned n r rf h _ _ eq_refl Hne eq_refl Hd Eh) as (_ & Hlen & Hd1 & Hd2 & Hd3 & Eh').
  unfold exec_malloc in *. destruct (Z.eqb_spec (alloc_base h n) 0) as [|_]; [done|].
  eexists _, _, _. split; [done|]. split; [split; [exact Hd3|split; [exact Eh'|]]|].
  { unfold radd in *. simpl in *. lia. }
  assert (holds (block (alloc_base h n) n -∗ alloc_base h n ↦∗ junk_words h n -∗
    P (alloc_base h n)) r) as HP'.
  { revert HP. apply entails_at. iIntros "HP". iApply "HP". iPureIntro. split; [by split|]. unfold junk_words.
    apply Forall_fmap, Forall_true. intros i. apply HJ. }
  apply HP'; [done|done|done|]. by apply array_holds.
Qed.

(** A [malloc] paid for does not fail; [J] is what the allocator says of fresh words. *)
Lemma wp_malloc_filled {A : Set} (J : Z -> Prop) n (k : Z -> prog A) Q :
  (forall h i, J (alloc_junk h i)) ->
  credits (malloc_cost n) ∗
  (∀ p vs, ⟨malloc_post n p vs /\ Forall J vs⟩ -∗ block p n -∗ p ↦∗ vs -∗ wp (k p) Q)
  ⊢ wp (bind (malloc n) k) Q.
Proof.
  intros HJ. apply wp_act. intros r rf h (r1 & r2 & -> & _ & -> & HP) (Hd & Eh & Hc). simpl.
  apply rdisj_add_l in Hd as [_ Hd]. unfold radd in *. simpl in *. rw left_id_L in Eh.
  destruct (alloc_room_malloc h n) as [Hne Hroom]; [lia|].
  destruct (malloc_success J n (fun p => wp (k p) Q) r2 rf h 0%nat) as (p & r' & h' & -> & Ho & HP');
    [done..|lia|done|].
  by exists p, r', h'.
Qed.

Lemma wp_malloc {A : Set} n (k : Z -> prog A) Q :
  credits (malloc_cost n) ∗
  (∀ p vs, ⟨malloc_post n p vs⟩ -∗ block p n -∗ p ↦∗ vs -∗ wp (k p) Q)
  ⊢ wp (bind (malloc n) k) Q.
Proof.
  iIntros "[Hc HQ]". iApply (wp_malloc_filled (fun _ => True)); [done|]. iFrame "Hc". iIntros (p vs [Hp _]). by iApply "HQ".
Qed.

(** Any [malloc], of an allocator that makes no promise, may fail. *)
Lemma wp_malloc_fallible `{!NoRoom} {A : Set} n (k : Z -> prog A) Q :
  wp (k 0) Q ∧ (∀ p vs, ⟨malloc_post n p vs⟩ -∗ block p n -∗ p ↦∗ vs -∗ wp (k p) Q)
  ⊢ wp (bind (malloc n) k) Q.
Proof.
  apply wp_act. intros r rf h [HP0 HP] Ho. simpl.
  destruct (decide (alloc_base h n = 0)) as [E|Hne].
  { exists 0, r, h. unfold exec_malloc. by rw E. }
  destruct Ho as (Hd & Eh & Hc). rw no_room in Hc.
  destruct (malloc_success (fun _ => True) n (fun p => wp (k p) Q) r rf h 0%nat) as (p & r' & h' & -> & Ho & HP');
    [done..|unfold radd in Hc; simpl in Hc; lia| |].
  { revert HP. apply entails_at. iIntros "HP" (p vs [Hp _]). by iApply "HP". }
  by exists p, r', h'.
Qed.

Lemma wp_free {A : Set} p n vs (k : unit -> prog A) Q :
  p ≠ 0 -> length vs = nwords n ->
  block p n ∗ p ↦∗ vs ∗ wp (k tt) Q ⊢ wp (bind (free p) k) Q.
Proof.
  intros Hp Hlen. apply wp_act.
  intros r rf h (r1 & r2 & -> & Hd12 & H1 & r3 & r4 & -> & Hd34 & H3 & Hk) (Hd & Eh & Hc).
  apply array_holds in H3. subst r3.
  assert (r1 = ({[Hdr p := n]}, 0%nat)) as -> by exact H1. clear H1.
  destruct r4 as [h4 c4], rf as [hf cf]. unfold radd, rdisj in *. simpl in *.
  assert (exec_free p h = Some (h4 ∪ hf)) as Hf.
  { clear Hc. subst h. unfold exec_free. destruct (Z.eqb_spec p 0); [done|].
    rw -assoc_L -insert_union_singleton_l lookup_insert_eq /=.
    f_equal. apply map_eq. intros j.
    apply map_disjoint_union_l in Hd as [Hdp [Hdw Hd4]%map_disjoint_union_l].
    apply map_disjoint_union_r in Hd12 as [Hpw Hp4].
    apply map_disjoint_singleton_l in Hdp, Hpw, Hp4.
    destruct (decide (j = Hdr p)) as [->|Hj].
    { rw lookup_delete_eq. symmetry. by apply lookup_union_None. }
    rw lookup_delete_ne // lookup_difference lookup_insert_ne // -assoc_L.
    destruct (words_map p vs !! j) as [x|] eqn:Ej.
    - destruct (words_map p (replicate (nwords n) 0) !! j) eqn:Er.
      + symmetry. apply lookup_union_None. split; by eapply map_disjoint_Some_l, Ej.
      + apply (words_map_same_dom _ _ vs) in Er; [congruence|]. by rw length_replicate.
    - rw (words_map_same_dom _ vs) //; last by rw length_replicate.
      by rw lookup_union_r. }
  rw Hf /=. exists tt, (h4, c4), (h4 ∪ hf). split; [done|]. split; [|done].
  pose proof (alloc_room_free _ _ _ Hf). split; [|split; [done|unfold radd; simpl; lia]].
  by apply map_disjoint_union_l in Hd as [_ [??]%map_disjoint_union_l].
Qed.
End wp_rules.

(** *** Reading assertions *)

Lemma holds_sep (P Q : hProp) h c : holds (P ∗ Q) (h, c) ->
  exists h1 h2 c1 c2, holds P (h1, c1) /\ holds Q (h2, c2) /\ h1 ##ₘ h2 /\ h1 ⊆ h /\ h2 ⊆ h.
Proof.
  intros ([h1 c1] & [h2 c2] & E & Hd & HP & HQ). unfold radd, rdisj in *. simpl in *. simplify_eq.
  exists h1, h2, c1, c2. split_and!; try done; [by apply map_union_subseteq_l|by apply map_union_subseteq_r].
Qed.

Lemma holds_fact (φ : Prop) (P : hProp) h c : holds (⟨φ⟩ ∗ P) (h, c) -> φ /\ holds P (h, c).
Proof.
  intros ([h1 c1] & [h2 c2] & E & _ & [Hn Hφ] & HP). split; [exact Hφ|]. change ((h1, c1) = rnil) in Hn. rw Hn radd_nil_l in E. by rw E.
Qed.

Lemma holds_at a v h c : holds (a ↦ v) (h, c) -> h !! Word a = Some v.
Proof. intros E. change ((h, c) = ({[Word a := v]}, 0%nat)) in E. simplify_eq. apply lookup_singleton_eq. Qed.

(** Two consecutive words: a pointer and its counter, or data and its flag. *)
Definition pair_at (a : Z) (v : Z * Z) : hProp := (a ↦ v.1 ∗ (a + 8) ↦ v.2)%I.
Notation "a ↦₂ v" := (pair_at a v) (at level 20, format "a  ↦₂  v") : bi_scope.

#[export] Instance into_sep_pair_at a v : IntoSep (a ↦₂ v) (a ↦ v.1) ((a + 8) ↦ v.2).
Proof. by rw /IntoSep. Qed.
#[export] Instance from_sep_pair_at a v w : FromSep (a ↦₂ (v, w)) (a ↦ v) ((a + 8) ↦ w).
Proof. by rw /FromSep. Qed.
#[export] Instance combine_pair_at a v w : CombineSepAs (a ↦ v) ((a + 8) ↦ w) (a ↦₂ (v, w)) | 10.
Proof. by rw /CombineSepAs. Qed.

(** ** Tactics

    [wp_load], [wp_store], [wp_incr], [wp_cas] and [wp_dcas] run the first
    action of the program with the points-to assertions of the context;
    [wp_assert] discharges an assertion; [wp_call] runs the first call. *)

Section tactics.
Context {AL : Allocator} {AO : AllocatorOk}.

Lemma wp_bind_ret {A : Set} (p : prog A) Q : wp (bind p Ret) Q ⊢ wp p Q.
Proof. by rw bind_ret_r. Qed.

Lemma wp_assert_true {A : Set} (b : bool) (k : unit -> prog A) Q :
  b = true -> wp (k tt) Q ⊢ wp (bind (c_assert b) k) Q.
Proof. by intros ->. Qed.

Lemma tac_wp_load {A : Set} Δ i a v (k : Z -> prog A) Q :
  envs_lookup i Δ = Some (false, a ↦ v)%I ->
  envs_entails Δ (wp (k v) Q) ->
  envs_entails Δ (wp (bind (load a) k) Q).
Proof.
  rw envs_entails_unseal. intros Hi HQ. rw -wp_load envs_lookup_split //=.
  by rw HQ.
Qed.

Lemma tac_wp_store {A : Set} Δ Δ' i a v w (k : unit -> prog A) Q :
  envs_lookup i Δ = Some (false, a ↦ v)%I ->
  envs_simple_replace i false (Esnoc Enil i (a ↦ w)%I) Δ = Some Δ' ->
  envs_entails Δ' (wp (k tt) Q) ->
  envs_entails Δ (wp (bind (store a w) k) Q).
Proof.
  rw envs_entails_unseal. intros Hi Hr HQ.
  rw -wp_store envs_simple_replace_sound //; simpl; rw bi.sep_emp. by rw HQ.
Qed.

Lemma tac_wp_incr {A : Set} Δ Δ' i a v d (k : Z -> prog A) Q :
  envs_lookup i Δ = Some (false, a ↦ v)%I ->
  envs_simple_replace i false (Esnoc Enil i (a ↦ (v +w d))%I) Δ = Some Δ' ->
  envs_entails Δ' (wp (k (v +w d)) Q) ->
  envs_entails Δ (wp (bind (add_fetch a d) k) Q).
Proof.
  rw envs_entails_unseal. intros Hi Hr HQ.
  rw -wp_add_fetch envs_simple_replace_sound //; simpl; rw bi.sep_emp. by rw HQ.
Qed.

Lemma tac_wp_cas {A : Set} Δ Δ' i a v e c (k : Z -> prog A) Q :
  envs_lookup i Δ = Some (false, a ↦ v)%I ->
  envs_simple_replace i false (Esnoc Enil i (a ↦ (if v =? c then e else v))%I) Δ = Some Δ' ->
  envs_entails Δ' (wp (k v) Q) ->
  envs_entails Δ (wp (bind (cas a e c) k) Q).
Proof.
  rw envs_entails_unseal. intros Hi Hr HQ.
  rw -wp_cas envs_simple_replace_sound //; simpl; rw bi.sep_emp. by rw HQ.
Qed.

Lemma wp_dcas_pair {A : Set} a v0 v1 x0 x1 c0 c1 (k : bool * Z * Z -> prog A) Q :
  a mod 16 = 0 ->
  let b := (v0 =? c0) && (v1 =? c1) in
  a ↦₂ (v0, v1) ∗ (a ↦₂ (if b then (x0, x1) else (v0, v1)) -∗ wp (k (b, v0, v1)) Q)
  ⊢ wp (bind (dcas a x0 x1 c0 c1) k) Q.
Proof.
  intros Ha b. rw -(wp_dcas a v0 v1) // -/b. iIntros "[[H0 H1] HQ]".
  iFrame "H0 H1". iIntros "H0 H1". iApply "HQ". destruct b; by iFrame.
Qed.

(** A double compare-and-swap whose operand holds the pair compared with. *)
Lemma tac_wp_dcas_suc {A : Set} Δ Δ' i a v0 v1 x0 x1 (k : bool * Z * Z -> prog A) Q :
  a mod 16 = 0 ->
  envs_lookup i Δ = Some (false, a ↦₂ (v0, v1))%I ->
  envs_simple_replace i false (Esnoc Enil i (a ↦₂ (x0, x1))%I) Δ = Some Δ' ->
  envs_entails Δ' (wp (k (true, v0, v1)) Q) ->
  envs_entails Δ (wp (bind (dcas a x0 x1 v0 v1) k) Q).
Proof.
  rw envs_entails_unseal. intros Ha Hi Hr HQ.
  rw -(wp_dcas_pair a v0 v1) // !Z.eqb_refl envs_simple_replace_sound //; simpl; rw bi.sep_emp.
  by rw HQ.
Qed.

Lemma pair_at_acc_fst a v0 v1 w : a ↦₂ (v0, v1) ⊢ a ↦ v0 ∗ (a ↦ w -∗ a ↦₂ (w, v1)).
Proof. iIntros "[$ H1] H0". iFrame. Qed.

Lemma pair_at_acc_snd a v0 v1 w : a ↦₂ (v0, v1) ⊢ (a + 8) ↦ v1 ∗ ((a + 8) ↦ w -∗ a ↦₂ (v0, w)).
Proof. iIntros "[H0 $] H1". iFrame. Qed.

Lemma tac_wp_load_fst {A : Set} Δ i a v0 v1 (k : Z -> prog A) Q :
  envs_lookup i Δ = Some (false, a ↦₂ (v0, v1))%I ->
  envs_entails Δ (wp (k v0) Q) ->
  envs_entails Δ (wp (bind (load a) k) Q).
Proof.
  rw envs_entails_unseal. intros Hi HQ. rw -wp_load envs_lookup_split //=.
  rw {1}(pair_at_acc_fst _ _ _ v0) HQ; simpl. iIntros "[[$ H] HQ] H0". iApply "HQ". by iApply "H".
Qed.

Lemma tac_wp_load_snd {A : Set} Δ i a v0 v1 (k : Z -> prog A) Q :
  envs_lookup i Δ = Some (false, a ↦₂ (v0, v1))%I ->
  envs_entails Δ (wp (k v1) Q) ->
  envs_entails Δ (wp (bind (load (a + 8)) k) Q).
Proof.
  rw envs_entails_unseal. intros Hi HQ. rw -wp_load envs_lookup_split //=.
  rw {1}(pair_at_acc_snd _ _ _ v1) HQ; simpl. iIntros "[[$ H] HQ] H0". iApply "HQ". by iApply "H".
Qed.

Lemma tac_wp_store_fst {A : Set} Δ Δ' i a v0 v1 w (k : unit -> prog A) Q :
  envs_lookup i Δ = Some (false, a ↦₂ (v0, v1))%I ->
  envs_simple_replace i false (Esnoc Enil i (a ↦₂ (w, v1))%I) Δ = Some Δ' ->
  envs_entails Δ' (wp (k tt) Q) ->
  envs_entails Δ (wp (bind (store a w) k) Q).
Proof.
  rw envs_entails_unseal. intros Hi Hr HQ.
  rw -wp_store envs_simple_replace_sound //; simpl; rw bi.sep_emp HQ.
  rw {1}(pair_at_acc_fst _ _ _ w); simpl. iIntros "[[$ H] HQ] H0". iApply "HQ". by iApply "H".
Qed.

Lemma tac_wp_store_snd {A : Set} Δ Δ' i a v0 v1 w (k : unit -> prog A) Q :
  envs_lookup i Δ = Some (false, a ↦₂ (v0, v1))%I ->
  envs_simple_replace i false (Esnoc Enil i (a ↦₂ (v0, w))%I) Δ = Some Δ' ->
  envs_entails Δ' (wp (k tt) Q) ->
  envs_entails Δ (wp (bind (store (a + 8) w) k) Q).
Proof.
  rw envs_entails_unseal. intros Hi Hr HQ.
  rw -wp_store envs_simple_replace_sound //; simpl; rw bi.sep_emp HQ.
  rw {1}(pair_at_acc_snd _ _ _ w); simpl. iIntros "[[$ H] HQ] H0". iApply "HQ". by iApply "H".
Qed.
End tactics.

(** A last action is the head of a [bind] too. *)
Ltac wp_tail :=
  lazymatch goal with
  | |- envs_entails _ (wp (bind _ _) _) => idtac
  | |- envs_entails _ (wp ?p _) => iApply wp_bind_ret
  end.

Ltac wp_simpl :=
  iStartProof; unfold barrier;
  repeat first [rewrite -> !bind_assoc | rewrite -> !bind_ret_l];
  cbn beta iota delta [fst snd].

Ltac wp_load :=
  wp_simpl; wp_tail;
  first
    [ eapply tac_wp_load; [iAssumptionCore|]
    | eapply tac_wp_load_fst; [iAssumptionCore|]
    | eapply tac_wp_load_snd; [iAssumptionCore|]
    | fail "wp_load: no points-to for the address" ];
  wp_simpl.

Ltac wp_store :=
  wp_simpl; wp_tail;
  first
    [ eapply tac_wp_store; [iAssumptionCore|reduction.pm_reflexivity|]
    | eapply tac_wp_store_fst; [iAssumptionCore|reduction.pm_reflexivity|]
    | eapply tac_wp_store_snd; [iAssumptionCore|reduction.pm_reflexivity|]
    | fail "wp_store: no points-to for the address" ];
  wp_simpl.

Ltac wp_incr :=
  wp_simpl; wp_tail; eapply tac_wp_incr; [iAssumptionCore|reduction.pm_reflexivity|]; wp_simpl.

Ltac wp_cas :=
  wp_simpl; wp_tail; eapply tac_wp_cas; [iAssumptionCore|reduction.pm_reflexivity|]; wp_simpl.

(** Leaves the alignment of the operand first. *)
Ltac wp_dcas :=
  wp_simpl; wp_tail; eapply tac_wp_dcas_suc; [try done|iAssumptionCore|reduction.pm_reflexivity|wp_simpl].

Ltac wp_assert :=
  wp_simpl; wp_tail; iApply wp_assert_true; [try done|wp_simpl].

Ltac wp_call := wp_simpl; iApply wp_bind.
