(* ===== verification/Alloc.v ===== *)
(** * Concrete allocators: the laws of [AllocatorOk] can hold.

    A bump allocator that serves blocks above everything that is live, up to a
    limit; with it every program of the library can be run on a concrete
    memory. *)
From S2P Require Import Prelude Machine.
#[local] Open Scope Z_scope.

(** The first byte after the word or the block record at [k]. *)
Definition key_end (k : key) : Z := match k with Word a | Hdr a => a + 8 end.

(** The first byte above everything live. *)
Definition heap_top (h : heap) : Z := map_fold (fun k _ m => Z.max (key_end k) m) 16 h.

Definition align16 (a : Z) : Z := 16 * ((a + 15) / 16).

Lemma heap_top_le h m : heap_top h <= m <-> 16 <= m /\ forall k, is_Some (h !! k) -> key_end k <= m.
Proof.
  unfold heap_top. revert m.
  apply (map_fold_weak_ind (fun r h => forall m, r <= m <->
    16 <= m /\ forall k, is_Some (h !! k) -> key_end k <= m)); clear h.
  - intros m. split; [|tauto]. intros Hm. split; [done|]. intros k [v Hv]. done.
  - intros k v h r Hk IH m. rw Z.max_lub_iff IH. split.
    + intros (Hkm & ? & Hall). split; [done|]. intros j [w Hj].
      destruct (decide (j = k)) as [->|Hne]; [done|]. rw lookup_insert_ne // in Hj. eauto.
    + intros [? Hall]. split_and!; [|done|].
      * apply Hall. by rw lookup_insert_eq.
      * intros j [w Hj]. apply Hall. exists w. apply lookup_insert_Some. right. split; [|done]. intros ->. congruence.
Qed.

Lemma heap_top_16 h : 16 <= heap_top h.
Proof. by apply (heap_top_le h (heap_top h)). Qed.

Lemma heap_top_above h k : heap_top h < key_end k -> h !! k = None.
Proof.
  intros Hk. apply eq_None_not_Some. intros Hs.
  apply (heap_top_le h (heap_top h)) in Hs; [lia|done].
Qed.

Lemma heap_top_mono h h' : (forall k, is_Some (h' !! k) -> is_Some (h !! k)) -> heap_top h' <= heap_top h.
Proof.
  intros Hsub. apply heap_top_le. split; [apply heap_top_16|].
  intros k Hk. apply (heap_top_le h (heap_top h)); [done|by apply Hsub].
Qed.

Lemma heap_top_store h a v w : h !! Word a = Some v -> heap_top (<[Word a := w]> h) = heap_top h.
Proof.
  intros Ha.
  assert (forall k, is_Some (<[Word a := w]> h !! k) <-> is_Some (h !! k)) as Hdom.
  { intros k. destruct (decide (k = Word a)) as [->|Hne].
    - rw lookup_insert_eq Ha. split; eauto.
    - by rw lookup_insert_ne //. }
  apply Z.le_antisymm; apply heap_top_mono; intros k; by rw Hdom.
Qed.

Lemma words_map_key a vs k : is_Some (words_map a vs !! k) ->
  exists b, k = Word b /\ a <= b /\ b + 8 <= a + 8 * Z.of_nat (length vs).
Proof.
  revert a. induction vs as [|v vs IH]; intros a; cbn [words_map length].
  - by intros [w Hw].
  - destruct (decide (k = Word a)) as [->|Hne]; [intros _; exists a; split_and!; [done|lia|lia]|].
    rw lookup_insert_ne //. intros (b & -> & ? & ?)%IH.
    exists b. split_and!; [done|lia|lia].
Qed.

Lemma nwords_bound n : 8 * Z.of_nat (nwords n) <= Z.max n 0 + 7.
Proof.
  unfold nwords. pose proof (Z.div_mod (n + 7) 8). pose proof (Z.mod_pos_bound (n + 7) 8).
  lia.
Qed.

Lemma align16_bound a : a <= align16 a <= a + 15 /\ align16 a mod 8 = 0.
Proof.
  unfold align16. pose proof (Z.div_mod (a + 15) 16). pose proof (Z.mod_pos_bound (a + 15) 16).
  split; [lia|]. replace (16 * ((a + 15) / 16)) with (2 * ((a + 15) / 16) * 8) by lia.
  apply Z_mod_mult.
Qed.

(** ** The bump allocator *)

Section bump.
Context (limit junk : Z).

Definition bump_base (h : heap) (n : Z) : Z :=
  if heap_top h + Z.max n 0 + 32 <=? limit then align16 (heap_top h) else 0.

(** Fresh words hold [junk]. *)
Definition bump_junk (h : heap) (i : nat) : Z := junk.

Definition bump_room (h : heap) : nat := Z.to_nat (limit - heap_top h).

Definition bump : Allocator :=
  {| alloc_base := bump_base; alloc_junk := bump_junk; alloc_room := bump_room |}.

(** The same blocks, with no promise to serve any of them. *)
Definition bump_fallible : Allocator :=
  {| alloc_base := bump_base; alloc_junk := bump_junk; alloc_room := fun _ => 0%nat |}.

Lemma bump_base_ok h n : limit <= word_mod -> bump_base h n ≠ 0 ->
  0 < bump_base h n /\ bump_base h n + n <= word_mod /\
  bump_base h n mod 8 = 0 /\ fresh_block h (bump_base h n) n.
Proof.
  intros Hlim. unfold bump_base. destruct (Z.leb_spec (heap_top h + Z.max n 0 + 32) limit); [|done].
  intros _. pose proof (heap_top_16 h). pose proof (align16_bound (heap_top h)) as [? ?].
  split_and!; [lia|lia|done|]. split.
  - apply heap_top_above. simpl. lia.
  - intros a Ha. apply heap_top_above. simpl. lia.
Qed.

Lemma bump_malloc_top h n : bump_base h n ≠ 0 ->
  heap_top (@exec_malloc bump n h).2 <= heap_top h + Z.max n 0 + 32.
Proof.
  intros Hne. unfold exec_malloc. simpl. rw (proj2 (Z.eqb_neq _ _) Hne). simpl.
  revert Hne. unfold bump_base. case_match; [|done]. intros _.
  pose proof (align16_bound (heap_top h)) as [? _]. pose proof (nwords_bound n).
  apply heap_top_le. split; [pose proof (heap_top_16 h); lia|]. intros k Hk.
  destruct (decide (k = Hdr (align16 (heap_top h)))) as [->|Hk']; [simpl; lia|].
  rw lookup_insert_ne // in Hk.
  apply lookup_union_is_Some in Hk as [Hk|Hk].
  - apply words_map_key in Hk as (b & -> & ? & Hb). unfold junk_words in Hb.
    rw length_fmap length_seq in Hb. simpl. lia.
  - apply (proj1 (heap_top_le h (heap_top h))) in Hk; [lia|done].
Qed.

Lemma exec_free_dom p h h' k : exec_free p h = Some h' -> is_Some (h' !! k) -> is_Some (h !! k).
Proof.
  unfold exec_free. case_match; [by intros [= ->]|].
  destruct (h !! Hdr p) as [n|]; [|done]. simpl. intros [= <-] [v Hv].
  apply lookup_delete_Some in Hv as [_ Hv]. apply lookup_difference_Some in Hv as [Hv _]. eauto.
Qed.

Lemma bump_ok : limit <= word_mod -> is_word junk -> @AllocatorOk bump.
Proof.
  intros Hlim Hjunk. split; simpl.
  - intros h n. by apply bump_base_ok.
  - intros h i. done.
  - intros h n Hroom. unfold bump_room, malloc_cost in *.
    assert (bump_base h n ≠ 0) as Hne.
    { unfold bump_base. destruct (Z.leb_spec (heap_top h + Z.max n 0 + 32) limit); [|lia].
      pose proof (align16_bound (heap_top h)). pose proof (heap_top_16 h). lia. }
    split; [done|]. pose proof (bump_malloc_top h n Hne) as Htop. simpl in Htop. lia.
  - intros h h' p Hf. unfold bump_room.
    assert (heap_top h' <= heap_top h) by (apply heap_top_mono; intros k; by eapply exec_free_dom).
    lia.
  - intros h a v w Ha. unfold bump_room. by rw (heap_top_store h a v w Ha).
Qed.

Lemma bump_fallible_ok : limit <= word_mod -> is_word junk -> @AllocatorOk bump_fallible.
Proof.
  intros Hlim Hjunk. split; simpl; try done.
  - intros h n. by apply bump_base_ok.
  - unfold malloc_cost. intros h n Hroom. lia.
Qed.
End bump.

(** ** Instances for concrete runs *)

(** An arena of 64 KiB, with fresh words that no code should rely on. *)
Definition arena : Allocator := bump 65536 57005.

(** The same arena with fresh words that are zero. *)
Definition zero_arena : Allocator := bump 65536 0.

Lemma arena_ok : @AllocatorOk arena.
Proof. by apply bump_ok. Qed.

Lemma zero_arena_ok : @AllocatorOk zero_arena.
Proof. by apply bump_ok. Qed.

Lemma arena_room h (n : nat) : heap_top h + Z.of_nat n <= 65536 -> (n <= @alloc_room arena h)%nat.
Proof. simpl. unfold bump_room. lia. Qed.

(** An arena that serves blocks up to [limit] and then fails. *)
Definition small_arena (limit : Z) : Allocator := bump_fallible limit 57005.

Lemma small_arena_no_room limit : @NoRoom (small_arena limit).
Proof. done. Qed.
