(* ===== verification/Script.v ===== *)
(** * Scripts of operations, against an abstract machine.

    A client of a structure is a list of operations run one after the other;
    an implementation refines an abstract machine when every script answers
    what the machine answers.  The theorems of the components instantiate
    [script_refines] with their operations. *)
From S2P Require Import Prelude Machine SepLogic.
#[local] Open Scope prog_scope.

(** ** Scripts *)

Section scripts.
Context {Op Out C : Set} {S : Type}.
Context (exec : Op -> C -> prog (Out * C)) (aexec : Op -> S -> Out * S).

(** The operations in order; [C] is what the client keeps between two of them. *)
Fixpoint script (ops : list Op) (c : C) : prog (list Out * C) :=
  match ops with
  | [] => Ret ([], c)
  | op :: ops =>
      let! (out, c) := exec op c in
      let! (outs, c) := script ops c in
      Ret (out :: outs, c)
  end.

Fixpoint ascript (ops : list Op) (s : S) : list Out * S :=
  match ops with
  | [] => ([], s)
  | op :: ops =>
      let '(out, s) := aexec op s in
      let '(outs, s) := ascript ops s in
      (out :: outs, s)
  end.

(** The room the operations may take. *)
Definition script_cost (cost : Op -> nat) (ops : list Op) : nat := sum_list (cost <$> ops).
End scripts.

(** Operations that allocate nothing need no room. *)
Lemma free_script {Op : Set} (ops : list Op) : ⊢ credits (script_cost (fun _ => 0%nat) ops).
Proof.
  replace (script_cost _ ops) with 0%nat; [apply HEntails; by intros r ->|].
  by induction ops as [|op ops IH].
Qed.

Section refinement.
Context {AL : Allocator} {AO : AllocatorOk}.
Context {Op Out C : Set} {S : Type}.
Context (exec : Op -> C -> prog (Out * C)) (aexec : Op -> S -> Out * S).
Context (cost : Op -> nat) (I : S -> C -> hProp).

(** The operations keep the representation [I] in step with the machine. *)
Class Simulates : Prop := simulates op s c :
  {{{ I s c ∗ credits (cost op) }}} exec op c
  {{{ r, ⟨r.1 = (aexec op s).1⟩ ∗ I (aexec op s).2 r.2 }}}.

Lemma script_refines `{!Simulates} ops s c :
  {{{ I s c ∗ credits (script_cost cost ops) }}} script exec ops c
  {{{ r, ⟨r.1 = (ascript aexec ops s).1⟩ ∗ I (ascript aexec ops s).2 r.2 }}}.
Proof.
  revert s c. induction ops as [|op ops IH]; iIntros (s c Φ) "[HI Hc] HΦ"; cbn [script ascript].
  - iApply (wp_credits 0). iFrame "Hc". iApply wp_ret. iApply "HΦ". by iFrame.
  - iDestruct (credits_add with "Hc") as "[Hc1 Hc]".
    wp_call. iApply (simulates with "[$HI $Hc1]"). iIntros ([out c1]) "[%Ho HI]".
    destruct (aexec op s) as [aout s1]. simpl in Ho. subst out. cbn [fst snd].
    wp_call. iApply (IH with "[$HI $Hc]"). iIntros ([outs c2]) "[%Hos HI]".
    destruct (ascript aexec ops s1) as [aouts s2]. simpl in Hos. subst outs. cbn [fst snd].
    iApply wp_ret. iApply "HΦ". by iFrame.
Qed.
End refinement.

(** ** From specifications to runs *)

Section runs.
Context {AL : Allocator}.

(** A program that owns only room and ends owning nothing leaves any memory as
    it found it. *)
Lemma run_closed {A : Set} (p : prog A) (n : nat) (φ : A -> Prop) h :
  (credits n ⊢ wp p (fun a => ⟨φ a⟩)) -> (n <= alloc_room h)%nat ->
  exists k a, run k p h = Done a h /\ φ a.
Proof.
  intros [Hp] Hn.
  destruct (Hp (∅, n) eq_refl (h, 0%nat) h) as (k & a & r & h' & Hr & (Hd & Eh & _) & HQ).
  { split; [apply map_disjoint_empty_l|]. simpl. rw left_id_L. split; [done|lia]. }
  exists k, a. destruct HQ as [Hemp Hφ]. change (r = rnil) in Hemp. subst r.
  rw radd_nil_l /= in Eh. by subst h'.
Qed.

Lemma run_closed_eq {A : Set} (p : prog A) (n : nat) (a : A) h :
  ({{{ credits n }}} p {{{ r, ⟨r = a⟩ }}}) -> (n <= alloc_room h)%nat ->
  exists k, run k p h = Done a h.
Proof.
  intros Hp Hn. destruct (run_closed p n (fun r => r = a) h) as (k & r & Hr & ->); [|done|by exists k].
  iIntros "Hc". iApply (Hp with "Hc"). by iIntros (r) "$".
Qed.

(** The memory of a program that owns nothing at first is apart from the rest. *)
Lemma run_framed {A : Set} (p : prog A) (P : hProp) (Q : A -> hProp) h r :
  (P ⊢ wp p Q) -> holds P r -> owned r (h, 0%nat) (r.1 ∪ h) ->
  exists k a r', run k p (r.1 ∪ h) = Done a (r'.1 ∪ h) /\ owned r' (h, 0%nat) (r'.1 ∪ h) /\ holds (Q a) r'.
Proof.
  intros [Hp] HP Ho. destruct (Hp r HP _ _ Ho) as (k & a & r' & h' & Hr & Ho' & HQ).
  exists k, a, r'. destruct Ho' as (Hd & Eh & Hc). simpl in Eh. subst h'. done.
Qed.

(** The memory that a program makes from room. *)
Lemma run_credits {A : Set} (p : prog A) n (Q : A -> hProp) h : ({{{ credits n }}} p {{{ r, Q r }}}) -> (n <= alloc_room h)%nat ->
  exists k a r, run k p h = Done a (r.1 ∪ h) /\ r.1 ##ₘ h /\ holds (Q a) r.
Proof.
  intros Hp Hn. destruct (run_framed p (credits n) Q h (∅, n)) as (k & a & r & Hr & Ho & HQ).
  - iIntros "Hc". iApply (Hp with "Hc"). by iIntros (r) "$".
  - done.
  - split; [apply map_disjoint_empty_l|]. split; [done|]. simpl. rw left_id_L. lia.
  - exists k, a, r. rw left_id_L in Hr. split_and!; [done|by destruct Ho as [Hd _]|done].
Qed.

(** A program that only reads. *)
Lemma run_exactly {A : Set} (p : prog A) (φ : A -> Prop) h :
  (exactly h ⊢ wp p (fun a => ⟨φ a⟩ ∗ exactly h)) -> exists k a, run k p h = Done a h /\ φ a.
Proof.
  intros [Hp]. destruct (wp_run p (fun a => ⟨φ a⟩ ∗ exactly h)%I h 0) as (k & a & h' & c' & Hr & HQ).
  - by apply Hp.
  - lia.
  - exists k, a. destruct HQ as (r1 & r2 & E & _ & [Hemp Hφ] & Hh).
    change (r1 = rnil) in Hemp. change (r2 = (h, 0%nat)) in Hh. subst r1 r2.
    rw radd_nil_l in E. by simplify_eq.
Qed.
End runs.

(** ** Allocators without promises

    The room an allocator promises is not part of what it does. *)
Definition unpromised (AL : Allocator) : Allocator :=
  {| alloc_base := @alloc_base AL; alloc_junk := @alloc_junk AL; alloc_room := fun _ => 0%nat |}.

Lemma run_unpromised (AL : Allocator) {A : Set} k (p : prog A) h :
  @run (unpromised AL) A k p h = @run AL A k p h.
Proof.
  revert p h. induction k as [|k IH]; intros p h; [by destruct p|]. cbn [run].
  change (@step (unpromised AL) A p h) with (@step AL A p h).
  destruct p; [done|done|..]; (destruct (step _ _) as [[??]|]; [apply IH|done]).
Qed.

Lemma unpromised_ok (AL : Allocator) : @AllocatorOk AL -> @AllocatorOk (unpromised AL).
Proof.
  intros AO. split; try done; [apply AO|apply AO|].
  unfold malloc_cost. simpl. intros h n Hn. lia.
Qed.

#[export] Instance unpromised_no_room (AL : Allocator) : @NoRoom (unpromised AL).
Proof. done. Qed.

(** ** Clients

    A local variable of the client whose address is passed to the library. *)
Definition with_variable {A : Set} (body : Z -> prog A) : prog A :=
  let! a := malloc 8 in
  let! r := body a in
  free a;;
  Ret r.

Definition variable_cost : nat := malloc_cost 8.

Lemma with_variable_spec {AL : Allocator} {AO : AllocatorOk} {A : Set} (body : Z -> prog A) P Q :
  (forall a : Z, (0 < a)%Z -> {{{ cell a ∗ P }}} body a {{{ r, cell a ∗ Q r }}}) ->
  {{{ credits variable_cost ∗ P }}} with_variable body {{{ r, Q r }}}.
Proof.
  iIntros (Hbody Φ) "[Hc HP] HΦ". unfold with_variable.
  iApply wp_malloc. iFrame "Hc". iIntros (a vs (Ha & _ & _ & Hlen)) "Hb Hw".
  destruct vs as [|v [|]]; try done. iDestruct "Hw" as "[Hw _]".
  wp_call. iApply (Hbody a with "[$HP Hw]"); [done|by iExists v|].
  iIntros (r) "[(%w & Hw) HQ]". iApply (wp_free a 8 [w]); [lia|done|].
  iFrame "Hb". iSplitL "Hw"; [by iFrame|]. iApply wp_ret. by iApply "HΦ".
Qed.
