(* ===== verification/Basic.v ===== *)
(** * src/basic/lf_basic.c: atomic operations and the aligned allocator. *)
From S2P Require Import Prelude Machine SepLogic Alloc Script.
#[local] Open Scope Z_scope.
#[local] Open Scope prog_scope.

(** ** Constants of src/basic/lf_basic.h *)

Definition LF_ALIGN_SINGLE_POINTER : Z := 8.
Definition LF_ALIGN_DOUBLE_POINTER : Z := 16.
Definition sizeof_pointer : Z := 8.
Definition NULL : Z := 0.

Inductive data_structure_validity : Set :=
| VALIDITY_VALID
| VALIDITY_INVALID_LOOP
| VALIDITY_INVALID_MISSING_ELEMENTS
| VALIDITY_INVALID_ADDITIONAL_ELEMENTS
| VALIDITY_INVALID_TEST_DATA.

#[export] Instance data_structure_validity_eq_dec : EqDecision data_structure_validity.
Proof. solve_decision. Defined.

Record validation_info : Set := { min_element : Z; max_element : Z }.

Definition non_null (p : Z) : bool := negb (p =? NULL).

(** ** Atomic operations *)

Definition abstraction_cas (destination exchange compare : Z) : prog Z :=
  c_assert (non_null destination);;
  cas destination exchange compare.

(** The operands are the words at [exchange] and [compare]; the answer is the
    flag [setz] stores and the words [cmpxchg16b] leaves at [compare]. *)
Definition abstraction_dcas (destination : Z) (exchange compare : Z * Z) : prog (bool * (Z * Z)) :=
  c_assert (non_null destination);;
  let! (b, v0, v1) := dcas destination exchange.1 exchange.2 compare.1 compare.2 in
  Ret (b, (v0, v1)).

Definition abstraction_increment (value : Z) : prog Z :=
  c_assert (non_null value);;
  add_fetch value 1.

Definition abstraction_sub (value : Z) : prog Z :=
  c_assert (non_null value);;
  add_fetch value (-1).

Definition abstraction_malloc (size : Z) : prog Z := malloc size.

Definition abstraction_free (memory : Z) : prog unit := free memory.

(** ** The aligned allocator *)

Definition aligned_free (memory : Z) : prog unit :=
  c_assert (non_null memory);;
  let! original := load (memory - sizeof_pointer) in
  abstraction_free original.

(** Where the memory handed out starts in the block at [original_memory]. *)
Definition aligned_start (original_memory align_in_bytes : Z) : Z :=
  let memory := original_memory +w sizeof_pointer in
  let offset := align_in_bytes -w (memory mod align_in_bytes) in
  memory +w offset.

Definition aligned_malloc (size align_in_bytes : Z) : prog Z :=
  let! original_memory :=
    abstraction_malloc (size +w sizeof_pointer +w align_in_bytes) in
  if non_null original_memory then
    let memory := aligned_start original_memory align_in_bytes in
    store (memory - sizeof_pointer) original_memory;;
    Ret memory
  else Ret original_memory.

Lemma non_null_pos p : 0 < p -> non_null p = true.
Proof. unfold non_null, NULL. intros ?. by rw (proj2 (Z.eqb_neq p 0)); last lia. Qed.

Lemma non_null_ne p : p ≠ 0 -> non_null p = true.
Proof. unfold non_null, NULL. intros ?. by rw (proj2 (Z.eqb_neq p 0)). Qed.

(** ** Specifications *)

(** What [aligned_malloc (size, align)] keeps around the block it answers: the
    block of [malloc], the padding, and the pointer to it just below [m]. *)
Definition aligned_hdr (m size align : Z) : hProp :=
  (∃ p pre post,
    ⟨0 < p /\ m - 8 = p + 8 * length pre /\ 8 * (length pre + length post) = align⟩ ∗
    block p (size + 8 + align) ∗ p ↦∗ pre ∗ (m - 8) ↦ p ∗ (m + size) ↦∗ post)%I.

Definition aligned_addr (m size align : Z) : Prop :=
  0 < m /\ m mod align = 0 /\ m + size <= word_mod.

(** A block of [size] bytes that [aligned_malloc] answered, with the words [vs]. *)
Definition aligned (m size align : Z) (vs : list Z) : hProp :=
  (⟨aligned_addr m size align /\ 8 * length vs = size⟩ ∗ aligned_hdr m size align ∗ m ↦∗ vs)%I.

Lemma aligned_facts m size align vs :
  aligned m size align vs ⊢ ⌜aligned_addr m size align /\ (8 * length vs = size)%Z⌝.
Proof. iIntros "(% & _)". done. Qed.

Section specs.
Context {AL : Allocator} {AO : AllocatorOk}.

Lemma aligned_offset p align :
  p mod 8 = 0 -> 0 < align -> align mod 8 = 0 ->
  let memory := p + 8 in
  let offset := align - memory mod align in
  0 < offset <= align /\ offset mod 8 = 0 /\ (memory + offset) mod align = 0.
Proof.
  intros Hp Hal Hal8 memory offset.
  assert (0 <= memory mod align < align) by by apply Z.mod_pos_bound.
  split; [lia|]. split.
  - unfold offset.
    apply Z.mod_divide in Hp as [x ->]; [|done]. apply Z.mod_divide in Hal8 as [y ->]; [|done].
    unfold memory. replace (x * 8 + 8) with ((x + 1) * 8) by lia.
    rw Zmult_mod_distr_r. rw -Z.mul_sub_distr_r. apply Z_mod_mult.
  - unfold offset. rw {1}(Z.div_mod memory align); [|lia].
    replace (align * (memory / align) + memory mod align + (align - memory mod align))
      with ((memory / align + 1) * align) by lia.
    apply Z_mod_mult.
Qed.

Lemma nwords_mul8 n : 0 <= n -> nwords (8 * n) = Z.to_nat n.
Proof.
  intros Hn. unfold nwords. f_equal. rw (Z.mul_comm 8) Z.div_add_l //.
  change (7 / 8) with 0. lia.
Qed.

Lemma array_split (n : nat) a vs :
  (n <= length vs)%nat ->
  a ↦∗ vs ⊣⊢ a ↦∗ (take n vs) ∗ (a + 8 * n) ↦∗ (drop n vs).
Proof.
  intros Hn. rw -{1}(take_drop n vs) array_app length_take_le //.
Qed.

(** The bytes of a [size]-byte block, an alignment and a pointer. *)
Definition alignable (size align : Z) : Prop :=
  0 < size /\ size mod 8 = 0 /\ 0 < align /\ align mod 8 = 0 /\ size + 8 + align < word_mod.

Lemma aligned_malloc_arith p size align :
  alignable size align -> 0 < p -> p mod 8 = 0 -> p + (size + 8 + align) <= word_mod ->
  let m := aligned_start p align in
  exists d : nat, m - sizeof_pointer = p + 8 * d /\ m = p + 8 * d + 8 /\
    8 * (d + 1) + size <= size + 8 + align /\ m mod align = 0 /\ m + size <= word_mod.
Proof.
  intros (? & ? & ? & ? & ?) Hp Hp8 Hmax.
  destruct (aligned_offset p align) as ([??] & Hx & ?); [done..|].
  apply Z.mod_divide in Hx as [x Hx]; [|done].
  assert (0 <= (p + 8) mod align < align) by by apply Z.mod_pos_bound.
  unfold aligned_start, sizeof_pointer.
  rw (wrap_small (p + 8)); last (unfold is_word; lia).
  rw (wrap_small (align - _)); last (unfold is_word; lia).
  rw wrap_small; last (unfold is_word; lia).
  exists (Z.to_nat x). lia.
Qed.

(** Storing the original pointer leaves an aligned block. *)
Lemma aligned_place (J : Z -> Prop) p size align vs :
  alignable size align -> malloc_post (size + 8 + align) p vs -> Forall J vs ->
  let m := aligned_start p align in
  {{{ block p (size + 8 + align) ∗ p ↦∗ vs }}}
    store (m - sizeof_pointer) p;; Ret m
  {{{ r, ⟨r = m⟩ ∗ ∃ ws, ⟨Forall J ws⟩ ∗ aligned m size align ws }}}.
Proof.
  iIntros (Hal (Hp & Hmax & Hp8 & Hlen) HJ m Φ) "[Hb Hw] HΦ".
  destruct (aligned_malloc_arith p size align) as (d & Hd & Hm & Hfit & Hmod & Hm2); [done..|].
  fold m in Hd, Hm, Hmod, Hm2. clearbody m.
  destruct Hal as (? & Hs & ? & Hl & ?).
  apply Z.mod_divide in Hs as [s Hs]; [|done]. apply Z.mod_divide in Hl as [l Hl]; [|done].
  replace (size + 8 + align) with (8 * (s + 1 + l)) in Hlen by lia.
  rw nwords_mul8 in Hlen; last lia.
  iDestruct (array_split d with "Hw") as "[Hpre Hw]"; [lia|]. rw -Hd.
  apply (Forall_drop _ d) in HJ.
  destruct (drop d vs) as [|v vs'] eqn:Hdrop;
    apply (f_equal length) in Hdrop; rw length_drop /= in Hdrop; [lia|].
  iDestruct "Hw" as "[Horig Hw]". wp_store. iApply wp_ret. iApply "HΦ". iSplitR; [done|].
  replace (m - sizeof_pointer + 8) with m by (unfold sizeof_pointer; lia).
  iDestruct (array_split (Z.to_nat s) with "Hw") as "[Hw Hpost]"; [lia|].
  iExists (take (Z.to_nat s) vs'). iSplitR; [iPureIntro; by apply Forall_take, (Forall_inv_tail HJ)|]. iSplitR.
  { iPureIntro. unfold aligned_addr. rw length_take_le; lia. }
  iSplitR "Hw"; [|done].
  iExists p, (take d vs), (drop (Z.to_nat s) vs'). iSplitR; [|iFrame "Hb Hpre Horig";
    by replace (m + size) with (m + 8 * Z.to_nat s) by lia].
  iPureIntro. unfold sizeof_pointer in Hd. rw length_take_le; last lia.
  rw length_drop. lia.
Qed.

Lemma aligned_size size align :
  alignable size align -> size +w sizeof_pointer +w align = size + 8 + align.
Proof.
  intros (? & _ & ? & _ & ?). unfold sizeof_pointer.
  rw (wrap_small (size + 8)); last (unfold is_word; lia).
  rw wrap_small //; unfold is_word; lia.
Qed.

(** The room [aligned_malloc (size, align)] takes. *)
Definition aligned_cost (size align : Z) : nat := malloc_cost (size + 8 + align).

(** What the allocator says of fresh words is true of the block. *)
Lemma aligned_malloc_filled (J : Z -> Prop) size align :
  alignable size align -> (forall h i, J (alloc_junk h i)) ->
  {{{ credits (aligned_cost size align) }}} aligned_malloc size align
  {{{ m, ∃ vs, ⟨Forall J vs⟩ ∗ aligned m size align vs }}}.
Proof.
  iIntros (Hal HJ Φ) "Hc HΦ". unfold aligned_malloc, abstraction_malloc. rw aligned_size //.
  iApply (wp_malloc_filled J); [done|]. iFrame "Hc". iIntros (p vs [Hpost HF]) "Hb Hw".
  rw non_null_pos; last by destruct Hpost.
  iApply (aligned_place J with "[$Hb $Hw]"); [done..|].
  iIntros (r) "[-> Hm]". by iApply "HΦ".
Qed.

Lemma aligned_malloc_spec size align :
  alignable size align ->
  {{{ credits (aligned_cost size align) }}} aligned_malloc size align
  {{{ m, ∃ vs, aligned m size align vs }}}.
Proof.
  iIntros (Hal Φ) "Hc HΦ". iApply (aligned_malloc_filled (fun _ => True) with "Hc"); [done|done|].
  iIntros (m) "(%vs & _ & Hm)". iApply "HΦ". by iExists vs.
Qed.

Lemma aligned_malloc_fallible_spec `{!NoRoom} size align :
  alignable size align ->
  {{{ emp }}} aligned_malloc size align
  {{{ m, ⟨m = 0⟩ ∨ ∃ vs, aligned m size align vs }}}.
Proof.
  iIntros (Hal Φ) "_ HΦ". unfold aligned_malloc, abstraction_malloc. rw aligned_size //.
  iApply wp_malloc_fallible. iSplit.
  { iApply wp_ret. iApply "HΦ". by iLeft. }
  iIntros (p vs Hpost) "Hb Hw".
  rw non_null_pos; last by destruct Hpost.
  iApply (aligned_place (fun _ => True) with "[$Hb $Hw]"); [done|done|by apply Forall_true|].
  iIntros (r) "(-> & %ws & _ & Hm)". iApply "HΦ". iRight. by iExists ws.
Qed.

Lemma aligned_free_spec m size align vs :
  {{{ aligned m size align vs }}} aligned_free m {{{ _u, emp }}}.
Proof.
  iIntros (Φ) "([%Hm %Hl] & (%p & %pre & %post & %Hp & Hb & Hpre & Horig & Hpost) & Hw) HΦ".
  unfold aligned_free. wp_assert; [apply non_null_pos; by destruct Hm|].
  unfold sizeof_pointer. wp_load. unfold abstraction_free.
  iApply wp_bind_ret.
  iApply (wp_free p (size + 8 + align) (pre ++ p :: vs ++ post)); [lia| |].
  { replace (size + 8 + align) with (8 * (length pre + S (length vs + length post))%nat) by lia.
    rw nwords_mul8; last lia. rw length_app /= length_app. lia. }
  iFrame "Hb". iSplitR "HΦ".
  - iApply array_app. iFrame "Hpre".
    replace (p + 8 * length pre) with (m - 8) by lia. iFrame "Horig".
    iApply array_app. replace (m - 8 + 8) with m by lia. iFrame "Hw".
    by replace (m + 8 * length vs) with (m + size) by lia.
  - iApply wp_ret. by iApply "HΦ".
Qed.

Lemma memset0_spec p vs :
  {{{ p ↦∗ vs }}} memset0 p (length vs) {{{ _u, p ↦∗ replicate (length vs) 0 }}}.
Proof.
  revert p. induction vs as [|v vs IH]; iIntros (p Φ) "Hp HΦ"; simpl.
  - iApply wp_ret. by iApply "HΦ".
  - iDestruct "Hp" as "[Hp Hvs]". wp_store. iApply (IH with "Hvs").
    iIntros ([]) "Hvs". iApply "HΦ". iFrame.
Qed.
End specs.

(** ** The aligned allocator as a whole *)

Lemma aligned_words m size align vs r (i : nat) :
  holds (aligned m size align vs) r -> (i < length vs)%nat -> is_Some (r.1 !! Word (m + 8 * i)).
Proof.
  intros (r1 & r2 & -> & Hd & _ & r3 & r4 & -> & Hd2 & _ & Hw) Hi.
  apply array_holds in Hw as ->. simpl. rw !lookup_union_is_Some. do 2 right. clear -Hi.
  revert m i Hi. induction vs as [|v vs IH]; intros m i Hi; simpl in Hi; [lia|].
  cbn [words_map]. destruct i as [|i]; [rw Z.add_0_r lookup_insert_eq; eauto|].
  apply lookup_insert_is_Some'. right.
  replace (m + 8 * S i) with (m + 8 + 8 * i) by lia. apply IH. lia.
Qed.

Section claims.
Context {AL : Allocator} {AO : AllocatorOk}.

(** C32. [aligned_malloc] and [aligned_free] are inverses around an aligned
    block: from every memory and for every allocator, the allocation either
    answers null and changes nothing, or answers an address that is a multiple
    of the alignment, with [size] bytes of words that were not in use before,
    everything else kept; and freeing that address gives back the memory as it
    was. *)
Theorem aligned_malloc_free size align h :
  alignable size align ->
  exists k m h', run k (aligned_malloc size align) h = Done m h' /\
    (m = 0 /\ h' = h \/
     0 < m /\ m mod align = 0 /\ h ⊆ h' /\
     (forall i : nat, 8 * i < size ->
        h !! Word (m + 8 * i) = None /\ is_Some (h' !! Word (m + 8 * i))) /\
     exists k', run k' (aligned_free m) h' = Done tt h).
Proof.
  intros Hal. pose proof (unpromised_ok _ AO) as AO'.
  destruct (run_framed (AL := unpromised AL) (aligned_malloc size align) emp
    (fun m => ⟨m = 0⟩ ∨ ∃ vs, aligned m size align vs)%I h rnil) as (k & m & r & Hr & Ho & Hm).
  { iIntros "_". iApply (aligned_malloc_fallible_spec (AL := unpromised AL) with "[//]"); [done|]. by iIntros (m) "$". }
  { done. }
  { split; [apply map_disjoint_empty_l|]. done. }
  rw left_id_L run_unpromised in Hr. exists k, m, (r.1 ∪ h). split; [done|].
  destruct Hm as [[Hemp ->]|[vs Hvs]].
  { left. change (r = rnil) in Hemp. subst r. split; [done|]. apply left_id_L, _. }
  right. destruct Ho as [Hd Ho]. simpl in Hd.
  assert (aligned_addr m size align /\ 8 * length vs = size) as [(Hpos & Hmod & _) Hlen].
  { destruct (aligned_facts m size align vs) as [Hf]. by apply Hf in Hvs. }
  split_and!; [done|done|by apply map_union_subseteq_r| |].
  - intros i Hi. destruct (aligned_words m size align vs r i Hvs) as [v Hv]; [lia|].
    split; [|by exists v; apply lookup_union_Some_l]. by eapply map_disjoint_Some_l.
  - destruct (run_framed (AL := unpromised AL) (aligned_free m) (aligned m size align vs)
      (fun _ => emp)%I h r) as (k' & [] & r' & Hr' & _ & Hemp); [|done|done|].
    { iIntros "Hm". iApply (aligned_free_spec (AL := unpromised AL) with "Hm"). by iIntros ([]) "_". }
    exists k'. change (r' = rnil) in Hemp. subst r'. rw run_unpromised left_id_L in Hr'. done.
Qed.
End claims.

Lemma aligned_malloc_free_witness :
  alignable 24 16 /\
  exists k m h', @run arena _ k (aligned_malloc 24 16) ∅ = Done m h' /\
    (m = 0 /\ h' = ∅ \/
     0 < m /\ m mod 16 = 0 /\ ∅ ⊆ h' /\
     (forall i : nat, 8 * i < 24 ->
        (∅ : heap) !! Word (m + 8 * i) = None /\ is_Some (h' !! Word (m + 8 * i))) /\
     exists k', @run arena _ k' (aligned_free m) h' = Done tt ∅).
Proof. split; [done|]. by apply (@aligned_malloc_free arena arena_ok 24 16 ∅). Defined.

(** ** Calls through function pointers

    A callback is a word; [icall f a b] is the code at [f] applied to the two
    pointer arguments all callbacks of the library take. *)
Class Linker : Type := icall : Z -> Z -> Z -> prog Z.

(** C does not order the operands of [!=].  Where one reads memory and the other is an
    assignment from a compare-and-swap, [left_first] tells which one the compiler
    evaluates first; [cas_against] is [*read != (x = abstraction_cas (...))], answering
    whether they differ and the new value of [x]. *)
Class OperandOrder : Type := left_first : bool.

Definition cas_against {OO : OperandOrder} (read destination exchange compare : Z) : prog (bool * Z) :=
  if left_first then
    let! l := load read in
    let! x := abstraction_cas destination exchange compare in
    Ret (negb (l =? x), x)
  else
    let! x := abstraction_cas destination exchange compare in
    let! l := load read in
    Ret (negb (l =? x), x).

Section order.
Context {AL : Allocator} {AO : AllocatorOk} {OO : OperandOrder}.

(** Alone, both orders are the same. *)
Lemma cas_against_spec read l destination v exchange compare :
  0 < destination ->
  {{{ read ↦ l ∗ destination ↦ v }}} cas_against read destination exchange compare
  {{{ r, ⟨r = (negb (l =? v), v)⟩ ∗ read ↦ l ∗ destination ↦ (if v =? compare then exchange else v) }}}.
Proof.
  iIntros (Hd Φ) "[Hr Hv] HΦ". unfold cas_against, abstraction_cas. destruct left_first.
  - wp_load. wp_assert; [by apply non_null_pos|]. wp_cas. iApply wp_ret. iApply "HΦ". by iFrame.
  - wp_assert; [by apply non_null_pos|]. wp_cas. wp_load. iApply wp_ret. iApply "HΦ". by iFrame.
Qed.
End order.
