(* ===== verification/Chain.v ===== *)
(** * Linked chains and the loop detector the [*_internal_validate] functions share.

    The elements of the freelist, the stack and the queue start with the
    pointer-and-counter pair [next]; each of the three validation functions
    walks the [next] pointers with a slow and a fast cursor, then counts. *)
From S2P Require Import Prelude Machine SepLogic Basic.
#[local] Open Scope Z_scope.
#[local] Open Scope prog_scope.

(** ** The code *)

(** Offset of [next[POINTER]] in an element. *)
Definition NEXT : Z := 0.

(** One turn of the loop of the detector, from the cursors [slow] and [fast]. *)
Definition detect_body (s : Z * Z) : prog ((Z * Z) + (Z * Z)) :=
  let '(slow, fast) := s in
  let! slow := load (slow + NEXT) in
  let! fast := (if non_null fast then load (fast + NEXT) else Ret fast) in
  let! fast := (if non_null fast then load (fast + NEXT) else Ret fast) in
  if non_null slow && negb (fast =? slow) then Ret (inl (slow, fast))
  else Ret (inr (slow, fast)).

(** The two cursors after the loop, from the head of the chain. *)
Definition detect_loop (head : Z) : prog (Z * Z) :=
  if non_null head then loop detect_body (head, head) else Ret (head, head).

Definition loop_found (s : Z * Z) : bool :=
  non_null s.2 && non_null s.1 && (s.2 =? s.1).

Definition count_body (s : Z * Z) : prog ((Z * Z) + Z) :=
  let '(p, count) := s in
  if non_null p then
    let! next := load (p + NEXT) in
    Ret (inl (next, count +w 1))
  else Ret (inr count).

(** The number of elements from [head], as an [atom_t]. *)
Definition count_chain (head : Z) : prog Z := loop count_body (head, 0).

(** The verdict on the number of elements. *)
Definition check_count (vi : validation_info) (element_count : Z) (v : data_structure_validity)
  : data_structure_validity :=
  let v := if element_count <? min_element vi then VALIDITY_INVALID_MISSING_ELEMENTS else v in
  if element_count >? max_element vi then VALIDITY_INVALID_ADDITIONAL_ELEMENTS else v.

(** ** Walks *)

(** [x] lists the addresses a walk of [next] pointers visits in memory [R];
    the null pointer ends it. *)
Record walk (R : hProp) (x : nat -> Z) : Prop := {
  walk_null i : x i = 0 -> x (S i) = 0;
  walk_next i : x i ≠ 0 ->
    R ⊢ (x i + NEXT) ↦ x (S i) ∗ ((x i + NEXT) ↦ x (S i) -∗ R);
}.

(** Where the detector stops. *)
Definition meets (x : nat -> Z) (i : nat) : Prop := x i = 0 \/ x (2 * i)%nat = x i.

#[export] Instance meets_dec x i : Decision (meets x i).
Proof. unfold meets. apply _. Defined.

Section specs.
Context {AL : Allocator} {AO : AllocatorOk}.

Lemma walk_null_le R x i j : walk R x -> x i = 0 -> (i <= j)%nat -> x j = 0.
Proof. intros Hw H0 Hle. induction Hle; [done|]. by apply (walk_null R x Hw). Qed.

Lemma wp_walk_next {A : Set} R x i (k : Z -> prog A) Q :
  walk R x -> x i ≠ 0 -> R ∗ (R -∗ wp (k (x (S i))) Q) ⊢ wp (bind (load (x i + NEXT)) k) Q.
Proof.
  iIntros (Hw Hi) "[HR HQ]".
  iDestruct (walk_next R x Hw i Hi with "HR") as "[Hi Hcl]".
  wp_load. iApply "HQ". by iApply "Hcl".
Qed.

Lemma wp_walk_opt {A : Set} R x i (k : Z -> prog A) Q :
  walk R x ->
  R ∗ (R -∗ wp (k (x (S i))) Q) ⊢
  wp (bind (if non_null (x i) then load (x i + NEXT) else Ret (x i)) k) Q.
Proof.
  intros Hw. unfold non_null, NULL. destruct (Z.eqb_spec (x i) 0) as [Hi|Hi]; simpl.
  - rw (walk_null R x Hw i Hi) Hi. iIntros "[HR HQ]". by iApply "HQ".
  - by apply wp_walk_next.
Qed.

(** One turn moves the slow cursor one element and the fast cursor two. *)
Lemma detect_body_spec R x i :
  walk R x -> x i ≠ 0 ->
  {{{ R }}} detect_body (x i, x (2 * i)%nat)
  {{{ r, R ∗ ⟨r = if decide (meets x (S i)) then inr (x (S i), x (2 * S i)%nat)
                  else inl (x (S i), x (2 * S i)%nat)⟩ }}}.
Proof.
  iIntros (Hw Hi Φ) "HR HΦ". unfold detect_body.
  iApply (wp_walk_next R x); [done..|]. iFrame "HR". iIntros "HR".
  iApply (wp_walk_opt R x); [done|]. iFrame "HR". iIntros "HR".
  iApply (wp_walk_opt R x); [done|]. iFrame "HR". iIntros "HR".
  replace (S (S (2 * i))) with (2 * S i)%nat by lia.
  unfold non_null, NULL.
  destruct (Z.eqb_spec (x (S i)) 0), (Z.eqb_spec (x (2 * S i)%nat) (x (S i))); simpl;
    iApply wp_ret; iApply "HΦ"; iFrame "HR"; iPureIntro; case_decide as Hd; try done;
    unfold meets in Hd; tauto.
Qed.

(** The detector stops at the first meeting point after the start. *)
Lemma detect_loop_from R x i d :
  walk R x -> x i ≠ 0 -> meets x (S i + d) -> (forall j, (i < j < S i + d)%nat -> ~ meets x j) ->
  {{{ R }}} loop detect_body (x i, x (2 * i)%nat)
  {{{ r, R ∗ ⟨r = (x (S i + d)%nat, x (2 * (S i + d))%nat)⟩ }}}.
Proof.
  intros Hw. revert i. induction d as [|d IH]; iIntros (i Hi Hm Hn Φ) "HR HΦ".
  - iApply wp_loop. iApply (detect_body_spec with "HR"); [done..|].
    iIntros (r) "[HR ->]". rw Nat.add_0_r in Hm |- *. rw decide_True //.
    iApply "HΦ". by iFrame.
  - iApply wp_loop. iApply (detect_body_spec with "HR"); [done..|].
    iIntros (r) "[HR ->]".
    assert (~ meets x (S i)) as Hni by (apply Hn; lia). rw decide_False //.
    replace (S i + S d)%nat with (S (S i) + d)%nat in Hm, Hn |- * by lia.
    iApply (IH (S i) with "HR HΦ"); [|done|].
    + intros E. apply Hni. by left.
    + intros j Hj. apply Hn. lia.
Qed.

Lemma first_meeting x i : meets x (S i) ->
  exists d, meets x (S d) /\ (d <= i)%nat /\ forall j, (0 < j < S d)%nat -> ~ meets x j.
Proof.
  induction (lt_wf i) as [i _ IH]. intros Hi.
  destruct (decide (Exists (fun j => meets x (S j)) (seq 0 i))) as [He|Hne].
  - apply Exists_exists in He as (j & Hj%elem_of_seq & Hm).
    destruct (IH j) as (d & ? & ? & ?); [lia|done|]. exists d. split_and!; [done|lia|done].
  - exists i. split_and!; [done|lia|]. intros [|j] Hj Hm; [lia|].
    apply Hne, Exists_exists. exists j. split; [|done]. apply elem_of_seq. lia.
Qed.

Lemma count_chain_from R x n i :
  walk R x -> (forall j, (j < i + n)%nat -> x j ≠ 0) -> x (i + n)%nat = 0 ->
  {{{ R }}} loop count_body (x i, wrap i) {{{ r, R ∗ ⟨r = wrap (i + n)%nat⟩ }}}.
Proof.
  intros Hw. revert i. induction n as [|n IH]; iIntros (i Hn H0 Φ) "HR HΦ";
    iApply wp_loop; unfold count_body at 1.
  - rw Nat.add_0_r in H0. rw H0. iApply wp_ret. iApply "HΦ". iFrame. by rw Nat.add_0_r.
  - rw non_null_ne; last (apply Hn; lia).
    iApply (wp_walk_next R x); [done|apply Hn; lia|]. iFrame "HR". iIntros "HR".
    iApply wp_ret. rw wrap_add_l. replace (i + 1) with (Z.of_nat (S i)) by lia.
    replace (i + S n)%nat with (S i + n)%nat in * by lia.
    iApply (IH (S i) with "HR HΦ"); [done|done].
Qed.

(** The elements up to the null pointer are counted. *)
Lemma count_chain_spec R x n :
  walk R x -> (forall j, (j < n)%nat -> x j ≠ 0) -> x n = 0 ->
  {{{ R }}} count_chain (x 0%nat) {{{ r, R ∗ ⟨r = wrap n⟩ }}}.
Proof. intros. by apply (count_chain_from R x n 0). Qed.

Lemma detect_loop_spec R x i :
  walk R x -> meets x (S i) ->
  {{{ R }}} detect_loop (x 0%nat)
  {{{ r, R ∗ ∃ d, ⟨(r = (x d, x (2 * d)%nat)) /\ meets x d /\ (x 0%nat ≠ 0 -> (0 < d)%nat) /\
                   (d <= S i)%nat⟩ }}}.
Proof.
  iIntros (Hw Hi Φ) "HR HΦ". unfold detect_loop.
  unfold non_null, NULL. destruct (Z.eqb_spec (x 0%nat) 0) as [H0|H0]; simpl.
  - iApply wp_ret. iApply "HΦ". iFrame. iExists 0%nat. iPureIntro. split_and!; [done|by left|done|lia].
  - destruct (first_meeting x i Hi) as (d & Hd & Hle & Hn).
    iApply (detect_loop_from R x 0%nat d with "HR"); [done|done|done|done|].
    iIntros (r) "[HR ->]". iApply "HΦ". iFrame. iExists (S d). iPureIntro.
    split_and!; [done|done|lia|lia].
Qed.
End specs.

(** ** Chains

    [chain_to ptr P e l top]: from the pointer-and-counter pair [top], the
    [next] pairs link the elements of [l] in order, and the last one points to
    [e]; [P] is what each element owns besides its [next] pair. *)

Section chain.
Context {A : Type} (ptr : A -> Z) (P : A -> hProp).

Fixpoint chain_to (e : Z) (l : list A) (top : Z * Z) : hProp :=
  match l with
  | [] => ⟨top.1 = e⟩
  | x :: l => ∃ next,
      ⟨top.1 = ptr x /\ 0 < ptr x /\ ptr x mod 16 = 0⟩ ∗
      (ptr x + NEXT) ↦₂ next ∗ P x ∗ chain_to e l next
  end%I.

(** The [i]-th address of the chain, [e] at its end. *)
Definition chain_ptr (e : Z) (l : list A) (i : nat) : Z := default e (ptr <$> l !! i).

Lemma chain_head e l top : chain_to e l top ⊢ ⌜top.1 = chain_ptr e l 0⌝.
Proof.
  destruct l as [|x l]; simpl.
  - by iIntros "->".
  - iIntros "(%next & (-> & _ & _) & _)". done.
Qed.

(** Reading one [next] pointer of a chain. *)
Lemma chain_acc e l top i x : l !! i = Some x ->
  chain_to e l top ⊢ (ptr x + NEXT) ↦ chain_ptr e l (S i) ∗
    ((ptr x + NEXT) ↦ chain_ptr e l (S i) -∗ chain_to e l top).
Proof.
  revert top i. induction l as [|y l IH]; intros top i Hi; [done|]. simpl.
  iIntros "(%next & %Hx & [Hn Hc] & HP & Hl)". destruct i as [|i]; simplify_eq/=.
  - iDestruct (chain_head with "Hl") as %Hh.
    change (chain_ptr e (x :: l) 1) with (chain_ptr e l 0). rw Hh. iFrame "Hn".
    iIntros "Hn". iExists next. iFrame. iSplitR; [done|]. rw /pair_at Hh. iFrame.
  - change (chain_ptr e (y :: l) (S (S i))) with (chain_ptr e l (S i)).
    iDestruct (IH with "Hl") as "[$ Hcl]"; [done|]. iIntros "Hn'".
    iExists next. iFrame. iSplitR; [done|]. by iApply "Hcl".
Qed.

Lemma chain_pos e l top : chain_to e l top ⊢ ⌜Forall (fun x => 0 < ptr x) l⌝.
Proof.
  revert top. induction l as [|y l IH]; intros top; simpl; [iPureIntro; constructor|].
  iIntros "(%next & %Hx & _ & _ & Hl)". iDestruct (IH with "Hl") as %?. iPureIntro.
  constructor; tauto.
Qed.

(** The elements of a chain are distinct: each owns its [next] pair. *)
Lemma chain_fresh e l top y v : chain_to e l top ∗ (y + NEXT) ↦ v ⊢ ⌜y ∉ ptr <$> l⌝.
Proof.
  revert top. induction l as [|x l IH]; intros top; simpl.
  - iIntros "_". iPureIntro. apply not_elem_of_nil.
  - iIntros "[(%next & _ & [Hn Hc] & _ & Hl) Hy]". rw not_elem_of_cons.
    iDestruct (IH with "[$Hl $Hy]") as %?.
    iDestruct (pointsto_ne with "[$Hy $Hn]") as %?. iPureIntro. split; [lia|done].
Qed.

Lemma chain_NoDup e l top : chain_to e l top ⊢ ⌜NoDup (ptr <$> l)⌝.
Proof.
  revert top. induction l as [|x l IH]; intros top; simpl; [iPureIntro; constructor|].
  iIntros "(%next & _ & [Hn Hc] & _ & Hl)". iDestruct (chain_fresh with "[$Hl $Hn]") as %?.
  iDestruct (IH with "Hl") as %?. iPureIntro. by constructor.
Qed.

(** The last element of a chain. *)
Lemma chain_snoc e l x top :
  chain_to e (l ++ [x]) top ⊣⊢
  ∃ next, ⟨next.1 = e /\ 0 < ptr x /\ ptr x mod 16 = 0⟩ ∗
    chain_to (ptr x) l top ∗ (ptr x + NEXT) ↦₂ next ∗ P x.
Proof.
  revert top. induction l as [|y l IH]; intros top; simpl.
  - iSplit.
    + iIntros "(%next & %Hx & Hn & HP & %He)". iExists next. iFrame. iPureIntro. tauto.
    + iIntros "(%next & %Hx & %Ht & Hn & HP)". iExists next. iFrame. iPureIntro. tauto.
  - iSplit.
    + iIntros "(%next & %Hy & Hn & HP & Hl)". rw IH. iDestruct "Hl" as (next') "(%Hx & Hl & Hn' & HP')".
      iExists next'. iSplitR; [done|]. iFrame "Hn' HP'". iExists next. by iFrame.
    + iIntros "(%next' & %Hx & (%next & %Hy & Hn & HP & Hl) & Hn' & HP')".
      iExists next. iSplitR; [done|]. iFrame "Hn HP". iApply IH. iExists next'. by iFrame.
Qed.

(** A chain that ends in the null pointer is walked to its end. *)
Lemma chain_walk l top : Forall (fun x => 0 < ptr x) l -> walk (chain_to 0 l top) (chain_ptr 0 l).
Proof.
  intros Hpos. split.
  - unfold chain_ptr. intros i Hi. destruct (l !! i) as [x|] eqn:Hl; simpl in Hi.
    + rw Forall_lookup in Hpos. apply Hpos in Hl. lia.
    + by rw (lookup_ge_None_2 l (S i)); last (apply lookup_ge_None_1 in Hl; lia).
  - intros i Hi. unfold chain_ptr at 1 3. unfold chain_ptr in Hi.
    destruct (l !! i) as [x|] eqn:Hl; [|done]. by apply chain_acc.
Qed.

Lemma chain_ptr_end l i : Forall (fun x => 0 < ptr x) l -> chain_ptr 0 l i = 0 <-> (length l <= i)%nat.
Proof.
  intros Hpos. unfold chain_ptr. rw -lookup_ge_None.
  destruct (l !! i) as [x|] eqn:Hl; simpl; [|done].
  rw Forall_lookup in Hpos. apply Hpos in Hl. split; [lia|done].
Qed.

(** On a chain that ends, the cursors meet at the null pointer only. *)
Lemma chain_no_loop l d : Forall (fun x => 0 < ptr x) l -> NoDup (ptr <$> l) ->
  meets (chain_ptr 0 l) d -> (0 < d)%nat ->
  loop_found (chain_ptr 0 l d, chain_ptr 0 l (2 * d)) = false.
Proof.
  intros Hpos Hnd Hm Hd. unfold loop_found. simpl. rw !andb_false_iff.
  destruct (decide (chain_ptr 0 l d = 0)) as [E|Hne]; [rw E; tauto|].
  destruct Hm as [|E]; [done|]. exfalso. unfold chain_ptr in E, Hne.
  destruct (l !! d) as [x|] eqn:Hx; [|done]. destruct (l !! (2 * d)%nat) as [y|] eqn:Hy; [|done].
  simpl in E. enough (d = 2 * d)%nat by lia.
  eapply NoDup_lookup; [exact Hnd|..]; rw list_lookup_fmap; [by rw Hx /=|by rw Hy /= E].
Qed.
End chain.

Abbreviation chain ptr P := (chain_to ptr P 0).

(** ** Walks in a concrete memory *)

(** The address visited after [i] steps from [p] in [h], null once null. *)
Fixpoint visits (h : heap) (p : Z) (i : nat) : Z :=
  match i with
  | O => p
  | S i => let q := visits h p i in
           if q =? 0 then 0 else default 0 (h !! Word (q + NEXT))
  end.

(** Every element visited is in memory. *)
Definition walkable (h : heap) (p : Z) : Prop :=
  forall i, visits h p i ≠ 0 -> is_Some (h !! Word (visits h p i + NEXT)).

Lemma visits_null h p i j : visits h p i = 0 -> (i <= j)%nat -> visits h p j = 0.
Proof. intros H0 Hle. induction Hle as [|j _ IH]; [done|]. cbn [visits]. by rw IH. Qed.

Lemma visits_walk h p : walkable h p -> walk (exactly h) (visits h p).
Proof.
  intros Hw. split.
  - intros i Hi. cbn [visits]. by rw Hi.
  - intros i Hi. destruct (Hw i Hi) as [v Hv]. cbn [visits].
    rw (proj2 (Z.eqb_neq _ _) Hi) Hv. by apply exactly_acc.
Qed.

Lemma visits_periodic h p i j m :
  visits h p i = visits h p j -> visits h p (i + m) = visits h p (j + m).
Proof.
  intros E. induction m as [|m IH]; [by rw !Nat.add_0_r|].
  rw !Nat.add_succ_r. cbn [visits]. by rw IH.
Qed.

Lemma visits_cycle h p i c k m : visits h p i = visits h p (i + c) ->
  (i <= m)%nat -> visits h p (m + k * c) = visits h p m.
Proof.
  intros E Hm. induction k as [|k IH]; [f_equal; lia|].
  rw -IH. apply (visits_periodic h p i (i + c) (m + k * c - i)) in E.
  replace (m + S k * c)%nat with (i + c + (m + k * c - i))%nat by lia.
  rw -E. f_equal. lia.
Qed.

(** A memory is finite: a walk in it reaches null or runs into itself. *)
Lemma visits_repeats h p : walkable h p ->
  (exists i, visits h p i = 0) \/
  (exists i j, (i < j)%nat /\ visits h p i = visits h p j /\ forall k, visits h p k ≠ 0).
Proof.
  intros Hw. set (n := S (size h)). set (l := visits h p <$> seq 0 n).
  destruct (decide (0 ∈ l)) as [H0|H0].
  { left. apply list_elem_of_fmap in H0 as (i & Hi & _). by exists i. }
  right. assert (forall i, (i < n)%nat -> visits h p i ≠ 0) as Hne.
  { intros i Hi E. apply H0, list_elem_of_fmap. exists i. split; [done|]. apply elem_of_seq. lia. }
  destruct (not_NoDup_repeat l) as (i & j & x & Hij & Hi & Hj).
  { intros Hnd. assert (length l <= size h)%nat; [|unfold l in *; rw length_fmap length_seq in H; lia].
    rw -(length_map_to_list h) -(length_fmap fst). rw -(length_fmap (fun q => Word (q + NEXT)) l).
    apply submseteq_length, NoDup_submseteq.
    - apply NoDup_fmap_2; [intros ?? [=]; lia|done].
    - intros k (q & -> & Hq)%list_elem_of_fmap. apply list_elem_of_fmap in Hq as (i & -> & Hi%elem_of_seq).
      destruct (Hw i) as [v Hv]; [apply Hne; lia|]. apply list_elem_of_fmap.
      exists (Word (visits h p i + NEXT), v). split; [done|]. by apply elem_of_map_to_list. }
  unfold l in Hi, Hj. rw list_lookup_fmap in Hi. rw list_lookup_fmap in Hj.
  apply fmap_Some in Hi as (i' & Hi & ->). apply fmap_Some in Hj as (j' & Hj & E).
  apply lookup_seq in Hi as [-> ?]. apply lookup_seq in Hj as [-> ?].
  exists i, j. split_and!; [done|done|]. intros k Hk.
  apply (Hne i); [lia|]. rw -(visits_cycle h p i (j - i) k i); [|by replace (i + (j - i))%nat with j by lia|lia].
  apply (visits_null h p k); [done|nia].
Qed.

(** A walk that is not endless reaches null a first time. *)
Lemma first_null h p : walkable h p -> ~ (forall i, visits h p i ≠ 0) ->
  exists n, visits h p n = 0 /\ forall i, (i < n)%nat -> visits h p i ≠ 0.
Proof.
  intros [[i Hi]|(_ & _ & _ & _ & Hne)]%visits_repeats Hfin; [|done]. clear Hfin.
  induction i as [|i IH]; [exists 0%nat; split; [done|lia]|].
  destruct (decide (visits h p i = 0)) as [E|E]; [by apply IH|].
  exists (S i). split; [done|]. intros j Hj E'. apply E, (visits_null h p j); [done|lia].
Qed.

(** Where the detector stops, in any memory. *)
Lemma visits_meets h p : walkable h p -> exists i, meets (visits h p) (S i).
Proof.
  intros [[i Hi]|(i & j & Hij & E & _)]%visits_repeats.
  - exists i. left. by apply (visits_null h p i); [|lia].
  - set (c := (j - i)%nat). exists (S i * c - 1)%nat. right.
    assert (1 <= c)%nat by (unfold c; lia). assert (i < S i * c)%nat by nia.
    replace (S (S i * c - 1)) with (S i * c)%nat by lia.
    replace (2 * (S i * c))%nat with (S i * c + S i * c)%nat by lia.
    apply (visits_cycle h p i); [|lia]. rw E. f_equal. unfold c. lia.
Qed.

(** A meeting point that is not null is on a cycle. *)
Lemma meets_cycle h p d : meets (visits h p) d -> visits h p d ≠ 0 -> (0 < d)%nat ->
  forall i, visits h p i ≠ 0.
Proof.
  intros [?|E] Hd Hpos i Hi; [done|].
  apply Hd. rw -(visits_cycle h p d d i d); [|by replace (d + d)%nat with (2 * d)%nat by lia|lia].
  apply (visits_null h p i); [done|nia].
Qed.

Section verdicts.
Context {AL : Allocator} {AO : AllocatorOk} {A : Type} (ptr : A -> Z) (P : A -> hProp).

(** No loop is found on a chain that ends. *)
Lemma detect_loop_chain l top :
  {{{ chain ptr P l top }}} detect_loop top.1
  {{{ s, ⟨loop_found s = false⟩ ∗ chain ptr P l top }}}.
Proof.
  iIntros (Φ) "Hl HΦ". iDestruct (chain_head with "Hl") as %->.
  iDestruct (chain_pos with "Hl") as %Hpos. iDestruct (chain_NoDup with "Hl") as %Hnd.
  iApply (detect_loop_spec _ (chain_ptr ptr 0 l) (length l) with "Hl"); [by apply chain_walk|..].
  { left. apply chain_ptr_end; [done|lia]. }
  iIntros (s) "[Hl (%d & %Hs)]". iApply "HΦ". iFrame "Hl". iPureIntro.
  destruct Hs as (-> & Hd & Hpos0 & _). destruct (decide (chain_ptr ptr 0 l 0 = 0)) as [E|Hne].
  - apply chain_ptr_end in E; [|done]. unfold loop_found. cbn [fst snd].
    rw (proj2 (chain_ptr_end ptr l d Hpos)); last lia. by rw andb_false_r.
  - apply chain_no_loop; tauto.
Qed.

Lemma count_chain_chain l top :
  {{{ chain ptr P l top }}} count_chain top.1
  {{{ n, ⟨n = wrap (length l)⟩ ∗ chain ptr P l top }}}.
Proof.
  iIntros (Φ) "Hl HΦ". iDestruct (chain_head with "Hl") as %->.
  iDestruct (chain_pos with "Hl") as %Hpos.
  iApply (count_chain_spec _ (chain_ptr ptr 0 l) (length l) with "Hl"); [by apply chain_walk|..].
  - intros j Hj E. apply chain_ptr_end in E; [lia|done].
  - by apply chain_ptr_end.
  - iIntros (s) "[Hl ->]". iApply "HΦ". by iFrame.
Qed.

(** In any memory the detector answers, and finds a loop exactly when the walk
    never reaches null. *)
Lemma detect_loop_exactly h p :
  walkable h p ->
  {{{ exactly h }}} detect_loop p
  {{{ s, ⟨loop_found s = true <-> forall i, visits h p i ≠ 0⟩ ∗ exactly h }}}.
Proof.
  iIntros (Hw Φ) "Hh HΦ". destruct (visits_meets h p Hw) as [i Hi].
  iApply (detect_loop_spec _ (visits h p) i with "Hh"); [by apply visits_walk|done|].
  iIntros (s) "[Hh (%d & %Hs)]". iApply "HΦ". iFrame "Hh". iPureIntro.
  destruct Hs as (-> & Hd & Hpos & _). unfold loop_found, non_null, NULL. cbn [fst snd].
  destruct (Z.eqb_spec (visits h p d) 0) as [H0|H0].
  - rw andb_false_r. split; [done|]. intros Hne. by destruct (Hne d).
  - destruct Hd as [?|E]; [done|]. rw E Z.eqb_refl (proj2 (Z.eqb_neq _ _) H0).
    split; [|done]. intros _. destruct d as [|d].
    + exfalso. apply (Nat.lt_irrefl 0). by apply Hpos.
    + apply (meets_cycle h p (S d)); [by right|done|lia].
Qed.
End verdicts.
