(* ===== verification/Freelist.v ===== *)
(** * src/basic/lf_freelist.c: the freelist, a stack of reusable elements
      whose top is a pointer and a counter swapped together. *)
From S2P Require Import Prelude Machine SepLogic Alloc Script Basic Chain.
#[local] Open Scope Z_scope.
#[local] Open Scope prog_scope.

(** ** Layout (src/basic/lf_freelist.h) *)

(** [struct freelist_state]: [top[2]], [init_func], [state], [aba_counter],
    [element_count]. *)
Definition FS_TOP : Z := 0.
Definition FS_INIT : Z := 16.
Definition FS_STATE : Z := 24.
Definition FS_ABA : Z := 32.
Definition FS_COUNT : Z := 40.
Definition sizeof_freelist_state : Z := 48.

(** [struct freelist_element]: [next[2]], [data]. *)
Definition FE_DATA : Z := 16.
Definition sizeof_freelist_element : Z := 24.

Inductive freelist_query_type : Set :=
| FREELIST_QUERY_ELEMENT_COUNT
| FREELIST_QUERY_VALIDATE.

(** What a query stores at its [output]. *)
Inductive query_output : Set :=
| OutCount (n : Z)
| OutValidity (v : data_structure_validity).

(** The count, or the verdict, that a caller reads back at [output]. *)
Definition out_count (o : query_output) : Z :=
  match o with OutCount n => n | OutValidity _ => 0 end.
Definition out_validity (o : query_output) : data_structure_validity :=
  match o with OutValidity v => v | OutCount _ => VALIDITY_VALID end.

(** ** Operations *)

Section code.
Context {LK : Linker}.

(** The words [fe_local] from [top], then retries until the swap of [top] for
    the [next] pair of the element read succeeds. *)
Definition freelist_pop_body (fs : Z) (fe_local : Z * Z) : prog ((Z * Z) + Z) :=
  let '(p, c) := fe_local in
  if non_null p then
    let! next_p := load (p + NEXT) in
    let! next_c := load (p + NEXT + 8) in
    let! (ok, fe_local) := abstraction_dcas (fs + FS_TOP) (next_p, next_c) (p, c) in
    if ok then Ret (inr p) else Ret (inl fe_local)
  else Ret (inr NULL).

Definition freelist_pop (fs : Z) : prog Z :=
  c_assert (non_null fs);;
  barrier;;
  let! c := load (fs + FS_TOP + 8) in
  let! p := load (fs + FS_TOP) in
  loop (freelist_pop_body fs) (p, c).

Definition freelist_push_body (fs fe counter : Z) (original_fe_next : Z * Z)
  : prog ((Z * Z) + unit) :=
  store (fe + NEXT) original_fe_next.1;;
  store (fe + NEXT + 8) original_fe_next.2;;
  let! (ok, original_fe_next) :=
    abstraction_dcas (fs + FS_TOP) (fe, counter) original_fe_next in
  if ok then Ret (inr tt) else Ret (inl original_fe_next).

Definition freelist_push (fs fe : Z) : prog unit :=
  c_assert (non_null fs);;
  c_assert (non_null fe);;
  barrier;;
  let! counter := abstraction_increment (fs + FS_ABA) in
  let! p := load (fs + FS_TOP) in
  let! c := load (fs + FS_TOP + 8) in
  loop (freelist_push_body fs fe counter) (p, c).

(** Answers the return value and the element stored through [fe]; the test
    [NULL != fe] of the code is about the address of the caller's variable. *)
Definition freelist_internal_new_element (fs : Z) : prog (Z * Z) :=
  c_assert (non_null fs);;
  let! fe := aligned_malloc sizeof_freelist_element LF_ALIGN_DOUBLE_POINTER in
  let! init_func := load (fs + FS_INIT) in
  let! rv := (if init_func =? NULL then store (fe + FE_DATA) NULL;; Ret 1 else Ret 0) in
  let! init_func := load (fs + FS_INIT) in
  let! (rv, fe) :=
    (if non_null init_func then
       let! init_func := load (fs + FS_INIT) in
       let! state := load (fs + FS_STATE) in
       let! rv := icall init_func (fe + FE_DATA) state in
       let rv := wrap rv in
       if rv =? 0 then aligned_free fe;; Ret (rv, NULL) else Ret (rv, fe)
     else Ret (rv, fe)) in
  (if rv =? 1 then abstraction_increment (fs + FS_COUNT);; Ret tt else Ret tt);;
  Ret (rv, fe).

Definition freelist_new_elements_body (fs number_elements : Z) (s : Z * Z)
  : prog ((Z * Z) + Z) :=
  let '(loop, count) := s in
  if loop <? number_elements then
    let! (rv, fe) := freelist_internal_new_element fs in
    if truthy rv then
      freelist_push fs fe;;
      Ret (inl (loop +w 1, count +w 1))
    else Ret (inl (loop +w 1, count))
  else Ret (inr count).

Definition freelist_new_elements (fs number_elements : Z) : prog Z :=
  c_assert (non_null fs);;
  loop (freelist_new_elements_body fs number_elements) (0, 0).

Definition freelist_use (fs : Z) : prog unit :=
  c_assert (non_null fs);;
  barrier.

(** [fs] is the address of the caller's pointer to the freelist. *)
Definition freelist_new (fs number_elements init_func state : Z) : prog Z :=
  let! p := aligned_malloc sizeof_freelist_state LF_ALIGN_DOUBLE_POINTER in
  store fs p;;
  if non_null p then
    store (p + FS_TOP) NULL;;
    store (p + FS_TOP + 8) 0;;
    store (p + FS_INIT) init_func;;
    store (p + FS_STATE) state;;
    store (p + FS_ABA) 0;;
    store (p + FS_COUNT) 0;;
    let! element_count := freelist_new_elements p number_elements in
    if element_count =? number_elements then barrier;; Ret 1
    else aligned_free p;; store fs NULL;; barrier;; Ret 0
  else barrier;; Ret 0.

(** What is stored through [data], and the return value. *)
Definition freelist_get_data (fe : Z) : prog (Z * Z) :=
  c_assert (non_null fe);;
  barrier;;
  let! data := load (fe + FE_DATA) in
  let! ret := load (fe + FE_DATA) in
  Ret (data, ret).

Definition freelist_set_data (fe data : Z) : prog unit :=
  c_assert (non_null fe);;
  store (fe + FE_DATA) data;;
  barrier.

Definition freelist_delete_body (fs delete_func state : Z) (_ : unit) : prog (unit + unit) :=
  let! fe := freelist_pop fs in
  if non_null fe then
    (if non_null delete_func then
       let! (data, _) := freelist_get_data fe in
       icall delete_func data state;;
       Ret tt
     else Ret tt);;
    aligned_free fe;;
    Ret (inl tt)
  else Ret (inr tt).

Definition freelist_delete (fs delete_func state : Z) : prog unit :=
  c_assert (non_null fs);;
  loop (freelist_delete_body fs delete_func state) tt;;
  aligned_free fs.

(** Answers [*fe], which is also what the function returns. *)
Definition freelist_guaranteed_pop (fs : Z) : prog Z :=
  c_assert (non_null fs);;
  let! (_, fe) := freelist_internal_new_element fs in
  Ret fe.

Definition freelist_internal_validate (fs : Z) (vi : option validation_info)
  : prog data_structure_validity :=
  c_assert (non_null fs);;
  let! top := load (fs + FS_TOP) in
  let! cursors := detect_loop top in
  let fv := if loop_found cursors then VALIDITY_INVALID_LOOP else VALIDITY_VALID in
  match vi with
  | Some vi =>
      if decide (fv = VALIDITY_VALID) then
        let! top := load (fs + FS_TOP) in
        let! element_count := count_chain top in
        Ret (check_count vi element_count fv)
      else Ret fv
  | None => Ret fv
  end.

Definition freelist_query (fs : Z) (query_type : freelist_query_type)
    (input : option validation_info) : prog query_output :=
  c_assert (non_null fs);;
  barrier;;
  match query_type with
  | FREELIST_QUERY_ELEMENT_COUNT =>
      c_assert (match input with None => true | Some _ => false end);;
      let! n := load (fs + FS_COUNT) in
      Ret (OutCount n)
  | FREELIST_QUERY_VALIDATE =>
      let! v := freelist_internal_validate fs input in
      Ret (OutValidity v)
  end.
End code.

(** ** Assertions *)

(** What an element [(fe, data)] owns besides its [next] pair. *)
Definition fl_elem (x : Z * Z) : hProp :=
  (⟨aligned_addr x.1 sizeof_freelist_element LF_ALIGN_DOUBLE_POINTER⟩ ∗
   aligned_hdr x.1 sizeof_freelist_element LF_ALIGN_DOUBLE_POINTER ∗
   (x.1 + FE_DATA) ↦ x.2)%I.

(** An element outside of the list. *)
Definition fl_node (x : Z * Z) : hProp := (∃ next, (x.1 + NEXT) ↦₂ next ∗ fl_elem x)%I.

(** The fields of the state. *)
Definition fl_state (fs : Z) (top : Z * Z) (init st aba count : Z) : hProp :=
  (⟨aligned_addr fs sizeof_freelist_state LF_ALIGN_DOUBLE_POINTER⟩ ∗
   aligned_hdr fs sizeof_freelist_state LF_ALIGN_DOUBLE_POINTER ∗
   (fs + FS_TOP) ↦₂ top ∗ (fs + FS_INIT) ↦ init ∗ (fs + FS_STATE) ↦ st ∗
   (fs + FS_ABA) ↦ aba ∗ (fs + FS_COUNT) ↦ count)%I.

(** A freelist at [fs] holding the elements [l], top first. *)
Definition freelist (fs init st count : Z) (l : list (Z * Z)) : hProp :=
  (∃ top aba, fl_state fs top init st aba count ∗ chain fst fl_elem l top)%I.

(** ** Specifications *)

Lemma aligned_addr_mod16 p size off :
  aligned_addr p size 16 -> off mod 16 = 0 -> (p + off) mod 16 = 0.
Proof.
  intros (_ & Hp & _) Ho. rw Z.add_mod; [|done]. by rw Hp Ho.
Qed.

Lemma aligned_addr_non_null p size align off :
  aligned_addr p size align -> 0 <= off -> non_null (p + off) = true.
Proof. intros (? & _) ?. apply non_null_pos. lia. Qed.

Lemma aligned_addr_non_null0 p size align : aligned_addr p size align -> non_null p = true.
Proof. intros (? & _). by apply non_null_pos. Qed.

Create HintDb addr discriminated.
#[export] Hint Resolve aligned_addr_non_null0 : addr.
#[export] Hint Extern 1 (non_null (_ + _) = true) =>
  (eapply aligned_addr_non_null; [eassumption|done]) : addr.
#[export] Hint Extern 1 ((_ + _) mod 16 = 0) =>
  (eapply aligned_addr_mod16; [eassumption|done]) : addr.

(** The successful double compare-and-swap of sequential code. *)
Ltac wp_abs_dcas :=
  unfold abstraction_dcas; wp_assert; [solve [eauto with addr]|]; wp_dcas; [solve [eauto with addr]|].

Section specs.
Context {AL : Allocator} {AO : AllocatorOk} {LK : Linker}.

Lemma freelist_pop_spec fs init st count l :
  {{{ freelist fs init st count l }}} freelist_pop fs
  {{{ r, match l with
         | [] => ⟨r = 0⟩ ∗ freelist fs init st count []
         | x :: l => ⟨r = x.1⟩ ∗ fl_node x ∗ freelist fs init st count l
         end }}}.
Proof.
  iIntros (Φ) "(%top & %aba & (%Ha & Hh & Htop & Hrest) & Hl) HΦ". destruct top as [p c].
  unfold freelist_pop. wp_assert; [eauto with addr|]. wp_load. wp_load.
  iApply wp_loop. unfold freelist_pop_body.
  destruct l as [|x l]; cbn [chain_to].
  - iDestruct "Hl" as %Hp. simpl in Hp. subst p. simpl. iApply wp_ret.
    iApply "HΦ". iSplitR; [done|]. iExists (0, c), aba. iFrame. by iSplitR.
  - iDestruct "Hl" as (next) "((%Hp & %Hpos & %Hal) & Hn & He & Hl)". simpl in Hp. subst p.
    rw non_null_pos //. destruct next as [np nc]. wp_load. wp_load.
    wp_abs_dcas. iApply wp_ret. iApply "HΦ". iSplitR; [done|].
    iSplitL "Hn He"; [iExists (np, nc); iFrame|].
    iExists (np, nc), aba. by iFrame.
Qed.

Lemma freelist_non_null fs init st count l :
  freelist fs init st count l ⊢ ⌜non_null fs = true⌝.
Proof. iIntros "(%top & %aba & (% & _) & _)". iPureIntro. eauto with addr. Qed.

Lemma fl_node_addr x : fl_node x ⊢ ⌜aligned_addr x.1 sizeof_freelist_element 16⌝.
Proof. iIntros "(%next & _ & % & _)". done. Qed.

Lemma fl_node_aligned fe d :
  fl_node (fe, d) ⊣⊢ ∃ a b, aligned fe sizeof_freelist_element LF_ALIGN_DOUBLE_POINTER [a; b; d].
Proof.
  unfold fl_node, fl_elem, aligned, pair_at, NEXT, FE_DATA. simpl.
  rw Z.add_0_r. replace (fe + 8 + 8) with (fe + 16) by lia.
  iSplit.
  - iIntros "(%next & (H0 & H1) & %Ha & Hh & H2)". iExists next.1, next.2. iFrame. done.
  - iIntros "(%a & %b & (%Ha & _) & Hh & H0 & H1 & H2 & _)". iExists (a, b). iFrame. done.
Qed.

Lemma fl_state_aligned fs p c init st aba count :
  fl_state fs (p, c) init st aba count ⊣⊢
  aligned fs sizeof_freelist_state LF_ALIGN_DOUBLE_POINTER [p; c; init; st; aba; count].
Proof.
  unfold fl_state, aligned, pair_at, FS_TOP, FS_INIT, FS_STATE, FS_ABA, FS_COUNT. simpl.
  rw Z.add_0_r -!Z.add_assoc /=.
  iSplit.
  - iIntros "(%Ha & Hh & (H0 & H1) & H2 & H3 & H4 & H5)". iFrame. done.
  - iIntros "((%Ha & _) & Hh & H0 & H1 & H2 & H3 & H4 & H5 & _)". iFrame. done.
Qed.

Lemma freelist_push_spec fs init st count l x :
  {{{ freelist fs init st count l ∗ fl_node x }}} freelist_push fs x.1
  {{{ _u, freelist fs init st count (x :: l) }}}.
Proof.
  iIntros (Φ) "[(%top & %aba & (%Ha & Hh & Htop & Hi & Hs & Haba & Hc) & Hl) Hx] HΦ".
  iDestruct "Hx" as ([np nc]) "(Hn & %Hx & Hxh & Hxd)". destruct top as [p c].
  unfold freelist_push. wp_assert; [eauto with addr|]. wp_assert; [eauto with addr|].
  unfold abstraction_increment. wp_assert; [eauto with addr|]. wp_incr. wp_load. wp_load.
  iApply wp_loop. unfold freelist_push_body. wp_store. wp_store. wp_abs_dcas.
  iApply wp_ret. iApply "HΦ". iExists (x.1, aba +w 1), (aba +w 1). iFrame. iSplitR; [done|].
  iSplit; iPureIntro; [|done]. by destruct Hx as (? & ? & ?).
Qed.

Lemma freelist_get_data_spec fe d :
  {{{ fl_node (fe, d) }}} freelist_get_data fe {{{ r, ⟨r = (d, d)⟩ ∗ fl_node (fe, d) }}}.
Proof.
  iIntros (Φ) "(%next & Hn & %Hx & Hh & Hd) HΦ". simpl. unfold freelist_get_data.
  wp_assert; [eauto with addr|]. wp_load. wp_load. iApply wp_ret. iApply "HΦ".
  iSplitR; [done|]. iExists next. by iFrame.
Qed.

Lemma freelist_set_data_spec fe d v :
  {{{ fl_node (fe, d) }}} freelist_set_data fe v {{{ _u, fl_node (fe, v) }}}.
Proof.
  iIntros (Φ) "(%next & Hn & %Hx & Hh & Hd) HΦ". simpl. unfold freelist_set_data.
  wp_assert; [eauto with addr|]. wp_store. iApply wp_ret. iApply "HΦ".
  iExists next. by iFrame.
Qed.

(** ** The initialisation callback *)

(** With no callback the data is null; a callback either stores data for which
    [D] holds and answers 1, or answers 0. *)
Definition init_spec (init st : Z) (D : Z -> hProp) (cost : nat) : Prop :=
  if init =? NULL then cost = 0%nat /\ (⊢ D NULL)
  else forall d, 0 < d ->
    {{{ cell d ∗ credits cost }}} icall init d st {{{ rv, ⟨rv = 1⟩ ∗ ∃ v, d ↦ v ∗ D v }}}.

Definition element_cost (cost : nat) : nat :=
  (aligned_cost sizeof_freelist_element LF_ALIGN_DOUBLE_POINTER + cost)%nat.

Lemma alignable_element : alignable sizeof_freelist_element LF_ALIGN_DOUBLE_POINTER.
Proof. done. Qed.
Lemma alignable_state : alignable sizeof_freelist_state LF_ALIGN_DOUBLE_POINTER.
Proof. done. Qed.

(** An element is made from the fields of the state alone. *)
Lemma freelist_new_element_state fs top init st aba count D cost :
  init_spec init st D cost ->
  {{{ fl_state fs top init st aba count ∗ credits (element_cost cost) }}}
    freelist_internal_new_element fs
  {{{ r, ∃ d, ⟨r.1 = 1⟩ ∗ fl_node (r.2, d) ∗ D d ∗ fl_state fs top init st aba (count +w 1) }}}.
Proof.
  iIntros (Hinit Φ) "[(%Ha & Hh & Htop & Hi & Hs & Haba & Hc) Hcr] HΦ".
  unfold freelist_internal_new_element, init_spec in *.
  iDestruct (credits_add with "Hcr") as "[Hcr1 Hcr2]".
  wp_assert; [eauto with addr|].
  iApply wp_bind. iApply (aligned_malloc_spec with "Hcr1"); [apply alignable_element|].
  iIntros (fe) "(%vs & Hfe)".
  iDestruct "Hfe" as ((Hfe & Hlen)) "Hfe".
  destruct vs as [|a [|b [|d [|]]]]; simpl in Hlen; unfold sizeof_freelist_element in Hlen; try lia.
  iDestruct (fl_node_aligned fe d with "[Hfe]") as ([na nb]) "(Hn & _ & Hnh & Hd)".
  { iExists a, b. iFrame. done. }
  cbn [fst snd]. wp_load. destruct (Z.eqb_spec init NULL) as [->|Hne].
  - destruct Hinit as [-> HD]. wp_store. wp_load. change (non_null NULL) with false.
    wp_simpl. change (1 =? 1) with true. unfold abstraction_increment.
    wp_assert; [eauto with addr|]. wp_incr.
    iApply (wp_credits 0). iFrame "Hcr2". iApply wp_ret. iApply "HΦ". iExists NULL.
    iSplitR; [done|]. iSplitL "Hn Hnh Hd"; [iExists (na, nb); by iFrame|].
    iSplitR; [by iApply HD|]. by iFrame.
  - wp_load. rw (non_null_ne init) //. wp_load. wp_load. wp_call.
    iApply (Hinit with "[Hd Hcr2]"); [unfold FE_DATA; destruct Hfe; lia|by iFrame|].
    iIntros (rv) "(-> & %v & Hd & HD)". change (wrap 1) with 1. change (1 =? 0) with false.
    wp_simpl. change (1 =? 1) with true. unfold abstraction_increment.
    wp_assert; [eauto with addr|]. wp_incr.
    iApply wp_ret. iApply "HΦ". iExists v. iSplitR; [done|].
    iSplitL "Hn Hnh Hd"; [iExists (na, nb); by iFrame|]. iFrame "HD".
    by iFrame.
Qed.

Lemma freelist_internal_new_element_spec fs init st count l D cost :
  init_spec init st D cost ->
  {{{ freelist fs init st count l ∗ credits (element_cost cost) }}}
    freelist_internal_new_element fs
  {{{ r, ∃ d, ⟨r.1 = 1⟩ ∗ fl_node (r.2, d) ∗ D d ∗ freelist fs init st (count +w 1) l }}}.
Proof.
  iIntros (Hinit Φ) "[(%top & %aba & Hf & Hl) Hcr] HΦ". iApply (freelist_new_element_state with "[$Hf $Hcr]"); [done|].
  iIntros (r) "(%d & %Hr & Hn & HD & Hf)". iApply "HΦ". iExists d. iFrame. done.
Qed.

(** The remaining [k] elements are made and pushed, one after the other. *)
Lemma freelist_new_elements_loop fs init st D cost number_elements k :
  init_spec init st D cost -> is_word number_elements ->
  forall n l j, j + Z.of_nat k = number_elements -> 0 <= j ->
  {{{ freelist fs init st (wrap n) l ∗ credits (k * element_cost cost) }}}
    loop (freelist_new_elements_body fs number_elements) (j, j)
  {{{ r, ∃ new, ⟨r = number_elements /\ length new = k⟩ ∗
         freelist fs init st (wrap (n + k)) (new ++ l) ∗ [∗ list] x ∈ new, D x.2 }}}.
Proof.
  intros Hinit Hw. unfold is_word in Hw.
  induction k as [|k IH]; iIntros (n l j Hj Hj0 Φ) "[Hf Hcr] HΦ";
    iApply wp_loop; unfold freelist_new_elements_body at 1.
  - rw (proj2 (Z.ltb_ge j number_elements)); last lia.
    iApply (wp_credits 0). iFrame "Hcr". iApply wp_ret. iApply "HΦ". iExists [].
    rw Z.add_0_r. iFrame. iSplitR; [|done]. iPureIntro. split; [lia|done].
  - rw (proj2 (Z.ltb_lt j number_elements)); last lia.
    iDestruct (credits_add with "Hcr") as "[Hcr1 Hcr]".
    wp_call. iApply (freelist_internal_new_element_spec with "[$Hf $Hcr1]"); [done|].
    iIntros ([rv fe]) "(%d & %Hrv & Hfe & HD & Hf)". simpl in Hrv |- *. subst rv.
    change (truthy 1) with true. wp_call.
    iApply (freelist_push_spec _ _ _ _ _ (fe, d) with "[$Hf $Hfe]").
    iIntros ([]) "Hf". iApply wp_ret. rw wrap_add_l (wrap_small (j + 1)); last (unfold is_word; lia).
    iApply (IH with "[$Hf $Hcr]"); [lia|lia|].
    iIntros (r) "(%new & %Hr & Hf & HDs)". destruct Hr as [-> Hlen]. iApply "HΦ". iExists (new ++ [(fe, d)]).
    rw -app_assoc /=. replace (n + 1 + k) with (n + S k) by lia. iFrame "Hf".
    iSplitR; [iPureIntro; split; [done|rw length_app /=; lia]|].
    rw big_sepL_snoc. iFrame.
Qed.

Lemma freelist_new_elements_spec fs init st D cost number_elements n l :
  init_spec init st D cost -> is_word number_elements ->
  {{{ freelist fs init st (wrap n) l ∗ credits (Z.to_nat number_elements * element_cost cost) }}}
    freelist_new_elements fs number_elements
  {{{ r, ∃ new, ⟨r = number_elements /\ Z.of_nat (length new) = number_elements⟩ ∗
         freelist fs init st (wrap (n + number_elements)) (new ++ l) ∗ [∗ list] x ∈ new, D x.2 }}}.
Proof.
  iIntros (Hinit Hw Φ) "[Hf Hcr] HΦ". unfold freelist_new_elements, is_word in *.
  iDestruct (freelist_non_null with "Hf") as %Hnn.
  wp_assert. iApply (freelist_new_elements_loop with "[$Hf $Hcr]"); [done..|lia|lia|].
  iIntros (r) "(%new & %Hr & Hf & HDs)". destruct Hr as [-> Hlen]. iApply "HΦ". iExists new.
  rw Hlen. rw !Z2Nat.id; [|lia..]. iFrame. done.
Qed.

(** The room [freelist_new] takes for [n] elements. *)
Definition freelist_cost (cost : nat) (number_elements : Z) : nat :=
  (aligned_cost sizeof_freelist_state LF_ALIGN_DOUBLE_POINTER +
   Z.to_nat number_elements * element_cost cost)%nat.

Lemma freelist_new_spec a number_elements init st D cost :
  init_spec init st D cost -> is_word number_elements ->
  {{{ cell a ∗ credits (freelist_cost cost number_elements) }}}
    freelist_new a number_elements init st
  {{{ rv, ∃ fs l, ⟨rv = 1 /\ 0 < fs /\ Z.of_nat (length l) = number_elements⟩ ∗ a ↦ fs ∗
         freelist fs init st number_elements l ∗ [∗ list] x ∈ l, D x.2 }}}.
Proof.
  iIntros (Hinit Hw Φ) "[(%v & Ha) Hcr] HΦ". unfold freelist_new.
  iDestruct (credits_add with "Hcr") as "[Hcr1 Hcr]".
  wp_call. iApply (aligned_malloc_spec with "Hcr1"); [apply alignable_state|].
  iIntros (fs) "(%vs & Hfs)". iDestruct (aligned_facts with "Hfs") as %[Hfs Hlen].
  destruct vs as [|w0 [|w1 [|w2 [|w3 [|w4 [|w5 [|]]]]]]]; simpl in Hlen;
    unfold sizeof_freelist_state in Hlen; try lia.
  wp_store. rw (aligned_addr_non_null0 fs _ _ Hfs). rw -fl_state_aligned.
  iDestruct "Hfs" as "(_ & Hh & Htop & Hi & Hs & Haba & Hc)".
  do 6 wp_store. wp_call.
  iApply (freelist_new_elements_spec fs init st D cost number_elements 0 [] with "[$Hcr Hh Htop Hi Hs Haba Hc]");
    [done|done| |].
  { iExists (NULL, 0), 0. iFrame. by iSplitR. }
  iIntros (r) "(%new & %Hr & Hf & HDs)". destruct Hr as [-> Hl].
  rw Z.eqb_refl. wp_simpl. iApply wp_ret. iApply "HΦ". iExists fs, new.
  rw app_nil_r Z.add_0_l wrap_small //. iFrame. iPureIntro. by destruct Hfs.
Qed.

(** The destructor callback takes the data back. *)
Definition delete_spec (del st : Z) (D : Z -> hProp) : Prop :=
  if del =? NULL then forall d, D d ⊢ emp
  else forall d, {{{ D d }}} icall del d st {{{ _rv, emp }}}.

Lemma freelist_delete_loop fs init st count l del dst D :
  delete_spec del dst D ->
  {{{ freelist fs init st count l ∗ [∗ list] x ∈ l, D x.2 }}}
    loop (freelist_delete_body fs del dst) tt
  {{{ _u, freelist fs init st count [] }}}.
Proof.
  intros Hdel. induction l as [|[fe d] l IH]; iIntros (Φ) "[Hf HDs] HΦ";
    iApply wp_loop; unfold freelist_delete_body at 1;
    wp_call; iApply (freelist_pop_spec with "Hf"); iIntros (r) "Hr".
  - iDestruct "Hr" as "[-> Hf]". iApply wp_ret. by iApply "HΦ".
  - iDestruct "Hr" as "(-> & Hn & Hf)". iDestruct "HDs" as "[HD HDs]". cbn [fst snd].
    iDestruct (fl_node_addr with "Hn") as %Ha. rw (aligned_addr_non_null0 fe _ _ Ha).
    iApply (wp_bind (if non_null del then _ else _)). unfold delete_spec, non_null in *.
    destruct (Z.eqb_spec del NULL) as [->|Hne]; simpl.
    + iDestruct (Hdel with "HD") as "_". iApply wp_ret.
      iDestruct (fl_node_aligned with "Hn") as (a b) "Hn".
      wp_call. iApply (aligned_free_spec with "Hn"). iIntros ([]) "_". iApply wp_ret.
      iApply (IH with "[$Hf $HDs] HΦ").
    + wp_call. iApply (freelist_get_data_spec with "Hn"). iIntros (r) "[-> Hn]".
      wp_call. iApply (Hdel with "HD"). iIntros (rv) "_". iApply wp_ret.
      iDestruct (fl_node_aligned with "Hn") as (a b) "Hn".
      wp_call. iApply (aligned_free_spec with "Hn"). iIntros ([]) "_". iApply wp_ret.
      iApply (IH with "[$Hf $HDs] HΦ").
Qed.

(** Deleting a freelist gives all of its memory back. *)
Lemma freelist_delete_spec fs init st count l del dst D :
  delete_spec del dst D ->
  {{{ freelist fs init st count l ∗ [∗ list] x ∈ l, D x.2 }}}
    freelist_delete fs del dst
  {{{ _u, emp }}}.
Proof.
  iIntros (Hdel Φ) "[Hf HDs] HΦ". unfold freelist_delete.
  iDestruct (freelist_non_null with "Hf") as %Hnn.
  wp_assert. wp_call. iApply (freelist_delete_loop with "[$Hf $HDs]"); [done|].
  iIntros ([]) "(%top & %aba & Hs & %Hl)". destruct top as [p c].
  rw fl_state_aligned. iApply (aligned_free_spec with "Hs HΦ").
Qed.

(** Despite its name, [freelist_guaranteed_pop] never takes an element from the
    list: it always makes a new one. *)
Lemma freelist_guaranteed_pop_spec fs init st count l D cost :
  init_spec init st D cost ->
  {{{ freelist fs init st count l ∗ credits (element_cost cost) }}}
    freelist_guaranteed_pop fs
  {{{ fe, ∃ d, fl_node (fe, d) ∗ D d ∗ freelist fs init st (count +w 1) l }}}.
Proof.
  iIntros (Hinit Φ) "[Hf Hcr] HΦ". unfold freelist_guaranteed_pop.
  iDestruct (freelist_non_null with "Hf") as %Hnn.
  wp_assert. wp_call. iApply (freelist_internal_new_element_spec with "[$Hf $Hcr]"); [done|].
  iIntros ([rv fe]) "(%d & _ & Hn & HD & Hf)". iApply wp_ret. iApply "HΦ". iExists d. iFrame.
Qed.

(** ** Validation *)

(** The verdict on a list of [n] elements without a loop. *)
Definition list_verdict (n : nat) (vi : option validation_info) : data_structure_validity :=
  match vi with
  | Some vi => check_count vi (wrap n) VALIDITY_VALID
  | None => VALIDITY_VALID
  end.

Lemma freelist_internal_validate_spec fs init st count l vi :
  {{{ freelist fs init st count l }}} freelist_internal_validate fs vi
  {{{ v, ⟨v = list_verdict (length l) vi⟩ ∗ freelist fs init st count l }}}.
Proof.
  iIntros (Φ) "(%top & %aba & (%Ha & Hh & [Htop Hctr] & Hrest) & Hl) HΦ".
  unfold freelist_internal_validate. wp_assert; [eauto with addr|]. wp_load.
  wp_call. iApply (detect_loop_chain with "Hl"). iIntros (s) "[%Hs Hl]". rw Hs. cbv zeta.
  destruct vi as [vi|].
  - case_decide as Hd; [|done]. wp_load. wp_call. iApply (count_chain_chain with "Hl").
    iIntros (n) "[-> Hl]". iApply wp_ret. iApply "HΦ". iSplitR; [done|].
    iExists top, aba. by iFrame.
  - iApply wp_ret. iApply "HΦ". iSplitR; [done|]. iExists top, aba. by iFrame.
Qed.

(** The same in any memory, whatever its [next] pointers: the function answers,
    and what it answers. *)
Definition walk_verdict (h : heap) (top : Z) (vi : option validation_info)
    (v : data_structure_validity) : Prop :=
  ((forall i, visits h top i ≠ 0) -> v = VALIDITY_INVALID_LOOP) /\
  (forall n, visits h top n = 0 -> (forall i, (i < n)%nat -> visits h top i ≠ 0) ->
     v = list_verdict n vi).

Lemma count_chain_exactly h p n :
  walkable h p -> visits h p n = 0 -> (forall i, (i < n)%nat -> visits h p i ≠ 0) ->
  {{{ exactly h }}} count_chain p {{{ r, exactly h ∗ ⟨r = wrap n⟩ }}}.
Proof. intros Hw Hn Hlt. by apply (count_chain_spec _ (visits h p)); [apply visits_walk|..]. Qed.

Lemma freelist_internal_validate_exactly h fs top vi :
  0 < fs -> h !! Word (fs + FS_TOP) = Some top -> walkable h top ->
  {{{ exactly h }}} freelist_internal_validate fs vi
  {{{ v, ⟨walk_verdict h top vi v⟩ ∗ exactly h }}}.
Proof.
  iIntros (Hfs Htop Hw Φ) "Hh HΦ". unfold freelist_internal_validate.
  wp_assert; [by apply non_null_pos|]. iDestruct (exactly_acc with "Hh") as "[Hp Hcl]"; [done|].
  wp_load. iDestruct ("Hcl" with "Hp") as "Hh".
  wp_call. iApply (detect_loop_exactly with "Hh"); [done|]. iIntros (s) "[%Hs Hh]". cbv zeta.
  destruct (loop_found s).
  - assert (walk_verdict h top vi VALIDITY_INVALID_LOOP).
    { split; [done|]. intros n Hn _. by destruct (proj1 Hs eq_refl n). }
    destruct vi; [case_decide as Hd; [done|]|]; iApply wp_ret; iApply "HΦ"; by iFrame.
  - destruct (first_null h top) as (n & Hn & Hlt); [done|by intros ?%Hs|].
    assert (walk_verdict h top vi (list_verdict n vi)).
    { split; [intros Hne; by destruct (Hne n)|]. intros m Hm Hltm. f_equal.
      destruct (Nat.lt_trichotomy m n) as [?|[?|?]]; [by destruct (Hlt m)|done|by destruct (Hltm n)]. }
    destruct vi as [vi|]; [|iApply wp_ret; iApply "HΦ"; by iFrame].
    case_decide as Hd; [|done]. iDestruct (exactly_acc with "Hh") as "[Hp Hcl]"; [done|].
    wp_load. iDestruct ("Hcl" with "Hp") as "Hh".
    wp_call. iApply (count_chain_exactly with "Hh"); [done..|]. iIntros (r) "[Hh ->]".
    iApply wp_ret. iApply "HΦ". by iFrame.
Qed.

Lemma freelist_query_spec fs init st count l q vi :
  (q = FREELIST_QUERY_ELEMENT_COUNT -> vi = None) ->
  {{{ freelist fs init st count l }}} freelist_query fs q vi
  {{{ r, ⟨r = match q with
              | FREELIST_QUERY_ELEMENT_COUNT => OutCount count
              | FREELIST_QUERY_VALIDATE => OutValidity (list_verdict (length l) vi)
              end⟩ ∗ freelist fs init st count l }}}.
Proof.
  iIntros (Hq Φ) "Hf HΦ". iDestruct (freelist_non_null with "Hf") as %Hnn.
  unfold freelist_query. wp_assert. wp_simpl. destruct q.
  - rw Hq //. wp_simpl. iDestruct "Hf" as (top aba) "[(%Ha & Hh & Htop & Hi & Hs & Haba & Hc) Hl]".
    wp_load. iApply wp_ret. iApply "HΦ". iSplitR; [done|]. iExists top, aba. by iFrame.
  - wp_call. iApply (freelist_internal_validate_spec with "Hf"). iIntros (v) "[-> Hf]".
    iApply wp_ret. iApply "HΦ". by iFrame.
Qed.
End specs.

(** ** Clients of the freelist

    The client holds the elements it has taken, the latest first. *)

Inductive fl_op : Set :=
| FlPop
| FlGuaranteedPop
| FlPush
| FlSetData (d : Z)
| FlGetData
| FlQuery (q : freelist_query_type) (vi : option validation_info).

Inductive fl_out : Set :=
| FlDone (b : bool)
| FlData (d : Z)
| FlAnswer (o : query_output).

(** A query with the arguments the code accepts. *)
Definition query_input (q : freelist_query_type) (vi : option validation_info)
  : option validation_info :=
  match q with FREELIST_QUERY_ELEMENT_COUNT => None | FREELIST_QUERY_VALIDATE => vi end.

Section client.
Context {LK : Linker} (fs : Z).

Definition fl_take (fe : Z) (held : list Z) : prog (fl_out * list Z) :=
  if non_null fe then Ret (FlDone true, fe :: held) else Ret (FlDone false, held).

Definition fl_exec (op : fl_op) (held : list Z) : prog (fl_out * list Z) :=
  match op, held with
  | FlPop, _ => let! fe := freelist_pop fs in fl_take fe held
  | FlGuaranteedPop, _ => let! fe := freelist_guaranteed_pop fs in fl_take fe held
  | FlPush, fe :: held => freelist_push fs fe;; Ret (FlDone true, held)
  | FlSetData d, fe :: _ => freelist_set_data fe d;; Ret (FlDone true, held)
  | FlGetData, fe :: _ => let! (d, _) := freelist_get_data fe in Ret (FlData d, held)
  | FlQuery q vi, _ => let! o := freelist_query fs q (query_input q vi) in Ret (FlAnswer o, held)
  | _, [] => Ret (FlDone false, [])
  end.

Fixpoint fl_return_all (held : list Z) : prog unit :=
  match held with
  | [] => Ret tt
  | fe :: held => freelist_push fs fe;; fl_return_all held
  end.
End client.

(** The abstract freelist: how many elements there are, the data of those in
    the list and of those held by the client. *)
Record fl_abs : Set := FlAbs { fl_count : Z; fl_free : list Z; fl_held : list Z }.

Definition fl_aexec (op : fl_op) (s : fl_abs) : fl_out * fl_abs :=
  let '(FlAbs n free held) := s in
  match op with
  | FlPop =>
      match free with
      | d :: free => (FlDone true, FlAbs n free (d :: held))
      | [] => (FlDone false, s)
      end
  | FlGuaranteedPop => (FlDone true, FlAbs (n +w 1) free (NULL :: held))
  | FlPush =>
      match held with
      | d :: held => (FlDone true, FlAbs n (d :: free) held)
      | [] => (FlDone false, s)
      end
  | FlSetData d =>
      match held with
      | _ :: held => (FlDone true, FlAbs n free (d :: held))
      | [] => (FlDone false, s)
      end
  | FlGetData =>
      match held with
      | d :: _ => (FlData d, s)
      | [] => (FlDone false, s)
      end
  | FlQuery FREELIST_QUERY_ELEMENT_COUNT _ => (FlAnswer (OutCount n), s)
  | FlQuery FREELIST_QUERY_VALIDATE vi =>
      (FlAnswer (OutValidity (list_verdict (length free) vi)), s)
  end.

(** A freelist without callbacks, used from [freelist_new] to
    [freelist_delete]. *)
Definition freelist_client {LK : Linker} (number_elements : Z) (ops : list fl_op)
  : prog (list fl_out) :=
  with_variable (fun a =>
    freelist_new a number_elements NULL NULL;;
    let! fs := load a in
    let! (outs, held) := script (fl_exec fs) ops [] in
    fl_return_all fs held;;
    freelist_delete fs NULL NULL;;
    Ret outs).

Definition fl_op_cost (op : fl_op) : nat :=
  match op with FlGuaranteedPop => element_cost 0 | _ => 0%nat end.

Definition freelist_client_cost (number_elements : Z) (ops : list fl_op) : nat :=
  (variable_cost + (freelist_cost 0 number_elements + script_cost fl_op_cost ops))%nat.

Section client_specs.
Context {AL : Allocator} {AO : AllocatorOk} {LK : Linker}.

Definition no_data (d : Z) : hProp := ⟨d = NULL⟩.

Lemma no_init : init_spec NULL NULL no_data 0.
Proof. split; [done|]. by iIntros "". Qed.

Lemma no_data_list (l : list (Z * Z)) :
  ([∗ list] x ∈ l, no_data x.2) ⊢ ⟨l.*2 = replicate (length l) NULL⟩.
Proof.
  induction l as [|x l IH]; simpl; [by iIntros "_"|]. rw IH. iIntros "[%Hx %Hl]".
  iPureIntro. by f_equal.
Qed.

Definition fl_rep (fs : Z) (s : fl_abs) (held : list Z) : hProp :=
  (∃ lf lh, ⟨lf.*2 = fl_free s /\ lh.*2 = fl_held s /\ lh.*1 = held⟩ ∗
     freelist fs NULL NULL (fl_count s) lf ∗ [∗ list] x ∈ lh, fl_node x)%I.

Lemma fl_take_spec fs n free held hs fe d Φ :
  fl_node (fe, d) -∗ fl_rep fs (FlAbs n free held) hs -∗
  (∀ r, ⟨r.1 = FlDone true⟩ ∗ fl_rep fs (FlAbs n free (d :: held)) r.2 -∗ Φ r) -∗
  wp (fl_take fe hs) Φ.
Proof.
  iIntros "Hn (%lf & %lh & %H & Hf & Hh) HΦ". iDestruct (fl_node_addr with "Hn") as %Ha.
  unfold fl_take. simpl in *. rw (aligned_addr_non_null0 fe _ _ Ha). iApply wp_ret.
  iApply "HΦ". iSplitR; [done|]. iExists lf, ((fe, d) :: lh). iFrame. iPureIntro. simpl.
  destruct H as (? & ? & ?). simplify_eq/=. done.
Qed.

Lemma fl_exec_pop fs s hs :
  {{{ fl_rep fs s hs }}} fl_exec fs FlPop hs
  {{{ r, ⟨r.1 = (fl_aexec FlPop s).1⟩ ∗ fl_rep fs (fl_aexec FlPop s).2 r.2 }}}.
Proof.
  destruct s as [n free held]. iIntros (Φ) "(%lf & %lh & %H & Hf & Hh) HΦ".
  simpl in H. destruct H as (<- & ? & ?). unfold fl_exec.
  wp_call. iApply (freelist_pop_spec with "Hf"). iIntros (fe) "Hr". destruct lf as [|[fe' d] lf].
  - iDestruct "Hr" as "[-> Hf]". iApply wp_ret. iApply "HΦ". iSplitR; [done|].
    iExists [], lh. by iFrame.
  - iDestruct "Hr" as "(-> & Hn & Hf)". iApply (fl_take_spec with "Hn [Hf Hh]"); [|done].
    iExists lf, lh. by iFrame.
Qed.

Lemma fl_exec_guaranteed_pop fs s hs :
  {{{ fl_rep fs s hs ∗ credits (element_cost 0) }}} fl_exec fs FlGuaranteedPop hs
  {{{ r, ⟨r.1 = FlDone true⟩ ∗ fl_rep fs (fl_aexec FlGuaranteedPop s).2 r.2 }}}.
Proof.
  destruct s as [n free held]. iIntros (Φ) "[(%lf & %lh & %H & Hf & Hh) Hc] HΦ".
  unfold fl_exec. wp_call.
  iApply (freelist_guaranteed_pop_spec with "[$Hf $Hc]"); [apply no_init|].
  iIntros (fe) "(%d & Hn & -> & Hf)". iApply (fl_take_spec with "Hn [Hf Hh]"); [|done].
  iExists lf, lh. by iFrame.
Qed.

Lemma fl_exec_push fs s hs :
  {{{ fl_rep fs s hs }}} fl_exec fs FlPush hs
  {{{ r, ⟨r.1 = (fl_aexec FlPush s).1⟩ ∗ fl_rep fs (fl_aexec FlPush s).2 r.2 }}}.
Proof.
  destruct s as [n free held]. iIntros (Φ) "(%lf & %lh & %H & Hf & Hh) HΦ".
  simpl in H. destruct H as (? & <- & <-). unfold fl_exec. destruct lh as [|x lh].
  - iApply wp_ret. iApply "HΦ". iSplitR; [done|]. iExists lf, []. by iFrame.
  - iDestruct "Hh" as "[Hx Hh]". cbn [fmap list_fmap]. wp_call.
    iApply (freelist_push_spec with "[$Hf $Hx]"). iIntros ([]) "Hf".
    iApply wp_ret. iApply "HΦ". iSplitR; [done|]. iExists (x :: lf), lh. iFrame.
    iPureIntro. simpl in *. by subst free.
Qed.

Lemma fl_exec_data fs s hs op :
  match op with FlSetData _ | FlGetData => True | _ => False end ->
  {{{ fl_rep fs s hs }}} fl_exec fs op hs
  {{{ r, ⟨r.1 = (fl_aexec op s).1⟩ ∗ fl_rep fs (fl_aexec op s).2 r.2 }}}.
Proof.
  destruct s as [n free held]. iIntros (Hop Φ) "(%lf & %lh & %H & Hf & Hh) HΦ".
  simpl in H. destruct H as (Hfree & <- & <-). unfold fl_exec. destruct lh as [|[fe d'] lh].
  - destruct op; try done; iApply wp_ret; iApply "HΦ"; (iSplitR; [done|]);
      iExists lf, []; by iFrame.
  - iDestruct "Hh" as "[Hx Hh]". cbn [fmap list_fmap fst]. destruct op as [| | |d| |]; try done.
    + wp_call. iApply (freelist_set_data_spec with "Hx"). iIntros ([]) "Hx".
      iApply wp_ret. iApply "HΦ". iSplitR; [done|]. iExists lf, ((fe, d) :: lh). by iFrame.
    + wp_call. iApply (freelist_get_data_spec with "Hx"). iIntros (r) "[-> Hx]".
      iApply wp_ret. iApply "HΦ". iSplitR; [done|]. iExists lf, ((fe, d') :: lh). by iFrame.
Qed.

Lemma fl_exec_query fs s hs q vi :
  {{{ fl_rep fs s hs }}} fl_exec fs (FlQuery q vi) hs
  {{{ r, ⟨r.1 = (fl_aexec (FlQuery q vi) s).1⟩ ∗ fl_rep fs (fl_aexec (FlQuery q vi) s).2 r.2 }}}.
Proof.
  destruct s as [n free held]. iIntros (Φ) "(%lf & %lh & %H & Hf & Hh) HΦ".
  simpl in H. destruct H as (<- & ? & ?). unfold fl_exec. wp_call.
  iApply (freelist_query_spec with "Hf"); [by intros ->|]. iIntros (o) "[-> Hf]".
  iApply wp_ret. iApply "HΦ". iSplitR.
  - destruct q; simpl; by rw ?length_fmap.
  - iExists lf, lh. destruct q; by iFrame.
Qed.

#[export] Instance freelist_simulates fs : Simulates (fl_exec fs) fl_aexec fl_op_cost (fl_rep fs).
Proof.
  iIntros (op s hs Φ) "[HI Hc] HΦ". destruct op.
  2: { iApply (fl_exec_guaranteed_pop with "[$HI $Hc]"). destruct s. iApply "HΦ". }
  all: iApply (wp_credits 0); iFrame "Hc".
  - iApply (fl_exec_pop with "HI HΦ").
  - iApply (fl_exec_push with "HI HΦ").
  - by iApply (fl_exec_data with "HI HΦ").
  - by iApply (fl_exec_data with "HI HΦ").
  - iApply (fl_exec_query with "HI HΦ").
Qed.

Lemma fl_return_all_spec fs s hs :
  {{{ fl_rep fs s hs }}} fl_return_all fs hs
  {{{ _u, ∃ l, freelist fs NULL NULL (fl_count s) l }}}.
Proof.
  destruct s as [n free held]. iIntros (Φ) "(%lf & %lh & %H & Hf & Hh) HΦ".
  destruct H as (_ & _ & <-). simpl. clear free held.
  iInduction lh as [|x lh] "IH" forall (lf); simpl.
  - iApply wp_ret. iApply "HΦ". by iExists lf.
  - iDestruct "Hh" as "[Hx Hh]". wp_call. iApply (freelist_push_spec with "[$Hf $Hx]").
    iIntros ([]) "Hf". iApply ("IH" with "Hf Hh HΦ").
Qed.

(** Every script answers what the abstract freelist answers. *)
Lemma freelist_client_spec number_elements ops :
  is_word number_elements ->
  let free := replicate (Z.to_nat number_elements) NULL in
  {{{ credits (freelist_client_cost number_elements ops) }}} freelist_client number_elements ops
  {{{ outs, ⟨outs = (ascript fl_aexec ops (FlAbs number_elements free [])).1⟩ }}}.
Proof.
  iIntros (Hw free Φ) "Hc HΦ". unfold freelist_client_cost.
  iDestruct (credits_add with "Hc") as "[Hv Hc]".
  iApply (with_variable_spec _ (credits _) with "[$Hv $Hc] HΦ"). clear Φ.
  iIntros (a _ Φ) "[Ha Hc] HΦ". iDestruct (credits_add with "Hc") as "[Hn Hc]".
  wp_call. iApply (freelist_new_spec with "[$Ha $Hn]"); [apply no_init|done|].
  iIntros (rv) "(%fs & %l & %H & Ha & Hf & HD)". destruct H as (_ & _ & Hlen). wp_load.
  iDestruct (no_data_list with "HD") as "%Hl".
  assert (l.*2 = free) by (unfold free; rw Hl; f_equal; lia).
  wp_call. iApply (script_refines _ _ _ (fl_rep fs) ops (FlAbs number_elements free []) with "[Hf Hc]").
  { iFrame "Hc". iExists l, []. iFrame "Hf". simpl. by iSplit. }
  iIntros ([outs held]) "[%Ho HI]". simpl in Ho. subst outs. wp_call. iApply (fl_return_all_spec with "HI").
  iIntros ([]) "(%l' & Hf)". wp_call.
  iApply (freelist_delete_spec _ _ _ _ _ NULL NULL (fun _ => emp)%I with "[Hf]"); [done|by iFrame|].
  iIntros ([]) "_". iApply wp_ret. iApply "HΦ". iSplitL; [by iExists fs|done].
Qed.
End client_specs.

(** ** The freelist as a whole *)

Section claims.
Context {AL : Allocator} {AO : AllocatorOk} {LK : Linker}.

(** C4. The freelist refines its abstract machine: a client that makes a
    freelist of any size, runs any script of pops, guaranteed pops, pushes,
    data accesses and queries on it and deletes it gets, from every memory with
    room for the elements, the answers of a last-in first-out list; and the
    whole run gives back every byte, so that the memory at the end is the
    memory at the start. *)
Theorem freelist_refines number_elements ops h :
  is_word number_elements ->
  (freelist_client_cost number_elements ops <= alloc_room h)%nat ->
  exists k, run k (freelist_client number_elements ops) h =
    Done (ascript fl_aexec ops
            (FlAbs number_elements (replicate (Z.to_nat number_elements) NULL) [])).1 h.
Proof.
  intros Hw Hc. apply (run_closed_eq _ _ _ _ (freelist_client_spec number_elements ops Hw) Hc).
Qed.

(** C29. In every memory in which the links from the top are mapped as far as the
    walk goes, [freelist_internal_validate] answers and changes nothing: it reports a loop when the walk from the top never reaches null,
    and otherwise the verdict on the number of elements walked. *)
Theorem freelist_validate_decides h fs top vi :
  0 < fs -> h !! Word (fs + FS_TOP) = Some top -> walkable h top ->
  exists k v, run k (freelist_internal_validate fs vi) h = Done v h /\ walk_verdict h top vi v.
Proof.
  intros Hfs Htop Hw. apply run_exactly. iIntros "Hh".
  iApply (freelist_internal_validate_exactly with "Hh"); [done..|]. by iIntros (v) "[$ $]".
Qed.

(** When the state cannot be allocated, [freelist_new] answers 0, stores a
    null pointer for its caller and changes nothing else. *)
Theorem freelist_new_no_memory a number_elements init st h v :
  alloc_base h (sizeof_freelist_state + 8 + LF_ALIGN_DOUBLE_POINTER) = 0 ->
  h !! Word a = Some v ->
  run 2 (freelist_new a number_elements init st) h = Done 0 (<[Word a := 0]> h).
Proof.
  intros Hb Ha. etrans; [apply (run_act 1 (AMalloc _) _ h 0 h)|].
  { simpl. unfold exec_malloc. by rw Hb. }
  etrans; [apply (run_act 0 (AStore _ _) _ h tt (<[Word a := 0]> h)); simpl; by rw Ha|]. done.
Qed.

(** When an element cannot be allocated, [freelist_internal_new_element]
    does not report it: it tests the address of its result and not the result,
    and writes through a null pointer. *)
Theorem freelist_new_element_no_memory fs h :
  0 < fs ->
  alloc_base h (sizeof_freelist_element + 8 + LF_ALIGN_DOUBLE_POINTER) = 0 ->
  h !! Word (fs + FS_INIT) = Some NULL -> h !! Word (NULL + FE_DATA) = None ->
  run 3 (freelist_internal_new_element fs) h = Error BadAccess h.
Proof.
  intros Hfs Hb Hi Hn. unfold freelist_internal_new_element. rw (non_null_pos fs Hfs).
  etrans; [apply (run_act 2 (AMalloc _) _ h 0 h)|].
  { simpl. unfold exec_malloc. by rw Hb. }
  etrans; [apply (run_act 1 (ALoad _) _ h NULL h); simpl; by rw Hi|].
  simpl. by rw Hn.
Qed.
End claims.

(** ** Witnesses *)

(** A program whose callbacks are all null. *)
Definition no_callbacks : Linker := fun _ _ _ => Crash BadAccess.

Definition sample_script : list fl_op :=
  [FlPop; FlSetData 7; FlPop; FlPop; FlGuaranteedPop; FlPush; FlGetData; FlPush; FlPush; FlPop;
   FlGetData; FlQuery FREELIST_QUERY_ELEMENT_COUNT None;
   FlQuery FREELIST_QUERY_VALIDATE (Some {| min_element := 0; max_element := 1 |})].

Lemma freelist_refines_witness : exists k,
  @run arena _ k (@freelist_client no_callbacks 2 sample_script) ∅ =
  Done [FlDone true; FlDone true; FlDone true; FlDone false; FlDone true; FlDone true; FlData 0;
        FlDone true; FlDone true; FlDone true; FlData 7; FlAnswer (OutCount 3);
        FlAnswer (OutValidity VALIDITY_INVALID_ADDITIONAL_ELEMENTS)] ∅.
Proof.
  apply (@freelist_refines arena arena_ok no_callbacks 2 sample_script ∅).
  - done.
  - apply arena_room. by vm_compute.
Defined.

(** Two elements, each the successor of the other. *)
Definition looped_heap : heap := {[Word 16 := 48; Word 48 := 80; Word 80 := 48]}.

Lemma looped_heap_visits i : visits looped_heap 48 i = if Nat.even i then 48 else 80.
Proof.
  induction i as [|i IH]; [done|]. cbn [visits]. rw IH Nat.even_succ -Nat.negb_even.
  by destruct (Nat.even i).
Qed.

Lemma freelist_validate_decides_witness :
  (exists k v, @run arena _ k (freelist_internal_validate 16 None) looped_heap =
     Done v looped_heap /\ walk_verdict looped_heap 48 None v) /\ walkable looped_heap 48.
Proof.
  assert (walkable looped_heap 48).
  { intros i _. rw looped_heap_visits. destruct (Nat.even i); by eexists. }
  split; [|done]. by apply (@freelist_validate_decides arena arena_ok looped_heap 16 48 None).
Defined.

Lemma freelist_new_no_memory_witness :
  @run (small_arena 64) _ 2 (@freelist_new no_callbacks 16 4 NULL NULL) {[Word 16 := 5]}
  = Done 0 (<[Word 16 := 0]> {[Word 16 := 5]}).
Proof. by apply (@freelist_new_no_memory (small_arena 64) no_callbacks 16 4 NULL NULL _ 5). Defined.

Lemma freelist_new_element_no_memory_witness :
  @run (small_arena 64) _ 3 (@freelist_internal_new_element no_callbacks 16)
    {[Word (16 + FS_INIT) := NULL]} = Error BadAccess {[Word (16 + FS_INIT) := NULL]}.
Proof. by apply (@freelist_new_element_no_memory (small_arena 64) no_callbacks 16). Defined.
