(* ===== verification/Pooled.v ===== *)
(** * Elements that live in a freelist.

    [struct stack_element] and [struct queue_element] have the same layout, and
    the same life: they are made by the callback of a freelist, hang off its
    elements while unused, and own their freelist element while used. *)
From S2P Require Import Prelude Machine SepLogic Alloc Script Basic Chain Freelist.
#[local] Open Scope Z_scope.
#[local] Open Scope prog_scope.

(** [next[2]], [fe], [data]. *)
Definition EL_FE : Z := 16.
Definition EL_DATA : Z := 24.
Definition sizeof_element : Z := 32.

(** The callbacks that make and destroy the elements. *)
Definition pooled_init (data state : Z) : prog Z :=
  c_assert (non_null data);;
  c_assert (negb (non_null state));;
  let! p := aligned_malloc sizeof_element LF_ALIGN_DOUBLE_POINTER in
  store data p;;
  let! p := load data in
  Ret (if non_null p then 1 else 0).

Definition pooled_delete (data state : Z) : prog unit :=
  c_assert (non_null data);;
  c_assert (negb (non_null state));;
  aligned_free data.

(** ** Assertions *)

(** An element that is in the freelist. *)
Definition pooled_node (p : Z) : hProp :=
  (∃ vs, aligned p sizeof_element LF_ALIGN_DOUBLE_POINTER vs)%I.

(** What a used element [(p, fe, data)] owns besides its [next] pair: its other
    fields, and the freelist element it came with. *)
Definition pooled_elem (x : Z * Z * Z) : hProp :=
  (⟨aligned_addr x.1.1 sizeof_element LF_ALIGN_DOUBLE_POINTER⟩ ∗
   aligned_hdr x.1.1 sizeof_element LF_ALIGN_DOUBLE_POINTER ∗
   (x.1.1 + EL_FE) ↦ x.1.2 ∗ (x.1.1 + EL_DATA) ↦ x.2 ∗ fl_node (x.1.2, x.1.1))%I.

Abbreviation pooled_ptr := (fun x : Z * Z * Z => x.1.1).

(** A freelist of [nfree] unused elements, out of [total] ever made. *)
Definition pooled_freelist (init fs total : Z) (nfree : nat) : hProp :=
  (∃ free, ⟨length free = nfree⟩ ∗ freelist fs init NULL total free ∗
     [∗ list] x ∈ free, pooled_node x.2)%I.

(** ** Specifications *)

Section specs.
Context {AL : Allocator} {AO : AllocatorOk} {LK : Linker}.

Lemma alignable_pooled : alignable sizeof_element LF_ALIGN_DOUBLE_POINTER.
Proof. done. Qed.

Definition pooled_cost : nat := aligned_cost sizeof_element LF_ALIGN_DOUBLE_POINTER.

Lemma pooled_init_spec f :
  f ≠ 0 -> (forall d st, icall f d st = pooled_init d st) ->
  init_spec f NULL pooled_node pooled_cost.
Proof.
  intros Hf Hcall. unfold init_spec. rw (proj2 (Z.eqb_neq _ _) Hf).
  iIntros (d Hd Φ) "[(%v & Hd) Hc] HΦ". rw Hcall.
  unfold pooled_init. wp_assert; [by apply non_null_pos|]. wp_assert.
  wp_call. iApply (aligned_malloc_spec with "Hc"); [apply alignable_pooled|].
  iIntros (p) "(%vs & Hp)". iDestruct (aligned_facts with "Hp") as %[Ha _].
  wp_store. wp_load. rw (aligned_addr_non_null0 p _ _ Ha). iApply wp_ret. iApply "HΦ".
  iSplitR; [done|]. iExists p. iFrame.
Qed.

Lemma pooled_delete_spec f :
  f ≠ 0 -> (forall d st, icall f d st = (pooled_delete d st;; Ret 0)) ->
  delete_spec f NULL pooled_node.
Proof.
  intros Hf Hcall. unfold delete_spec. rw (proj2 (Z.eqb_neq _ _) Hf).
  iIntros (d Φ) "(%vs & Hd) HΦ". rw Hcall. unfold pooled_delete.
  iDestruct (aligned_facts with "Hd") as %[Ha _].
  wp_assert; [eauto with addr|]. wp_assert. wp_call. iApply (aligned_free_spec with "Hd").
  iIntros ([]) "_". iApply wp_ret. by iApply "HΦ".
Qed.

Lemma pooled_node_elem p :
  pooled_node p ⊢ ∃ next fe d,
    ⟨aligned_addr p sizeof_element LF_ALIGN_DOUBLE_POINTER⟩ ∗
    aligned_hdr p sizeof_element LF_ALIGN_DOUBLE_POINTER ∗
    (p + NEXT) ↦₂ next ∗ (p + EL_FE) ↦ fe ∗ (p + EL_DATA) ↦ d.
Proof.
  iIntros "(%vs & Hp)". iDestruct (aligned_facts with "Hp") as %[Ha Hlen].
  destruct vs as [|a [|b [|fe [|d [|]]]]]; simpl in Hlen; unfold sizeof_element in Hlen; try lia.
  iDestruct "Hp" as "(_ & Hh & H0 & H1 & H2 & H3 & _)".
  iExists (a, b), fe, d. unfold pair_at, NEXT, EL_FE, EL_DATA. simpl.
  rw Z.add_0_r -!Z.add_assoc /=. by iFrame.
Qed.

Lemma pooled_elem_node p next fe d :
  (p + NEXT) ↦₂ next ∗ pooled_elem (p, fe, d) ⊢ pooled_node p ∗ fl_node (fe, p).
Proof.
  iIntros "([H0 H1] & %Ha & Hh & H2 & H3 & $)". cbn [fst snd] in *.
  iExists [next.1; next.2; fe; d]. unfold NEXT, EL_FE, EL_DATA.
  unfold aligned. rw /= Z.add_0_r -!Z.add_assoc /=. iFrame. done.
Qed.

(** ** The operations of the freelist, on pooled elements *)

Lemma pooled_new_spec a number_elements init :
  init_spec init NULL pooled_node pooled_cost -> is_word number_elements ->
  {{{ cell a ∗ credits (freelist_cost pooled_cost number_elements) }}}
    freelist_new a number_elements init NULL
  {{{ rv, ∃ fs, ⟨rv = 1 /\ 0 < fs⟩ ∗ a ↦ fs ∗
          pooled_freelist init fs number_elements (Z.to_nat number_elements) }}}.
Proof.
  iIntros (Hi Hw Φ) "Hc HΦ". iApply (freelist_new_spec with "Hc"); [done..|].
  iIntros (rv) "(%fs & %l & %Hr & Ha & Hf & Hn)". iApply "HΦ". iExists fs. iFrame "Ha".
  iSplitR; [iPureIntro; tauto|]. iExists l. iFrame. iPureIntro. lia.
Qed.

Lemma pooled_pop_spec init fs total nfree :
  {{{ pooled_freelist init fs total nfree }}} freelist_pop fs
  {{{ fe, match nfree with
          | O => ⟨fe = NULL⟩ ∗ pooled_freelist init fs total 0
          | S nfree => ∃ p, ⟨0 < fe⟩ ∗ fl_node (fe, p) ∗ pooled_node p ∗
                            pooled_freelist init fs total nfree
          end }}}.
Proof.
  iIntros (Φ) "(%free & <- & Hf & Hn) HΦ". iApply (freelist_pop_spec with "Hf").
  iIntros (fe) "Hr". iApply "HΦ". destruct free as [|[fe' p] free].
  - iDestruct "Hr" as "[-> Hf]". iSplitR; [done|]. iExists []. by iFrame.
  - iDestruct "Hr" as "(-> & Hfe & Hf)". iDestruct "Hn" as "[Hp Hn]".
    iDestruct (fl_node_addr with "Hfe") as %[Hpos _].
    iExists p. iFrame "Hfe Hp". iSplitR; [done|]. iExists free. by iFrame.
Qed.

Lemma pooled_guaranteed_pop_spec init fs total nfree :
  init_spec init NULL pooled_node pooled_cost ->
  {{{ pooled_freelist init fs total nfree ∗ credits (element_cost pooled_cost) }}}
    freelist_guaranteed_pop fs
  {{{ fe, ∃ p, ⟨0 < fe⟩ ∗ fl_node (fe, p) ∗ pooled_node p ∗
               pooled_freelist init fs (total +w 1) nfree }}}.
Proof.
  iIntros (Hi Φ) "[(%free & <- & Hf & Hn) Hc] HΦ".
  iApply (freelist_guaranteed_pop_spec with "[$Hf $Hc]"); [done|].
  iIntros (fe) "(%p & Hfe & Hp & Hf)". iDestruct (fl_node_addr with "Hfe") as %[Hpos _].
  iApply "HΦ". iExists p. iFrame "Hfe Hp". iSplitR; [done|]. iExists free. by iFrame.
Qed.

Lemma pooled_push_spec init fs total nfree fe p :
  {{{ pooled_freelist init fs total nfree ∗ fl_node (fe, p) ∗ pooled_node p }}}
    freelist_push fs fe
  {{{ _u, pooled_freelist init fs total (S nfree) }}}.
Proof.
  iIntros (Φ) "((%free & <- & Hf & Hn) & Hfe & Hp) HΦ".
  iApply (freelist_push_spec _ _ _ _ _ (fe, p) with "[$Hf $Hfe]"). iIntros ([]) "Hf".
  iApply "HΦ". iExists ((fe, p) :: free). by iFrame.
Qed.

Lemma pooled_freelist_delete_spec init fs total nfree del :
  delete_spec del NULL pooled_node ->
  {{{ pooled_freelist init fs total nfree }}} freelist_delete fs del NULL {{{ _u, emp }}}.
Proof.
  iIntros (Hd Φ) "(%free & _ & Hf & Hn) HΦ". by iApply (freelist_delete_spec with "[$Hf $Hn] HΦ").
Qed.

Lemma pooled_query_spec init fs total nfree q vi :
  (q = FREELIST_QUERY_ELEMENT_COUNT -> vi = None) ->
  {{{ pooled_freelist init fs total nfree }}} freelist_query fs q vi
  {{{ r, ⟨r = match q with
              | FREELIST_QUERY_ELEMENT_COUNT => OutCount total
              | FREELIST_QUERY_VALIDATE => OutValidity (list_verdict nfree vi)
              end⟩ ∗ pooled_freelist init fs total nfree }}}.
Proof.
  iIntros (Hq Φ) "(%free & <- & Hf & Hfree) HΦ".
  iApply (freelist_query_spec with "Hf"); [done|]. iIntros (r) "[-> Hf]". iApply "HΦ".
  iSplitR; [done|]. iExists free. by iFrame.
Qed.
End specs.
