(* ===== verification/Stack.v ===== *)
(** * src/basic/lf_stack.c: a stack whose elements come from a freelist. *)
From S2P Require Import Prelude Machine SepLogic Alloc Script Basic Chain Freelist Pooled.
#[local] Open Scope Z_scope.
#[local] Open Scope prog_scope.

(** ** Layout (src/basic/lf_stack.h) *)

(** [struct stack_state]: [top[2]], [aba_counter], [fs]. *)
Definition SS_TOP : Z := 0.
Definition SS_ABA : Z := 16.
Definition SS_FS : Z := 24.
Definition sizeof_stack_state : Z := 32.

(** [struct stack_element]: [next[2]], [fe], [data]. *)
Abbreviation SE_FE := EL_FE.
Abbreviation SE_DATA := EL_DATA.
Abbreviation sizeof_stack_element := sizeof_element.

Inductive stack_query_type : Set :=
| STACK_QUERY_ELEMENT_COUNT
| STACK_QUERY_VALIDATE.

(** What a query stores at its [output]: a count, or the verdicts on the stack
    and on its freelist, the second only when it is written. *)
Inductive stack_query_output : Set :=
| StackCount (n : Z)
| StackValidity (sv : data_structure_validity) (fv : option data_structure_validity).

(** ** Operations *)

(** The addresses of the callbacks [stack_new] and [stack_delete] pass on. *)
Class StackSymbols : Type := {
  fp_stack_init : Z;
  fp_stack_delete : Z;
}.

Section code.
Context {LK : Linker} {SY : StackSymbols}.

Definition stack_internal_freelist_init_function (data state : Z) : prog Z :=
  c_assert (non_null data);;
  c_assert (negb (non_null state));;
  let! p := aligned_malloc sizeof_stack_element LF_ALIGN_DOUBLE_POINTER in
  store data p;;
  let! p := load data in
  Ret (if non_null p then 1 else 0).

Definition stack_internal_freelist_delete_function (data state : Z) : prog unit :=
  c_assert (non_null data);;
  c_assert (negb (non_null state));;
  aligned_free data.

(** [ss] is the address of the caller's pointer; the test [NULL != ss] of the
    code is about that address. *)
Definition stack_new (ss number_elements : Z) : prog Z :=
  c_assert (non_null ss);;
  let! p := aligned_malloc sizeof_stack_state LF_ALIGN_DOUBLE_POINTER in
  store ss p;;
  let! p := load ss in
  freelist_new (p + SS_FS) number_elements fp_stack_init NULL;;
  let! p := load ss in
  let! fs := load (p + SS_FS) in
  (if fs =? NULL then let! p := load ss in aligned_free p;; store ss NULL else Ret tt);;
  let! p := load ss in
  let! fs := load (p + SS_FS) in
  let! rv :=
    (if non_null fs then
       store (p + SS_TOP) NULL;;
       store (p + SS_TOP + 8) 0;;
       store (p + SS_ABA) 0;;
       Ret 1
     else Ret 0) in
  barrier;;
  Ret rv.

(** The exchange words are read from the [next] pair before each swap. *)
Definition stack_pop_body (ss : Z) (se : Z * Z) : prog ((Z * Z) + option (Z * Z)) :=
  if se.1 =? NULL then Ret (inr None)
  else
    let! next_p := load (se.1 + NEXT) in
    let! next_c := load (se.1 + NEXT + 8) in
    let! (ok, se) := abstraction_dcas (ss + SS_TOP) (next_p, next_c) se in
    if ok then Ret (inr (Some se)) else Ret (inl se).

(** [Some data]: 1 with [data] stored through the argument; [None]: 0. *)
Definition stack_pop (ss : Z) : prog (option Z) :=
  c_assert (non_null ss);;
  barrier;;
  let! p := load (ss + SS_TOP) in
  let! c := load (ss + SS_TOP + 8) in
  let! se := loop (stack_pop_body ss) (p, c) in
  match se with
  | None => Ret None
  | Some se =>
      let! data := load (se.1 + SE_DATA) in
      let! fs := load (ss + SS_FS) in
      let! fe := load (se.1 + SE_FE) in
      freelist_push fs fe;;
      Ret (Some data)
  end.

Definition stack_internal_push_body (ss : Z) (se org_top : Z * Z) : prog ((Z * Z) + unit) :=
  store (se.1 + NEXT) org_top.1;;
  store (se.1 + NEXT + 8) org_top.2;;
  let! (ok, org_top) := abstraction_dcas (ss + SS_TOP) se org_top in
  if ok then Ret (inr tt) else Ret (inl org_top).

Definition stack_internal_push (ss : Z) (se : Z * Z) : prog unit :=
  c_assert (non_null ss);;
  barrier;;
  let! p := load (ss + SS_TOP) in
  let! c := load (ss + SS_TOP + 8) in
  loop (stack_internal_push_body ss se) (p, c).

(** Answers the pair [se]. *)
Definition stack_internal_init_element (ss fe data : Z) : prog (Z * Z) :=
  c_assert (non_null ss);;
  c_assert (non_null fe);;
  let! (p, _) := freelist_get_data fe in
  let! c := abstraction_increment (ss + SS_ABA) in
  store (p + NEXT) NULL;;
  store (p + NEXT + 8) 0;;
  store (p + SE_FE) fe;;
  store (p + SE_DATA) data;;
  Ret (p, c).

(** Without an element only [se[STACK_POINTER]] is set; the callers do not read
    the counter then. *)
Definition stack_internal_new_element_from_freelist (ss data : Z) : prog (Z * Z) :=
  c_assert (non_null ss);;
  let! fs := load (ss + SS_FS) in
  let! fe := freelist_pop fs in
  if non_null fe then stack_internal_init_element ss fe data else Ret (NULL, 0).

Definition stack_internal_new_element (ss data : Z) : prog (Z * Z) :=
  c_assert (non_null ss);;
  let! fs := load (ss + SS_FS) in
  let! fe := freelist_guaranteed_pop fs in
  if non_null fe then stack_internal_init_element ss fe data else Ret (NULL, 0).

Definition stack_push (ss data : Z) : prog Z :=
  c_assert (non_null ss);;
  let! se := stack_internal_new_element_from_freelist ss data in
  if se.1 =? NULL then Ret 0
  else stack_internal_push ss se;; Ret 1.

Definition stack_guaranteed_push (ss data : Z) : prog Z :=
  c_assert (non_null ss);;
  let! se := stack_internal_new_element ss data in
  if se.1 =? NULL then Ret 0
  else stack_internal_push ss se;; Ret 1.

Definition stack_clear_body (ss clear_func state : Z) (_ : unit) : prog (unit + unit) :=
  let! r := stack_pop ss in
  match r with
  | Some data =>
      (if non_null clear_func then icall clear_func data state;; Ret tt else Ret tt);;
      Ret (inl tt)
  | None => Ret (inr tt)
  end.

Definition stack_clear (ss clear_func state : Z) : prog unit :=
  c_assert (non_null ss);;
  loop (stack_clear_body ss clear_func state) tt.

Definition stack_delete (ss delete_func state : Z) : prog unit :=
  c_assert (non_null ss);;
  loop (stack_clear_body ss delete_func state) tt;;
  let! fs := load (ss + SS_FS) in
  freelist_delete fs fp_stack_delete NULL;;
  aligned_free ss.

Definition stack_use (ss : Z) : prog unit :=
  c_assert (non_null ss);;
  barrier.

(** The verdict stored through [sv], and the one stored through [fv], if any. *)
Definition stack_internal_validate (ss : Z) (vi : option validation_info)
  : prog (data_structure_validity * option data_structure_validity) :=
  c_assert (non_null ss);;
  let! top := load (ss + SS_TOP) in
  let! cursors := detect_loop top in
  let sv := if loop_found cursors then VALIDITY_INVALID_LOOP else VALIDITY_VALID in
  match vi with
  | Some vi =>
      let! sv :=
        (if decide (sv = VALIDITY_VALID) then
           let! top := load (ss + SS_TOP) in
           let! element_count := count_chain top in
           Ret (check_count vi element_count sv)
         else Ret sv) in
      let! fs := load (ss + SS_FS) in
      let! o := freelist_query fs FREELIST_QUERY_ELEMENT_COUNT None in
      let total_elements := out_count o in
      let fvi := {| min_element := total_elements -w max_element vi;
                    max_element := total_elements -w min_element vi |} in
      let! fs := load (ss + SS_FS) in
      freelist_query fs FREELIST_QUERY_VALIDATE (Some fvi);;
      let! fs := load (ss + SS_FS) in
      let! o := freelist_query fs FREELIST_QUERY_VALIDATE None in
      Ret (sv, Some (out_validity o))
  | None => Ret (sv, None)
  end.

(** [has_input]: whether [input] is not null when a count is asked for. *)
Definition stack_query (ss : Z) (query_type : stack_query_type) (has_input : bool)
    (vi : option validation_info) : prog stack_query_output :=
  c_assert (non_null ss);;
  barrier;;
  match query_type with
  | STACK_QUERY_ELEMENT_COUNT =>
      c_assert has_input;;
      let! fs := load (ss + SS_FS) in
      let! o := freelist_query fs FREELIST_QUERY_ELEMENT_COUNT None in
      Ret (StackCount (out_count o))
  | STACK_QUERY_VALIDATE =>
      let! fs := load (ss + SS_FS) in
      let! o := freelist_query fs FREELIST_QUERY_VALIDATE None in
      if decide (out_validity o = VALIDITY_VALID) then
        let! (sv, fv) := stack_internal_validate ss vi in
        Ret (StackValidity sv fv)
      else Ret (StackValidity (out_validity o) None)
  end.
End code.

(** The callbacks are linked at their addresses. *)
Class StackLinked {LK : Linker} {SY : StackSymbols} : Prop := {
  fp_stack_init_ne : fp_stack_init ≠ 0;
  fp_stack_delete_ne : fp_stack_delete ≠ 0;
  icall_stack_init d st :
    icall fp_stack_init d st = stack_internal_freelist_init_function d st;
  icall_stack_delete d st :
    icall fp_stack_delete d st = (stack_internal_freelist_delete_function d st;; Ret 0);
}.

(** ** Assertions *)

Definition stack_state (ss : Z) (top : Z * Z) (aba fs : Z) : hProp :=
  (⟨aligned_addr ss sizeof_stack_state LF_ALIGN_DOUBLE_POINTER⟩ ∗
   aligned_hdr ss sizeof_stack_state LF_ALIGN_DOUBLE_POINTER ∗
   (ss + SS_TOP) ↦₂ top ∗ (ss + SS_ABA) ↦ aba ∗ (ss + SS_FS) ↦ fs)%I.

(** A stack at [ss] of [total] elements, [nfree] of them unused, holding the
    data [l], top first. *)
Definition stack {SY : StackSymbols} (ss total : Z) (nfree : nat) (l : list Z) : hProp :=
  (∃ top aba fs used, ⟨used.*2 = l⟩ ∗ stack_state ss top aba fs ∗
     chain pooled_ptr pooled_elem used top ∗ pooled_freelist fp_stack_init fs total nfree)%I.

(** ** Specifications *)

Section specs.
Context {AL : Allocator} {AO : AllocatorOk} {LK : Linker} {SY : StackSymbols} {SL : StackLinked}.

Lemma alignable_stack_state : alignable sizeof_stack_state LF_ALIGN_DOUBLE_POINTER.
Proof. done. Qed.

Lemma stack_init_spec : init_spec fp_stack_init NULL pooled_node pooled_cost.
Proof. apply pooled_init_spec; [apply fp_stack_init_ne|apply icall_stack_init]. Qed.

Lemma stack_node_delete_spec : delete_spec fp_stack_delete NULL pooled_node.
Proof. apply pooled_delete_spec; [apply fp_stack_delete_ne|apply icall_stack_delete]. Qed.

Lemma stack_non_null ss total nfree l : stack ss total nfree l ⊢ ⌜non_null ss = true⌝.
Proof. iIntros "(% & % & % & % & % & (% & _) & _)". iPureIntro. eauto with addr. Qed.

(** Pushing an initialised element. *)
Lemma stack_internal_push_spec ss top aba fs used se c fe d :
  {{{ stack_state ss top aba fs ∗ chain pooled_ptr pooled_elem used top ∗
      (∃ next, (se + NEXT) ↦₂ next) ∗ pooled_elem (se, fe, d) }}}
    stack_internal_push ss (se, c)
  {{{ _u, stack_state ss (se, c) aba fs ∗
      chain pooled_ptr pooled_elem ((se, fe, d) :: used) (se, c) }}}.
Proof.
  iIntros (Φ) "((%Ha & Hh & Htop & Haba & Hfs) & Hl & (%next & Hn) & %Hse & Hse) HΦ".
  destruct top as [p c0], next as [np nc]. unfold stack_internal_push. wp_assert; [eauto with addr|].
  wp_load. wp_load. iApply wp_loop. unfold stack_internal_push_body. cbn [fst snd].
  wp_store. wp_store. wp_abs_dcas. iApply wp_ret. iApply "HΦ". iFrame. simpl in *.
  iSplit; [done|]. iPureIntro. destruct Hse as (? & ? & ?). done.
Qed.

Lemma stack_internal_init_element_spec ss top aba fs fe se data :
  {{{ stack_state ss top aba fs ∗ fl_node (fe, se) ∗ pooled_node se }}}
    stack_internal_init_element ss fe data
  {{{ r, ⟨r = (se, aba +w 1) /\ 0 < se⟩ ∗ stack_state ss top (aba +w 1) fs ∗
         (∃ next, (se + NEXT) ↦₂ next) ∗ pooled_elem (se, fe, data) }}}.
Proof.
  iIntros (Φ) "((%Ha & Hh & Htop & Haba & Hfs) & Hfe & Hse) HΦ".
  iDestruct (fl_node_addr with "Hfe") as %Hfe. simpl in Hfe.
  iDestruct (pooled_node_elem with "Hse") as ([a b] fe' d') "(%Hse & Hsh & Hn & H2 & H3)".
  unfold stack_internal_init_element. wp_assert; [eauto with addr|]. wp_assert; [eauto with addr|].
  wp_call. iApply (freelist_get_data_spec with "Hfe"). iIntros (r) "[-> Hfe]".
  unfold abstraction_increment. wp_assert; [eauto with addr|]. wp_incr. do 4 wp_store.
  iApply wp_ret. iApply "HΦ". iFrame. simpl. iSplit; [|done]. iPureIntro. by destruct Hse.
Qed.

(** What the two ways to find an element share. *)
Lemma stack_push_element ss top aba fs used fe se data total nfree :
  {{{ stack_state ss top aba fs ∗ chain pooled_ptr pooled_elem used top ∗
      fl_node (fe, se) ∗ pooled_node se ∗ pooled_freelist fp_stack_init fs total nfree }}}
    (let! se := (if non_null fe then stack_internal_init_element ss fe data else Ret (NULL, 0)) in
     if se.1 =? NULL then Ret 0 else stack_internal_push ss se;; Ret 1)
  {{{ rv, ⟨rv = 1⟩ ∗ stack ss total nfree (data :: used.*2) }}}.
Proof.
  iIntros (Φ) "(Hs & Hl & Hfe & Hse & Hf) HΦ".
  iDestruct (fl_node_addr with "Hfe") as %Hfe. rw (aligned_addr_non_null0 _ _ _ Hfe).
  wp_call. iApply (stack_internal_init_element_spec with "[$Hs $Hfe $Hse]").
  iIntros (r) "(%Hr & Hs & Hn & Hse)". destruct Hr as [-> Hpos].
  cbn [fst]. rw (proj2 (Z.eqb_neq se NULL)); last (unfold NULL; lia).
  wp_call. iApply (stack_internal_push_spec with "[$Hs $Hl $Hn $Hse]").
  iIntros ([]) "[Hs Hl]". iApply wp_ret. iApply "HΦ". iSplitR; [done|].
  iExists (se, aba +w 1), (aba +w 1), fs, ((se, fe, data) :: used). by iFrame.
Qed.

Lemma stack_push_spec ss total nfree l data :
  {{{ stack ss total nfree l }}} stack_push ss data
  {{{ rv, match nfree with
          | O => ⟨rv = 0⟩ ∗ stack ss total 0 l
          | S nfree => ⟨rv = 1⟩ ∗ stack ss total nfree (data :: l)
          end }}}.
Proof.
  iIntros (Φ) "Hs HΦ". iDestruct (stack_non_null with "Hs") as %Hnn.
  iDestruct "Hs" as (top aba fs used) "(<- & (%Ha & Hh & Htop & Haba & Hfs) & Hl & Hf)".
  unfold stack_push, stack_internal_new_element_from_freelist. wp_assert. wp_assert. wp_load.
  wp_call. iApply (pooled_pop_spec with "Hf"). iIntros (fe) "Hr". destruct nfree as [|nfree].
  - iDestruct "Hr" as "[-> Hf]". change (non_null NULL) with false. wp_simpl. iApply wp_ret.
    iApply "HΦ". iSplitR; [done|]. iExists top, aba, fs, used. iFrame. by iSplit.
  - iDestruct "Hr" as (se) "(%Hfe & Hfe & Hse & Hf)".
    iApply (stack_push_element with "[$Hl $Hfe $Hse $Htop $Haba $Hfs $Hh $Hf] HΦ"). done.
Qed.

Lemma stack_guaranteed_push_spec ss total nfree l data :
  {{{ stack ss total nfree l ∗ credits (element_cost pooled_cost) }}}
    stack_guaranteed_push ss data
  {{{ rv, ⟨rv = 1⟩ ∗ stack ss (total +w 1) nfree (data :: l) }}}.
Proof.
  iIntros (Φ) "[Hs Hc] HΦ". iDestruct (stack_non_null with "Hs") as %Hnn.
  iDestruct "Hs" as (top aba fs used) "(<- & (%Ha & Hh & Htop & Haba & Hfs) & Hl & Hf)".
  unfold stack_guaranteed_push, stack_internal_new_element. wp_assert. wp_assert. wp_load.
  wp_call. iApply (pooled_guaranteed_pop_spec with "[$Hf $Hc]"); [apply stack_init_spec|].
  iIntros (fe) "(%se & %Hfe & Hfe & Hse & Hf)".
  iApply (stack_push_element with "[$Hl $Hfe $Hse $Htop $Haba $Hfs $Hh $Hf] HΦ"). done.
Qed.

Lemma stack_pop_spec ss total nfree l :
  {{{ stack ss total nfree l }}} stack_pop ss
  {{{ r, match l with
         | [] => ⟨r = None⟩ ∗ stack ss total nfree []
         | d :: l => ⟨r = Some d⟩ ∗ stack ss total (S nfree) l
         end }}}.
Proof.
  iIntros (Φ) "Hs HΦ". iDestruct (stack_non_null with "Hs") as %Hnn.
  iDestruct "Hs" as (top aba fs used) "(<- & (%Ha & Hh & Htop & Haba & Hfs) & Hl & Hf)".
  destruct top as [p c]. unfold stack_pop. wp_assert. wp_load. wp_load.
  wp_call. iApply wp_loop. unfold stack_pop_body. cbn [fst snd].
  destruct used as [|[[se fe] d] used]; cbn [chain_to].
  - iDestruct "Hl" as %Hp. simpl in Hp. subst p. simpl. do 2 iApply wp_ret. iApply "HΦ".
    iSplitR; [done|]. iExists (0, c), aba, fs, []. by iFrame.
  - iDestruct "Hl" as ([np nc]) "(%Hp & Hn & Hse & Hl)". simpl in Hp. destruct Hp as (-> & Hpos & Hal).
    rw (proj2 (Z.eqb_neq se NULL)); last (unfold NULL; lia). cbn [fst snd].
    wp_load. wp_load. wp_abs_dcas. iApply wp_ret. cbn [fst snd].
    iDestruct "Hse" as "(%Hse & Hsh & Hsfe & Hsd & Hfe)". cbn [fst snd]. wp_load. wp_load. wp_load.
    iDestruct (pooled_elem_node se (np, nc) fe d with "[$Hn $Hsh $Hsfe $Hsd $Hfe]") as "[Hse Hfe]"; [done|].
    wp_call. iApply (pooled_push_spec with "[$Hf $Hfe $Hse]"). iIntros ([]) "Hf".
    iApply wp_ret. iApply "HΦ". iSplitR; [done|]. iExists (np, nc), aba, fs, used. iFrame.
    by iSplit.
Qed.

(** The loop that [stack_clear] and [stack_delete] share pops every element and
    hands its data to the callback. *)
Lemma stack_clear_loop ss total nfree l f st D :
  delete_spec f st D ->
  {{{ stack ss total nfree l ∗ [∗ list] d ∈ l, D d }}} loop (stack_clear_body ss f st) tt
  {{{ _u, stack ss total (length l + nfree) [] }}}.
Proof.
  intros Hf. revert nfree.
  induction l as [|d l IH]; iIntros (nfree Φ) "[Hs HD] HΦ"; iApply wp_loop;
    unfold stack_clear_body at 1; wp_call; iApply (stack_pop_spec with "Hs"); iIntros (r) "[-> Hs]".
  - iApply wp_ret. by iApply "HΦ".
  - iDestruct "HD" as "[Hd HD]". iApply (wp_bind (if non_null f then _ else _)).
    unfold delete_spec, non_null in *. destruct (Z.eqb_spec f NULL) as [->|Hne]; simpl.
    + iDestruct (Hf with "Hd") as "_". iApply wp_ret. iApply wp_ret.
      iApply (IH with "[$Hs $HD]"). iIntros ([]) "Hs". rw Nat.add_succ_r. by iApply "HΦ".
    + wp_call. iApply (Hf with "Hd"). iIntros (rv) "_". do 2 iApply wp_ret.
      iApply (IH with "[$Hs $HD]"). iIntros ([]) "Hs". rw Nat.add_succ_r. by iApply "HΦ".
Qed.

Lemma stack_clear_spec ss total nfree l f st D :
  delete_spec f st D ->
  {{{ stack ss total nfree l ∗ [∗ list] d ∈ l, D d }}} stack_clear ss f st
  {{{ _u, stack ss total (length l + nfree) [] }}}.
Proof.
  iIntros (Hf Φ) "[Hs HD] HΦ". iDestruct (stack_non_null with "Hs") as %Hnn.
  unfold stack_clear. wp_assert. by iApply (stack_clear_loop with "[$Hs $HD] HΦ").
Qed.

Lemma stack_state_aligned ss p c aba fs :
  stack_state ss (p, c) aba fs ⊣⊢
  aligned ss sizeof_stack_state LF_ALIGN_DOUBLE_POINTER [p; c; aba; fs].
Proof.
  unfold stack_state, aligned, pair_at, SS_TOP, SS_ABA, SS_FS. simpl.
  rw Z.add_0_r -!Z.add_assoc /=. iSplit.
  - iIntros "(%Ha & Hh & (H0 & H1) & H2 & H3)". iFrame. done.
  - iIntros "((%Ha & _) & Hh & H0 & H1 & H2 & H3 & _)". iFrame. done.
Qed.

(** Deleting a stack gives all of its memory back. *)
Lemma stack_delete_spec ss total nfree l f st D :
  delete_spec f st D ->
  {{{ stack ss total nfree l ∗ [∗ list] d ∈ l, D d }}} stack_delete ss f st {{{ _u, emp }}}.
Proof.
  iIntros (Hf Φ) "[Hs HD] HΦ". iDestruct (stack_non_null with "Hs") as %Hnn.
  unfold stack_delete. wp_assert. wp_call. iApply (stack_clear_loop with "[$Hs $HD]"); [done|].
  iIntros ([]) "(%top & %aba & %fs & %used & %Hu & Hs & Hl & Hf)".
  apply fmap_nil_inv in Hu as ->. iDestruct "Hl" as "_". destruct top as [p c].
  iDestruct "Hs" as "(%Ha & Hh & Htop & Haba & Hfs)". wp_load.
  wp_call. iApply (pooled_freelist_delete_spec with "Hf"); [apply stack_node_delete_spec|].
  iIntros ([]) "_". iApply (aligned_free_spec ss _ _ [p; c; aba; fs] with "[Hh Htop Haba Hfs] HΦ").
  iApply stack_state_aligned. by iFrame.
Qed.

Definition stack_cost (number_elements : Z) : nat :=
  (aligned_cost sizeof_stack_state LF_ALIGN_DOUBLE_POINTER +
   freelist_cost pooled_cost number_elements)%nat.

Lemma stack_new_spec a number_elements :
  0 < a -> is_word number_elements ->
  {{{ cell a ∗ credits (stack_cost number_elements) }}} stack_new a number_elements
  {{{ rv, ∃ ss, ⟨rv = 1⟩ ∗ a ↦ ss ∗ stack ss number_elements (Z.to_nat number_elements) [] }}}.
Proof.
  iIntros (Ha Hw Φ) "[(%v & Ha) Hc] HΦ". iDestruct (credits_add with "Hc") as "[Hc1 Hc]".
  unfold stack_new. wp_assert; [by apply non_null_pos|].
  wp_call. iApply (aligned_malloc_spec with "Hc1"); [apply alignable_stack_state|].
  iIntros (ss) "(%vs & Hss)". iDestruct (aligned_facts with "Hss") as %[Hss Hlen].
  destruct vs as [|w0 [|w1 [|w2 [|w3 [|]]]]]; simpl in Hlen;
    unfold sizeof_stack_state in Hlen; try lia.
  rw -stack_state_aligned. iDestruct "Hss" as "(_ & Hh & Htop & Haba & Hfs)".
  wp_store. wp_load. wp_call.
  iApply (pooled_new_spec with "[Hfs $Hc]"); [apply stack_init_spec|done|by iExists w3|].
  iIntros (rv) "(%fs & %Hr & Hfs & Hf)". destruct Hr as (_ & Hfs).
  wp_load. wp_load. rw (proj2 (Z.eqb_neq fs NULL)); last (unfold NULL; lia).
  wp_load. wp_load. rw (non_null_pos fs) //. do 3 wp_store. iApply wp_ret. iApply "HΦ".
  iExists ss. iSplitR; [done|]. iFrame "Ha". iExists (NULL, 0), 0, fs, []. iSplitR; [done|].
  iFrame. by iSplit.
Qed.

(** ** Validation *)

(** The verdicts on a stack of [n] elements with [nfree] more in its freelist;
    the second verdict is always the last of the two queries, which has no
    bounds. *)
Definition stack_verdict (n : nat) (vi : option validation_info) : stack_query_output :=
  StackValidity (list_verdict n vi)
    (match vi with Some _ => Some VALIDITY_VALID | None => None end).

Lemma stack_internal_validate_spec ss total nfree l vi :
  {{{ stack ss total nfree l }}} stack_internal_validate ss vi
  {{{ r, ⟨StackValidity r.1 r.2 = stack_verdict (length l) vi⟩ ∗ stack ss total nfree l }}}.
Proof.
  iIntros (Φ) "(%top & %aba & %fs & %used & <- & (%Ha & Hh & [Htop Hctr] & Haba & Hfs) & Hl & Hf) HΦ".
  unfold stack_internal_validate. wp_assert; [eauto with addr|]. wp_load.
  wp_call. iApply (detect_loop_chain with "Hl"). iIntros (s) "[%Hs Hl]". rw Hs. cbv zeta.
  rw length_fmap. destruct vi as [vi|].
  - case_decide as Hd; [|done]. wp_load. wp_call. iApply (count_chain_chain with "Hl").
    iIntros (n) "[-> Hl]". wp_load.
    wp_call. iApply (pooled_query_spec with "Hf"); [done|]. iIntros (r) "[-> Hf]". wp_load.
    wp_call. iApply (pooled_query_spec with "Hf"); [done|]. iIntros (o) "[_ Hf]". wp_load.
    wp_call. iApply (pooled_query_spec with "Hf"); [done|]. iIntros (r) "[-> Hf]".
    iApply wp_ret. iApply "HΦ". iSplitR; [done|]. iExists top, aba, fs, used. by iFrame.
  - iApply wp_ret. iApply "HΦ". iSplitR; [done|]. iExists top, aba, fs, used. by iFrame.
Qed.

Lemma stack_query_spec ss total nfree l q vi :
  {{{ stack ss total nfree l }}} stack_query ss q true vi
  {{{ r, ⟨r = match q with
              | STACK_QUERY_ELEMENT_COUNT => StackCount total
              | STACK_QUERY_VALIDATE => stack_verdict (length l) vi
              end⟩ ∗ stack ss total nfree l }}}.
Proof.
  iIntros (Φ) "Hs HΦ". iDestruct (stack_non_null with "Hs") as %Hnn.
  unfold stack_query. wp_assert. wp_simpl.
  iDestruct "Hs" as (top aba fs used) "(%Hl & (%Ha & Hh & Htop & Haba & Hfs) & Hl & Hf)".
  destruct q.
  - wp_assert. wp_load. wp_call. iApply (pooled_query_spec with "Hf"); [done|].
    iIntros (r) "[-> Hf]". iApply wp_ret. iApply "HΦ". iSplitR; [done|].
    iExists top, aba, fs, used. by iFrame.
  - wp_load. wp_call. iApply (pooled_query_spec with "Hf"); [done|]. iIntros (r) "[-> Hf]".
    case_decide as Hd; [|done].
    wp_call. iApply (stack_internal_validate_spec ss total nfree l vi with "[-HΦ]").
    { iExists top, aba, fs, used. by iFrame. }
    iIntros ([sv fv]) "[%Hr Hs]". iApply wp_ret. iApply "HΦ". by iFrame.
Qed.
End specs.

(** ** Clients of the stack *)

Inductive stack_op : Set :=
| StPush (data : Z)
| StGuaranteedPush (data : Z)
| StPop
| StClear
| StQuery (q : stack_query_type) (vi : option validation_info).

Inductive stack_out : Set :=
| StPushed (rv : Z)
| StPopped (r : option Z)
| StCleared
| StAnswer (o : stack_query_output).

Definition stack_exec {LK : Linker} (ss : Z) (op : stack_op) (_ : unit) : prog (stack_out * unit) :=
  match op with
  | StPush d => let! rv := stack_push ss d in Ret (StPushed rv, tt)
  | StGuaranteedPush d => let! rv := stack_guaranteed_push ss d in Ret (StPushed rv, tt)
  | StPop => let! r := stack_pop ss in Ret (StPopped r, tt)
  | StClear => stack_clear ss NULL NULL;; Ret (StCleared, tt)
  | StQuery q vi => let! o := stack_query ss q true vi in Ret (StAnswer o, tt)
  end.

(** The abstract stack: its capacity as the freelist counts it, how many more
    elements it can take, and its data. *)
Record stack_abs : Set := StackAbs { st_total : Z; st_free : nat; st_data : list Z }.

Definition stack_aexec (op : stack_op) (s : stack_abs) : stack_out * stack_abs :=
  let '(StackAbs total nfree l) := s in
  match op with
  | StPush d =>
      match nfree with
      | O => (StPushed 0, s)
      | S nfree => (StPushed 1, StackAbs total nfree (d :: l))
      end
  | StGuaranteedPush d => (StPushed 1, StackAbs (total +w 1) nfree (d :: l))
  | StPop =>
      match l with
      | [] => (StPopped None, s)
      | d :: l => (StPopped (Some d), StackAbs total (S nfree) l)
      end
  | StClear => (StCleared, StackAbs total (length l + nfree) [])
  | StQuery STACK_QUERY_ELEMENT_COUNT _ => (StAnswer (StackCount total), s)
  | StQuery STACK_QUERY_VALIDATE vi => (StAnswer (stack_verdict (length l) vi), s)
  end.

Definition stack_client {LK : Linker} {SY : StackSymbols} (number_elements : Z) (ops : list stack_op)
  : prog (list stack_out) :=
  with_variable (fun a =>
    stack_new a number_elements;;
    let! ss := load a in
    let! (outs, _) := script (stack_exec ss) ops tt in
    stack_delete ss NULL NULL;;
    Ret outs).

Definition stack_op_cost (op : stack_op) : nat :=
  match op with StGuaranteedPush _ => element_cost pooled_cost | _ => 0%nat end.

Definition stack_client_cost (number_elements : Z) (ops : list stack_op) : nat :=
  (variable_cost + (stack_cost number_elements + script_cost stack_op_cost ops))%nat.

Section client_specs.
Context {AL : Allocator} {AO : AllocatorOk} {LK : Linker} {SY : StackSymbols} {SL : StackLinked}.

Definition stack_rep (ss : Z) (s : stack_abs) (_ : unit) : hProp :=
  stack ss (st_total s) (st_free s) (st_data s).

Lemma no_delete : delete_spec NULL NULL (fun _ => emp)%I.
Proof. done. Qed.

#[export] Instance stack_simulates ss :
  Simulates (stack_exec ss) stack_aexec stack_op_cost (stack_rep ss).
Proof.
  iIntros (op [total nfree l] [] Φ) "[Hs Hc] HΦ". unfold stack_rep. simpl.
  destruct op as [d|d| | |q vi]; cbn [stack_exec stack_op_cost stack_aexec];
    try (iApply (wp_credits 0); iFrame "Hc"); wp_call.
  - iApply (stack_push_spec with "Hs"). iIntros (rv) "H". iApply wp_ret. iApply "HΦ".
    destruct nfree; iDestruct "H" as "[-> $]"; done.
  - iApply (stack_guaranteed_push_spec with "[$Hs $Hc]"). iIntros (rv) "[-> Hs]".
    iApply wp_ret. iApply "HΦ". by iFrame.
  - iApply (stack_pop_spec with "Hs"). iIntros (r) "H". iApply wp_ret. iApply "HΦ".
    destruct l; iDestruct "H" as "[-> $]"; done.
  - iApply (stack_clear_spec with "[$Hs]"); [apply no_delete|by rw big_sepL_emp|].
    iIntros ([]) "Hs". iApply wp_ret. iApply "HΦ". by iFrame.
  - iApply (stack_query_spec with "Hs"). iIntros (r) "[-> Hs]". iApply wp_ret. iApply "HΦ".
    destruct q; by iFrame.
Qed.

Lemma stack_client_spec number_elements ops :
  is_word number_elements ->
  {{{ credits (stack_client_cost number_elements ops) }}} stack_client number_elements ops
  {{{ outs, ⟨outs = (ascript stack_aexec ops
                       (StackAbs number_elements (Z.to_nat number_elements) [])).1⟩ }}}.
Proof.
  iIntros (Hw Φ) "Hc HΦ". iDestruct (credits_add with "Hc") as "[Hv Hc]".
  iApply (with_variable_spec _ (credits _) with "[$Hv $Hc] HΦ"). clear Φ.
  iIntros (a Ha Φ) "[Ha Hc] HΦ". iDestruct (credits_add with "Hc") as "[Hn Hc]".
  wp_call. iApply (stack_new_spec with "[$Ha $Hn]"); [done..|].
  iIntros (rv) "(%ss & -> & Ha & Hs)". wp_load. wp_call.
  iApply (script_refines _ _ _ (stack_rep ss) ops (StackAbs number_elements _ []) with "[$Hs $Hc]").
  iIntros ([outs []]) "[%Ho Hs]". simpl in Ho. subst outs.
  wp_call. iApply (stack_delete_spec with "[$Hs]"); [apply no_delete|by rw big_sepL_emp|].
  iIntros ([]) "_". iApply wp_ret. iApply "HΦ". iSplitL; [by iExists ss|done].
Qed.
End client_specs.

(** ** The stack as a whole *)

Section claims.
Context {AL : Allocator} {AO : AllocatorOk} {LK : Linker} {SY : StackSymbols} {SL : StackLinked}.

(** C7. The stack refines a bounded last-in first-out list: between [stack_new]
    and [stack_delete], every script of pushes, guaranteed pushes, pops, clears
    and queries gets the answers of the abstract stack, from every memory with
    room for its elements; a push fails exactly when the freelist is used up,
    and all of the memory is given back at the end. *)
Theorem stack_refines number_elements ops h :
  is_word number_elements ->
  (stack_client_cost number_elements ops <= alloc_room h)%nat ->
  exists k, run k (stack_client number_elements ops) h =
    Done (ascript stack_aexec ops (StackAbs number_elements (Z.to_nat number_elements) [])).1 h.
Proof.
  intros Hw Hc. apply (run_closed_eq _ _ _ _ (stack_client_spec number_elements ops Hw) Hc).
Qed.

(** When no memory is left, [stack_new] does not report it: it tests the
    address of its result and not the result, and hands the field of a null
    structure to [freelist_new], which writes there. *)
Theorem stack_new_no_memory a number_elements h v :
  let h' := <[Word a := NULL]> h in
  0 < a -> h !! Word a = Some v ->
  alloc_base h (sizeof_stack_state + 8 + LF_ALIGN_DOUBLE_POINTER) = 0 ->
  alloc_base h' (sizeof_freelist_state + 8 + LF_ALIGN_DOUBLE_POINTER) = 0 ->
  h' !! Word (NULL + SS_FS) = None ->
  run 5 (stack_new a number_elements) h = Error BadAccess h'.
Proof.
  intros h' Ha Hv Hb Hb' Hn. unfold stack_new. rw (non_null_pos a Ha).
  etrans; [apply (run_act 4 (AMalloc _) _ h 0 h)|].
  { simpl. unfold exec_malloc. by rw Hb. }
  etrans; [apply (run_act 3 (AStore _ _) _ h tt h'); simpl; by rw Hv|].
  etrans; [apply (run_act 2 (ALoad _) _ h' NULL h'); simpl; unfold h'; by rw lookup_insert_eq|].
  etrans; [apply (run_act 1 (AMalloc _) _ h' 0 h')|].
  { simpl. unfold exec_malloc. by rw Hb'. }
  simpl. by rw Hn.
Qed.
End claims.

(** ** Witnesses *)

(** A program with the callbacks of the stack at two addresses. *)
Definition stack_symbols : StackSymbols := {| fp_stack_init := 4096; fp_stack_delete := 4112 |}.

Definition stack_linker : Linker := fun f a b =>
  if f =? 4096 then stack_internal_freelist_init_function a b
  else if f =? 4112 then stack_internal_freelist_delete_function a b;; Ret 0
  else Crash BadAccess.

Lemma stack_linker_ok : @StackLinked stack_linker stack_symbols.
Proof. by split. Qed.

Definition sample_stack_script : list stack_op :=
  [StPush 5; StPush 6; StPush 7; StGuaranteedPush 8; StQuery STACK_QUERY_ELEMENT_COUNT None;
   StPop; StQuery STACK_QUERY_VALIDATE (Some {| min_element := 3; max_element := 9 |});
   StPop; StPop; StPop; StPush 9; StClear; StPop].

Lemma stack_refines_witness : exists k,
  @run arena _ k (@stack_client stack_linker stack_symbols 2 sample_stack_script) ∅ =
  Done [StPushed 1; StPushed 1; StPushed 0; StPushed 1; StAnswer (StackCount 3);
        StPopped (Some 8);
        StAnswer (StackValidity VALIDITY_INVALID_MISSING_ELEMENTS (Some VALIDITY_VALID));
        StPopped (Some 6); StPopped (Some 5); StPopped None; StPushed 1; StCleared;
        StPopped None] ∅.
Proof.
  apply (@stack_refines arena arena_ok stack_linker stack_symbols stack_linker_ok 2 sample_stack_script ∅).
  - done.
  - apply arena_room. by vm_compute.
Defined.

Lemma stack_new_no_memory_witness :
  @run (small_arena 64) _ 5 (@stack_new stack_linker stack_symbols 16 4) {[Word 16 := 5]}
  = Error BadAccess (<[Word 16 := NULL]> {[Word 16 := 5]}).
Proof.
  by apply (@stack_new_no_memory (small_arena 64) stack_linker stack_symbols 16 4 {[Word 16 := 5]} 5).
Defined.
