(* ===== verification/Queue.v ===== *)
(** * src/basic/lf_queue.c: a first-in first-out queue with a dummy element,
      whose elements come from a freelist. *)
From S2P Require Import Prelude Machine SepLogic Alloc Script Basic Chain Freelist Pooled.
#[local] Open Scope Z_scope.
#[local] Open Scope prog_scope.

(** ** Layout (src/basic/lf_queue.h) *)

(** [struct queue_state]: [enqueue[2]], [dequeue[2]], [aba_count], [fs]. *)
Definition QS_ENQUEUE : Z := 0.
Definition QS_DEQUEUE : Z := 16.
Definition QS_ABA : Z := 32.
Definition QS_FS : Z := 40.
Definition sizeof_queue_state : Z := 48.

(** [struct queue_element]: [next[2]], [fe], [data]. *)
Abbreviation QE_FE := EL_FE.
Abbreviation QE_DATA := EL_DATA.
Abbreviation sizeof_queue_element := sizeof_element.

(** [counter + 1]: the counters are declared as pointers to elements, so the
    addition of C is scaled by their size. *)
Definition next_counter (c : Z) : Z := c +w sizeof_queue_element.

Inductive queue_query_type : Set :=
| QUEUE_QUERY_ELEMENT_COUNT
| QUEUE_QUERY_VALIDATE.

(** The states of [queue_dequeue]. *)
Inductive dequeue_state : Set :=
| LF_QUEUE_STATE_EMPTY
| LF_QUEUE_STATE_ENQUEUE_OUT_OF_PLACE
| LF_QUEUE_STATE_ATTEMPT_DELETE_QUEUE.

(** ** Operations *)

Class QueueSymbols : Type := {
  fp_queue_init : Z;
  fp_queue_delete : Z;
}.

Section code.
Context {LK : Linker} {SY : QueueSymbols}.

Definition queue_internal_freelist_init_function (data state : Z) : prog Z :=
  c_assert (non_null data);;
  c_assert (negb (non_null state));;
  let! p := aligned_malloc sizeof_queue_element LF_ALIGN_DOUBLE_POINTER in
  store data p;;
  let! p := load data in
  Ret (if non_null p then 1 else 0).

Definition queue_internal_freelist_delete_function (data state : Z) : prog unit :=
  c_assert (non_null data);;
  c_assert (negb (non_null state));;
  aligned_free data.

Definition queue_internal_init_element (qs fe data : Z) : prog (Z * Z) :=
  c_assert (non_null qs);;
  c_assert (non_null fe);;
  let! (p, _) := freelist_get_data fe in
  let! c := abstraction_increment (qs + QS_ABA) in
  store (p + NEXT) NULL;;
  let! nc := abstraction_increment (qs + QS_ABA) in
  store (p + NEXT + 8) nc;;
  store (p + QE_FE) fe;;
  store (p + QE_DATA) data;;
  Ret (p, c).

(** Without an element only [qe[LF_QUEUE_POINTER]] is set. *)
Definition queue_internal_new_element_from_freelist (qs data : Z) : prog (Z * Z) :=
  c_assert (non_null qs);;
  let! fs := load (qs + QS_FS) in
  let! fe := freelist_pop fs in
  if non_null fe then queue_internal_init_element qs fe data else Ret (NULL, 0).

Definition queue_internal_guaranteed_new_element_from_freelist (qs data : Z) : prog (Z * Z) :=
  c_assert (non_null qs);;
  let! fs := load (qs + QS_FS) in
  let! fe := freelist_guaranteed_pop fs in
  if non_null fe then queue_internal_init_element qs fe data else Ret (NULL, 0).

(** One turn of the loop that links [qe]; it ends with the [enqueue] pair whose
    element [qe] was linked behind. *)
Definition queue_internal_queue_body (qs qe : Z) (_ : unit) : prog (unit + Z * Z) :=
  let! enqueue_p := load (qs + QS_ENQUEUE) in
  let! enqueue_c := load (qs + QS_ENQUEUE + 8) in
  let! next_p := load (enqueue_p + NEXT) in
  let! next_c := load (enqueue_p + NEXT + 8) in
  barrier;;
  let! p := load (qs + QS_ENQUEUE) in
  let! unchanged :=
    (if p =? enqueue_p then let! c := load (qs + QS_ENQUEUE + 8) in Ret (c =? enqueue_c)
     else Ret false) in
  if unchanged then
    if next_p =? NULL then
      let! (cas_result, _) :=
        abstraction_dcas (enqueue_p + NEXT) (qe, next_counter next_c) (next_p, next_c) in
      if cas_result then Ret (inr (enqueue_p, enqueue_c)) else Ret (inl tt)
    else
      abstraction_dcas (qs + QS_ENQUEUE) (next_p, next_counter enqueue_c) (enqueue_p, enqueue_c);;
      Ret (inl tt)
  else Ret (inl tt).

Definition queue_internal_queue (qs qe : Z) : prog unit :=
  c_assert (non_null qs);;
  barrier;;
  let! enqueue := loop (queue_internal_queue_body qs qe) tt in
  abstraction_dcas (qs + QS_ENQUEUE) (qe, next_counter enqueue.2) enqueue;;
  Ret tt.

Definition queue_enqueue (qs data : Z) : prog Z :=
  c_assert (non_null qs);;
  let! qe := queue_internal_new_element_from_freelist qs data in
  if qe.1 =? NULL then Ret 0
  else queue_internal_queue qs qe.1;; Ret 1.

Definition queue_guaranteed_enqueue (qs data : Z) : prog Z :=
  c_assert (non_null qs);;
  let! qe := queue_internal_guaranteed_new_element_from_freelist qs data in
  if qe.1 =? NULL then Ret 0
  else queue_internal_queue qs qe.1;; Ret 1.

(** What the three pointers tell. *)
Definition dequeue_classify (enqueue_p dequeue_p next_p : Z) : dequeue_state :=
  if enqueue_p =? dequeue_p then
    if next_p =? NULL then LF_QUEUE_STATE_EMPTY else LF_QUEUE_STATE_ENQUEUE_OUT_OF_PLACE
  else LF_QUEUE_STATE_ATTEMPT_DELETE_QUEUE.

(** One turn of the loop: it ends with [None] on an empty queue, and with the
    data and the element that was unlinked. *)
Definition queue_dequeue_body (qs : Z) (_ : unit) : prog (unit + option (Z * Z)) :=
  let! dequeue_p := load (qs + QS_DEQUEUE) in
  let! dequeue_c := load (qs + QS_DEQUEUE + 8) in
  let! enqueue_p := load (qs + QS_ENQUEUE) in
  let! enqueue_c := load (qs + QS_ENQUEUE + 8) in
  let! next_p := load (dequeue_p + NEXT) in
  let! next_c := load (dequeue_p + NEXT + 8) in
  barrier;;
  let! p := load (qs + QS_DEQUEUE) in
  let! unchanged :=
    (if dequeue_p =? p then let! c := load (qs + QS_DEQUEUE + 8) in Ret (dequeue_c =? c)
     else Ret false) in
  if unchanged then
    match dequeue_classify enqueue_p dequeue_p next_p with
    | LF_QUEUE_STATE_EMPTY => Ret (inr None)
    | LF_QUEUE_STATE_ENQUEUE_OUT_OF_PLACE =>
        abstraction_dcas (qs + QS_ENQUEUE) (next_p, next_counter enqueue_c) (enqueue_p, enqueue_c);;
        Ret (inl tt)
    | LF_QUEUE_STATE_ATTEMPT_DELETE_QUEUE =>
        let! data := load (next_p + QE_DATA) in
        let! (cas_result, _) :=
          abstraction_dcas (qs + QS_DEQUEUE) (next_p, next_counter dequeue_c) (dequeue_p, dequeue_c) in
        if cas_result then Ret (inr (Some (data, dequeue_p))) else Ret (inl tt)
    end
  else Ret (inl tt).

(** The return value and what is stored through [data]. *)
Definition queue_dequeue (qs : Z) : prog (Z * Z) :=
  c_assert (non_null qs);;
  barrier;;
  let! r := loop (queue_dequeue_body qs) tt in
  match r with
  | None => Ret (0, NULL)
  | Some (data, dequeue_p) =>
      let! fs := load (qs + QS_FS) in
      let! fe := load (dequeue_p + QE_FE) in
      freelist_push fs fe;;
      Ret (1, data)
  end.

(** [qs] is the address of the caller's pointer. *)
Definition queue_new (qs number_elements : Z) : prog Z :=
  c_assert (non_null qs);;
  let! p := aligned_malloc sizeof_queue_state LF_ALIGN_DOUBLE_POINTER in
  store qs p;;
  let! p := load qs in
  let! rv :=
    (if non_null p then
       freelist_new (p + QS_FS) (number_elements +w 1) fp_queue_init NULL;;
       let! fs := load (p + QS_FS) in
       let! rv :=
         (if non_null fs then
            let! qe := queue_internal_new_element_from_freelist p NULL in
            store (p + QS_DEQUEUE) qe.1;;
            store (p + QS_ENQUEUE) qe.1;;
            store (p + QS_DEQUEUE + 8) 0;;
            store (p + QS_ENQUEUE + 8) 0;;
            store (p + QS_ABA) 0;;
            Ret 1
          else Ret 0) in
       let! fs := load (p + QS_FS) in
       (if fs =? NULL then aligned_free p;; store qs NULL else Ret tt);;
       Ret rv
     else Ret 0) in
  barrier;;
  Ret rv.

Definition queue_delete_body (qs delete_func state : Z) (_ : unit) : prog (unit + unit) :=
  let! (rv, data) := queue_dequeue qs in
  if truthy rv then
    (if non_null delete_func then icall delete_func data state;; Ret tt else Ret tt);;
    Ret (inl tt)
  else Ret (inr tt).

Definition queue_delete (qs delete_func state : Z) : prog unit :=
  c_assert (non_null qs);;
  loop (queue_delete_body qs delete_func state) tt;;
  let! fs := load (qs + QS_FS) in
  let! enqueue_p := load (qs + QS_ENQUEUE) in
  let! fe := load (enqueue_p + QE_FE) in
  freelist_push fs fe;;
  let! fs := load (qs + QS_FS) in
  freelist_delete fs fp_queue_delete NULL;;
  aligned_free qs.

Definition queue_use (qs : Z) : prog unit :=
  c_assert (non_null qs);;
  barrier.

(** The verdicts stored through [qv] and [fv]. *)
Definition queue_internal_validate (qs : Z) (vi : option validation_info)
  : prog (data_structure_validity * data_structure_validity) :=
  c_assert (non_null qs);;
  barrier;;
  let! head := load (qs + QS_DEQUEUE) in
  let! cursors := detect_loop head in
  let qv := if loop_found cursors then VALIDITY_INVALID_LOOP else VALIDITY_VALID in
  match vi with
  | Some vi =>
      let! qv :=
        (if decide (qv = VALIDITY_VALID) then
           let! head := load (qs + QS_DEQUEUE) in
           let! element_count := count_chain head in
           Ret (check_count vi (element_count -w 1) qv)
         else Ret qv) in
      let! fs := load (qs + QS_FS) in
      let! o := freelist_query fs FREELIST_QUERY_ELEMENT_COUNT None in
      let total_elements := out_count o -w 1 in
      let fvi := {| min_element := total_elements -w max_element vi;
                    max_element := total_elements -w min_element vi |} in
      let! fs := load (qs + QS_FS) in
      let! o := freelist_query fs FREELIST_QUERY_VALIDATE (Some fvi) in
      Ret (qv, out_validity o)
  | None =>
      let! fs := load (qs + QS_FS) in
      let! o := freelist_query fs FREELIST_QUERY_VALIDATE None in
      Ret (qv, out_validity o)
  end.

(** [has_output]: whether [output] is not null. *)
Definition queue_query (qs : Z) (query_type : queue_query_type) (vi : option validation_info)
    (has_output : bool) : prog (Z + data_structure_validity * data_structure_validity) :=
  c_assert (non_null qs);;
  c_assert has_output;;
  match query_type with
  | QUEUE_QUERY_ELEMENT_COUNT =>
      c_assert (negb has_output);;
      let! fs := load (qs + QS_FS) in
      let! o := freelist_query fs FREELIST_QUERY_ELEMENT_COUNT None in
      Ret (inl (out_count o))
  | QUEUE_QUERY_VALIDATE =>
      let! v := queue_internal_validate qs vi in
      Ret (inr v)
  end.
End code.

Class QueueLinked {LK : Linker} {SY : QueueSymbols} : Prop := {
  fp_queue_init_ne : fp_queue_init ≠ 0;
  fp_queue_delete_ne : fp_queue_delete ≠ 0;
  icall_queue_init d st :
    icall fp_queue_init d st = queue_internal_freelist_init_function d st;
  icall_queue_delete d st :
    icall fp_queue_delete d st = (queue_internal_freelist_delete_function d st;; Ret 0);
}.

(** ** Assertions *)

Definition queue_state (qs : Z) (enqueue dequeue : Z * Z) (aba fs : Z) : hProp :=
  (⟨aligned_addr qs sizeof_queue_state LF_ALIGN_DOUBLE_POINTER⟩ ∗
   aligned_hdr qs sizeof_queue_state LF_ALIGN_DOUBLE_POINTER ∗
   (qs + QS_ENQUEUE) ↦₂ enqueue ∗ (qs + QS_DEQUEUE) ↦₂ dequeue ∗
   (qs + QS_ABA) ↦ aba ∗ (qs + QS_FS) ↦ fs)%I.

(** The elements from the dummy on; [enqueue] points to the last one. *)
Definition queue_elements (es : list (Z * Z * Z)) (enqueue : Z) (l : list Z) : Prop :=
  exists pre y, es = pre ++ [y] /\ enqueue = pooled_ptr y /\ tail (es.*2) = l.

(** A queue at [qs] of [total] elements, [nfree] of them unused, holding the
    data [l], oldest first. *)
Definition queue {SY : QueueSymbols} (qs total : Z) (nfree : nat) (l : list Z) : hProp :=
  (∃ enqueue dequeue aba fs es, ⟨queue_elements es enqueue.1 l⟩ ∗
     queue_state qs enqueue dequeue aba fs ∗
     chain pooled_ptr pooled_elem es dequeue ∗ pooled_freelist fp_queue_init fs total nfree)%I.

(** ** Specifications *)

Section specs.
Context {AL : Allocator} {AO : AllocatorOk} {LK : Linker} {SY : QueueSymbols} {QL : QueueLinked}.

Lemma alignable_queue_state : alignable sizeof_queue_state LF_ALIGN_DOUBLE_POINTER.
Proof. done. Qed.

Lemma queue_init_spec : init_spec fp_queue_init NULL pooled_node pooled_cost.
Proof. apply pooled_init_spec; [apply fp_queue_init_ne|apply icall_queue_init]. Qed.

Lemma queue_node_delete_spec : delete_spec fp_queue_delete NULL pooled_node.
Proof. apply pooled_delete_spec; [apply fp_queue_delete_ne|apply icall_queue_delete]. Qed.

Lemma queue_non_null qs total nfree l : queue qs total nfree l ⊢ ⌜non_null qs = true⌝.
Proof. iIntros "(% & % & % & % & % & % & (% & _) & _)". iPureIntro. eauto with addr. Qed.

Lemma queue_state_aligned qs ep ec dp dc aba fs :
  queue_state qs (ep, ec) (dp, dc) aba fs ⊣⊢
  aligned qs sizeof_queue_state LF_ALIGN_DOUBLE_POINTER [ep; ec; dp; dc; aba; fs].
Proof.
  unfold queue_state, aligned, pair_at, QS_ENQUEUE, QS_DEQUEUE, QS_ABA, QS_FS. simpl.
  rw Z.add_0_r -!Z.add_assoc /=. iSplit.
  - iIntros "(%Ha & Hh & (H0 & H1) & (H2 & H3) & H4 & H5)". iFrame. done.
  - iIntros "((%Ha & _) & Hh & H0 & H1 & H2 & H3 & H4 & H5 & _)". iFrame. done.
Qed.

Lemma queue_internal_init_element_spec qs enqueue dequeue aba fs fe p data :
  {{{ queue_state qs enqueue dequeue aba fs ∗ fl_node (fe, p) ∗ pooled_node p }}}
    queue_internal_init_element qs fe data
  {{{ r, ∃ aba', ⟨r.1 = p /\ 0 < p⟩ ∗ queue_state qs enqueue dequeue aba' fs ∗
         (∃ c, (p + NEXT) ↦₂ (NULL, c)) ∗ pooled_elem (p, fe, data) }}}.
Proof.
  iIntros (Φ) "((%Ha & Hh & He & Hd & Haba & Hfs) & Hfe & Hp) HΦ".
  iDestruct (fl_node_addr with "Hfe") as %Hfe. simpl in Hfe.
  iDestruct (pooled_node_elem with "Hp") as ([a b] fe' d') "(%Hp & Hph & Hn & H2 & H3)".
  unfold queue_internal_init_element. wp_assert; [eauto with addr|]. wp_assert; [eauto with addr|].
  wp_call. iApply (freelist_get_data_spec with "Hfe"). iIntros (r) "[-> Hfe]".
  unfold abstraction_increment. wp_assert; [eauto with addr|]. wp_incr. wp_store.
  wp_assert; [eauto with addr|]. wp_incr. do 3 wp_store.
  iApply wp_ret. iApply "HΦ". iFrame. simpl. iSplit; [|done]. iPureIntro. by destruct Hp.
Qed.

(** An initialised element is linked behind the last one, and [enqueue] moves. *)
Lemma queue_internal_queue_spec qs enqueue dequeue aba fs es p fe data l :
  queue_elements es enqueue.1 l ->
  {{{ queue_state qs enqueue dequeue aba fs ∗ chain pooled_ptr pooled_elem es dequeue ∗
      (∃ c, (p + NEXT) ↦₂ (NULL, c)) ∗ pooled_elem (p, fe, data) }}}
    queue_internal_queue qs p
  {{{ _u, ∃ c, ⟨queue_elements (es ++ [(p, fe, data)]) p (l ++ [data])⟩ ∗
      queue_state qs (p, c) dequeue aba fs ∗
      chain pooled_ptr pooled_elem (es ++ [(p, fe, data)]) dequeue }}}.
Proof.
  iIntros ((pre & y & -> & He & Hl) Φ) "((%Ha & Hh & He & Hd & Haba & Hfs) & Hch & (%nc & Hn) & %Hp & Hp) HΦ".
  destruct enqueue as [ep ec]. simpl in He. subst ep.
  unfold queue_internal_queue. wp_assert; [eauto with addr|]. wp_call. iApply wp_loop.
  unfold queue_internal_queue_body. rw chain_snoc. iDestruct "Hch" as ([np c]) "(%Hy & Hch & Hyn & Hy)".
  simpl in Hy. destruct Hy as (-> & Hpos & Hal).
  wp_load. wp_load. wp_load. wp_load. wp_load. rw Z.eqb_refl. wp_load. rw Z.eqb_refl.
  change (0 =? NULL) with true. cbv iota.
  unfold abstraction_dcas. wp_assert; [apply non_null_pos; unfold NEXT; lia|].
  wp_dcas; [by unfold NEXT; rw Z.add_0_r|]. iApply wp_ret. cbn [snd fst].
  wp_abs_dcas. iApply wp_ret. iApply "HΦ". iExists (next_counter ec). iFrame.
  iSplitR; [|iSplitR; [done|]].
  - iPureIntro. exists (pre ++ [y]), (p, fe, data). split_and!; [done|done|].
    rw -Hl fmap_app. by destruct pre.
  - iApply chain_snoc. iExists (NULL, nc). iFrame "Hn". simpl. iSplitR.
    { iPureIntro. split; [done|]. by destruct Hp as (? & ? & _). }
    iFrame "Hp". iSplit; [|done]. iApply chain_snoc. iExists (p, next_counter c). by iFrame.
Qed.

(** What the two ways to find an element share. *)
Lemma queue_enqueue_element qs enqueue dequeue aba fs es l fe p data total nfree :
  0 < fe -> queue_elements es enqueue.1 l ->
  {{{ queue_state qs enqueue dequeue aba fs ∗ chain pooled_ptr pooled_elem es dequeue ∗
      fl_node (fe, p) ∗ pooled_node p ∗ pooled_freelist fp_queue_init fs total nfree }}}
    (let! qe := (if non_null fe then queue_internal_init_element qs fe data else Ret (NULL, 0)) in
     if qe.1 =? NULL then Ret 0 else queue_internal_queue qs qe.1;; Ret 1)
  {{{ rv, ⟨rv = 1⟩ ∗ queue qs total nfree (l ++ [data]) }}}.
Proof.
  iIntros (Hpos Hes Φ) "(Hs & Hl & Hfe & Hp & Hf) HΦ". rw (non_null_pos fe) //.
  wp_call. iApply (queue_internal_init_element_spec with "[$Hs $Hfe $Hp]").
  iIntros (r) "(%aba' & %Hr & Hs & Hn & Hp)". destruct Hr as [-> Hp].
  rw (proj2 (Z.eqb_neq p NULL)); last (unfold NULL; lia).
  wp_call. iApply (queue_internal_queue_spec with "[$Hs $Hl $Hn $Hp]"); [done|].
  iIntros ([]) "(%c & %Hes' & Hs & Hl)". iApply wp_ret. iApply "HΦ". iSplitR; [done|].
  iExists (p, c), dequeue, aba', fs, (es ++ [(p, fe, data)]). by iFrame.
Qed.

Lemma queue_enqueue_spec qs total nfree l data :
  {{{ queue qs total nfree l }}} queue_enqueue qs data
  {{{ rv, match nfree with
          | O => ⟨rv = 0⟩ ∗ queue qs total 0 l
          | S nfree => ⟨rv = 1⟩ ∗ queue qs total nfree (l ++ [data])
          end }}}.
Proof.
  iIntros (Φ) "Hq HΦ". iDestruct (queue_non_null with "Hq") as %Hnn.
  iDestruct "Hq" as (enq deq aba fs es) "(%Hes & (%Ha & Hh & He & Hd & Haba & Hfs) & Hl & Hf)".
  unfold queue_enqueue, queue_internal_new_element_from_freelist. wp_assert. wp_assert. wp_load.
  wp_call. iApply (pooled_pop_spec with "Hf"). iIntros (fe) "Hr". destruct nfree as [|nfree].
  - iDestruct "Hr" as "[-> Hf]". change (non_null NULL) with false. wp_simpl. iApply wp_ret.
    iApply "HΦ". iSplitR; [done|]. iExists enq, deq, aba, fs, es. by iFrame.
  - iDestruct "Hr" as (p) "(%Hfe & Hfe & Hp & Hf)".
    iApply (queue_enqueue_element with "[$Hl $Hfe $Hp $He $Hd $Haba $Hfs $Hh $Hf] HΦ"); [done..|].
    done.
Qed.

Lemma queue_guaranteed_enqueue_spec qs total nfree l data :
  {{{ queue qs total nfree l ∗ credits (element_cost pooled_cost) }}}
    queue_guaranteed_enqueue qs data
  {{{ rv, ⟨rv = 1⟩ ∗ queue qs (total +w 1) nfree (l ++ [data]) }}}.
Proof.
  iIntros (Φ) "[Hq Hc] HΦ". iDestruct (queue_non_null with "Hq") as %Hnn.
  iDestruct "Hq" as (enq deq aba fs es) "(%Hes & (%Ha & Hh & He & Hd & Haba & Hfs) & Hl & Hf)".
  unfold queue_guaranteed_enqueue, queue_internal_guaranteed_new_element_from_freelist.
  wp_assert. wp_assert. wp_load.
  wp_call. iApply (pooled_guaranteed_pop_spec with "[$Hf $Hc]"); [apply queue_init_spec|].
  iIntros (fe) "(%p & %Hfe & Hfe & Hp & Hf)".
  iApply (queue_enqueue_element with "[$Hl $Hfe $Hp $He $Hd $Haba $Hfs $Hh $Hf] HΦ"); [done..|].
  done.
Qed.

(** The dequeue loop on the first turn: nothing is out of place in a memory no
    other thread changes. *)
Lemma queue_dequeue_loop qs enq deq aba fs d0 es l :
  queue_elements (d0 :: es) enq.1 l ->
  {{{ queue_state qs enq deq aba fs ∗ chain pooled_ptr pooled_elem (d0 :: es) deq }}}
    loop (queue_dequeue_body qs) tt
  {{{ r, match es with
         | [] => ⟨r = None⟩ ∗ queue_state qs enq deq aba fs ∗ chain pooled_ptr pooled_elem [d0] deq
         | y :: _ => ∃ deq', ⟨r = Some (y.2, pooled_ptr d0)⟩ ∗ queue_state qs enq deq' aba fs ∗
             (∃ next, (pooled_ptr d0 + NEXT) ↦₂ next) ∗ pooled_elem d0 ∗
             chain pooled_ptr pooled_elem es deq'
         end }}}.
Proof.
  iIntros ((pre & y & Hes & He & Hl) Φ) "((%Ha & Hh & He & Hd & Haba & Hfs) & Hch) HΦ".
  destruct enq as [ep ec], deq as [dp dc]. simpl in He. subst ep.
  iDestruct (chain_NoDup with "Hch") as %Hnd.
  iDestruct "Hch" as ([np nc]) "(%Hd0 & Hn & Hd0 & Hch)". simpl in Hd0. destruct Hd0 as (-> & Hpos & Hal).
  iApply wp_loop. unfold queue_dequeue_body.
  do 7 wp_load. rw Z.eqb_refl. wp_load. rw Z.eqb_refl. cbv iota. unfold dequeue_classify.
  destruct es as [|z es].
  - destruct pre as [|? pre]; [|by destruct pre]. simplify_eq/=. iDestruct "Hch" as %Hnp. simpl in Hnp.
    subst np. rw Z.eqb_refl. change (0 =? NULL) with true. cbv iota. iApply wp_ret. iApply "HΦ".
    iSplitR; [done|]. iSplitR "Hn Hd0"; [by iFrame|]. iExists (0, nc). by iFrame.
  - iDestruct "Hch" as ([np' nc']) "(%Hz & Hzn & Hz & Hch)". simpl in Hz. destruct Hz as (-> & Hzpos & Hzal).
    destruct (Z.eqb_spec (pooled_ptr y) (pooled_ptr d0)) as [E|_].
    { exfalso. destruct pre as [|x pre]; simplify_eq/=. apply NoDup_cons in Hnd as [Hnin _]. apply Hnin.
      change (x.1.1 ∈ (fun x : Z * Z * Z => x.1.1) <$> (z :: es)).
      rw H0 -E. apply list_elem_of_fmap. exists y. split; [done|]. apply elem_of_app. right.
      apply list_elem_of_singleton. done. }
    iDestruct "Hz" as "(%Hza & Hzh & Hzfe & Hzd & Hzf)". wp_load. wp_abs_dcas.
    iApply wp_ret. iApply "HΦ". iExists (pooled_ptr z, next_counter dc). iSplitR; [done|].
    iSplitL "Hh He Hd Haba Hfs"; [by iFrame|]. iFrame "Hd0". iSplitL "Hn"; [by iExists _|].
    iExists (np', nc'). by iFrame.
Qed.

Lemma queue_elements_tail d0 z es p l :
  queue_elements (d0 :: z :: es) p l -> l = z.2 :: es.*2 /\ queue_elements (z :: es) p (es.*2).
Proof.
  intros (pre & y & Hes & -> & <-). split; [done|]. destruct pre as [|x pre]; simplify_eq/=.
  exists pre, y. rw H0. split_and!; [done|done|]. by rw -H0.
Qed.

Lemma queue_dequeue_spec qs total nfree l :
  {{{ queue qs total nfree l }}} queue_dequeue qs
  {{{ r, match l with
         | [] => ⟨r = (0, NULL)⟩ ∗ queue qs total nfree []
         | d :: l => ⟨r = (1, d)⟩ ∗ queue qs total (S nfree) l
         end }}}.
Proof.
  iIntros (Φ) "Hq HΦ". iDestruct (queue_non_null with "Hq") as %Hnn.
  iDestruct "Hq" as (enq deq aba fs es) "(%Hes & Hs & Hl & Hf)". unfold queue_dequeue. wp_assert.
  destruct es as [|d0 es]; [by destruct Hes as ([|] & ? & ? & _)|].
  wp_call. iApply (queue_dequeue_loop with "[$Hs $Hl]"); [done|]. iIntros (r) "Hr".
  destruct es as [|z es].
  - iDestruct "Hr" as "(-> & Hs & Hl)". destruct Hes as (pre & y & Hes & He & <-). simpl.
    iApply wp_ret. iApply "HΦ". iSplitR; [done|]. iExists enq, deq, aba, fs, [d0]. iFrame.
    iPureIntro. by exists pre, y.
  - iDestruct "Hr" as (deq') "(-> & (%Ha & Hh & He & Hd & Haba & Hfs) & (%next & Hn) & Hd0 & Hl)".
    apply queue_elements_tail in Hes as [-> Hes]. destruct d0 as [[p fe] d].
    iDestruct "Hd0" as "(%Hpa & Hph & Hpfe & Hpd & Hpf)". cbn [fst snd]. wp_load. wp_load.
    iDestruct (pooled_elem_node p next fe d with "[$Hn $Hph $Hpfe $Hpd $Hpf]") as "[Hp Hfe]"; [done|].
    wp_call. iApply (pooled_push_spec with "[$Hf $Hfe $Hp]"). iIntros ([]) "Hf".
    iApply wp_ret. iApply "HΦ". iSplitR; [done|]. iExists enq, deq', aba, fs, (z :: es).
    iSplitR; [done|]. by iFrame.
Qed.

Lemma queue_delete_loop qs total nfree l f st D :
  delete_spec f st D ->
  {{{ queue qs total nfree l ∗ [∗ list] d ∈ l, D d }}} loop (queue_delete_body qs f st) tt
  {{{ _u, ∃ nfree, queue qs total nfree [] }}}.
Proof.
  intros Hf. revert nfree.
  induction l as [|d l IH]; iIntros (nfree Φ) "[Hs HD] HΦ"; iApply wp_loop;
    unfold queue_delete_body at 1; wp_call; iApply (queue_dequeue_spec with "Hs"); iIntros (r) "[-> Hs]".
  - iApply wp_ret. iApply "HΦ". by iExists nfree.
  - iDestruct "HD" as "[Hd HD]". change (truthy 1) with true. cbv iota.
    iApply (wp_bind (if non_null f then _ else _)).
    unfold delete_spec, non_null in *. destruct (Z.eqb_spec f NULL) as [->|Hne]; simpl.
    + iDestruct (Hf with "Hd") as "_". iApply wp_ret. iApply wp_ret. iApply (IH with "[$Hs $HD] HΦ").
    + wp_call. iApply (Hf with "Hd"). iIntros (rv) "_". do 2 iApply wp_ret.
      iApply (IH with "[$Hs $HD] HΦ").
Qed.

(** Deleting a queue gives all of its memory back, the dummy included. *)
Lemma queue_delete_spec qs total nfree l f st D :
  delete_spec f st D ->
  {{{ queue qs total nfree l ∗ [∗ list] d ∈ l, D d }}} queue_delete qs f st {{{ _u, emp }}}.
Proof.
  iIntros (Hf Φ) "[Hq HD] HΦ". iDestruct (queue_non_null with "Hq") as %Hnn.
  unfold queue_delete. wp_assert. wp_call. iApply (queue_delete_loop with "[$Hq $HD]"); [done|].
  iIntros ([]) "(%nfree' & %enq & %deq & %aba & %fs & %es & %Hes & Hs & Hl & Hf)".
  destruct Hes as (pre & y & -> & He & Hl). destruct pre as [|x pre]; [|by destruct pre].
  destruct enq as [ep ec], deq as [dp dc], y as [[p fe] d]. simpl in He. subst ep.
  iDestruct "Hl" as (next) "(_ & Hn & (%Hp & Hph & Hpfe & Hpd & Hpf) & _)". cbn [fst snd].
  iDestruct "Hs" as "(%Ha & Hh & He & Hd & Haba & Hfs)". wp_load. wp_load. wp_load.
  iDestruct (pooled_elem_node p next fe d with "[$Hn $Hph $Hpfe $Hpd $Hpf]") as "[Hp Hfe]"; [done|].
  wp_call. iApply (pooled_push_spec with "[$Hf $Hfe $Hp]"). iIntros ([]) "Hf". wp_load.
  wp_call. iApply (pooled_freelist_delete_spec with "Hf"); [apply queue_node_delete_spec|].
  iIntros ([]) "_".
  iApply (aligned_free_spec qs _ _ [p; ec; dp; dc; aba; fs] with "[Hh He Hd Haba Hfs] HΦ").
  iApply queue_state_aligned. by iFrame.
Qed.

Definition queue_cost (number_elements : Z) : nat :=
  (aligned_cost sizeof_queue_state LF_ALIGN_DOUBLE_POINTER +
   freelist_cost pooled_cost (number_elements + 1))%nat.

Lemma queue_new_spec a number_elements :
  0 < a -> 0 <= number_elements < word_mod - 1 ->
  {{{ cell a ∗ credits (queue_cost number_elements) }}} queue_new a number_elements
  {{{ rv, ∃ qs, ⟨rv = 1⟩ ∗ a ↦ qs ∗ queue qs (number_elements + 1) (Z.to_nat number_elements) [] }}}.
Proof.
  iIntros (Ha Hw Φ) "[(%v & Ha) Hc] HΦ". iDestruct (credits_add with "Hc") as "[Hc1 Hc]".
  unfold queue_new. wp_assert; [by apply non_null_pos|].
  wp_call. iApply (aligned_malloc_spec with "Hc1"); [apply alignable_queue_state|].
  iIntros (qs) "(%vs & Hqs)". iDestruct (aligned_facts with "Hqs") as %[Hqs Hlen].
  destruct vs as [|w0 [|w1 [|w2 [|w3 [|w4 [|w5 [|]]]]]]]; simpl in Hlen;
    unfold sizeof_queue_state in Hlen; try lia.
  rw -queue_state_aligned. iDestruct "Hqs" as "(_ & Hh & He & Hd & Haba & Hfs)".
  wp_store. wp_load. rw (aligned_addr_non_null0 _ _ _ Hqs). cbv iota.
  rw (wrap_small (number_elements + 1)); last (unfold is_word; lia). wp_call.
  iApply (pooled_new_spec with "[Hfs $Hc]"); [apply queue_init_spec|unfold is_word; lia|by iExists w5|].
  iIntros (rv) "(%fs & %Hr & Hfs & Hf)". destruct Hr as (_ & Hfs).
  wp_load. rw (non_null_pos fs) //. cbv iota.
  unfold queue_internal_new_element_from_freelist. wp_assert; [eauto with addr|]. wp_load.
  wp_call. replace (Z.to_nat (number_elements + 1)) with (S (Z.to_nat number_elements)) by lia.
  iApply (pooled_pop_spec with "Hf"). iIntros (fe) "(%p & %Hfe & Hfe & Hp & Hf)".
  rw (non_null_pos fe) //. cbv iota. wp_call.
  iApply (queue_internal_init_element_spec qs with "[$Hh $He $Hd $Haba $Hfs $Hfe $Hp]"); [done|].
  iIntros ([p' c]) "(%aba' & %Hr & (_ & Hh & He & Hd & Haba & Hfs) & (%nc & Hn) & Hp)".
  destruct Hr as [Hp' Hpos]. simpl in Hp'. subst p'. cbn [fst].
  do 5 wp_store. wp_load. rw (proj2 (Z.eqb_neq fs NULL)); last (unfold NULL; lia). wp_simpl.
  iApply wp_ret. iApply "HΦ". iExists qs. iSplitR; [done|]. iFrame "Ha".
  iExists (p, 0), (p, 0), 0, fs, [(p, fe, NULL)]. iSplitR.
  { iPureIntro. by exists [], (p, fe, NULL). }
  iFrame "Hf". iSplitL "Hh He Hd Haba Hfs"; [by iFrame|]. iExists (NULL, nc). iFrame "Hn".
  iDestruct "Hp" as "[%Hpa Hp]". simpl in *. iFrame "Hp". iPureIntro.
  by destruct Hpa as (? & ? & ?).
Qed.

(** ** Validation *)

(** The verdicts on a queue of [n] elements, of [total] with the dummy, with
    [nfree] in its freelist. *)
Definition queue_verdict (total : Z) (n nfree : nat) (vi : option validation_info)
  : data_structure_validity * data_structure_validity :=
  (list_verdict n vi,
   list_verdict nfree
     (match vi with
      | Some vi => Some {| min_element := total -w 1 -w max_element vi;
                           max_element := total -w 1 -w min_element vi |}
      | None => None
      end)).

Lemma queue_elements_length es p l : queue_elements es p l -> length es = S (length l).
Proof.
  intros (pre & y & -> & _ & <-). rw -(length_fmap snd). destruct pre; [done|]. by simpl.
Qed.

Lemma queue_internal_validate_spec qs total nfree l vi :
  {{{ queue qs total nfree l }}} queue_internal_validate qs vi
  {{{ r, ⟨r = queue_verdict total (length l) nfree vi⟩ ∗ queue qs total nfree l }}}.
Proof.
  iIntros (Φ) "(%enq & %deq & %aba & %fs & %es & %Hes & (%Ha & Hh & He & [Hd Hdc] & Haba & Hfs) & Hl & Hf) HΦ".
  unfold queue_internal_validate. wp_assert; [eauto with addr|]. wp_load.
  wp_call. iApply (detect_loop_chain with "Hl"). iIntros (s) "[%Hs Hl]". rw Hs. cbv zeta.
  pose proof (queue_elements_length _ _ _ Hes) as Hlen. destruct vi as [vi|].
  - case_decide as Hdec; [|done]. wp_load. wp_call. iApply (count_chain_chain with "Hl").
    iIntros (n) "[-> Hl]". wp_load.
    wp_call. iApply (pooled_query_spec with "Hf"); [done|]. iIntros (r) "[-> Hf]". wp_load.
    wp_call. iApply (pooled_query_spec with "Hf"); [done|]. iIntros (r) "[-> Hf]".
    iApply wp_ret. iApply "HΦ". iSplitR; [|iExists enq, deq, aba, fs, es; by iFrame].
    iPureIntro. unfold queue_verdict, list_verdict. rw wrap_sub_l Hlen.
    by replace (S (length l) - 1) with (Z.of_nat (length l)) by lia.
  - wp_load. wp_call. iApply (pooled_query_spec with "Hf"); [done|]. iIntros (r) "[-> Hf]".
    iApply wp_ret. iApply "HΦ". iSplitR; [done|]. iExists enq, deq, aba, fs, es. by iFrame.
Qed.
End specs.

(** ** Clients of the queue *)

Inductive queue_op : Set :=
| QuEnqueue (data : Z)
| QuGuaranteedEnqueue (data : Z)
| QuDequeue
| QuValidate (vi : option validation_info).

Inductive queue_out : Set :=
| QuEnqueued (rv : Z)
| QuDequeued (rv data : Z)
| QuVerdict (qv fv : data_structure_validity).

Definition queue_exec {LK : Linker} (qs : Z) (op : queue_op) (_ : unit) : prog (queue_out * unit) :=
  match op with
  | QuEnqueue d => let! rv := queue_enqueue qs d in Ret (QuEnqueued rv, tt)
  | QuGuaranteedEnqueue d => let! rv := queue_guaranteed_enqueue qs d in Ret (QuEnqueued rv, tt)
  | QuDequeue => let! (rv, data) := queue_dequeue qs in Ret (QuDequeued rv data, tt)
  | QuValidate vi =>
      let! r := queue_query qs QUEUE_QUERY_VALIDATE vi true in
      match r with
      | inr (qv, fv) => Ret (QuVerdict qv fv, tt)
      | inl _ => Crash AssertionFailed
      end
  end.

(** The abstract queue: the number of elements ever made, how many more it can
    take, and its data, oldest first. *)
Record queue_abs : Set := QueueAbs { qu_total : Z; qu_free : nat; qu_data : list Z }.

Definition queue_aexec (op : queue_op) (s : queue_abs) : queue_out * queue_abs :=
  let '(QueueAbs total nfree l) := s in
  match op with
  | QuEnqueue d =>
      match nfree with
      | O => (QuEnqueued 0, s)
      | S nfree => (QuEnqueued 1, QueueAbs total nfree (l ++ [d]))
      end
  | QuGuaranteedEnqueue d => (QuEnqueued 1, QueueAbs (total +w 1) nfree (l ++ [d]))
  | QuDequeue =>
      match l with
      | [] => (QuDequeued 0 NULL, s)
      | d :: l => (QuDequeued 1 d, QueueAbs total (S nfree) l)
      end
  | QuValidate vi =>
      let '(qv, fv) := queue_verdict total (length l) nfree vi in (QuVerdict qv fv, s)
  end.

Definition queue_client {LK : Linker} {SY : QueueSymbols} (number_elements : Z) (ops : list queue_op)
  : prog (list queue_out) :=
  with_variable (fun a =>
    queue_new a number_elements;;
    let! qs := load a in
    let! (outs, _) := script (queue_exec qs) ops tt in
    queue_delete qs NULL NULL;;
    Ret outs).

Definition queue_op_cost (op : queue_op) : nat :=
  match op with QuGuaranteedEnqueue _ => element_cost pooled_cost | _ => 0%nat end.

Definition queue_client_cost (number_elements : Z) (ops : list queue_op) : nat :=
  (variable_cost + (queue_cost number_elements + script_cost queue_op_cost ops))%nat.

Section client_specs.
Context {AL : Allocator} {AO : AllocatorOk} {LK : Linker} {SY : QueueSymbols} {QL : QueueLinked}.

Definition queue_rep (qs : Z) (s : queue_abs) (_ : unit) : hProp :=
  queue qs (qu_total s) (qu_free s) (qu_data s).

#[export] Instance queue_simulates qs :
  Simulates (queue_exec qs) queue_aexec queue_op_cost (queue_rep qs).
Proof.
  iIntros (op [total nfree l] [] Φ) "[Hq Hc] HΦ". unfold queue_rep. simpl.
  destruct op as [d|d| |vi]; cbn [queue_exec queue_op_cost queue_aexec];
    try (iApply (wp_credits 0); iFrame "Hc"); wp_call.
  - iApply (queue_enqueue_spec with "Hq"). iIntros (rv) "H". iApply wp_ret. iApply "HΦ".
    destruct nfree; iDestruct "H" as "[-> $]"; done.
  - iApply (queue_guaranteed_enqueue_spec with "[$Hq $Hc]"). iIntros (rv) "[-> Hq]".
    iApply wp_ret. iApply "HΦ". by iFrame.
  - iApply (queue_dequeue_spec with "Hq"). iIntros (r) "H".
    destruct l; iDestruct "H" as "[-> Hq]"; iApply wp_ret; iApply "HΦ"; by iFrame.
  - iDestruct (queue_non_null with "Hq") as %Hnn. unfold queue_query. wp_assert. wp_assert.
    wp_call. iApply (queue_internal_validate_spec with "Hq"). iIntros (r) "[-> Hq]".
    iApply wp_ret. iApply wp_ret. iApply "HΦ". by iFrame.
Qed.

Lemma queue_client_spec number_elements ops :
  0 <= number_elements < word_mod - 1 ->
  {{{ credits (queue_client_cost number_elements ops) }}} queue_client number_elements ops
  {{{ outs, ⟨outs = (ascript queue_aexec ops
                       (QueueAbs (number_elements + 1) (Z.to_nat number_elements) [])).1⟩ }}}.
Proof.
  iIntros (Hw Φ) "Hc HΦ". iDestruct (credits_add with "Hc") as "[Hv Hc]".
  iApply (with_variable_spec _ (credits _) with "[$Hv $Hc] HΦ"). clear Φ.
  iIntros (a Ha Φ) "[Ha Hc] HΦ". iDestruct (credits_add with "Hc") as "[Hn Hc]".
  wp_call. iApply (queue_new_spec with "[$Ha $Hn]"); [done..|].
  iIntros (rv) "(%qs & -> & Ha & Hq)". wp_load. wp_call.
  iApply (script_refines _ _ _ (queue_rep qs) ops (QueueAbs _ _ []) with "[$Hq $Hc]").
  iIntros ([outs []]) "[%Ho Hq]". simpl in Ho. subst outs.
  wp_call. iApply (queue_delete_spec _ _ _ _ _ _ (fun _ => emp)%I with "[$Hq]");
    [done|by rw big_sepL_emp|].
  iIntros ([]) "_". iApply wp_ret. iApply "HΦ". iSplitL; [by iExists qs|done].
Qed.
End client_specs.

(** ** The queue as a whole *)

Section claims.
Context {AL : Allocator} {AO : AllocatorOk} {LK : Linker} {SY : QueueSymbols} {QL : QueueLinked}.

(** C6. The queue refines a bounded first-in first-out list: between
    [queue_new] and [queue_delete], every script of enqueues, guaranteed
    enqueues, dequeues and validations gets the answers of the abstract queue,
    from every memory with room for its elements; an enqueue fails exactly when
    the freelist is used up, the dummy element is never handed out, and all of
    the memory is given back at the end. *)
Theorem queue_refines number_elements ops h :
  0 <= number_elements < word_mod - 1 ->
  (queue_client_cost number_elements ops <= alloc_room h)%nat ->
  exists k, run k (queue_client number_elements ops) h =
    Done (ascript queue_aexec ops
            (QueueAbs (number_elements + 1) (Z.to_nat number_elements) [])).1 h.
Proof.
  intros Hw Hc. apply (run_closed_eq _ _ _ _ (queue_client_spec number_elements ops Hw) Hc).
Qed.

(** The element count of a queue cannot be asked for: [queue_query] asserts
    that [output] is not null and, for this query, that it is null, so that the
    query fails an assertion whatever its arguments and the memory. *)
Theorem queue_count_fails qs vi has_output k h :
  run k (queue_query qs QUEUE_QUERY_ELEMENT_COUNT vi has_output) h = Error AssertionFailed h.
Proof. unfold queue_query. by destruct (non_null qs), has_output, k. Qed.

(** When the state cannot be allocated, [queue_new] answers 0, stores a
    null pointer for its caller and changes nothing else. *)
Theorem queue_new_no_memory a number_elements h v :
  0 < a -> alloc_base h (sizeof_queue_state + 8 + LF_ALIGN_DOUBLE_POINTER) = 0 ->
  h !! Word a = Some v ->
  run 3 (queue_new a number_elements) h = Done 0 (<[Word a := 0]> h).
Proof.
  intros Ha Hb Hv. unfold queue_new. rw (non_null_pos a Ha).
  etrans; [apply (run_act 2 (AMalloc _) _ h 0 h)|].
  { simpl. unfold exec_malloc. by rw Hb. }
  etrans; [apply (run_act 1 (AStore _ _) _ h tt (<[Word a := 0]> h)); simpl; by rw Hv|].
  etrans; [apply (run_act 0 (ALoad _) _ _ 0 (<[Word a := 0]> h)); simpl; by rw lookup_insert_eq|].
  done.
Qed.
End claims.

(** ** Witnesses *)

Definition queue_symbols : QueueSymbols := {| fp_queue_init := 4128; fp_queue_delete := 4144 |}.

Definition queue_linker : Linker := fun f a b =>
  if f =? 4128 then queue_internal_freelist_init_function a b
  else if f =? 4144 then queue_internal_freelist_delete_function a b;; Ret 0
  else Crash BadAccess.

Lemma queue_linker_ok : @QueueLinked queue_linker queue_symbols.
Proof. by split. Qed.

Definition sample_queue_script : list queue_op :=
  [QuEnqueue 5; QuEnqueue 6; QuEnqueue 7; QuGuaranteedEnqueue 8;
   QuValidate (Some {| min_element := 0; max_element := 3 |}); QuDequeue; QuEnqueue 9;
   QuDequeue; QuDequeue; QuDequeue; QuDequeue].

Lemma queue_refines_witness : exists k,
  @run arena _ k (@queue_client queue_linker queue_symbols 2 sample_queue_script) ∅ =
  Done [QuEnqueued 1; QuEnqueued 1; QuEnqueued 0; QuEnqueued 1;
        QuVerdict VALIDITY_VALID VALIDITY_VALID; QuDequeued 1 5; QuEnqueued 1;
        QuDequeued 1 6; QuDequeued 1 8; QuDequeued 1 9; QuDequeued 0 NULL] ∅.
Proof.
  apply (@queue_refines arena arena_ok queue_linker queue_symbols queue_linker_ok 2 sample_queue_script ∅).
  - done.
  - apply arena_room. by vm_compute.
Defined.

Lemma queue_new_no_memory_witness :
  @run (small_arena 64) _ 3 (@queue_new queue_linker queue_symbols 16 4) {[Word 16 := 5]}
  = Done 0 (<[Word 16 := 0]> {[Word 16 := 5]}).
Proof. by apply (@queue_new_no_memory (small_arena 64) queue_linker queue_symbols 16 4 _ 5). Defined.
