(* ===== verification/Slist.v ===== *)
(** * src/basic/lf_slist.c: a singly linked list that only grows, with elements
      that are deleted by a flag next to their data. *)
From S2P Require Import Prelude Machine SepLogic Alloc Script Basic Chain Freelist.
#[local] Open Scope Z_scope.
#[local] Open Scope prog_scope.

(** ** Layout (src/basic/lf_slist.h) *)

(** [struct slist_state]: [head], [delete_func], [state]. *)
Definition SL_HEAD : Z := 0.
Definition SL_DELETE : Z := 8.
Definition SL_STATE : Z := 16.
Definition sizeof_slist_state : Z := 24.

(** [struct slist_element]: [data_flag[2]], [next]. *)
Definition SLE_DATA : Z := 0.
Definition SLE_NEXT : Z := 16.
Definition sizeof_slist_element : Z := 24.

Definition SLIST_NO_FLAGS : Z := 0.
Definition SLIST_FLAG_DELETED : Z := 1.

Definition flag_deleted (flag : Z) : bool := truthy (Z.land flag SLIST_FLAG_DELETED).

(** ** Operations *)

Section code.
Context {LK : Linker}.

Definition slist_internal_init_slist (ss delete_func state : Z) : prog unit :=
  c_assert (non_null ss);;
  store (ss + SL_HEAD) NULL;;
  store (ss + SL_DELETE) delete_func;;
  store (ss + SL_STATE) state.

Definition slist_internal_link_head_body (ss se : Z) (se_next : Z) : prog (Z + unit) :=
  store (se + SLE_NEXT) se_next;;
  let! next := load (se + SLE_NEXT) in
  let! se_next := abstraction_cas (ss + SL_HEAD) se next in
  let! next := load (se + SLE_NEXT) in
  if next =? se_next then Ret (inr tt) else Ret (inl se_next).

Definition slist_internal_link_head (ss se : Z) : prog unit :=
  c_assert (non_null ss);;
  c_assert (non_null se);;
  barrier;;
  let! se_next := load (ss + SL_HEAD) in
  loop (slist_internal_link_head_body ss se) se_next.

(** The condition [se_next != (se_next = ...)] reads and assigns [se_next]
    without a sequence point between them; [left_first] tells whether the
    compiler reads the left operand before the assignment. *)
Definition slist_internal_link_after_body (left_first : bool) (ase se : Z) (se_next : Z)
  : prog (Z + unit) :=
  store (se + SLE_NEXT) se_next;;
  let! next := load (se + SLE_NEXT) in
  let! new_next := abstraction_cas (ase + SLE_NEXT) se next in
  let left_operand := if left_first then se_next else new_next in
  if left_operand =? new_next then Ret (inr tt) else Ret (inl new_next).

Definition slist_internal_link_after (left_first : bool) (ase se : Z) : prog unit :=
  c_assert (non_null ase);;
  c_assert (non_null se);;
  barrier;;
  let! se_next := load (ase + SLE_NEXT) in
  loop (slist_internal_link_after_body left_first ase se) se_next.

Definition slist_new (ss delete_func state : Z) : prog Z :=
  c_assert (non_null ss);;
  let! p := aligned_malloc sizeof_slist_state LF_ALIGN_SINGLE_POINTER in
  store ss p;;
  let! p := load ss in
  let! rv :=
    (if non_null p then slist_internal_init_slist p delete_func state;; Ret 1 else Ret 0) in
  barrier;;
  Ret rv.

(** The swap is not tried when the flag is already set. *)
Definition slist_logically_delete_body (se : Z) (data_flag : Z * Z)
  : prog ((Z * Z) + (Z * (Z * Z))) :=
  let new_data_flag := (data_flag.1, Z.lor data_flag.2 SLIST_FLAG_DELETED) in
  if flag_deleted data_flag.2 then Ret (inr (0, data_flag))
  else
    let! (ok, data_flag) := abstraction_dcas (se + SLE_DATA) new_data_flag data_flag in
    if ok then Ret (inr (1, data_flag)) else Ret (inl data_flag).

Definition slist_logically_delete_element (ss se : Z) : prog Z :=
  c_assert (non_null ss);;
  c_assert (non_null se);;
  barrier;;
  let! data := load (se + SLE_DATA) in
  let! flag := load (se + SLE_DATA + 8) in
  let! (cas_rv, data_flag) := loop (slist_logically_delete_body se) (data, flag) in
  (if cas_rv =? 1 then
     let! delete_func := load (ss + SL_DELETE) in
     if non_null delete_func then
       let! delete_func := load (ss + SL_DELETE) in
       let! state := load (ss + SL_STATE) in
       icall delete_func data_flag.1 state;;
       Ret tt
     else Ret tt
   else Ret tt);;
  Ret cas_rv.

Definition slist_physically_delete_body (ss : Z) (se : Z) : prog (Z + unit) :=
  if non_null se then
    let! delete_func := load (ss + SL_DELETE) in
    (if non_null delete_func then
       let! delete_func := load (ss + SL_DELETE) in
       let! data := load (se + SLE_DATA) in
       let! state := load (ss + SL_STATE) in
       icall delete_func data state;;
       Ret tt
     else Ret tt);;
    let! next := load (se + SLE_NEXT) in
    aligned_free se;;
    Ret (inl next)
  else Ret (inr tt).

Definition slist_single_threaded_physically_delete_all_elements (ss : Z) : prog unit :=
  barrier;;
  let! se := load (ss + SL_HEAD) in
  loop (slist_physically_delete_body ss) se;;
  let! delete_func := load (ss + SL_DELETE) in
  let! state := load (ss + SL_STATE) in
  slist_internal_init_slist ss delete_func state;;
  barrier.

Definition slist_delete (ss : Z) : prog unit :=
  slist_single_threaded_physically_delete_all_elements ss;;
  aligned_free ss.

(** The return value, and what is stored through [data]. *)
Definition slist_get_data (se : Z) : prog (Z * Z) :=
  c_assert (non_null se);;
  barrier;;
  let! data := load (se + SLE_DATA) in
  let! flag := load (se + SLE_DATA + 8) in
  Ret (if flag_deleted flag then 0 else 1, data).

Definition slist_set_data_body (se data : Z) (data_flag : Z * Z) : prog ((Z * Z) + Z) :=
  if flag_deleted data_flag.2 then Ret (inr data_flag.2)
  else
    let! (ok, data_flag) := abstraction_dcas (se + SLE_DATA) (data, data_flag.2) data_flag in
    if ok then Ret (inr data_flag.2) else Ret (inl data_flag).

Definition slist_set_data (se data : Z) : prog Z :=
  c_assert (non_null se);;
  barrier;;
  let! old := load (se + SLE_DATA) in
  let! flag := load (se + SLE_DATA + 8) in
  let! flag := loop (slist_set_data_body se data) (old, flag) in
  let rv := if flag_deleted flag then 0 else 1 in
  barrier;;
  Ret rv.

(** Answers the new value of [*se]. *)
Definition slist_internal_moveto_first_body (se : Z) : prog (Z + Z) :=
  if non_null se then
    let! flag := load (se + SLE_DATA + 8) in
    if flag_deleted flag then let! next := load (se + SLE_NEXT) in Ret (inl next)
    else Ret (inr se)
  else Ret (inr se).

Definition slist_internal_moveto_first (se : Z) : prog Z :=
  loop slist_internal_moveto_first_body se.

Definition slist_get_head (ss : Z) : prog Z :=
  c_assert (non_null ss);;
  barrier;;
  let! se := load (ss + SL_HEAD) in
  slist_internal_moveto_first se.

Definition slist_get_next (se : Z) : prog Z :=
  c_assert (non_null se);;
  barrier;;
  let! nse := load (se + SLE_NEXT) in
  slist_internal_moveto_first nse.

(** [se] is the value of [*se] before the call. *)
Definition slist_pick_head (ss se : Z) : prog Z :=
  c_assert (non_null ss);;
  if se =? NULL then slist_get_head ss else slist_get_next se.

Definition slist_use (ss : Z) : prog unit :=
  c_assert (non_null ss);;
  barrier.

Definition slist_new_head (ss data : Z) : prog Z :=
  c_assert (non_null ss);;
  let! se := aligned_malloc sizeof_slist_element LF_ALIGN_DOUBLE_POINTER in
  if non_null se then
    store (se + SLE_DATA) data;;
    store (se + SLE_DATA + 8) SLIST_NO_FLAGS;;
    slist_internal_link_head ss se;;
    Ret se
  else Ret se.

Definition slist_new_next (left_first : bool) (se data : Z) : prog Z :=
  c_assert (non_null se);;
  let! se_next := aligned_malloc sizeof_slist_element LF_ALIGN_DOUBLE_POINTER in
  if non_null se_next then
    store (se_next + SLE_DATA) data;;
    store (se_next + SLE_DATA + 8) SLIST_NO_FLAGS;;
    slist_internal_link_after left_first se se_next;;
    Ret se_next
  else Ret se_next.
End code.

(** ** Assertions *)

(** An element at [se] with its data and flag, linked to [next]. *)
Definition sl_elem (se : Z) (data_flag : Z * Z) (next : Z) : hProp :=
  (⟨aligned_addr se sizeof_slist_element LF_ALIGN_DOUBLE_POINTER⟩ ∗
   aligned_hdr se sizeof_slist_element LF_ALIGN_DOUBLE_POINTER ∗
   (se + SLE_DATA) ↦₂ data_flag ∗ (se + SLE_NEXT) ↦ next)%I.

(** From [p], the elements of [l] in order; the last one points to [e]. *)
Fixpoint sl_seg (e : Z) (l : list (Z * (Z * Z))) (p : Z) : hProp :=
  match l with
  | [] => ⟨p = e⟩
  | x :: l => ∃ next, ⟨p = x.1⟩ ∗ sl_elem x.1 x.2 next ∗ sl_seg e l next
  end%I.

Definition sl_state (ss head del st : Z) : hProp :=
  (⟨aligned_addr ss sizeof_slist_state LF_ALIGN_SINGLE_POINTER⟩ ∗
   aligned_hdr ss sizeof_slist_state LF_ALIGN_SINGLE_POINTER ∗
   (ss + SL_HEAD) ↦ head ∗ (ss + SL_DELETE) ↦ del ∗ (ss + SL_STATE) ↦ st)%I.

(** A list at [ss] with the elements [l]: address, data and flag of each. *)
Definition slist (ss del st : Z) (l : list (Z * (Z * Z))) : hProp :=
  (∃ head, sl_state ss head del st ∗ sl_seg NULL l head)%I.

(** ** Specifications *)

Lemma sl_seg_app e l1 l2 p :
  sl_seg e (l1 ++ l2) p ⊣⊢ ∃ q, sl_seg q l1 p ∗ sl_seg e l2 q.
Proof.
  revert p. induction l1 as [|x l1 IH]; intros p; simpl.
  - iSplit; [iIntros "H"; iExists p; by iFrame|]. iIntros "(%q & -> & $)".
  - iSplit.
    + iIntros "(%next & -> & Hx & Hl)". rw IH. iDestruct "Hl" as (q) "[Hl1 Hl2]".
      iExists q. iFrame "Hl2". iExists next. by iFrame.
    + iIntros "(%q & (%next & -> & Hx & Hl1) & Hl2)". iExists next. iSplitR; [done|]. iFrame "Hx".
      iApply IH. iExists q. iFrame.
Qed.

(** One element in the middle. *)
Lemma sl_seg_mid e l1 x l2 p :
  sl_seg e (l1 ++ x :: l2) p ⊣⊢ ∃ next, sl_seg x.1 l1 p ∗ sl_elem x.1 x.2 next ∗ sl_seg e l2 next.
Proof.
  rw sl_seg_app. iSplit.
  - iIntros "(%q & Hl1 & (%next & -> & Hx & Hl2))". iExists next. iFrame.
  - iIntros "(%next & Hl1 & Hx & Hl2)". iExists x.1. iFrame. done.
Qed.

Lemma sl_elem_addr se df next :
  sl_elem se df next ⊢ ⌜aligned_addr se sizeof_slist_element LF_ALIGN_DOUBLE_POINTER⌝.
Proof. by iIntros "(% & _)". Qed.

Lemma sl_elem_aligned se d f next :
  sl_elem se (d, f) next ⊣⊢ aligned se sizeof_slist_element LF_ALIGN_DOUBLE_POINTER [d; f; next].
Proof.
  unfold sl_elem, aligned, pair_at, SLE_DATA, SLE_NEXT. simpl. rw Z.add_0_r -!Z.add_assoc /=.
  iSplit.
  - iIntros "(%Ha & Hh & (H0 & H1) & H2)". iFrame. done.
  - iIntros "((%Ha & _) & Hh & H0 & H1 & H2 & _)". iFrame. done.
Qed.

Lemma sl_state_aligned ss head del st :
  sl_state ss head del st ⊣⊢
  aligned ss sizeof_slist_state LF_ALIGN_SINGLE_POINTER [head; del; st].
Proof.
  unfold sl_state, aligned, SL_HEAD, SL_DELETE, SL_STATE. simpl. rw Z.add_0_r -!Z.add_assoc /=.
  iSplit.
  - iIntros "(%Ha & Hh & H0 & H1 & H2)". iFrame. done.
  - iIntros "((%Ha & _) & Hh & H0 & H1 & H2 & _)". iFrame. done.
Qed.

(** The callback of the list neither needs nor takes memory. *)
Abbreviation harmless del st := (delete_spec del st (fun _ => emp%I)).

Section specs.
Context {AL : Allocator} {AO : AllocatorOk} {LK : Linker}.

Lemma slist_non_null ss del st l : slist ss del st l ⊢ ⌜non_null ss = true⌝.
Proof. iIntros "(%head & (% & _) & _)". iPureIntro. eauto with addr. Qed.

Lemma alignable_slist_element : alignable sizeof_slist_element LF_ALIGN_DOUBLE_POINTER.
Proof. done. Qed.
Lemma alignable_slist_state : alignable sizeof_slist_state LF_ALIGN_SINGLE_POINTER.
Proof. done. Qed.

Definition slist_cost : nat := aligned_cost sizeof_slist_state LF_ALIGN_SINGLE_POINTER.
Definition slist_element_cost : nat := aligned_cost sizeof_slist_element LF_ALIGN_DOUBLE_POINTER.

Lemma slist_internal_init_slist_spec ss del st vs :
  {{{ aligned ss sizeof_slist_state LF_ALIGN_SINGLE_POINTER vs }}}
    slist_internal_init_slist ss del st
  {{{ _u, sl_state ss NULL del st }}}.
Proof.
  iIntros (Φ) "Hs HΦ". iDestruct (aligned_facts with "Hs") as %[Ha Hlen].
  destruct vs as [|a [|b [|c [|]]]]; simpl in Hlen; unfold sizeof_slist_state in Hlen; try lia.
  rw -sl_state_aligned. iDestruct "Hs" as "(_ & Hh & H0 & H1 & H2)".
  unfold slist_internal_init_slist. wp_assert; [eauto with addr|]. do 3 wp_store.
  iApply wp_ret. iApply "HΦ". by iFrame.
Qed.

Lemma slist_new_spec a del st :
  0 < a ->
  {{{ cell a ∗ credits slist_cost }}} slist_new a del st
  {{{ rv, ∃ ss, ⟨rv = 1⟩ ∗ a ↦ ss ∗ slist ss del st [] }}}.
Proof.
  iIntros (Ha Φ) "[(%v & Ha) Hc] HΦ". unfold slist_new. wp_assert; [by apply non_null_pos|].
  wp_call. iApply (aligned_malloc_spec with "Hc"); [apply alignable_slist_state|].
  iIntros (ss) "(%vs & Hs)". iDestruct (aligned_facts with "Hs") as %[Hs _].
  wp_store. wp_load. rw (aligned_addr_non_null0 _ _ _ Hs). cbv iota.
  wp_call. iApply (slist_internal_init_slist_spec with "Hs"). iIntros ([]) "Hs".
  iApply wp_ret. iApply "HΦ". iExists ss. iSplitR; [done|]. iFrame "Ha". iExists NULL. by iFrame.
Qed.

(** The fresh element both insertions start from. *)
Lemma slist_alloc_spec data (k : Z -> prog Z) Φ :
  credits slist_element_cost -∗
  (∀ se next, sl_elem se (data, SLIST_NO_FLAGS) next -∗ wp (k se) Φ) -∗
  wp (let! se := aligned_malloc sizeof_slist_element LF_ALIGN_DOUBLE_POINTER in
      if non_null se then
        store (se + SLE_DATA) data;;
        store (se + SLE_DATA + 8) SLIST_NO_FLAGS;;
        k se
      else Ret se) Φ.
Proof.
  iIntros "Hc HΦ". wp_call. iApply (aligned_malloc_spec with "Hc"); [apply alignable_slist_element|].
  iIntros (se) "(%vs & Hs)". iDestruct (aligned_facts with "Hs") as %[Ha Hlen].
  destruct vs as [|a [|b [|c [|]]]]; simpl in Hlen; unfold sizeof_slist_element in Hlen; try lia.
  rw -sl_elem_aligned. iDestruct "Hs" as "(_ & Hh & Hdf & Hn)".
  rw (aligned_addr_non_null0 _ _ _ Ha). wp_store. wp_store.
  iApply "HΦ". by iFrame.
Qed.

Lemma slist_new_head_spec ss del st l data :
  {{{ slist ss del st l ∗ credits slist_element_cost }}} slist_new_head ss data
  {{{ se, ⟨0 < se⟩ ∗ slist ss del st ((se, (data, SLIST_NO_FLAGS)) :: l) }}}.
Proof.
  iIntros (Φ) "[(%head & (%Ha & Hh & Hhd & Hdel & Hst) & Hl) Hc] HΦ".
  unfold slist_new_head. wp_assert; [eauto with addr|].
  iApply (slist_alloc_spec data (fun se => slist_internal_link_head ss se;; Ret se) with "Hc").
  iIntros (se next) "(%Hse & Hseh & Hdf & Hn)". unfold slist_internal_link_head.
  wp_assert; [eauto with addr|]. wp_assert; [eauto with addr|]. wp_load.
  wp_call. iApply wp_loop. unfold slist_internal_link_head_body. wp_store. wp_load.
  unfold abstraction_cas. wp_assert; [eauto with addr|]. wp_cas. wp_load.
  rw Z.eqb_refl. iApply wp_ret. iApply wp_ret. iApply "HΦ".
  iSplitR; [iPureIntro; by destruct Hse|]. iExists se. iFrame. by repeat iSplit.
Qed.

Lemma slist_new_next_spec left_first ss del st l1 x l2 data :
  {{{ slist ss del st (l1 ++ x :: l2) ∗ credits slist_element_cost }}}
    slist_new_next left_first x.1 data
  {{{ se, ⟨0 < se⟩ ∗ slist ss del st (l1 ++ x :: (se, (data, SLIST_NO_FLAGS)) :: l2) }}}.
Proof.
  iIntros (Φ) "[(%head & Hs & Hl) Hc] HΦ". rw sl_seg_mid.
  iDestruct "Hl" as (next) "(Hl1 & (%Hx & Hxh & Hxdf & Hxn) & Hl2)".
  unfold slist_new_next. wp_assert; [eauto with addr|].
  iApply (slist_alloc_spec data (fun se => slist_internal_link_after left_first x.1 se;; Ret se) with "Hc").
  iIntros (se next') "(%Hse & Hseh & Hdf & Hn)". unfold slist_internal_link_after.
  wp_assert; [eauto with addr|]. wp_assert; [eauto with addr|]. wp_load.
  wp_call. iApply wp_loop. unfold slist_internal_link_after_body. wp_store. wp_load.
  unfold abstraction_cas. wp_assert; [eauto with addr|]. wp_cas. cbv zeta.
  replace (if left_first then next else next) with next by by destruct left_first.
  rw Z.eqb_refl. iApply wp_ret. iApply wp_ret. iApply "HΦ".
  iSplitR; [iPureIntro; by destruct Hse|]. iExists head. iFrame "Hs". iApply sl_seg_mid.
  iExists se. iFrame "Hl1 Hxh Hxdf Hxn". iSplitR; [done|]. iExists next. by iFrame.
Qed.

(** The flag is set once: the first deletion answers 1, later ones 0. *)
Lemma slist_logically_delete_element_spec ss del st l1 x l2 :
  harmless del st ->
  {{{ slist ss del st (l1 ++ x :: l2) }}} slist_logically_delete_element ss x.1
  {{{ rv, if flag_deleted x.2.2 then ⟨rv = 0⟩ ∗ slist ss del st (l1 ++ x :: l2)
          else ⟨rv = 1⟩ ∗
            slist ss del st (l1 ++ (x.1, (x.2.1, Z.lor x.2.2 SLIST_FLAG_DELETED)) :: l2) }}}.
Proof.
  iIntros (Hdel Φ) "(%head & (%Ha & Hh & Hhd & Hdel & Hst) & Hl) HΦ". rw sl_seg_mid.
  iDestruct "Hl" as (next) "(Hl1 & (%Hx & Hxh & Hxdf & Hxn) & Hl2)".
  destruct x as [se [d f]]. cbn [fst snd] in *.
  unfold slist_logically_delete_element. wp_assert; [eauto with addr|]. wp_assert; [eauto with addr|].
  wp_load. wp_load. wp_call. iApply wp_loop. unfold slist_logically_delete_body. cbn [fst snd].
  destruct (flag_deleted f) eqn:Hf.
  - iApply wp_ret. change (0 =? 1) with false. cbv iota. wp_simpl. iApply wp_ret. iApply "HΦ". iSplitR; [done|].
    iExists head. iSplitL "Hh Hhd Hdel Hst"; [by iFrame|]. iApply sl_seg_mid. iExists next. by iFrame.
  - wp_abs_dcas. iApply wp_ret. change (1 =? 1) with true. cbv iota.
    iAssert (sl_state ss head del st -∗ Φ 1)%I with "[Hl1 Hxh Hxdf Hxn Hl2 HΦ]" as "HΦ".
    { iIntros "Hs". iApply "HΦ". iSplitR; [done|]. iExists head. iFrame "Hs". iApply sl_seg_mid.
      iExists next. by iFrame. }
    wp_load. unfold non_null. destruct (Z.eqb_spec del NULL) as [->|Hne]; simpl.
    + wp_simpl. iApply wp_ret. iApply "HΦ". by iFrame.
    + wp_load. wp_load. unfold delete_spec in Hdel. rw (proj2 (Z.eqb_neq _ _) Hne) in Hdel.
      wp_call. iApply (Hdel with "[//]"). iIntros (rv) "_". wp_simpl. iApply wp_ret.
      iApply "HΦ". by iFrame.
Qed.

Lemma slist_get_data_spec ss del st l1 x l2 :
  {{{ slist ss del st (l1 ++ x :: l2) }}} slist_get_data x.1
  {{{ r, ⟨r = (if flag_deleted x.2.2 then 0 else 1, x.2.1)⟩ ∗ slist ss del st (l1 ++ x :: l2) }}}.
Proof.
  iIntros (Φ) "(%head & Hs & Hl) HΦ". rw sl_seg_mid.
  iDestruct "Hl" as (next) "(Hl1 & (%Hx & Hxh & Hxdf & Hxn) & Hl2)". destruct x as [se [d f]].
  cbn [fst snd] in *. unfold slist_get_data. wp_assert; [eauto with addr|]. wp_load. wp_load.
  iApply wp_ret. iApply "HΦ". iSplitR; [done|]. iExists head. iFrame "Hs". iApply sl_seg_mid.
  iExists next. by iFrame.
Qed.

(** Data can be set until the element is deleted. *)
Lemma slist_set_data_spec ss del st l1 x l2 data :
  {{{ slist ss del st (l1 ++ x :: l2) }}} slist_set_data x.1 data
  {{{ rv, if flag_deleted x.2.2 then ⟨rv = 0⟩ ∗ slist ss del st (l1 ++ x :: l2)
          else ⟨rv = 1⟩ ∗ slist ss del st (l1 ++ (x.1, (data, x.2.2)) :: l2) }}}.
Proof.
  iIntros (Φ) "(%head & Hs & Hl) HΦ". rw sl_seg_mid.
  iDestruct "Hl" as (next) "(Hl1 & (%Hx & Hxh & Hxdf & Hxn) & Hl2)". destruct x as [se [d f]].
  cbn [fst snd] in *. unfold slist_set_data. wp_assert; [eauto with addr|]. wp_load. wp_load.
  wp_call. iApply wp_loop. unfold slist_set_data_body. cbn [fst snd].
  destruct (flag_deleted f) eqn:Hf.
  - iApply wp_ret. cbv zeta. rw Hf. iApply wp_ret. iApply "HΦ". iSplitR; [done|].
    iExists head. iFrame "Hs". iApply sl_seg_mid. iExists next. by iFrame.
  - wp_abs_dcas. iApply wp_ret. cbn [snd]. cbv zeta. rw Hf. iApply wp_ret. iApply "HΦ". iSplitR; [done|].
    iExists head. iFrame "Hs". iApply sl_seg_mid. iExists next. by iFrame.
Qed.

(** ** Traversal *)

(** The address of the first element that is not deleted. *)
Fixpoint first_live (l : list (Z * (Z * Z))) : Z :=
  match l with
  | [] => NULL
  | x :: l => if flag_deleted x.2.2 then first_live l else x.1
  end.

Lemma slist_internal_moveto_first_spec l p :
  {{{ sl_seg NULL l p }}} slist_internal_moveto_first p
  {{{ r, ⟨r = first_live l⟩ ∗ sl_seg NULL l p }}}.
Proof.
  unfold slist_internal_moveto_first. revert p.
  induction l as [|[se [d f]] l IH]; iIntros (p Φ) "Hl HΦ";
    iApply wp_loop; unfold slist_internal_moveto_first_body at 1.
  - iDestruct "Hl" as %->. iApply wp_ret. by iApply "HΦ".
  - iDestruct "Hl" as (next) "(-> & (%Hx & Hxh & Hxdf & Hxn) & Hl)". cbn [fst snd] in *.
    rw (aligned_addr_non_null0 _ _ _ Hx). wp_load.
    cbn [first_live fst snd]. destruct (flag_deleted f) eqn:Hf.
    + wp_load. iApply wp_ret. iApply (IH with "Hl"). iIntros (r) "[-> Hl]". iApply "HΦ".
      iSplitR; [done|]. iExists next. by iFrame.
    + iApply wp_ret. iApply "HΦ". iSplitR; [done|]. iExists next. by iFrame.
Qed.

Lemma slist_get_head_spec ss del st l :
  {{{ slist ss del st l }}} slist_get_head ss {{{ r, ⟨r = first_live l⟩ ∗ slist ss del st l }}}.
Proof.
  iIntros (Φ) "(%head & (%Ha & Hh & Hhd & Hdel & Hst) & Hl) HΦ". unfold slist_get_head.
  wp_assert; [eauto with addr|]. wp_load.
  iApply (slist_internal_moveto_first_spec with "Hl"). iIntros (r) "[-> Hl]".
  iApply "HΦ". iSplitR; [done|]. iExists head. by iFrame.
Qed.

Lemma slist_get_next_spec ss del st l1 x l2 :
  {{{ slist ss del st (l1 ++ x :: l2) }}} slist_get_next x.1
  {{{ r, ⟨r = first_live l2⟩ ∗ slist ss del st (l1 ++ x :: l2) }}}.
Proof.
  iIntros (Φ) "(%head & Hs & Hl) HΦ". rw sl_seg_mid.
  iDestruct "Hl" as (next) "(Hl1 & (%Hx & Hxh & Hxdf & Hxn) & Hl2)".
  unfold slist_get_next. wp_assert; [eauto with addr|]. wp_load.
  iApply (slist_internal_moveto_first_spec with "Hl2"). iIntros (r) "[-> Hl2]".
  iApply "HΦ". iSplitR; [done|]. iExists head. iFrame "Hs". iApply sl_seg_mid. iExists next. by iFrame.
Qed.

(** ** Physical deletion *)

Lemma slist_physically_delete_loop ss head del st l p :
  harmless del st ->
  {{{ sl_state ss head del st ∗ sl_seg NULL l p }}} loop (slist_physically_delete_body ss) p
  {{{ _u, sl_state ss head del st }}}.
Proof.
  intros Hdel. revert p. induction l as [|[se [d f]] l IH]; iIntros (p Φ) "[Hs Hl] HΦ";
    iApply wp_loop; unfold slist_physically_delete_body at 1.
  - iDestruct "Hl" as %->. iApply wp_ret. by iApply "HΦ".
  - iDestruct "Hl" as (next) "(-> & (%Hx & Hxh & Hxdf & Hxn) & Hl)". cbn [fst snd] in *.
    iDestruct "Hs" as "(%Ha & Hh & Hhd & Hdel & Hst)".
    rw (aligned_addr_non_null0 _ _ _ Hx). wp_load.
    iApply (wp_bind (if non_null del then _ else _)).
    iAssert (sl_state ss head del st -∗ sl_elem se (d, f) next -∗
      wp (let! next := load (se + SLE_NEXT) in aligned_free se;; Ret (inl next))
        (fun r => match r with
                  | inl s => wp (loop (slist_physically_delete_body ss) s) Φ
                  | inr b => Φ b
                  end))%I with "[Hl HΦ]" as "Hk".
    { iIntros "Hs (_ & Hxh & Hxdf & Hxn)". wp_load. wp_call.
      iApply (aligned_free_spec se _ _ [d; f; next] with "[Hxh Hxdf Hxn]").
      { iApply sl_elem_aligned. by iFrame. }
      iIntros ([]) "_". iApply wp_ret. iApply (IH with "[$Hs $Hl] HΦ"). }
    unfold non_null. destruct (Z.eqb_spec del NULL) as [->|Hne]; simpl.
    + iApply wp_ret. iApply ("Hk" with "[Hh Hhd Hdel Hst]"); by iFrame.
    + wp_load. wp_load. wp_load. unfold delete_spec in Hdel. rw (proj2 (Z.eqb_neq _ _) Hne) in Hdel.
      wp_call. iApply (Hdel with "[//]"). iIntros (rv) "_". iApply wp_ret.
      iApply ("Hk" with "[Hh Hhd Hdel Hst]"); by iFrame.
Qed.

Lemma slist_physically_delete_all_spec ss del st l :
  harmless del st ->
  {{{ slist ss del st l }}} slist_single_threaded_physically_delete_all_elements ss
  {{{ _u, slist ss del st [] }}}.
Proof.
  iIntros (Hdel Φ) "(%head & (%Ha & Hh & Hhd & Hdel & Hst) & Hl) HΦ".
  unfold slist_single_threaded_physically_delete_all_elements. wp_load.
  wp_call. iApply (slist_physically_delete_loop ss head with "[$Hl $Hh $Hhd $Hdel $Hst]"); [done|done|].
  iIntros ([]) "(_ & Hh & Hhd & Hdel & Hst)". wp_load. wp_load.
  wp_call. iApply (slist_internal_init_slist_spec _ _ _ [head; del; st] with "[Hh Hhd Hdel Hst]").
  { iApply sl_state_aligned. by iFrame. }
  iIntros ([]) "Hs". iApply wp_ret. iApply "HΦ". iExists NULL. by iFrame.
Qed.

(** Deleting a list gives all of its memory back. *)
Lemma slist_delete_spec ss del st l :
  harmless del st -> {{{ slist ss del st l }}} slist_delete ss {{{ _u, emp }}}.
Proof.
  iIntros (Hdel Φ) "Hs HΦ". unfold slist_delete.
  wp_call. iApply (slist_physically_delete_all_spec with "Hs"); [done|].
  iIntros ([]) "(%head & Hs & _)". rw sl_state_aligned.
  iApply (aligned_free_spec with "Hs HΦ").
Qed.
End specs.

(** ** Clients of the list

    The client keeps the addresses of the elements it made, in that order, and
    names them by their number. *)

Inductive slist_op : Set :=
| SlNewHead (data : Z)
| SlNewNext (i : nat) (data : Z)
| SlDelete (i : nat)
| SlSetData (i : nat) (data : Z)
| SlGetData (i : nat)
| SlTraverse.

Inductive slist_out : Set :=
| SlMade
| SlNone
| SlResult (rv : Z)
| SlData (rv data : Z)
| SlAll (l : list Z).

Section client.
Context {LK : Linker} (left_first : bool) (ss : Z).

(** All the data, from [slist_pick_head] on a null cursor to a null answer. *)
Definition slist_traverse_body (s : Z * list Z) : prog ((Z * list Z) + list Z) :=
  let '(se, acc) := s in
  let! se := slist_pick_head ss se in
  if non_null se then
    let! (_, d) := slist_get_data se in
    Ret (inl (se, acc ++ [d]))
  else Ret (inr acc).

Definition slist_traverse : prog (list Z) := loop slist_traverse_body (NULL, []).

Definition slist_exec (op : slist_op) (es : list Z) : prog (slist_out * list Z) :=
  match op with
  | SlNewHead d => let! se := slist_new_head ss d in Ret (SlMade, es ++ [se])
  | SlNewNext i d =>
      match es !! i with
      | Some p => let! se := slist_new_next left_first p d in Ret (SlMade, es ++ [se])
      | None => Ret (SlNone, es)
      end
  | SlDelete i =>
      match es !! i with
      | Some p => let! rv := slist_logically_delete_element ss p in Ret (SlResult rv, es)
      | None => Ret (SlNone, es)
      end
  | SlSetData i d =>
      match es !! i with
      | Some p => let! rv := slist_set_data p d in Ret (SlResult rv, es)
      | None => Ret (SlNone, es)
      end
  | SlGetData i =>
      match es !! i with
      | Some p => let! (rv, d) := slist_get_data p in Ret (SlData rv d, es)
      | None => Ret (SlNone, es)
      end
  | SlTraverse => let! l := slist_traverse in Ret (SlAll l, es)
  end.
End client.

(** The abstract list: how many elements were made, and in list order the
    number, the data and the flag of each. *)
Record slist_abs : Set := SlistAbs { sl_made : nat; sl_items : list (nat * (Z * Z)) }.

Fixpoint locate {A : Type} (i : nat) (l : list (nat * A)) : option (list (nat * A) * A * list (nat * A)) :=
  match l with
  | [] => None
  | (j, a) :: l =>
      if decide (i = j) then Some ([], a, l)
      else match locate i l with
           | Some (l1, b, l2) => Some ((j, a) :: l1, b, l2)
           | None => None
           end
  end.

Fixpoint live_data {A : Type} (l : list (A * (Z * Z))) : list Z :=
  match l with
  | [] => []
  | x :: l => if flag_deleted x.2.2 then live_data l else x.2.1 :: live_data l
  end.

Definition slist_aexec (op : slist_op) (s : slist_abs) : slist_out * slist_abs :=
  let '(SlistAbs n l) := s in
  match op with
  | SlNewHead d => (SlMade, SlistAbs (S n) ((n, (d, SLIST_NO_FLAGS)) :: l))
  | SlNewNext i d =>
      match locate i l with
      | Some (l1, a, l2) => (SlMade, SlistAbs (S n) (l1 ++ (i, a) :: (n, (d, SLIST_NO_FLAGS)) :: l2))
      | None => (SlNone, s)
      end
  | SlDelete i =>
      match locate i l with
      | Some (l1, (d, f), l2) =>
          if flag_deleted f then (SlResult 0, s)
          else (SlResult 1, SlistAbs n (l1 ++ (i, (d, Z.lor f SLIST_FLAG_DELETED)) :: l2))
      | None => (SlNone, s)
      end
  | SlSetData i d =>
      match locate i l with
      | Some (l1, (_, f), l2) =>
          if flag_deleted f then (SlResult 0, s) else (SlResult 1, SlistAbs n (l1 ++ (i, (d, f)) :: l2))
      | None => (SlNone, s)
      end
  | SlGetData i =>
      match locate i l with
      | Some (_, (d, f), _) => (SlData (if flag_deleted f then 0 else 1) d, s)
      | None => (SlNone, s)
      end
  | SlTraverse => (SlAll (live_data l), s)
  end.

Definition slist_client {LK : Linker} (left_first : bool) (ops : list slist_op) : prog (list slist_out) :=
  with_variable (fun a =>
    slist_new a NULL NULL;;
    let! ss := load a in
    let! (outs, _) := script (slist_exec left_first ss) ops [] in
    slist_delete ss;;
    Ret outs).

Definition slist_op_cost (op : slist_op) : nat :=
  match op with SlNewHead _ | SlNewNext _ _ => slist_element_cost | _ => 0%nat end.

Definition slist_client_cost (ops : list slist_op) : nat :=
  (variable_cost + (slist_cost + script_cost slist_op_cost ops))%nat.

Lemma locate_spec {A : Type} i (l : list (nat * A)) l1 a l2 :
  locate i l = Some (l1, a, l2) -> l = l1 ++ (i, a) :: l2.
Proof.
  revert l1. induction l as [|[j b] l IH]; intros l1 H; [done|]. simpl in H. case_decide as Hij.
  - by simplify_eq.
  - destruct (locate i l) as [[[l1' b'] l2']|]; [|done]. simplify_eq. simpl. f_equal. by apply IH.
Qed.

Lemma locate_None {A : Type} i (l : list (nat * A)) : locate i l = None -> i ∉ l.*1.
Proof.
  induction l as [|[j b] l IH]; intros H; [apply not_elem_of_nil|]. simpl in H. case_decide as Hij; [done|].
  destruct (locate i l) as [[[??]?]|]; [done|]. simpl. apply not_elem_of_cons. auto.
Qed.

(** What a traversal meets: nothing, or a first live element. *)
Lemma live_cases {A : Type} (l : list (A * (Z * Z))) :
  live_data l = [] \/
  exists l1 x l2, l = l1 ++ x :: l2 /\ flag_deleted x.2.2 = false /\
    live_data l1 = [] /\ live_data l = x.2.1 :: live_data l2.
Proof.
  induction l as [|x l IH]; [by left|]. simpl. destruct (flag_deleted x.2.2) eqn:Hx.
  - destruct IH as [|(l1 & y & l2 & -> & Hy & Hl1 & Hl)]; [by left|].
    right. exists (x :: l1), y, l2. simpl. rw Hx. done.
  - right. by exists [], x, l.
Qed.

(** ** Refinement *)

(** The element [x] of the abstract list is the element [y] in memory. *)
Definition sl_item (es : list Z) (x : nat * (Z * Z)) (y : Z * (Z * Z)) : Prop :=
  es !! x.1 = Some y.1 /\ y.2 = x.2.

Record sl_related (s : slist_abs) (es : list Z) (la : list (Z * (Z * Z))) : Prop := {
  rel_length : length es = sl_made s;
  rel_ids i : (i < sl_made s)%nat <-> i ∈ (sl_items s).*1;
  rel_items : Forall2 (sl_item es) (sl_items s) la;
}.

Lemma sl_items_grow es se l la :
  Forall2 (sl_item es) l la -> Forall2 (sl_item (es ++ [se])) l la.
Proof.
  intros H. eapply Forall2_impl; [exact H|]. intros x y [Hx Hy]. split; [|done].
  by apply lookup_app_l_Some.
Qed.

Lemma sl_item_new es (se : Z) df : sl_item (es ++ [se]) (length es, df) (se, df).
Proof. split; [|done]. simpl. by rw lookup_app_r ?Nat.sub_diag; [|lia]. Qed.

Lemma related_locate n l es la i p :
  sl_related (SlistAbs n l) es la -> es !! i = Some p ->
  exists l1 a l2 la1 la2, locate i l = Some (l1, a, l2) /\ l = l1 ++ (i, a) :: l2 /\
    la = la1 ++ (p, a) :: la2 /\ Forall2 (sl_item es) l1 la1 /\ Forall2 (sl_item es) l2 la2.
Proof.
  intros [Hn Hids Hl] Hp. simpl in *.
  destruct (locate i l) as [[[l1 a] l2]|] eqn:Hloc.
  2: { apply locate_None in Hloc. destruct Hloc. apply Hids. rw -Hn. by eapply lookup_lt_Some. }
  apply locate_spec in Hloc as ->.
  apply Forall2_app_inv_l in Hl as (la1 & la' & H1 & H2 & ->).
  apply Forall2_cons_inv_l in H2 as ([q b] & la2 & [Hq Hb] & H2 & ->). simpl in *. simplify_eq.
  by exists l1, a, l2, la1, la2.
Qed.

Lemma related_locate_None n l es la i :
  sl_related (SlistAbs n l) es la -> es !! i = None -> locate i l = None.
Proof.
  intros [Hn Hids _] Hi. simpl in *. destruct (locate i l) as [[[l1 a] l2]|] eqn:Hloc; [|done].
  apply locate_spec in Hloc as ->. exfalso. apply lookup_ge_None in Hi.
  assert (i < n)%nat; [|lia]. apply Hids. rw fmap_app. apply elem_of_app. right. by left.
Qed.

(** Changing one item in place. *)
Lemma related_update n l1 i a b l2 es la1 p la2 :
  sl_related (SlistAbs n (l1 ++ (i, a) :: l2)) es (la1 ++ (p, a) :: la2) ->
  es !! i = Some p -> Forall2 (sl_item es) l1 la1 -> Forall2 (sl_item es) l2 la2 ->
  sl_related (SlistAbs n (l1 ++ (i, b) :: l2)) es (la1 ++ (p, b) :: la2).
Proof.
  intros [Hn Hids _] Hp H1 H2. simpl in *. split; simpl; [done| |].
  - intros j. rw Hids !fmap_app. done.
  - apply Forall2_app; [done|]. by constructor.
Qed.

Lemma related_insert n l1 l2 es se df la1 la2 :
  length es = n -> (forall i, (i < n)%nat <-> i ∈ (l1 ++ l2).*1) ->
  Forall2 (sl_item es) l1 la1 -> Forall2 (sl_item es) l2 la2 ->
  sl_related (SlistAbs (S n) (l1 ++ (n, df) :: l2)) (es ++ [se]) (la1 ++ (se, df) :: la2).
Proof.
  intros Hn Hids H1 H2. split; simpl.
  - rw length_app /=. lia.
  - intros i. rw fmap_app elem_of_app /= elem_of_cons. specialize (Hids i).
    rw fmap_app elem_of_app in Hids. destruct (decide (i = n)) as [->|Hne].
    + split; [by right; left|lia].
    + assert ((i < S n)%nat <-> (i < n)%nat) as -> by lia. rw Hids. tauto.
  - apply Forall2_app; [by apply sl_items_grow|]. constructor; [|by apply sl_items_grow].
    rw -Hn. apply sl_item_new.
Qed.

Section refinement.
Context {AL : Allocator} {AO : AllocatorOk} {LK : Linker}.

Definition sl_rep (ss : Z) (s : slist_abs) (es : list Z) : hProp :=
  (∃ la, ⟨sl_related s es la⟩ ∗ slist ss NULL NULL la)%I.

Lemma no_callback : harmless NULL NULL.
Proof. done. Qed.

Lemma first_live_spec ss del st l1 l :
  slist ss del st (l1 ++ l) ⊢
  ⌜live_data l = [] /\ first_live l = NULL \/
   exists l2 x l3, l = l2 ++ x :: l3 /\ first_live l = x.1 /\ 0 < x.1 /\
     live_data l = x.2.1 :: live_data l3⌝%Z.
Proof.
  revert l1. induction l as [|x l IH]; intros l1; simpl; [iIntros "_"; iPureIntro; by left|].
  destruct (flag_deleted x.2.2).
  - iIntros "Hs". replace (l1 ++ x :: l) with ((l1 ++ [x]) ++ l) by by rw -app_assoc.
    iDestruct (IH with "Hs") as %[?|(l2 & y & l3 & -> & ?)]; iPureIntro; [by left|].
    right. by exists (x :: l2), y, l3.
  - iIntros "(%head & _ & Hl)". rw sl_seg_mid. iDestruct "Hl" as (next) "(_ & Hx & _)".
    iDestruct (sl_elem_addr with "Hx") as %[Hpos _]. iPureIntro. right. by exists [], x, l.
Qed.

(** From a cursor on [x], the rest of the traversal. *)
Lemma slist_traverse_from ss del st n l1 x l acc :
  (length l <= n)%nat -> 0 < x.1 ->
  {{{ slist ss del st (l1 ++ x :: l) }}} loop (slist_traverse_body ss) (x.1, acc)
  {{{ r, ⟨r = acc ++ live_data l⟩ ∗ slist ss del st (l1 ++ x :: l) }}}.
Proof.
  revert l1 x l acc. induction n as [n IH] using lt_wf_ind.
  iIntros (l1 x l acc Hlen Hpos Φ) "Hs HΦ". iDestruct (slist_non_null with "Hs") as %Hnn.
  replace (l1 ++ x :: l) with ((l1 ++ [x]) ++ l) by by rw -app_assoc.
  iDestruct (first_live_spec with "Hs") as %Hl. rw -app_assoc.
  iApply wp_loop. unfold slist_traverse_body at 1, slist_pick_head. wp_assert.
  rw (proj2 (Z.eqb_neq x.1 NULL)); last (unfold NULL; lia).
  wp_call. iApply (slist_get_next_spec with "Hs"). iIntros (r) "[-> Hs]".
  destruct Hl as [[Hl ->]|(l2 & y & l3 & -> & -> & Hy & Hl)].
  - iApply wp_ret. iApply "HΦ". rw Hl app_nil_r. by iFrame.
  - rw (non_null_pos y.1) //.
    assert (l1 ++ [x] ++ l2 ++ y :: l3 = (l1 ++ x :: l2) ++ y :: l3) as E by by rw -app_assoc.
    rw E. wp_call. iApply (slist_get_data_spec with "Hs"). iIntros (r) "[-> Hs]". iApply wp_ret.
    rw length_app /= in Hlen. iApply (IH (length l3) with "Hs"); [lia|lia|done|].
    iIntros (r) "[-> Hs]". iApply "HΦ". iSplitR; [|done]. iPureIntro. by rw Hl -app_assoc.
Qed.

Lemma slist_traverse_spec ss del st l :
  {{{ slist ss del st l }}} slist_traverse ss
  {{{ r, ⟨r = live_data l⟩ ∗ slist ss del st l }}}.
Proof.
  iIntros (Φ) "Hs HΦ". iDestruct (slist_non_null with "Hs") as %Hnn.
  iDestruct (first_live_spec ss del st [] with "Hs") as %Hl.
  unfold slist_traverse. iApply wp_loop. unfold slist_traverse_body at 1, slist_pick_head. wp_assert.
  change (NULL =? NULL) with true. cbv iota.
  wp_call. iApply (slist_get_head_spec with "Hs"). iIntros (r) "[-> Hs]".
  destruct Hl as [[Hl ->]|(l2 & y & l3 & -> & -> & Hy & Hl)].
  - iApply wp_ret. iApply "HΦ". rw Hl. by iFrame.
  - rw (non_null_pos y.1) //. wp_call. iApply (slist_get_data_spec with "Hs").
    iIntros (r) "[-> Hs]". iApply wp_ret. iApply (slist_traverse_from with "Hs"); [done|done|].
    iIntros (r) "[-> Hs]". iApply "HΦ". rw Hl. by iFrame.
Qed.

Lemma live_data_related es l la : Forall2 (sl_item es) l la -> live_data la = live_data l.
Proof. induction 1 as [|x y l la [_ Hxy] _ IH]; [done|]. simpl. rw Hxy IH. done. Qed.

(** An operation on an element the client does not have. *)
Ltac slist_missing Hrel Hi :=
  rw (related_locate_None _ _ _ _ _ Hrel Hi); iApply wp_ret; iApply "HΦ"; iSplitR; [done|];
  iExists _; by iFrame.

Lemma slist_exec_new left_first ss s es op :
  match op with SlNewHead _ | SlNewNext _ _ => True | _ => False end ->
  {{{ sl_rep ss s es ∗ credits slist_element_cost }}} slist_exec left_first ss op es
  {{{ r, ⟨r.1 = (slist_aexec op s).1⟩ ∗ sl_rep ss (slist_aexec op s).2 r.2 }}}.
Proof.
  destruct s as [n l]. iIntros (Hop Φ) "[(%la & %Hrel & Hs) Hc] HΦ".
  destruct op as [d|i d| | | |]; try done; cbn [slist_exec slist_aexec].
  - wp_call. iApply (slist_new_head_spec with "[$Hs $Hc]"). iIntros (se) "[%Hse Hs]".
    iApply wp_ret. iApply "HΦ". iSplitR; [done|]. iExists ((se, (d, SLIST_NO_FLAGS)) :: la).
    iFrame "Hs". iPureIntro. destruct Hrel as [Hn Hids Hl].
    by apply (related_insert n [] l es se (d, SLIST_NO_FLAGS) [] la).
  - destruct (es !! i) as [q|] eqn:Hi.
    + destruct (related_locate _ _ _ _ _ _ Hrel Hi) as (l1 & a & l2 & la1 & la2 & -> & -> & -> & H1 & H2).
      wp_call. iApply (slist_new_next_spec left_first ss NULL NULL la1 (q, a) la2 with "[$Hs $Hc]").
      iIntros (se) "[%Hse Hs]". iApply wp_ret. iApply "HΦ". iSplitR; [done|].
      iExists (la1 ++ (q, a) :: (se, (d, SLIST_NO_FLAGS)) :: la2). iFrame "Hs". iPureIntro.
      destruct Hrel as [Hn Hids Hl]. simpl.
      assert (Forall2 (sl_item es) (l1 ++ [(i, a)]) (la1 ++ [(q, a)])) as H1'.
      { apply Forall2_app; [done|]. by constructor. }
      eapply (related_insert n _ l2 es se (d, SLIST_NO_FLAGS) _ la2) in H1'; [|done| |done].
      * by rw -!app_assoc in H1'.
      * intros j. rw -app_assoc. apply Hids.
    + iApply (wp_credits slist_element_cost). iFrame "Hc". slist_missing Hrel Hi.
Qed.

Lemma slist_exec_old left_first ss s es op :
  match op with SlDelete _ | SlSetData _ _ | SlGetData _ => True | _ => False end ->
  {{{ sl_rep ss s es }}} slist_exec left_first ss op es
  {{{ r, ⟨r.1 = (slist_aexec op s).1⟩ ∗ sl_rep ss (slist_aexec op s).2 r.2 }}}.
Proof.
  destruct s as [n l]. iIntros (Hop Φ) "(%la & %Hrel & Hs) HΦ".
  destruct op as [| |i|i d|i|]; try done; cbn [slist_exec slist_aexec];
    (destruct (es !! i) as [q|] eqn:Hi; [|slist_missing Hrel Hi]);
    destruct (related_locate _ _ _ _ _ _ Hrel Hi) as (l1 & [d' f] & l2 & la1 & la2 & -> & -> & -> & H1 & H2);
    wp_call.
  - iApply (slist_logically_delete_element_spec ss NULL NULL la1 (q, (d', f)) la2 with "Hs");
      [apply no_callback|]. iIntros (rv) "Hr". iApply wp_ret. iApply "HΦ". cbn [fst snd].
    destruct (flag_deleted f); iDestruct "Hr" as "[-> Hs]"; (iSplitR; [done|]); iExists _; iFrame "Hs";
      iPureIntro; [done|]. by eapply related_update.
  - iApply (slist_set_data_spec ss NULL NULL la1 (q, (d', f)) la2 d with "Hs").
    iIntros (rv) "Hr". iApply wp_ret. iApply "HΦ". cbn [fst snd].
    destruct (flag_deleted f); iDestruct "Hr" as "[-> Hs]"; (iSplitR; [done|]); iExists _; iFrame "Hs";
      iPureIntro; [done|]. by eapply related_update.
  - iApply (slist_get_data_spec ss NULL NULL la1 (q, (d', f)) la2 with "Hs").
    iIntros (r) "[-> Hs]". iApply wp_ret. iApply "HΦ". iSplitR; [done|]. iExists _. by iFrame.
Qed.

#[export] Instance slist_simulates left_first ss :
  Simulates (slist_exec left_first ss) slist_aexec slist_op_cost (sl_rep ss).
Proof.
  iIntros (op s es Φ) "[HI Hc] HΦ". destruct op; cbn [slist_op_cost].
  1,2: by iApply (slist_exec_new with "[$HI $Hc] HΦ").
  all: iApply (wp_credits 0); iFrame "Hc".
  1,2,3: by iApply (slist_exec_old with "HI HΦ").
  destruct s as [n l]. iDestruct "HI" as (la) "[%Hrel Hs]". cbn [slist_exec slist_aexec].
  wp_call. iApply (slist_traverse_spec with "Hs"). iIntros (r) "[-> Hs]".
  iApply wp_ret. iApply "HΦ". iSplitR.
  - iPureIntro. simpl. f_equal. destruct Hrel as [_ _ Hl]. by eapply live_data_related.
  - iExists la. by iFrame.
Qed.

Lemma slist_client_spec left_first ops :
  {{{ credits (slist_client_cost ops) }}} slist_client left_first ops
  {{{ outs, ⟨outs = (ascript slist_aexec ops (SlistAbs 0 [])).1⟩ }}}.
Proof.
  iIntros (Φ) "Hc HΦ". iDestruct (credits_add with "Hc") as "[Hv Hc]".
  iApply (with_variable_spec _ (credits _) with "[$Hv $Hc] HΦ"). clear Φ.
  iIntros (a Ha Φ) "[Ha Hc] HΦ". iDestruct (credits_add with "Hc") as "[Hn Hc]".
  wp_call. iApply (slist_new_spec with "[$Ha $Hn]"); [done|].
  iIntros (rv) "(%ss & -> & Ha & Hs)". wp_load. wp_call.
  iApply (script_refines _ _ _ (sl_rep ss) ops (SlistAbs 0 []) with "[Hs $Hc]").
  { iExists []. iFrame "Hs". iPureIntro. split; [done| |constructor]. intros i. simpl.
    split; [lia|]. by intros ?%not_elem_of_nil. }
  iIntros ([outs es]) "[%Ho (%la & _ & Hs)]". simpl in Ho. subst outs.
  wp_call. iApply (slist_delete_spec with "Hs"); [apply no_callback|].
  iIntros ([]) "_". iApply wp_ret. iApply "HΦ". iSplitL; [by iExists ss|done].
Qed.
End refinement.

(** ** The list as a whole *)

Section claims.
Context {AL : Allocator} {AO : AllocatorOk} {LK : Linker}.

(** C14. The singly linked list refines its abstract list: between [slist_new]
    and [slist_delete], every script of insertions at the head and after an
    element, logical deletions, data accesses and traversals gets the answers
    of the abstract list, whichever operand of the condition of
    [slist_internal_link_after] is evaluated first; a traversal sees exactly the
    elements that are not deleted, in order, an element is deleted once, its
    data cannot be set afterwards, and all of the memory is given back. *)
Theorem slist_refines left_first ops h :
  (slist_client_cost ops <= alloc_room h)%nat ->
  exists k, run k (slist_client left_first ops) h =
    Done (ascript slist_aexec ops (SlistAbs 0 [])).1 h.
Proof. apply (run_closed_eq _ _ _ _ (slist_client_spec left_first ops)). Qed.
End claims.

(** ** Witnesses *)

Definition sample_slist_script : list slist_op :=
  [SlNewHead 5; SlNewHead 6; SlNewNext 1 7; SlNewNext 9 1; SlTraverse; SlDelete 2; SlDelete 2;
   SlSetData 2 8; SlGetData 2; SlSetData 0 9; SlTraverse].

Lemma slist_refines_witness : exists k,
  @run arena _ k (@slist_client no_callbacks false sample_slist_script) ∅ =
  Done [SlMade; SlMade; SlMade; SlNone; SlAll [6; 7; 5]; SlResult 1; SlResult 0; SlResult 0;
        SlData 0 7; SlResult 1; SlAll [6; 9]] ∅.
Proof.
  apply (@slist_refines arena arena_ok no_callbacks false sample_slist_script ∅).
  apply arena_room. by vm_compute.
Defined.

(** ** Two threads inserting after the same element *)

(** Three elements in memory, at 16, 64 and 112, none linked to another. *)
Definition three_elements : heap :=
  {[Word (16 + SLE_NEXT) := NULL; Word (64 + SLE_NEXT) := NULL; Word (112 + SLE_NEXT) := NULL]}.

(** When the compiler evaluates the assignment in the condition of
    [slist_internal_link_after] first, the comparison is of a value with itself,
    and the loop ends even when the swap failed: of two threads that insert after
    the same element, both return, and one element is lost. *)
Theorem slist_link_after_loses : exists sched h',
  @run_schedule arena unit sched
    ([slist_internal_link_after false 16 64; slist_internal_link_after false 16 112], three_elements)
  = ([Ret tt; Ret tt], h') /\
  h' !! Word (16 + SLE_NEXT) = Some 112 /\ h' !! Word (112 + SLE_NEXT) = Some NULL.
Proof.
  exists [0; 0; 0; 0; 1; 1; 1; 1; 1; 0]%nat. eexists. split; [by vm_compute|].
  split; by vm_compute.
Qed.

(** The same schedule with the left operand read first: the first thread tries
    again, and both elements are linked. *)
Example slist_link_after_keeps : exists h',
  @run_schedule arena unit [0; 0; 0; 0; 1; 1; 1; 1; 1; 0; 0; 0; 0; 0]%nat
    ([slist_internal_link_after true 16 64; slist_internal_link_after true 16 112], three_elements)
  = ([Ret tt; Ret tt], h') /\
  h' !! Word (16 + SLE_NEXT) = Some 64 /\ h' !! Word (64 + SLE_NEXT) = Some 112.
Proof. eexists. split; [by vm_compute|]. split; by vm_compute. Qed.

(** ** The destructor of a deleted element *)

(** A program whose callbacks count their calls in the word at [state]. *)
Definition counting_linker : Linker := fun _ _ state => add_fetch state 1.

(** One element, deleted logically, in a list that is deleted. *)
Definition delete_twice {LK : Linker} (ss_var counter : Z) : prog Z :=
  slist_new ss_var 4096 counter;;
  let! ss := load ss_var in
  let! se := slist_new_head ss 5 in
  slist_logically_delete_element ss se;;
  slist_delete ss;;
  load counter.

(** The destructor runs twice on an element that was deleted logically: once
    when it is deleted, and again when the list is. *)
Theorem slist_destructor_twice : exists k h',
  @run arena _ k (@delete_twice counting_linker 16 24) {[Word 16 := 0; Word 24 := 0]} = Done 2 h'.
Proof. exists 60%nat. eexists. by vm_compute. Qed.
