(* ===== verification/Ringbuffer.v ===== *)
(** * src/basic/lf_ringbuffer.c: a ring buffer made of a freelist of elements to
      write and a queue of elements to read. *)
From S2P Require Import Prelude Machine SepLogic Alloc Script Basic Chain Freelist Pooled Queue.
#[local] Open Scope Z_scope.
#[local] Open Scope prog_scope.

(** ** Layout (src/basic/lf_ringbuffer.h): [qs], [fs]. *)
Definition RS_QS : Z := 0.
Definition RS_FS : Z := 8.
Definition sizeof_ringbuffer_state : Z := 16.

Inductive ringbuffer_query_type : Set :=
| RINGBUFFER_QUERY_VALIDATE.

(** ** Operations *)

Section code.
Context {LK : Linker} {SY : QueueSymbols}.

(** [number_elements] is declared as a pointer and used as a number. *)
Definition ringbuffer_new (rs number_elements init_func state : Z) : prog Z :=
  let! p := aligned_malloc sizeof_ringbuffer_state LF_ALIGN_DOUBLE_POINTER in
  store rs p;;
  let! p := load rs in
  let! rv :=
    (if non_null p then
       freelist_new (p + RS_FS) number_elements init_func state;;
       let! fs := load (p + RS_FS) in
       let! rv :=
         (if non_null fs then
            queue_new (p + RS_QS) number_elements;;
            let! fs := load (p + RS_FS) in
            let rv := if non_null fs then 1 else 0 in
            let! qs := load (p + RS_QS) in
            (if qs =? NULL then aligned_free p;; store rs NULL else Ret tt);;
            Ret rv
          else Ret 0) in
       let! p := load rs in
       let! fs := load (p + RS_FS) in
       (if fs =? NULL then aligned_free p;; store rs NULL else Ret tt);;
       Ret rv
     else Ret 0) in
  barrier;;
  Ret rv.

Definition ringbuffer_delete (rs delete_func state : Z) : prog unit :=
  c_assert (non_null rs);;
  let! qs := load (rs + RS_QS) in
  queue_delete qs NULL NULL;;
  let! fs := load (rs + RS_FS) in
  freelist_delete fs delete_func state;;
  aligned_free rs.

(** Answers [*fe]. *)
Definition ringbuffer_get_read (rs : Z) : prog Z :=
  c_assert (non_null rs);;
  let! qs := load (rs + RS_QS) in
  let! (_, fe) := queue_dequeue qs in
  Ret fe.

Definition ringbuffer_get_write_body (rs : Z) (_ : unit) : prog (unit + Z * Z) :=
  let overwrite_flag := 0 in
  let! fs := load (rs + RS_FS) in
  let! fe := freelist_pop fs in
  let! (fe, overwrite_flag) :=
    (if fe =? NULL then
       let! fe := ringbuffer_get_read rs in
       Ret (fe, if non_null fe then 1 else overwrite_flag)
     else Ret (fe, overwrite_flag)) in
  if fe =? NULL then Ret (inl tt) else Ret (inr (fe, overwrite_flag)).

(** Answers [*fe] and [*overwrite_flag]. *)
Definition ringbuffer_get_write (rs : Z) : prog (Z * Z) :=
  c_assert (non_null rs);;
  loop (ringbuffer_get_write_body rs) tt.

Definition ringbuffer_put_read (rs fe : Z) : prog unit :=
  c_assert (non_null rs);;
  c_assert (non_null fe);;
  let! fs := load (rs + RS_FS) in
  freelist_push fs fe.

Definition ringbuffer_put_write (rs fe : Z) : prog unit :=
  c_assert (non_null rs);;
  c_assert (non_null fe);;
  let! qs := load (rs + RS_QS) in
  queue_enqueue qs fe;;
  Ret tt.

(** The two verdicts stored at [qv], and the one stored at [fv]. *)
Definition ringbuffer_internal_validate (rs : Z) (vi : option validation_info)
  : prog (data_structure_validity * data_structure_validity * data_structure_validity) :=
  c_assert (non_null rs);;
  let! qs := load (rs + RS_QS) in
  let! q := queue_query qs QUEUE_QUERY_VALIDATE vi true in
  let! (qv0, qv1) := (match q with inr v => Ret v | inl _ => Crash AssertionFailed end) in
  match vi with
  | Some vi =>
      let! fs := load (rs + RS_FS) in
      let! o := freelist_query fs FREELIST_QUERY_ELEMENT_COUNT None in
      let total_element := out_count o in
      let fvi := {| min_element := total_element -w max_element vi;
                    max_element := total_element -w min_element vi |} in
      let! fs := load (rs + RS_FS) in
      let! o := freelist_query fs FREELIST_QUERY_VALIDATE (Some fvi) in
      Ret (qv0, qv1, out_validity o)
  | None =>
      let! fs := load (rs + RS_FS) in
      let! o := freelist_query fs FREELIST_QUERY_VALIDATE None in
      Ret (qv0, qv1, out_validity o)
  end.

Definition ringbuffer_query (rs : Z) (query_type : ringbuffer_query_type)
    (vi : option validation_info) (has_output : bool)
  : prog (data_structure_validity * data_structure_validity * data_structure_validity) :=
  c_assert (non_null rs);;
  c_assert has_output;;
  match query_type with
  | RINGBUFFER_QUERY_VALIDATE => ringbuffer_internal_validate rs vi
  end.

Definition ringbuffer_use (rs : Z) : prog unit :=
  c_assert (non_null rs);;
  barrier.
End code.

(** ** Assertions *)

Definition rb_state (rs qs fs : Z) : hProp :=
  (⟨aligned_addr rs sizeof_ringbuffer_state LF_ALIGN_DOUBLE_POINTER⟩ ∗
   aligned_hdr rs sizeof_ringbuffer_state LF_ALIGN_DOUBLE_POINTER ∗
   (rs + RS_QS) ↦ qs ∗ (rs + RS_FS) ↦ fs)%I.

(** A ring buffer of [n] elements: [lw] ready to be written, top first, [lr]
    ready to be read, oldest first; the others are in the hands of clients.  An
    element is its address and its data. *)
Definition ringbuffer {SY : QueueSymbols} (rs init st : Z) (n : nat) (lw lr : list (Z * Z)) : hProp :=
  (∃ qs fs, ⟨length lr <= n⟩%nat ∗ rb_state rs qs fs ∗
     freelist fs init st n lw ∗
     queue qs (n + 1) (n - length lr) lr.*1 ∗ [∗ list] x ∈ lr, fl_node x)%I.

(** ** Specifications *)

Section specs.
Context {AL : Allocator} {AO : AllocatorOk} {LK : Linker} {SY : QueueSymbols} {QL : QueueLinked}.

Lemma alignable_ringbuffer_state : alignable sizeof_ringbuffer_state LF_ALIGN_DOUBLE_POINTER.
Proof. done. Qed.

Lemma rb_state_aligned rs qs fs :
  rb_state rs qs fs ⊣⊢ aligned rs sizeof_ringbuffer_state LF_ALIGN_DOUBLE_POINTER [qs; fs].
Proof.
  unfold rb_state, aligned, RS_QS, RS_FS. simpl. rw Z.add_0_r. iSplit.
  - iIntros "(%Ha & Hh & H0 & H1)". iFrame. done.
  - iIntros "((%Ha & _) & Hh & H0 & H1 & _)". iFrame. done.
Qed.

Lemma ringbuffer_non_null rs init st n lw lr :
  ringbuffer rs init st n lw lr ⊢ ⌜non_null rs = true⌝.
Proof. iIntros "(% & % & _ & (% & _) & _)". iPureIntro. eauto with addr. Qed.

Definition ringbuffer_cost (cost : nat) (number_elements : Z) : nat :=
  (aligned_cost sizeof_ringbuffer_state LF_ALIGN_DOUBLE_POINTER +
   (freelist_cost cost number_elements + queue_cost number_elements))%nat.

Lemma ringbuffer_new_spec a (n : nat) init st D cost :
  init_spec init st D cost -> Z.of_nat n < word_mod - 1 ->
  {{{ cell a ∗ credits (ringbuffer_cost cost n) }}} ringbuffer_new a n init st
  {{{ rv, ∃ rs lw, ⟨rv = 1 /\ length lw = n⟩ ∗ a ↦ rs ∗ ringbuffer rs init st n lw [] ∗
          [∗ list] x ∈ lw, D x.2 }}}.
Proof.
  iIntros (Hi Hn Φ) "[(%v & Ha) Hc] HΦ". iDestruct (credits_add with "Hc") as "[Hc1 Hc]".
  iDestruct (credits_add with "Hc") as "[Hc2 Hc]". unfold ringbuffer_new.
  wp_call. iApply (aligned_malloc_spec with "Hc1"); [apply alignable_ringbuffer_state|].
  iIntros (rs) "(%vs & Hrs)". iDestruct (aligned_facts with "Hrs") as %[Hrs Hlen].
  destruct vs as [|w0 [|w1 [|]]]; simpl in Hlen; unfold sizeof_ringbuffer_state in Hlen; try lia.
  rw -rb_state_aligned. iDestruct "Hrs" as "(_ & Hh & Hqs & Hfs)".
  wp_store. wp_load. rw (aligned_addr_non_null0 _ _ _ Hrs). cbv iota.
  wp_call. iApply (freelist_new_spec with "[Hfs $Hc2]"); [done|unfold is_word; lia|by iExists w1|].
  iIntros (rv) "(%fs & %lw & %Hr & Hfs & Hf & HD)". destruct Hr as (_ & Hfs & Hlw).
  wp_load. rw (non_null_pos fs) //. cbv iota.
  wp_call. iApply (queue_new_spec with "[Hqs $Hc]"); [destruct Hrs; unfold RS_QS; lia|lia|by iExists w0|].
  iIntros (rv') "(%qs & _ & Hqs & Hq)". iDestruct (queue_non_null with "Hq") as %Hqs.
  wp_load. wp_load. unfold non_null in Hqs. apply negb_true_iff in Hqs. rw Hqs. wp_load. wp_load.
  rw (proj2 (Z.eqb_neq fs NULL)); last (unfold NULL; lia). wp_simpl. rw (non_null_pos fs) //.
  iApply wp_ret. iApply "HΦ". iExists rs, lw. iSplitR; [iPureIntro; split; [done|lia]|]. iFrame "Ha HD".
  iExists qs, fs. iSplitR; [iPureIntro; simpl; lia|]. rw Nat.sub_0_r Nat2Z.id. iFrame "Hf Hq".
  iSplitL; [by iFrame|done].
Qed.

Lemma ringbuffer_get_read_spec rs init st n lw lr :
  {{{ ringbuffer rs init st n lw lr }}} ringbuffer_get_read rs
  {{{ fe, match lr with
          | [] => ⟨fe = NULL⟩ ∗ ringbuffer rs init st n lw []
          | x :: lr => ⟨fe = x.1⟩ ∗ fl_node x ∗ ringbuffer rs init st n lw lr
          end }}}.
Proof.
  iIntros (Φ) "(%qs & %fs & %Hlen & (%Ha & Hh & Hqs & Hfs) & Hf & Hq & Hlr) HΦ".
  unfold ringbuffer_get_read. wp_assert; [eauto with addr|]. wp_load.
  wp_call. iApply (queue_dequeue_spec with "Hq"). iIntros (r) "Hr".
  destruct lr as [|x lr]; simpl in *.
  - iDestruct "Hr" as "[-> Hq]". iApply wp_ret. iApply "HΦ". iSplitR; [done|].
    iExists qs, fs. iFrame. by iPureIntro.
  - iDestruct "Hr" as "[-> Hq]". iDestruct "Hlr" as "[Hx Hlr]". iApply wp_ret. iApply "HΦ".
    iSplitR; [done|]. iFrame "Hx". iExists qs, fs.
    replace (S (n - S (length lr))) with (n - length lr)%nat by lia. iFrame.
    iPureIntro. split; [lia|done].
Qed.

(** A writer gets a free element, or the oldest one that was to be read; the
    loop would not end if there were neither. *)
Lemma ringbuffer_get_write_spec rs init st n lw lr :
  lw ≠ [] \/ lr ≠ [] ->
  {{{ ringbuffer rs init st n lw lr }}} ringbuffer_get_write rs
  {{{ r, match lw, lr with
         | x :: lw, _ => ⟨r = (x.1, 0)⟩ ∗ fl_node x ∗ ringbuffer rs init st n lw lr
         | [], x :: lr => ⟨r = (x.1, 1)⟩ ∗ fl_node x ∗ ringbuffer rs init st n [] lr
         | [], [] => ⌜False⌝
         end }}}.
Proof.
  iIntros (Hne Φ) "Hr HΦ". iDestruct (ringbuffer_non_null with "Hr") as %Hnn.
  iDestruct "Hr" as (qs fs) "(%Hlen & (%Ha & Hh & Hqs & Hfs) & Hf & Hq & Hlr)".
  unfold ringbuffer_get_write. wp_assert. iApply wp_loop. unfold ringbuffer_get_write_body. cbv zeta.
  wp_load. wp_call. iApply (freelist_pop_spec with "Hf"). iIntros (fe) "Hr".
  destruct lw as [|x lw].
  - iDestruct "Hr" as "[-> Hf]". change (0 =? NULL) with true. cbv iota.
    wp_call. iApply (ringbuffer_get_read_spec rs init st n [] lr with "[-HΦ]").
    { iExists qs, fs. iFrame. by iSplit. }
    iIntros (fe) "Hr". destruct lr as [|x lr]; [by destruct Hne|].
    iDestruct "Hr" as "(-> & Hx & Hr)". iDestruct (fl_node_addr with "Hx") as %[Hpos _].
    rw (non_null_pos x.1) //. wp_simpl. rw (proj2 (Z.eqb_neq x.1 NULL)); last (unfold NULL; lia).
    iApply wp_ret. iApply "HΦ". by iFrame.
  - iDestruct "Hr" as "(-> & Hx & Hf)". iDestruct (fl_node_addr with "Hx") as %[Hpos _].
    rw (proj2 (Z.eqb_neq x.1 NULL)); last (unfold NULL; lia). wp_simpl.
    rw (proj2 (Z.eqb_neq x.1 NULL)); last (unfold NULL; lia).
    iApply wp_ret. iApply "HΦ". iSplitR; [done|]. iFrame "Hx". iExists qs, fs. iFrame. by iSplit.
Qed.

Lemma ringbuffer_put_read_spec rs init st n lw lr x :
  {{{ ringbuffer rs init st n lw lr ∗ fl_node x }}} ringbuffer_put_read rs x.1
  {{{ _u, ringbuffer rs init st n (x :: lw) lr }}}.
Proof.
  iIntros (Φ) "[(%qs & %fs & %Hlen & (%Ha & Hh & Hqs & Hfs) & Hf & Hq & Hlr) Hx] HΦ".
  iDestruct (fl_node_addr with "Hx") as %[Hpos _].
  unfold ringbuffer_put_read. wp_assert; [eauto with addr|]. wp_assert; [by apply non_null_pos|].
  wp_load. iApply (freelist_push_spec with "[$Hf $Hx]"). iIntros ([]) "Hf". iApply "HΦ".
  iExists qs, fs. iFrame. by iSplit.
Qed.

(** With all the elements accounted for, the queue has room. *)
Lemma ringbuffer_put_write_spec rs init st n lw lr x :
  (length lr < n)%nat ->
  {{{ ringbuffer rs init st n lw lr ∗ fl_node x }}} ringbuffer_put_write rs x.1
  {{{ _u, ringbuffer rs init st n lw (lr ++ [x]) }}}.
Proof.
  iIntros (Hn Φ) "[(%qs & %fs & %Hlen & (%Ha & Hh & Hqs & Hfs) & Hf & Hq & Hlr) Hx] HΦ".
  iDestruct (fl_node_addr with "Hx") as %[Hpos _].
  unfold ringbuffer_put_write. wp_assert; [eauto with addr|]. wp_assert; [by apply non_null_pos|].
  wp_load. wp_call. iApply (queue_enqueue_spec with "Hq").
  destruct (n - length lr)%nat as [|m] eqn:Hm; [lia|]. iIntros (rv) "[_ Hq]". iApply wp_ret.
  iApply "HΦ". iExists qs, fs. rw fmap_app length_app /=.
  replace (n - (length lr + 1))%nat with m by lia. iFrame "Hq Hf". rw big_sepL_snoc. iFrame "Hlr Hx".
  iSplitR; [iPureIntro; lia|]. by iFrame.
Qed.

Lemma ringbuffer_delete_spec rs init st n lw del dst :
  delete_spec del dst (fun _ => emp)%I ->
  {{{ ringbuffer rs init st n lw [] }}} ringbuffer_delete rs del dst {{{ _u, emp }}}.
Proof.
  iIntros (Hdel Φ) "(%qs & %fs & %Hlen & (%Ha & Hh & Hqs & Hfs) & Hf & Hq & _) HΦ".
  unfold ringbuffer_delete. wp_assert; [eauto with addr|]. wp_load.
  wp_call. iApply (queue_delete_spec _ _ _ _ NULL NULL (fun _ => emp)%I with "[$Hq]"); [done|done|].
  iIntros ([]) "_". wp_load.
  wp_call. iApply (freelist_delete_spec _ _ _ _ _ _ _ (fun _ => emp)%I with "[$Hf]"); [done|by rw big_sepL_emp|].
  iIntros ([]) "_". iApply (aligned_free_spec rs _ _ [qs; fs] with "[Hh Hqs Hfs] HΦ").
  iApply rb_state_aligned. by iFrame.
Qed.

(** The verdicts on a ring buffer whose clients hold no element. *)
Definition ringbuffer_verdict (n nw nr : nat) (vi : option validation_info)
  : data_structure_validity * data_structure_validity * data_structure_validity :=
  (queue_verdict (n + 1) nr (n - nr) vi,
   list_verdict nw
     (match vi with
      | Some vi => Some {| min_element := n -w max_element vi; max_element := n -w min_element vi |}
      | None => None
      end)).

Lemma ringbuffer_query_spec rs init st n lw lr vi :
  {{{ ringbuffer rs init st n lw lr }}} ringbuffer_query rs RINGBUFFER_QUERY_VALIDATE vi true
  {{{ r, ⟨r = ringbuffer_verdict n (length lw) (length lr) vi⟩ ∗ ringbuffer rs init st n lw lr }}}.
Proof.
  iIntros (Φ) "(%qs & %fs & %Hlen & (%Ha & Hh & Hqs & Hfs) & Hf & Hq & Hlr) HΦ".
  unfold ringbuffer_query, ringbuffer_internal_validate.
  wp_assert; [eauto with addr|]. wp_assert. wp_assert; [eauto with addr|]. wp_load.
  iDestruct (queue_non_null with "Hq") as %Hnn. unfold queue_query. wp_assert. wp_assert.
  wp_call. iApply (queue_internal_validate_spec with "Hq"). iIntros (r) "[-> Hq]". wp_simpl.
  rw length_fmap. unfold queue_verdict. wp_simpl. destruct vi as [vi|].
  - wp_load. wp_call. iApply (freelist_query_spec with "Hf"); [done|]. iIntros (r) "[-> Hf]". wp_load.
    wp_call. iApply (freelist_query_spec with "Hf"); [done|]. iIntros (r) "[-> Hf]". iApply wp_ret.
    iApply "HΦ". iSplitR; [done|]. iExists qs, fs. iFrame. by iSplit.
  - wp_load. wp_call. iApply (freelist_query_spec with "Hf"); [done|]. iIntros (r) "[-> Hf]". iApply wp_ret.
    iApply "HΦ". iSplitR; [done|]. iExists qs, fs. iFrame. by iSplit.
Qed.
End specs.

(** ** Clients of the ring buffer

    A client keeps the elements it holds, the latest first, and does not ask for
    an element to write while it holds all of them. *)

Inductive rb_op : Set :=
| RbGetWrite
| RbPutWrite
| RbGetRead
| RbPutRead
| RbSetData (d : Z)
| RbGetData
| RbValidate (vi : option validation_info).

Inductive rb_out : Set :=
| RbDone (b : bool)
| RbGot (overwrite_flag : Z)
| RbData (d : Z)
| RbVerdict (v : data_structure_validity * data_structure_validity * data_structure_validity).

Section client.
Context {LK : Linker} {SY : QueueSymbols} (n : nat) (rs : Z).

Definition rb_exec (op : rb_op) (held : list Z) : prog (rb_out * list Z) :=
  match op, held with
  | RbGetWrite, _ =>
      if decide (length held < n)%nat then
        let! (fe, flag) := ringbuffer_get_write rs in Ret (RbGot flag, fe :: held)
      else Ret (RbDone false, held)
  | RbPutWrite, fe :: held => ringbuffer_put_write rs fe;; Ret (RbDone true, held)
  | RbGetRead, _ =>
      let! fe := ringbuffer_get_read rs in
      if non_null fe then Ret (RbDone true, fe :: held) else Ret (RbDone false, held)
  | RbPutRead, fe :: held => ringbuffer_put_read rs fe;; Ret (RbDone true, held)
  | RbSetData d, fe :: _ => freelist_set_data fe d;; Ret (RbDone true, held)
  | RbGetData, fe :: _ => let! (d, _) := freelist_get_data fe in Ret (RbData d, held)
  | RbValidate vi, _ =>
      let! v := ringbuffer_query rs RINGBUFFER_QUERY_VALIDATE vi true in Ret (RbVerdict v, held)
  | _, [] => Ret (RbDone false, [])
  end.

(** Reading until nothing is left, and giving back what is held. *)
Definition rb_drain_body (_ : unit) : prog (unit + unit) :=
  let! fe := ringbuffer_get_read rs in
  if non_null fe then ringbuffer_put_read rs fe;; Ret (inl tt) else Ret (inr tt).

Fixpoint rb_return_all (held : list Z) : prog unit :=
  match held with
  | [] => Ret tt
  | fe :: held => ringbuffer_put_read rs fe;; rb_return_all held
  end.
End client.

(** The abstract ring buffer: the data of the elements to write, of those to
    read, oldest first, and of those the client holds. *)
Record rb_abs : Set := RbAbs { rb_write : list Z; rb_read : list Z; rb_held : list Z }.

Definition rb_aexec (n : nat) (op : rb_op) (s : rb_abs) : rb_out * rb_abs :=
  let '(RbAbs w r held) := s in
  match op with
  | RbGetWrite =>
      match w, r with
      | d :: w, _ => (RbGot 0, RbAbs w r (d :: held))
      | [], d :: r => (RbGot 1, RbAbs [] r (d :: held))
      | [], [] => (RbDone false, s)
      end
  | RbPutWrite =>
      match held with
      | d :: held => (RbDone true, RbAbs w (r ++ [d]) held)
      | [] => (RbDone false, s)
      end
  | RbGetRead =>
      match r with
      | d :: r => (RbDone true, RbAbs w r (d :: held))
      | [] => (RbDone false, s)
      end
  | RbPutRead =>
      match held with
      | d :: held => (RbDone true, RbAbs (d :: w) r held)
      | [] => (RbDone false, s)
      end
  | RbSetData d =>
      match held with
      | _ :: held => (RbDone true, RbAbs w r (d :: held))
      | [] => (RbDone false, s)
      end
  | RbGetData =>
      match held with
      | d :: _ => (RbData d, s)
      | [] => (RbDone false, s)
      end
  | RbValidate vi => (RbVerdict (ringbuffer_verdict n (length w) (length r) vi), s)
  end.

Definition ringbuffer_client {LK : Linker} {SY : QueueSymbols} (n : nat) (ops : list rb_op)
  : prog (list rb_out) :=
  with_variable (fun a =>
    ringbuffer_new a n NULL NULL;;
    let! rs := load a in
    let! (outs, held) := script (rb_exec n rs) ops [] in
    rb_return_all rs held;;
    loop (rb_drain_body rs) tt;;
    ringbuffer_delete rs NULL NULL;;
    Ret outs).

Definition ringbuffer_client_cost (n : nat) : nat := (variable_cost + ringbuffer_cost 0 n)%nat.

Section refinement.
Context {AL : Allocator} {AO : AllocatorOk} {LK : Linker} {SY : QueueSymbols} {QL : QueueLinked}.

(** The elements of the abstract buffer are the [n] elements in memory. *)
Record rb_related (n : nat) (s : rb_abs) (held : list Z) (lw lr lh : list (Z * Z)) : Prop := {
  rb_rel_write : lw.*2 = rb_write s;
  rb_rel_read : lr.*2 = rb_read s;
  rb_rel_held : lh.*2 = rb_held s /\ lh.*1 = held;
  rb_rel_count : (length lw + length lr + length lh = n)%nat;
}.

Definition rb_rep (n : nat) (rs : Z) (s : rb_abs) (held : list Z) : hProp :=
  (∃ lw lr lh, ⟨rb_related n s held lw lr lh⟩ ∗
     ringbuffer rs NULL NULL n lw lr ∗ [∗ list] x ∈ lh, fl_node x)%I.

Lemma rb_exec_get_write n rs s held :
  {{{ rb_rep n rs s held }}} rb_exec n rs RbGetWrite held
  {{{ r, ⟨r.1 = (rb_aexec n RbGetWrite s).1⟩ ∗ rb_rep n rs (rb_aexec n RbGetWrite s).2 r.2 }}}.
Proof.
  destruct s as [w r h]. iIntros (Φ) "(%lw & %lr & %lh & %Hrel & Hr & Hh) HΦ".
  destruct Hrel as [Hw Hrd [Hh Hhd] Hn]. simpl in *. subst. rw length_fmap.
  case_decide as Hd.
  - wp_call. iApply (ringbuffer_get_write_spec with "Hr").
    { destruct lw, lr; simpl in *; [lia|by right|by left..]. }
    iIntros (r) "Hr". destruct lw as [|x lw]; [destruct lr as [|x lr]; [done|]|];
      iDestruct "Hr" as "(-> & Hx & Hr)"; iApply wp_ret; iApply "HΦ"; (iSplitR; [done|]).
    + iExists [], lr, (x :: lh). iFrame. iPureIntro. split; [done|done|done|simpl; lia].
    + iExists lw, lr, (x :: lh). iFrame. iPureIntro. split; [done|done|done|simpl; lia].
  - destruct lw, lr; simpl in *; try lia. iApply wp_ret. iApply "HΦ". iSplitR; [done|].
    iExists [], [], lh. iFrame. iPureIntro. split; [done|done|done|simpl; lia].
Qed.

Lemma rb_exec_get_read n rs s held :
  {{{ rb_rep n rs s held }}} rb_exec n rs RbGetRead held
  {{{ r, ⟨r.1 = (rb_aexec n RbGetRead s).1⟩ ∗ rb_rep n rs (rb_aexec n RbGetRead s).2 r.2 }}}.
Proof.
  destruct s as [w r h]. iIntros (Φ) "(%lw & %lr & %lh & %Hrel & Hr & Hh) HΦ".
  destruct Hrel as [Hw Hrd [Hh Hhd] Hn]. simpl in *. subst.
  wp_call. iApply (ringbuffer_get_read_spec with "Hr"). iIntros (fe) "Hr".
  destruct lr as [|x lr].
  - iDestruct "Hr" as "[-> Hr]". iApply wp_ret. iApply "HΦ". iSplitR; [done|].
    iExists lw, [], lh. by iFrame.
  - iDestruct "Hr" as "(-> & Hx & Hr)". iDestruct (fl_node_addr with "Hx") as %[Hpos _].
    rw (non_null_pos x.1) //. iApply wp_ret. iApply "HΦ". iSplitR; [done|].
    iExists lw, lr, (x :: lh). iFrame. iPureIntro. split; [done|done|done|simpl in *; lia].
Qed.

Lemma rb_exec_held n rs s held op :
  match op with RbPutWrite | RbPutRead | RbSetData _ | RbGetData => True | _ => False end ->
  {{{ rb_rep n rs s held }}} rb_exec n rs op held
  {{{ r, ⟨r.1 = (rb_aexec n op s).1⟩ ∗ rb_rep n rs (rb_aexec n op s).2 r.2 }}}.
Proof.
  destruct s as [w r h]. iIntros (Hop Φ) "(%lw & %lr & %lh & %Hrel & Hr & Hh) HΦ".
  destruct lh as [|x lh].
  { destruct Hrel as [Hw Hrd [Hh Hhd] Hn]. simpl in *. subst.
    destruct op; try done; iApply wp_ret; iApply "HΦ"; (iSplitR; [done|]); iExists lw, lr, []; by iFrame. }
  destruct Hrel as [Hw Hrd [Hh Hhd] Hn]. simpl in *. subst. iDestruct "Hh" as "[Hx Hh]".
  destruct op; try done; cbn [rb_exec rb_aexec]; wp_call.
  - iApply (ringbuffer_put_write_spec with "[$Hr $Hx]"); [lia|]. iIntros ([]) "Hr". iApply wp_ret.
    iApply "HΦ". iSplitR; [done|]. iExists lw, (lr ++ [x]), lh. iFrame. iPureIntro.
    split; [done|by rw fmap_app|done|rw length_app /=; lia].
  - iApply (ringbuffer_put_read_spec with "[$Hr $Hx]"). iIntros ([]) "Hr". iApply wp_ret.
    iApply "HΦ". iSplitR; [done|]. iExists (x :: lw), lr, lh. iFrame. iPureIntro.
    split; [done|done|done|simpl; lia].
  - destruct x as [fe d']. iApply (freelist_set_data_spec with "Hx"). iIntros ([]) "Hx". iApply wp_ret.
    iApply "HΦ". iSplitR; [done|]. iExists lw, lr, ((fe, d) :: lh). by iFrame.
  - destruct x as [fe d']. iApply (freelist_get_data_spec with "Hx"). iIntros (r) "[-> Hx]". iApply wp_ret.
    iApply "HΦ". iSplitR; [done|]. iExists lw, lr, ((fe, d') :: lh). by iFrame.
Qed.

#[export] Instance ringbuffer_simulates n rs :
  Simulates (rb_exec n rs) (rb_aexec n) (fun _ => 0%nat) (rb_rep n rs).
Proof.
  iIntros (op s held Φ) "[HI Hc] HΦ". iApply (wp_credits 0). iFrame "Hc". destruct op.
  - iApply (rb_exec_get_write with "HI HΦ").
  - by iApply (rb_exec_held with "HI HΦ").
  - iApply (rb_exec_get_read with "HI HΦ").
  - by iApply (rb_exec_held with "HI HΦ").
  - by iApply (rb_exec_held with "HI HΦ").
  - by iApply (rb_exec_held with "HI HΦ").
  - destruct s as [w r h]. iDestruct "HI" as (lw lr lh) "(%Hrel & Hr & Hh)". cbn [rb_exec rb_aexec].
    wp_call. iApply (ringbuffer_query_spec with "Hr"). iIntros (v) "[-> Hr]". iApply wp_ret.
    iApply "HΦ". iSplitR; [|iExists lw, lr, lh; by iFrame]. destruct Hrel as [Hw Hrd _ _].
    iPureIntro. simpl in *. by rw -Hw -Hrd !length_fmap.
Qed.

Lemma rb_return_all_spec rs n lw lr lh :
  {{{ ringbuffer rs NULL NULL n lw lr ∗ [∗ list] x ∈ lh, fl_node x }}} rb_return_all rs lh.*1
  {{{ _u, ∃ lw, ringbuffer rs NULL NULL n lw lr }}}.
Proof.
  revert lw. induction lh as [|x lh IH]; iIntros (lw Φ) "[Hr Hh] HΦ"; simpl.
  - iApply wp_ret. iApply "HΦ". by iExists lw.
  - iDestruct "Hh" as "[Hx Hh]". wp_call. iApply (ringbuffer_put_read_spec with "[$Hr $Hx]").
    iIntros ([]) "Hr". iApply (IH with "[$Hr $Hh] HΦ").
Qed.

Lemma rb_drain_spec rs n lw lr :
  {{{ ringbuffer rs NULL NULL n lw lr }}} loop (rb_drain_body rs) tt
  {{{ _u, ∃ lw, ringbuffer rs NULL NULL n lw [] }}}.
Proof.
  revert lw. induction lr as [|x lr IH]; iIntros (lw Φ) "Hr HΦ"; iApply wp_loop;
    unfold rb_drain_body at 1; wp_call; iApply (ringbuffer_get_read_spec with "Hr"); iIntros (fe) "Hr".
  - iDestruct "Hr" as "[-> Hr]". iApply wp_ret. iApply "HΦ". by iExists lw.
  - iDestruct "Hr" as "(-> & Hx & Hr)". iDestruct (fl_node_addr with "Hx") as %[Hpos _].
    rw (non_null_pos x.1) //. wp_call. iApply (ringbuffer_put_read_spec with "[$Hr $Hx]").
    iIntros ([]) "Hr". iApply wp_ret. iApply (IH with "Hr HΦ").
Qed.

Lemma ringbuffer_client_spec n ops :
  Z.of_nat n < word_mod - 1 ->
  {{{ credits (ringbuffer_client_cost n) }}} ringbuffer_client n ops
  {{{ outs, ⟨outs = (ascript (rb_aexec n) ops (RbAbs (replicate n NULL) [] [])).1⟩ }}}.
Proof.
  iIntros (Hn Φ) "Hc HΦ". iDestruct (credits_add with "Hc") as "[Hv Hc]".
  iApply (with_variable_spec _ (credits _) with "[$Hv $Hc] HΦ"). clear Φ.
  iIntros (a Ha Φ) "[Ha Hc] HΦ".
  wp_call. iApply (ringbuffer_new_spec with "[$Ha $Hc]"); [apply no_init|done|].
  iIntros (rv) "(%rs & %lw & %Hr & Ha & Hr & HD)". destruct Hr as [_ Hlw]. wp_load.
  iDestruct (no_data_list with "HD") as "%Hw". wp_call.
  iApply (script_refines _ _ (fun _ => 0%nat) (rb_rep n rs) ops (RbAbs (replicate n NULL) [] []) with "[Hr]").
  { iSplitL.
    - iExists lw, [], []. iFrame "Hr". simpl. iSplit; [|done]. iPureIntro.
      split; simpl; [by rw Hw Hlw|done|done|lia].
    - iApply free_script. }
  iIntros ([outs held]) "[%Ho (%lw' & %lr & %lh & %Hrel & Hr & Hh)]". simpl in Ho. subst outs.
  destruct Hrel as [_ _ [_ Hheld] _]. simpl in Hheld. subst held.
  wp_call. iApply (rb_return_all_spec with "[$Hr $Hh]"). iIntros ([]) "(%lw'' & Hr)".
  wp_call. iApply (rb_drain_spec with "Hr"). iIntros ([]) "(%lw3 & Hr)".
  wp_call. iApply (ringbuffer_delete_spec with "Hr"); [done|]. iIntros ([]) "_".
  iApply wp_ret. iApply "HΦ". iSplitL; [by iExists rs|done].
Qed.
End refinement.

(** ** The ring buffer as a whole *)

Section claims.
Context {AL : Allocator} {AO : AllocatorOk} {LK : Linker} {SY : QueueSymbols} {QL : QueueLinked}.

(** C15. The ring buffer refines its abstract machine: every script of writes,
    reads, data accesses and validations on a buffer of [n] elements gets the
    answers of the abstract buffer, in which readers see what was written in
    order, and a writer that finds no free element takes the oldest unread one
    and is told so; no element is lost or handed out twice.  The client ends by
    giving back the elements that it has and reading those that are left; only
    then does [ringbuffer_delete] return all of the memory. *)
Theorem ringbuffer_refines n ops h :
  Z.of_nat n < word_mod - 1 ->
  (ringbuffer_client_cost n <= alloc_room h)%nat ->
  exists k, run k (ringbuffer_client n ops) h =
    Done (ascript (rb_aexec n) ops (RbAbs (replicate n NULL) [] [])).1 h.
Proof.
  intros Hn Hc. apply (run_closed_eq _ _ _ _ (ringbuffer_client_spec n ops Hn) Hc).
Qed.
End claims.

(** ** Witnesses *)

Definition sample_rb_script : list rb_op :=
  [RbGetRead; RbGetWrite; RbSetData 5; RbPutWrite; RbGetWrite; RbSetData 6; RbPutWrite;
   RbValidate None; RbGetWrite; RbSetData 7; RbPutWrite; RbGetRead; RbGetData; RbGetWrite; RbGetWrite;
   RbGetData; RbPutRead; RbPutRead].

Lemma ringbuffer_refines_witness : exists k,
  @run arena _ k (@ringbuffer_client queue_linker queue_symbols 2 sample_rb_script) ∅ =
  Done [RbDone false; RbGot 0; RbDone true; RbDone true; RbGot 0; RbDone true; RbDone true;
        RbVerdict (VALIDITY_VALID, VALIDITY_VALID, VALIDITY_VALID); RbGot 1; RbDone true;
        RbDone true; RbDone true; RbData 6; RbGot 1; RbDone false; RbData 7; RbDone true;
        RbDone true] ∅.
Proof.
  apply (@ringbuffer_refines arena arena_ok queue_linker queue_symbols queue_linker_ok 2 sample_rb_script ∅).
  - done.
  - apply arena_room. by vm_compute.
Defined.

(** ** Unread elements *)

(** One element, written and not read, in a buffer that is deleted. *)
Definition delete_unread {LK : Linker} {SY : QueueSymbols} (rs_var : Z) : prog unit :=
  ringbuffer_new rs_var 1 NULL NULL;;
  let! rs := load rs_var in
  let! (fe, _) := ringbuffer_get_write rs in
  ringbuffer_put_write rs fe;;
  ringbuffer_delete rs NULL NULL.

(** [ringbuffer_delete] loses the elements that were not read: it drops the
    queue without its data and deletes only the freelist, so that the memory of
    an unread element is never given back. *)
Theorem ringbuffer_delete_leaks : exists k h' p n,
  @run arena _ k (@delete_unread queue_linker queue_symbols 16) {[Word 16 := 0]} = Done tt h' /\
  h' !! Hdr p = Some n.
Proof.
  exists 400%nat. eexists. exists 160, 48. split; [vm_compute; reflexivity|]. by vm_compute.
Qed.
