(* ===== verification/Memtrie.v ===== *)
(** * src/advance/lf_memtrie.c: a trie of bytes whose nodes come from a list made in advance. *)
From S2P Require Import Prelude Machine SepLogic Alloc Script Basic Freelist.
#[local] Open Scope Z_scope.
#[local] Open Scope prog_scope.

(** ** Layout and constants (src/advance/lf_memtrie.h) *)

(** [struct trie_node]: [_firstSubNode], [_brotherNode], [key]. *)
Definition TN_FIRST : Z := 0.
Definition TN_BROTHER : Z := 8.
Definition TN_KEY : Z := 16.
Definition sizeof_trie_node : Z := 24.

(** [struct trie]: [root], [counter]. *)
Definition T_ROOT : Z := 0.
Definition T_COUNTER : Z := 8.
Definition sizeof_trie : Z := 16.

(** [struct trie_node_list]: [first], [nodelist_counter]. *)
Definition NL_FIRST : Z := 0.
Definition NL_COUNTER : Z := 8.
Definition sizeof_trie_node_list : Z := 16.

(** [struct trie_state]: [trieNodeList], [trie_entry], [init_node_counter]. *)
Definition TS_NODES : Z := 0.
Definition TS_ENTRY : Z := 8.
Definition TS_INIT : Z := 16.
Definition sizeof_trie_state : Z := 24.

Definition TRIE_INSERT_SUCCESS : Z := 1.
Definition TRIE_INSERT_DUPLICATION : Z := 2.
Definition TRIE_INSERT_ERROR : Z := 3.
Definition TRIE_SEARCH_SUCCESS : Z := 1.
Definition TRIE_SEARCH_ERROR : Z := 2.

(** ** Operations *)

Section code.
Context {OO : OperandOrder}.

Definition tnode_push_body (nodelist tnode_local tnode_original : Z) : prog (Z + unit) :=
  store (tnode_local + TN_BROTHER) tnode_original;;
  let! (again, tnode_original) :=
    cas_against (tnode_local + TN_BROTHER) (nodelist + NL_FIRST) tnode_local tnode_original in
  if again then Ret (inl tnode_original) else Ret (inr tt).

Definition tnode_push (nodelist tnode : Z) : prog unit :=
  barrier;;
  let! tnode_original := load (nodelist + NL_FIRST) in
  loop (tnode_push_body nodelist tnode) tnode_original;;
  abstraction_increment (nodelist + NL_COUNTER);;
  barrier.

(** [None]: the list is empty. *)
Definition tnode_pop_body (nodelist tnode_local : Z) : prog (Z + option Z) :=
  let tnode_original := tnode_local in
  let! first := load (nodelist + NL_FIRST) in
  if first =? NULL then Ret (inr None)
  else
    let! brother := load (tnode_local + TN_BROTHER) in
    let! tnode_local := abstraction_cas (nodelist + NL_FIRST) brother tnode_original in
    if tnode_original =? tnode_local then Ret (inr (Some tnode_local)) else Ret (inl tnode_local).

(** The return value, and what is stored through [tnode]. *)
Definition tnode_pop (nodelist : Z) : prog (Z * Z) :=
  c_assert (non_null nodelist);;
  barrier;;
  let! tnode_local := load (nodelist + NL_FIRST) in
  let! popped := loop (tnode_pop_body nodelist) tnode_local in
  match popped with
  | None => Ret (0, NULL)
  | Some tnode_local =>
      abstraction_sub (nodelist + NL_COUNTER);;
      store (tnode_local + TN_BROTHER) NULL;;
      Ret (1, tnode_local)
  end.

Definition trie_nodelist_free_body (nodelist : Z) (_ : unit) : prog (unit + unit) :=
  let! (rv, tnode) := tnode_pop nodelist in
  if truthy rv then aligned_free tnode;; Ret (inl tt) else Ret (inr tt).

Definition trie_nodelist_free (nodelist : Z) : prog unit :=
  c_assert (non_null nodelist);;
  loop (trie_nodelist_free_body nodelist) tt;;
  aligned_free nodelist.

Definition trie_nodelist_new_elements_body (nodelist trie_node_num : Z) (s : Z * Z) : prog ((Z * Z) + Z) :=
  let '(loop, count) := s in
  if loop <? trie_node_num then
    let! tnode := aligned_malloc sizeof_trie_node LF_ALIGN_DOUBLE_POINTER in
    if non_null tnode then
      memset0 tnode 3;;
      tnode_push nodelist tnode;;
      Ret (inl (loop +w 1, count +w 1))
    else Ret (inl (loop +w 1, count))
  else Ret (inr count).

Definition trie_nodelist_new_elements (nodelist trie_node_num : Z) : prog Z :=
  c_assert (non_null nodelist);;
  let! count := loop (trie_nodelist_new_elements_body nodelist trie_node_num) (0, 0) in
  barrier;;
  Ret count.

(** [nodelist] is the address of the caller's pointer; the fields of the new list keep
    what [malloc] left in them. *)
Definition trie_new_nodelist (nodelist trie_node_num : Z) : prog Z :=
  let! p := aligned_malloc sizeof_trie_node_list LF_ALIGN_DOUBLE_POINTER in
  store nodelist p;;
  let! p := load nodelist in
  let! rv :=
    (if non_null p then
       let! p := load nodelist in
       let! element_count := trie_nodelist_new_elements p trie_node_num in
       let rv := if element_count =? trie_node_num then 1 else 0 in
       if negb (element_count =? trie_node_num) then
         let! p := load nodelist in
         trie_nodelist_free p;;
         let! p := load nodelist in
         aligned_free p;;
         store nodelist NULL;;
         Ret rv
       else Ret rv
     else Ret 0) in
  barrier;;
  Ret rv.

Definition trie_new_trie_entry (trie : Z) : prog Z :=
  c_assert (non_null trie);;
  let! p := aligned_malloc sizeof_trie LF_ALIGN_DOUBLE_POINTER in
  store trie p;;
  let! p := load trie in
  if non_null p then
    let! p := load trie in
    memset0 p 2;;
    let! root := aligned_malloc sizeof_trie_node LF_ALIGN_DOUBLE_POINTER in
    let! p := load trie in
    store (p + T_ROOT) root;;
    let! p := load trie in
    let! root := load (p + T_ROOT) in
    memset0 root 3;;
    Ret 1
  else Ret 0.

Definition trie_new (trie trie_node_num : Z) : prog Z :=
  let! p := aligned_malloc sizeof_trie_state LF_ALIGN_DOUBLE_POINTER in
  store trie p;;
  let! p := load trie in
  (if non_null p then
     let! p := load trie in
     store (p + TS_INIT) trie_node_num;;
     trie_new_trie_entry (p + TS_ENTRY);;
     trie_new_nodelist (p + TS_NODES) trie_node_num;;
     Ret tt
   else Ret tt);;
  let! p := load trie in
  let! nodes := load (p + TS_NODES) in
  let! both :=
    (if non_null nodes then let! entry := load (p + TS_ENTRY) in Ret (non_null entry) else Ret false) in
  if negb both then
    let! entry := load (p + TS_ENTRY) in
    (if non_null entry then aligned_free entry else Ret tt);;
    let! nodes := load (p + TS_NODES) in
    (if non_null nodes then trie_nodelist_free nodes else Ret tt);;
    (if non_null p then aligned_free p else Ret tt);;
    Ret 0
  else
    barrier;;
    Ret 1.

Definition search_subnode_body (key tmp_node : Z) : prog (Z + Z) :=
  let! stop := (if tmp_node =? NULL then Ret true else let! k := load (tmp_node + TN_KEY) in Ret (k >? key)) in
  if stop then Ret (inr NULL)
  else
    let! k := load (tmp_node + TN_KEY) in
    if k <? key then let! next := load (tmp_node + TN_BROTHER) in Ret (inl next)
    else Ret (inr tmp_node).

Definition search_subnode_by_label (parrent key : Z) : prog Z :=
  c_assert (non_null parrent);;
  let! tmp_node := load (parrent + TN_FIRST) in
  loop (search_subnode_body key) tmp_node.

(** The loop of [get_subnode_by_label], over [*prev] and [*prev_next]. *)
Definition get_subnode_body (key : Z) (s : Z * Z) : prog ((Z * Z) + (Z * (Z * Z))) :=
  let '(prev, prev_next) := s in
  let! before := (if non_null prev_next then let! k := load (prev_next + TN_KEY) in Ret (k <? key) else Ret false) in
  if before then
    let! next := load (prev_next + TN_BROTHER) in
    Ret (inl (prev_next, next))
  else
    let! after := (if prev_next =? NULL then Ret true else let! k := load (prev_next + TN_KEY) in Ret (k >? key)) in
    if after then Ret (inr (NULL, (prev, prev_next)))
    else
      let! sub := load (prev_next + TN_FIRST) in
      Ret (inr (prev_next, (prev_next, sub))).

(** The return value, and the new [*prev] and [*prev_next]. *)
Definition get_subnode_by_label (parrent : Z) (s : Z * Z) (key : Z) : prog (Z * (Z * Z)) :=
  c_assert (non_null parrent);;
  let '(prev, prev_next) := s in
  let! tmp_node := load (parrent + TN_FIRST) in
  let! after := (if tmp_node =? NULL then Ret true else let! k := load (tmp_node + TN_KEY) in Ret (k >? key)) in
  if after then Ret (NULL, (parrent, tmp_node))
  else
    let! k := load (tmp_node + TN_KEY) in
    if k <? key then
      if prev =? parrent then
        let! next := load (tmp_node + TN_BROTHER) in
        loop (get_subnode_body key) (tmp_node, next)
      else loop (get_subnode_body key) (prev, prev_next)
    else
      let! sub := load (tmp_node + TN_FIRST) in
      Ret (tmp_node, (tmp_node, sub)).

Definition lf_trie_insert_node_body (trie_state tnode parrent key : Z) (s : Z * Z)
  : prog ((Z * Z) + (Z * (Z * Z))) :=
  let! (rv_node, (prev, prev_next)) := get_subnode_by_label parrent s key in
  if non_null rv_node then
    store (tnode + TN_BROTHER) NULL;;
    let! nodes := load (trie_state + TS_NODES) in
    tnode_push nodes tnode;;
    Ret (inr (rv_node, (prev, prev_next)))
  else
    let prev_cmp := prev_next in
    store (tnode + TN_BROTHER) prev_cmp;;
    let! prev_next :=
      (if prev =? parrent then abstraction_cas (prev + TN_FIRST) tnode prev_cmp
       else abstraction_cas (prev + TN_BROTHER) tnode prev_cmp) in
    if prev_cmp =? prev_next then
      let! sub := load (tnode + TN_FIRST) in
      let! entry := load (trie_state + TS_ENTRY) in
      abstraction_increment (entry + T_COUNTER);;
      Ret (inr (tnode, (tnode, sub)))
    else Ret (inl (prev, prev_next)).

Definition lf_trie_insert_node (trie_state parrent : Z) (s : Z * Z) (key : Z) : prog (Z * (Z * Z)) :=
  let! nodes := load (trie_state + TS_NODES) in
  let! (rv, tnode) := tnode_pop nodes in
  if negb (truthy rv) then Ret (NULL, s)
  else
    store (tnode + TN_KEY) key;;
    loop (lf_trie_insert_node_body trie_state tnode parrent key) s.

(** The variables of the first loop of an insertion: [found], [pos], [node], [parrent],
    [*prev] and [*prev_next]; [in_str] is the string, of [strlen] bytes. *)
Definition insert_walk_body (in_str : list Z) (v : bool * nat * Z * Z * (Z * Z))
  : prog ((bool * nat * Z * Z * (Z * Z)) + (nat * Z * Z * (Z * Z))) :=
  let '(found, pos, node, parrent, s) := v in
  if found && (pos <? length in_str)%nat then
    let parrent := node in
    let! (node, s) := get_subnode_by_label node s (in_str !!! pos) in
    if non_null node then Ret (inl (true, S pos, node, parrent, s))
    else Ret (inl (false, pos, node, parrent, s))
  else Ret (inr (pos, node, parrent, s)).

(** The second loop: [i] and [pos] are equal. *)
Definition insert_rest_body (trie_state : Z) (in_str : list Z) (v : nat * Z * (Z * Z))
  : prog ((nat * Z * (Z * Z)) + Z) :=
  let '(pos, node, s) := v in
  if (pos <? length in_str)%nat then
    let! (node, s) := lf_trie_insert_node trie_state node s (in_str !!! pos) in
    let pos := S pos in
    if node =? NULL then Ret (inr TRIE_INSERT_ERROR) else Ret (inl (pos, node, s))
  else Ret (inr TRIE_INSERT_SUCCESS).

Definition lf_trie_insert_real_data (trie_state : Z) (in_str : list Z) : prog Z :=
  let! entry := load (trie_state + TS_ENTRY) in
  let! node := load (entry + T_ROOT) in
  let! (pos, node, parrent, s) :=
    loop (insert_walk_body in_str) (true, 0%nat, node, NULL, (node, NULL)) in
  if negb (non_null node) || negb (pos =? length in_str)%nat then
    loop (insert_rest_body trie_state in_str) (pos, parrent, s)
  else
    c_assert (non_null node);;
    Ret TRIE_INSERT_DUPLICATION.

Definition search_walk_body (in_str : list Z) (v : bool * nat * Z) : prog ((bool * nat * Z) + (nat * Z)) :=
  let '(found, pos, node) := v in
  if found && (pos <? length in_str)%nat then
    let! node := search_subnode_by_label node (in_str !!! pos) in
    if non_null node then Ret (inl (true, S pos, node)) else Ret (inl (false, pos, node))
  else Ret (inr (pos, node)).

Definition lf_trie_search_real_data (trie_state : Z) (in_str : list Z) : prog Z :=
  let! entry := load (trie_state + TS_ENTRY) in
  let! node := load (entry + T_ROOT) in
  let! (pos, node) := loop (search_walk_body in_str) (true, 0%nat, node) in
  if negb (non_null node) || negb (pos =? length in_str)%nat then Ret TRIE_SEARCH_ERROR
  else Ret TRIE_SEARCH_SUCCESS.

Definition trie_use (ts : Z) : prog unit :=
  c_assert (non_null ts);;
  barrier.

Definition trie_entry_free (trie : Z) : prog unit :=
  c_assert (non_null trie);;
  aligned_free trie.

Definition trie_state_free (trie_state : Z) : prog unit :=
  if non_null trie_state then
    let! nodes := load (trie_state + TS_NODES) in
    (if non_null nodes then
       let! nodes := load (trie_state + TS_NODES) in
       trie_nodelist_free nodes
     else Ret tt);;
    let! entry := load (trie_state + TS_ENTRY) in
    (if non_null entry then
       let! entry := load (trie_state + TS_ENTRY) in
       trie_entry_free entry
     else Ret tt);;
    aligned_free trie_state
  else Ret tt.
End code.

(** ** Forests

    A forest is the list of the children of a node, with the addresses of the nodes. *)

Inductive forest : Set :=
| FNil
| FCons (node key : Z) (sub next : forest).

Definition froot (f : forest) : Z := match f with FNil => NULL | FCons a _ _ _ => a end.

(** The child with a key. *)
Fixpoint ffind (c : Z) (f : forest) : option (Z * forest) :=
  match f with
  | FNil => None
  | FCons a k sub next => if k <? c then ffind c next else if c <? k then None else Some (a, sub)
  end.

(** Where a walk along the children from [prev] stops. *)
Fixpoint fwalk (c prev : Z) (f : forest) : Z * (Z * Z) :=
  match f with
  | FNil => (NULL, (prev, NULL))
  | FCons a k sub next =>
      if k <? c then fwalk c a next else if c <? k then (NULL, (prev, a)) else (a, (a, froot sub))
  end.

(** Other children for the child with key [c]. *)
Fixpoint fset (c : Z) (g f : forest) : forest :=
  match f with
  | FNil => FNil
  | FCons a k sub next => if k =? c then FCons a k g next else FCons a k sub (fset c g next)
  end.

(** A new child at [a] with key [c] and no children. *)
Fixpoint fput (c a : Z) (f : forest) : forest :=
  match f with
  | FNil => FCons a c FNil FNil
  | FCons b k sub next => if k <? c then FCons b k sub (fput c a next) else FCons a c FNil (FCons b k sub next)
  end.

(** Keys rise strictly along the children of every node. *)
Fixpoint fbelow (lo : Z) (f : forest) : Prop :=
  match f with FNil => True | FCons _ k _ next => lo < k /\ fbelow k next end.

Fixpoint fsorted (f : forest) : Prop :=
  match f with FNil => True | FCons _ k sub next => fbelow k next /\ fsorted sub /\ fsorted next end.

(** A string that is a path from the root. *)
Fixpoint fmem (f : forest) (s : list Z) : bool :=
  match s with
  | [] => true
  | c :: s => match ffind c f with Some (_, sub) => fmem sub s | None => false end
  end.

(** How much of a string is a path from the root. *)
Fixpoint fknown (f : forest) (s : list Z) : nat :=
  match s with
  | [] => 0
  | c :: s => match ffind c f with Some (_, sub) => S (fknown sub s) | None => 0 end
  end.

(** The part of a string for which there are nodes, added to a forest with the nodes [l]. *)
Fixpoint fadd (f : forest) (s : list Z) (l : list Z) : forest :=
  match s with
  | [] => f
  | c :: s =>
      match ffind c f with
      | Some (_, sub) => fset c (fadd sub s l) f
      | None => match l with [] => f | a :: l => fset c (fadd FNil s l) (fput c a f) end
      end
  end.

Lemma fbelow_weaken lo hi f : lo <= hi -> fbelow hi f -> fbelow lo f.
Proof. destruct f; simpl; [done|]. intros ? [??]. split; [lia|done]. Qed.

Lemma ffind_below c f : fbelow c f -> ffind c f = None.
Proof.
  destruct f as [|a k sub next]; simpl; [done|]. intros [? _].
  rw (proj2 (Z.ltb_ge k c)) ?(proj2 (Z.ltb_lt c k)) //; lia.
Qed.

Ltac keys :=
  repeat match goal with
  | |- context [?a <? ?b] => destruct (Z.ltb_spec a b)
  | |- context [?a =? ?b] => destruct (Z.eqb_spec a b)
  | H : context [?a <? ?b] |- _ => destruct (Z.ltb_spec a b)
  | H : context [?a =? ?b] |- _ => destruct (Z.eqb_spec a b)
  end; simplify_eq; try lia; try done.

Lemma ffind_fset c d g f : fsorted f ->
  ffind d (fset c g f) = if d =? c then (fun x => (x.1, g)) <$> ffind c f else ffind d f.
Proof.
  induction f as [|a k sub _ next IH]; simpl; [by destruct (d =? c)|]. intros (Hb & _ & Hs).
  specialize (IH Hs). destruct (Z.eqb_spec k c) as [->|Hne]; simpl.
  - keys.
  - rw IH. destruct (Z.eqb_spec d c) as [->|]; [|done]. keys.
Qed.

Lemma ffind_fput c d a f : fsorted f -> ffind c f = None ->
  ffind d (fput c a f) = if d =? c then Some (a, FNil) else ffind d f.
Proof.
  induction f as [|b k sub _ next IH]; simpl; [intros _ _; keys|]. intros (Hb & _ & Hs) Hf.
  destruct (Z.ltb_spec k c); simpl.
  - rw IH //. keys.
  - destruct (Z.ltb_spec c k); [|done]. keys.
Qed.

Lemma fset_same c f a sub : ffind c f = Some (a, sub) -> fset c sub f = f.
Proof. induction f as [|b k g _ next IH]; simpl; [done|]. intros E. keys. by rw IH. Qed.

Lemma fset_below lo c g f : fbelow lo f -> fbelow lo (fset c g f).
Proof. revert lo. induction f as [|a k sub _ next IH]; simpl; [done|]. intros lo [??]. destruct (k =? c); simpl; auto. Qed.

Lemma fput_below lo c a f : lo < c -> ffind c f = None -> fbelow lo f -> fbelow lo (fput c a f).
Proof. revert lo. induction f as [|b k sub _ next IH]; simpl; [done|]. intros lo ? Hf [??]. keys; simpl; auto with lia. Qed.

Lemma fset_sorted c g f : fsorted f -> fsorted g -> fsorted (fset c g f).
Proof.
  induction f as [|a k sub _ next IH]; simpl; [done|]. intros (? & ? & ?) Hg.
  destruct (k =? c); simpl; split_and!; auto using fset_below.
Qed.

Lemma fput_sorted c a f : ffind c f = None -> fsorted f -> fsorted (fput c a f).
Proof.
  induction f as [|b k sub _ next IH]; simpl; [done|]. intros Hf (? & ? & ?).
  destruct (Z.ltb_spec k c); simpl.
  - split_and!; auto using fput_below.
  - destruct (Z.ltb_spec c k); [|done]. by split_and!.
Qed.

Lemma fadd_sorted f s l : fsorted f -> fsorted (fadd f s l).
Proof.
  revert f l. induction s as [|c s IH]; intros f l Hf; simpl; [done|].
  destruct (ffind c f) as [[a sub]|] eqn:E.
  - apply fset_sorted; [done|]. apply IH. clear -E Hf.
    induction f as [|b k g _ next IH]; simpl in E; [done|]. destruct Hf as (_ & ? & ?). keys; auto.
  - destruct l as [|b l]; [done|]. apply fset_sorted; [by apply fput_sorted|]. by apply IH.
Qed.

Lemma fknown_nil s : fknown FNil s = 0%nat.
Proof. by destruct s. Qed.

Lemma ffind_sorted c a sub f : ffind c f = Some (a, sub) -> fsorted f -> fsorted sub.
Proof. induction f as [|b k g _ next IH]; simpl; [done|]. intros E (_ & ? & ?). keys; auto. Qed.

Lemma prefix_cons_same (c : Z) s t : c :: t `prefix_of` c :: s <-> t `prefix_of` s.
Proof. split; [apply prefix_cons_inv_2|apply prefix_cons]. Qed.

(** The strings of a forest after an insertion: those before, and the prefixes of the
    part of the new string for which there were nodes. *)
Lemma fadd_mem f s l t : fsorted f ->
  fmem (fadd f s l) t = fmem f t || bool_decide (t `prefix_of` take (fknown f s + length l) s).
Proof.
  revert f l t. induction s as [|c s IH]; intros f l t Hf; cbn [fadd fknown].
  - rw firstn_nil. destruct t as [|d t]; [done|]. rw bool_decide_false ?orb_false_r //. intros H. by apply prefix_nil_inv in H.
  - destruct t as [|d t]; [by destruct (ffind c f) as [[??]|]|].
    assert (forall n, d ≠ c -> bool_decide (d :: t `prefix_of` take n (c :: s)) = false) as Hne.
    { intros n Hd. apply bool_decide_false. intros H. destruct n as [|n]; [by apply prefix_nil_inv in H|]. by apply prefix_cons_inv_1 in H. }
    assert (forall n, bool_decide (c :: t `prefix_of` take (S n) (c :: s)) = bool_decide (t `prefix_of` take n s)) as Heq.
    { intros n. apply bool_decide_ext. exact (prefix_cons_same c (take n s) t). }
    destruct (ffind c f) as [[a sub]|] eqn:E; cbn [fmem].
    + rw ffind_fset // E. destruct (Z.eqb_spec d c) as [->|Hd]; [|by rw Hne ?orb_false_r].
      cbn [fmap option_fmap option_map fst Nat.add]. rw E Heq IH //. by eapply ffind_sorted.
    + destruct l as [|b l]; cbn [fmem length Nat.add].
      { rw bool_decide_false ?orb_false_r //. intros H. by apply prefix_nil_inv in H. }
      rw ffind_fset ?ffind_fput //; last by apply fput_sorted.
      destruct (Z.eqb_spec d c) as [->|Hd]; [|by rw Hne ?orb_false_r].
      rw Z.eqb_refl. cbn [fmap option_fmap option_map fst]. rw E Heq IH // fknown_nil. destruct t as [|e t]; [|done].
      symmetry. apply bool_decide_true, prefix_nil.
Qed.

Lemma fknown_le f s : (fknown f s <= length s)%nat.
Proof. revert f. induction s as [|c s IH]; intros f; simpl; [lia|]. destruct (ffind c f) as [[a sub]|]; [|lia]. specialize (IH sub). lia. Qed.

(** [fknown] is the length of the longest prefix in the forest. *)
Lemma fknown_mem f s n : (n <= length s)%nat -> fmem f (take n s) = (n <=? fknown f s)%nat.
Proof.
  revert f n. induction s as [|c s IH]; intros f n Hn; simpl in Hn; [destruct n; [done|lia]|].
  destruct n as [|n]; [done|]. simpl. destruct (ffind c f) as [[a sub]|]; [|done]. apply IH. lia.
Qed.

(** ** Assertions *)

(** The node at [a]. *)
Definition tnode (a first brother key : Z) : hProp :=
  (⟨aligned_addr a sizeof_trie_node LF_ALIGN_DOUBLE_POINTER⟩ ∗
   aligned_hdr a sizeof_trie_node LF_ALIGN_DOUBLE_POINTER ∗
   (a + TN_FIRST) ↦ first ∗ (a + TN_BROTHER) ↦ brother ∗ (a + TN_KEY) ↦ key)%I.

(** The nodes of a forest. *)
Fixpoint trees (f : forest) : hProp :=
  match f with
  | FNil => emp
  | FCons a k sub next => tnode a (froot sub) (froot next) k ∗ trees sub ∗ trees next
  end%I.

(** The children of the node at [a]. *)
Definition children (a : Z) (f : forest) : hProp := ((a + TN_FIRST) ↦ froot f ∗ trees f)%I.

(** The free nodes [l], the last of which points to [b]. *)
Fixpoint free_nodes (b : Z) (l : list Z) : hProp :=
  match l with
  | [] => emp
  | a :: l => (∃ k, tnode a NULL (hd b l) k) ∗ free_nodes b l
  end%I.

(** The list of free nodes at [nl]. *)
Definition node_list (nl b : Z) (l : list Z) : hProp :=
  (⟨aligned_addr nl sizeof_trie_node_list LF_ALIGN_DOUBLE_POINTER⟩ ∗
   aligned_hdr nl sizeof_trie_node_list LF_ALIGN_DOUBLE_POINTER ∗
   (nl + NL_FIRST) ↦ hd b l ∗ (∃ n, (nl + NL_COUNTER) ↦ n) ∗ free_nodes b l)%I.

(** The entry at [e] with its root. *)
Definition trie_entry (e : Z) (root : Z) : hProp :=
  (⟨aligned_addr e sizeof_trie LF_ALIGN_DOUBLE_POINTER⟩ ∗
   aligned_hdr e sizeof_trie LF_ALIGN_DOUBLE_POINTER ∗
   (e + T_ROOT) ↦ root ∗ ∃ n, (e + T_COUNTER) ↦ n)%I.

(** The fields of the state. *)
Definition trie_fields (ts nl e n : Z) : hProp :=
  (⟨aligned_addr ts sizeof_trie_state LF_ALIGN_DOUBLE_POINTER⟩ ∗
   aligned_hdr ts sizeof_trie_state LF_ALIGN_DOUBLE_POINTER ∗
   (ts + TS_NODES) ↦ nl ∗ (ts + TS_ENTRY) ↦ e ∗ (ts + TS_INIT) ↦ n)%I.

(** What a trie with its root at [root] has besides the root and the nodes below it. *)
Definition trie_base (ts b : Z) (l : list Z) (root : Z) : hProp :=
  (∃ nl e n, trie_fields ts nl e n ∗ node_list nl b l ∗ trie_entry e root)%I.

(** A trie with the strings of [f] and the free nodes [l]; [b] is what the list of free
    nodes was filled with when it was allocated. *)
Definition trie (ts b : Z) (l : list Z) (f : forest) : hProp :=
  (∃ root, trie_base ts b l root ∗ tnode root (froot f) NULL 0 ∗ trees f)%I.

Lemma tnode_aligned a first brother key :
  tnode a first brother key ⊣⊢ aligned a sizeof_trie_node LF_ALIGN_DOUBLE_POINTER [first; brother; key].
Proof.
  unfold tnode, aligned, TN_FIRST, TN_BROTHER, TN_KEY. simpl. rw Z.add_0_r -!Z.add_assoc /=. iSplit.
  - iIntros "(%Ha & Hh & H0 & H1 & H2)". iFrame. done.
  - iIntros "((%Ha & _) & Hh & H0 & H1 & H2 & _)". iFrame. done.
Qed.

Lemma hd_pos b l : free_nodes b l ⊢ ⌜l ≠ [] -> 0 < hd b l⌝.
Proof. destruct l as [|a l]; [by iIntros "_"|]. iIntros "((%k & %Ha & _) & _)". iPureIntro. intros _. by destruct Ha. Qed.

Section specs.
Context {AL : Allocator} {AO : AllocatorOk} {OO : OperandOrder}.

Lemma tnode_push_spec nl b l a brother k :
  {{{ node_list nl b l ∗ tnode a NULL brother k }}} tnode_push nl a {{{ _u, node_list nl b (a :: l) }}}.
Proof.
  iIntros (Φ) "[(%Hnl & Hh & Hf & (%n & Hn) & Hl) (%Ha & Hah & Hfi & Hbr & Hk)] HΦ". unfold tnode_push. wp_load.
  wp_call. iApply wp_loop. unfold tnode_push_body. wp_store. wp_call.
  iApply (cas_against_spec with "[$Hbr $Hf]"); [unfold NL_FIRST; destruct Hnl; lia|]. iIntros (r) "(-> & Hbr & Hf)".
  rw Z.eqb_refl. simpl. iApply wp_ret. unfold abstraction_increment. wp_assert; [eauto with addr|]. wp_incr. iApply wp_ret.
  iApply "HΦ". iFrame. done.
Qed.

Lemma tnode_pop_spec nl b l : l ≠ [] \/ b = NULL ->
  {{{ node_list nl b l }}} tnode_pop nl
  {{{ r, match l with
         | [] => ⟨r = (0, NULL)⟩ ∗ node_list nl b []
         | a :: l => ⟨r = (1, a)⟩ ∗ (∃ k, tnode a NULL NULL k) ∗ node_list nl b l
         end }}}.
Proof.
  iIntros (Hne Φ) "(%Hnl & Hh & Hf & (%n & Hn) & Hl) HΦ". unfold tnode_pop. wp_assert; [eauto with addr|]. wp_load.
  wp_call. iApply wp_loop. unfold tnode_pop_body. wp_load. destruct l as [|a l]; simpl.
  - destruct Hne as [|Hb]; [done|]. subst b. rw Z.eqb_refl. iApply wp_ret. iApply wp_ret. iApply "HΦ". iFrame. done.
  - iDestruct "Hl" as "[(%k & %Ha & Hah & Hfi & Hbr & Hk) Hl]". rw (proj2 (Z.eqb_neq a NULL)); last (destruct Ha; unfold NULL; lia).
    wp_load. unfold abstraction_cas. wp_assert; [eauto with addr|]. wp_cas. rw Z.eqb_refl. iApply wp_ret.
    unfold abstraction_sub. wp_assert; [eauto with addr|]. wp_incr. wp_store. iApply wp_ret.
    iApply "HΦ". iFrame. done.
Qed.

Lemma trie_nodelist_free_spec nl l :
  {{{ node_list nl NULL l }}} trie_nodelist_free nl {{{ _u, emp }}}.
Proof.
  iIntros (Φ) "Hl HΦ". unfold trie_nodelist_free. iAssert (⌜non_null nl = true⌝)%I as %Hnn.
  { iDestruct "Hl" as "(%Ha & _)". iPureIntro. eauto with addr. }
  wp_assert. iApply wp_bind. iInduction l as [|a l] "IH"; iApply wp_loop; unfold trie_nodelist_free_body at 1.
  - wp_call. iApply (tnode_pop_spec with "Hl"); [by right|]. iIntros (r) "(-> & %Ha & Hh & Hf & (%n & Hn) & _)". simpl.
    iApply wp_ret. iApply wp_bind_ret. wp_call.
    iApply (aligned_free_spec nl sizeof_trie_node_list LF_ALIGN_DOUBLE_POINTER [NULL; n] with "[-HΦ]").
    { unfold aligned, NL_FIRST, NL_COUNTER. simpl. rw Z.add_0_r. iFrame. done. }
    iIntros ([]) "_". iApply wp_ret. by iApply "HΦ".
  - wp_call. iApply (tnode_pop_spec with "Hl"); [by left|]. iIntros (r) "(-> & (%k & Ha) & Hl)". simpl.
    wp_call. rw tnode_aligned. iApply (aligned_free_spec with "Ha"). iIntros ([]) "_". iApply wp_ret. by iApply ("IH" with "Hl HΦ").
Qed.

Definition trie_node_cost : nat := aligned_cost sizeof_trie_node LF_ALIGN_DOUBLE_POINTER.

(** A block becomes a node when it is filled with zeros. *)
Lemma memset_tnode a vs :
  {{{ aligned a sizeof_trie_node LF_ALIGN_DOUBLE_POINTER vs }}} memset0 a 3 {{{ _u, tnode a NULL NULL 0 }}}.
Proof.
  iIntros (Φ) "Ha HΦ". iDestruct (aligned_facts with "Ha") as %[Ha Hlen]. iDestruct "Ha" as "(_ & Hh & Hw)".
  assert (length vs = 3%nat) as H3 by (unfold sizeof_trie_node in Hlen; lia). rw -H3. iApply (memset0_spec with "Hw"). iIntros ([]) "Hw". rw H3.
  iApply "HΦ". iApply tnode_aligned. iSplitR; [done|]. iFrame "Hh". iApply "Hw".
Qed.

Lemma trie_nodelist_new_elements_loop nl b trie_node_num k :
  is_word trie_node_num -> forall l j, j + Z.of_nat k = trie_node_num -> 0 <= j ->
  {{{ node_list nl b l ∗ credits (k * trie_node_cost) }}}
    loop (trie_nodelist_new_elements_body nl trie_node_num) (j, j)
  {{{ r, ∃ new, ⟨r = trie_node_num /\ length new = k⟩ ∗ node_list nl b (new ++ l) }}}.
Proof.
  intros Hw. unfold is_word in Hw.
  induction k as [|k IH]; iIntros (l j Hj Hj0 Φ) "[Hl Hcr] HΦ"; iApply wp_loop; unfold trie_nodelist_new_elements_body at 1.
  - rw (proj2 (Z.ltb_ge j trie_node_num)); last lia. iApply (wp_credits 0). iFrame "Hcr". iApply wp_ret. iApply "HΦ". iExists []. iFrame. iPureIntro. split; [lia|done].
  - rw (proj2 (Z.ltb_lt j trie_node_num)); last lia. iDestruct (credits_add with "Hcr") as "[Hcr1 Hcr]".
    wp_call. iApply (aligned_malloc_spec with "Hcr1"); [done|]. iIntros (a) "(%vs & Ha)".
    iDestruct (aligned_facts with "Ha") as %[Ha Hlen]. rw (aligned_addr_non_null0 _ _ _ Ha).
    wp_call. iApply (memset_tnode with "Ha"). iIntros ([]) "Ha". wp_call. iApply (tnode_push_spec with "[$Hl $Ha]"). iIntros ([]) "Hl".
    iApply wp_ret. rw (wrap_small (j + 1)); last (unfold is_word; lia). iApply (IH with "[$Hl $Hcr]"); [lia|lia|].
    iIntros (r) "(%new & %Hr & Hl)". destruct Hr as [-> Hn]. iApply "HΦ". iExists (new ++ [a]). rw -app_assoc. iFrame. iPureIntro.
    rw length_app /=. split; [done|lia].
Qed.

Definition trie_nodelist_cost (trie_node_num : Z) : nat :=
  (aligned_cost sizeof_trie_node_list LF_ALIGN_DOUBLE_POINTER + Z.to_nat trie_node_num * trie_node_cost)%nat.

Lemma trie_new_nodelist_spec (J : Z -> Prop) a trie_node_num : is_word trie_node_num -> (forall h i, J (alloc_junk h i)) ->
  {{{ cell a ∗ credits (trie_nodelist_cost trie_node_num) }}} trie_new_nodelist a trie_node_num
  {{{ _rv, ∃ nl b l, ⟨0 < nl /\ J b /\ Z.of_nat (length l) = trie_node_num⟩ ∗ a ↦ nl ∗ node_list nl b l }}}.
Proof.
  iIntros (Hw HJ Φ) "[(%v & Ha) Hcr] HΦ". unfold trie_new_nodelist. iDestruct (credits_add with "Hcr") as "[Hcr1 Hcr]".
  wp_call. iApply (aligned_malloc_filled J with "Hcr1"); [done|done|]. iIntros (nl) "(%vs & %HF & Hnl)".
  iDestruct (aligned_facts with "Hnl") as %[Hnl Hlen]. destruct vs as [|b [|n [|]]]; simpl in Hlen; unfold sizeof_trie_node_list in Hlen; try lia.
  wp_store. wp_load. rw (aligned_addr_non_null0 _ _ _ Hnl). wp_load. wp_call. unfold trie_nodelist_new_elements. wp_assert; [eauto with addr|]. wp_call.
  iApply (trie_nodelist_new_elements_loop nl b trie_node_num (Z.to_nat trie_node_num) Hw [] 0 with "[Hnl $Hcr]"); [unfold is_word in Hw; lia|lia| |].
  { unfold node_list, NL_FIRST, NL_COUNTER. rw Z.add_0_r. iDestruct "Hnl" as "(_ & Hh & H0 & H1 & _)". simpl. iFrame. done. }
  iIntros (r) "(%new & %Hr & Hl)". destruct Hr as [-> Hn]. wp_simpl. iApply wp_ret. rw Z.eqb_refl. simpl. wp_simpl. iApply wp_ret.
  iApply "HΦ". iExists nl, b, new. rw app_nil_r. iFrame. iPureIntro. unfold is_word in Hw. split_and!; [by destruct Hnl|by inversion HF|lia].
Qed.

Definition trie_cost (trie_node_num : Z) : nat :=
  (aligned_cost sizeof_trie_state LF_ALIGN_DOUBLE_POINTER + aligned_cost sizeof_trie LF_ALIGN_DOUBLE_POINTER + trie_node_cost + trie_nodelist_cost trie_node_num)%nat.

Lemma trie_new_trie_entry_spec a : 0 < a ->
  {{{ cell a ∗ credits (aligned_cost sizeof_trie LF_ALIGN_DOUBLE_POINTER + trie_node_cost) }}} trie_new_trie_entry a
  {{{ _rv, ∃ e root, ⟨0 < e⟩ ∗ a ↦ e ∗ trie_entry e root ∗ tnode root NULL NULL 0 }}}.
Proof.
  iIntros (Ha Φ) "[(%v & Ha) Hcr] HΦ". unfold trie_new_trie_entry. wp_assert; [by apply non_null_pos|]. iDestruct (credits_add with "Hcr") as "[Hcr1 Hcr]".
  wp_call. iApply (aligned_malloc_spec with "Hcr1"); [done|]. iIntros (e) "(%vs & He)".
  iDestruct (aligned_facts with "He") as %[He Hlen]. assert (length vs = 2%nat) as H2 by (unfold sizeof_trie in Hlen; lia).
  wp_store. wp_load. rw (aligned_addr_non_null0 _ _ _ He). wp_load. iDestruct "He" as "(_ & Hh & Hw)". wp_call. rw -H2. iApply (memset0_spec with "Hw"). iIntros ([]) "Hw". rw H2. iEval (simpl) in "Hw".
  wp_call. iApply (aligned_malloc_spec with "Hcr"); [done|]. iIntros (root) "(%ws & Hr)".
  iAssert (trie_entry e 0) with "[Hh Hw]" as "(_ & Hh & Hroot & (%n & Hcnt))".
  { unfold trie_entry, T_ROOT, T_COUNTER. rw Z.add_0_r. iDestruct "Hw" as "(H0 & H1 & _)". iFrame. done. }
  wp_load. wp_store. wp_load. wp_load. wp_call. iApply (memset_tnode with "Hr"). iIntros ([]) "Hr".
  iApply wp_ret. iApply "HΦ". iExists e, root. iFrame. iPureIntro. by destruct He.
Qed.

Lemma trie_new_spec (J : Z -> Prop) a trie_node_num : is_word trie_node_num -> (forall h i, J (alloc_junk h i)) -> 0 < a ->
  {{{ cell a ∗ credits (trie_cost trie_node_num) }}} trie_new a trie_node_num
  {{{ rv, ∃ ts b l, ⟨rv = 1 /\ 0 < ts /\ J b /\ Z.of_nat (length l) = trie_node_num⟩ ∗ a ↦ ts ∗ trie ts b l FNil }}}.
Proof.
  iIntros (Hw HJ Ha Φ) "[(%v & Ha) Hcr] HΦ". unfold trie_new. iDestruct (credits_add with "Hcr") as "[Hcr Hcr3]".
  unfold trie_cost. rw -Nat.add_assoc. iDestruct (credits_add with "Hcr") as "[Hcr1 Hcr2]".
  wp_call. iApply (aligned_malloc_spec with "Hcr1"); [done|]. iIntros (ts) "(%vs & Hts)".
  iDestruct (aligned_facts with "Hts") as %[Hts Hlen]. destruct vs as [|v0 [|v1 [|v2 [|]]]]; simpl in Hlen; unfold sizeof_trie_state in Hlen; try lia.
  iAssert (trie_fields ts v0 v1 v2) with "[Hts]" as "(_ & Hh & H0 & H1 & H2)".
  { unfold trie_fields, TS_NODES, TS_ENTRY, TS_INIT. rw Z.add_0_r. iDestruct "Hts" as "(_ & Hh & H0 & H1 & H2 & _)". rw -Z.add_assoc. iFrame. done. }
  wp_store. wp_load. rw (aligned_addr_non_null0 _ _ _ Hts). wp_load. wp_store.
  wp_call. iApply (trie_new_trie_entry_spec with "[$Hcr2 H1]"); [unfold TS_ENTRY; destruct Hts; lia|by iExists v1|]. iIntros (r1) "(%e & %root & %He & H1 & He & Hr)".
  wp_call. iApply (trie_new_nodelist_spec J with "[$Hcr3 H0]"); [done|done|by iExists v0|]. iIntros (r2) "(%nl & %b & %l & %Hl & H0 & Hnl)". destruct Hl as (Hnl & Hb & Hl).
  wp_simpl. wp_load. wp_load. rw non_null_pos //. wp_load. rw non_null_pos //. simpl. wp_simpl. iApply wp_ret. iApply "HΦ". iExists ts, b, l. iFrame.
  iPureIntro. by destruct Hts.
Qed.

(** *** Searching *)

Definition faddr (x : option (Z * forest)) : Z := if x is Some (a, _) then a else NULL.

Lemma ffind_pos c f : trees f ⊢ ⌜forall a sub, ffind c f = Some (a, sub) -> 0 < a⌝.
Proof.
  induction f as [|a k sub _ next IH]; simpl; [iIntros "_"; by iPureIntro|].
  iIntros "((%Ha & _) & _ & Hn)". iDestruct (IH with "Hn") as %Hn. iPureIntro. intros a' sub' E.
  destruct (k <? c); [by eapply Hn|]. destruct (c <? k); [done|]. simplify_eq. by destruct Ha.
Qed.

Lemma froot_null a k sub next : tnode a sub next k ⊢ ⌜(a =? NULL) = false⌝.
Proof. iIntros "(%Ha & _)". iPureIntro. apply Z.eqb_neq. destruct Ha. unfold NULL. lia. Qed.

Lemma search_subnode_loop c f :
  {{{ trees f }}} loop (search_subnode_body c) (froot f) {{{ r, ⟨r = faddr (ffind c f)⟩ ∗ trees f }}}.
Proof.
  induction f as [|a k sub _ next IH]; iIntros (Φ) "Hf HΦ"; iApply wp_loop; unfold search_subnode_body at 1; cbn [froot ffind trees].
  - simpl. wp_simpl. iApply wp_ret. iApply "HΦ". by iFrame.
  - iDestruct "Hf" as "(Ha & Hs & Hn)". iDestruct (froot_null with "Ha") as %->. iDestruct "Ha" as "(%Ha & Hh & H0 & H1 & H2)".
    wp_load. rw Z.gtb_ltb. destruct (Z.ltb_spec c k) as [Hc|Hc]; wp_simpl.
    + rw (proj2 (Z.ltb_ge k c)); last lia. iApply wp_ret. iApply "HΦ". iFrame. done.
    + wp_load. destruct (Z.ltb_spec k c).
      * wp_load. iApply wp_ret. iApply (IH with "Hn"). iIntros (r) "[-> Hn]". iApply "HΦ". iFrame. done.
      * iApply wp_ret. iApply "HΦ". iFrame. done.
Qed.

Lemma trees_find c f a sub : ffind c f = Some (a, sub) ->
  trees f ⊢ children a sub ∗ (∀ g, children a g -∗ trees (fset c g f)).
Proof.
  induction f as [|b k g _ next IH]; simpl; [done|]. intros E. iIntros "((%Hb & Hh & H0 & H1 & H2) & Hs & Hn)".
  destruct (Z.ltb_spec k c).
  - iDestruct (IH E with "Hn") as "[$ Hcl]". iIntros (g') "Hc". iDestruct ("Hcl" with "Hc") as "Hn". rw (proj2 (Z.eqb_neq k c)); last lia. simpl.
    replace (froot (fset c g' next)) with (froot next) by (destruct next as [|?? ? ?]; simpl; [done|]; by destruct (_ =? _)). iFrame. done.
  - destruct (Z.ltb_spec c k); [done|]. simplify_eq. iFrame. iIntros (g') "[H0 Hs]". rw (proj2 (Z.eqb_eq k c)); last lia. simpl. iFrame. done.
Qed.

Lemma froot_fset c g f : froot (fset c g f) = froot f.
Proof. destruct f as [|?? ? ?]; simpl; [done|]. by destruct (_ =? _). Qed.

Lemma children_find p c f a sub : ffind c f = Some (a, sub) ->
  children p f ⊢ children a sub ∗ (∀ g, children a g -∗ children p (fset c g f)).
Proof.
  iIntros (E) "[Hp Hf]". iDestruct (trees_find c f a sub E with "Hf") as "[$ Hcl]". iIntros (g) "Hg". unfold children. rw froot_fset.
  iFrame "Hp". by iApply "Hcl".
Qed.

Lemma search_walk_spec in_str s pre a f : in_str = pre ++ s -> 0 < a ->
  {{{ children a f }}} loop (search_walk_body in_str) (true, length pre, a)
  {{{ r, ⟨if fmem f s then r.1 = length in_str /\ 0 < r.2 else r.2 = NULL⟩ ∗ children a f }}}.
Proof.
  revert pre a f. induction s as [|c s IH]; iIntros (pre a f Hs Ha Φ) "Hf HΦ"; iApply wp_loop; unfold search_walk_body at 1; simpl.
  - rw (proj2 (Nat.ltb_ge (length pre) (length in_str))); last (rw Hs length_app /=; lia). iApply wp_ret. iApply "HΦ". iFrame. iPureIntro. split; [|done]. by rw Hs app_nil_r.
  - rw (proj2 (Nat.ltb_lt (length pre) (length in_str))); last (rw Hs length_app /=; lia).
    rw Hs list_lookup_total_middle // -Hs. wp_call. unfold search_subnode_by_label. wp_assert; [by apply non_null_pos|]. iDestruct "Hf" as "[H0 Hf]". wp_load.
    iApply (search_subnode_loop with "Hf"). iIntros (r) "[-> Hf]". iDestruct (ffind_pos c with "Hf") as %Hpos.
    destruct (ffind c f) as [[a' sub]|] eqn:E; simpl.
    + rw non_null_pos; last by eapply Hpos. iApply wp_ret. iDestruct (children_find a c f a' sub E with "[$H0 $Hf]") as "[Hc Hcl]".
      replace (S (length pre)) with (length (pre ++ [c])) by (rw length_app /=; lia).
      iApply (IH (pre ++ [c]) a' sub with "Hc"); [by rw -app_assoc|by eapply Hpos|]. iIntros (r) "[%Hr Hc]". iApply "HΦ". iSplitR; [done|].
      iDestruct ("Hcl" with "Hc") as "Hf". by rw (fset_same _ _ _ _ E).
    + iApply wp_ret. iApply wp_loop. unfold search_walk_body at 1. simpl. iApply wp_ret. iApply "HΦ". by iFrame.
Qed.

Lemma lf_trie_search_spec ts b l f s :
  {{{ trie ts b l f }}} lf_trie_search_real_data ts s
  {{{ r, ⟨r = if fmem f s then TRIE_SEARCH_SUCCESS else TRIE_SEARCH_ERROR⟩ ∗ trie ts b l f }}}.
Proof.
  iIntros (Φ) "(%root & (%nl & %e & %n & (%Ha & Hh & H0 & H1 & H2) & Hl & (%He & Heh & Hr & Hn)) & (%Hr & Hrh & Hf & Hb & Hk) & Hs) HΦ".
  unfold lf_trie_search_real_data. wp_load. wp_load. wp_call.
  iApply (search_walk_spec s s [] root f with "[$Hf $Hs]"); [done|by destruct Hr|]. iIntros ([pos node]) "[%Hr' [Hf Hs]]". simpl in Hr'.
  assert (negb (non_null node) || negb (pos =? length s)%nat = negb (fmem f s)) as ->.
  { destruct (fmem f s); simpl; [destruct Hr' as [-> ?]; rw non_null_pos // Nat.eqb_refl //|]. by subst node. }
  iAssert (trie ts b l f) with "[- HΦ]" as "Ht"; [iExists root; iSplitL "Hh H0 H1 H2 Hl Heh Hr Hn"; [iExists nl, e, n|]; by iFrame|].
  destruct (fmem f s); simpl; iApply wp_ret; iApply "HΦ"; by iFrame.
Qed.

(** *** Inserting *)

Lemma get_subnode_loop c prev f :
  {{{ trees f }}} loop (get_subnode_body c) (prev, froot f) {{{ r, ⟨r = fwalk c prev f⟩ ∗ trees f }}}.
Proof.
  revert prev. induction f as [|a k sub _ next IH]; iIntros (prev Φ) "Hf HΦ"; iApply wp_loop; unfold get_subnode_body at 1; cbn [froot fwalk trees].
  - simpl. wp_simpl. iApply wp_ret. iApply "HΦ". by iFrame.
  - iDestruct "Hf" as "(Ha & Hs & Hn)". iDestruct (froot_null with "Ha") as %Hnull. unfold non_null. rw Hnull. iDestruct "Ha" as "(%Ha & Hh & H0 & H1 & H2)". simpl.
    wp_load. destruct (Z.ltb_spec k c) as [Hc|Hc]; wp_simpl.
    + wp_load. iApply wp_ret. iApply (IH with "Hn"). iIntros (r) "[-> Hn]". iApply "HΦ". iFrame. done.
    + wp_load. rw Z.gtb_ltb. destruct (Z.ltb_spec c k); [|wp_load]; iApply wp_ret; iApply "HΦ"; iFrame; done.
Qed.

(** A walk that stopped before a greater key stops there again. *)
Lemma get_subnode_again c p f s : fwalk c p f = (NULL, s) ->
  {{{ trees f }}} loop (get_subnode_body c) s {{{ r, ⟨r = (NULL, s)⟩ ∗ trees f }}}.
Proof.
  revert p. induction f as [|a k sub _ next IH]; intros p E; simpl in E; iIntros (Φ) "Hf HΦ".
  - simplify_eq. iApply wp_loop. unfold get_subnode_body. simpl. wp_simpl. iApply wp_ret. iApply "HΦ". by iFrame.
  - iDestruct "Hf" as "(Ha & Hs & Hn)". destruct (Z.ltb_spec k c).
    + iApply (IH _ E with "Hn"). iIntros (r) "[-> Hn]". iApply "HΦ". iFrame. done.
    + iDestruct (froot_null with "Ha") as %Hnull. destruct (Z.ltb_spec c k); simplify_eq.
      iApply wp_loop. unfold get_subnode_body, non_null. rw Hnull. iDestruct "Ha" as "(%Ha & Hh & H0 & H1 & H2)". simpl. wp_load.
      rw (proj2 (Z.ltb_ge k c)) //. wp_load. rw Z.gtb_ltb (proj2 (Z.ltb_lt c k)) //. iApply wp_ret. iApply "HΦ". iFrame. done.
Qed.

Definition ready (c parrent : Z) (f : forest) (s : Z * Z) : Prop := s.1 = parrent \/ fwalk c parrent f = (NULL, s).

Lemma get_subnode_spec parrent c f s : 0 < parrent -> ready c parrent f s ->
  {{{ children parrent f }}} get_subnode_by_label parrent s c
  {{{ r, ⟨r = fwalk c parrent f⟩ ∗ children parrent f }}}.
Proof.
  iIntros (Hp Hs Φ) "[Hp Hf] HΦ". unfold get_subnode_by_label. wp_assert; [by apply non_null_pos|]. destruct s as [prev pn]. wp_load.
  destruct f as [|a k sub next]; cbn [froot fwalk trees]; [simpl; wp_simpl; iApply wp_ret; iApply "HΦ"; by iFrame|].
  iDestruct "Hf" as "(Ha & Hs & Hn)". iDestruct (froot_null with "Ha") as %Hnull. rw Hnull. iDestruct "Ha" as "(%Ha & Hh & H0 & H1 & H2)".
  wp_load. rw Z.gtb_ltb. destruct (Z.ltb_spec c k).
  { wp_simpl. rw (proj2 (Z.ltb_ge k c)); last lia. iApply wp_ret. iApply "HΦ". iFrame. done. }
  wp_load. destruct (Z.ltb_spec k c) as [Hk|Hk]; [|wp_load; iApply wp_ret; iApply "HΦ"; iFrame; done].
  destruct (Z.eqb_spec prev parrent) as [->|Hne].
  - wp_load. iApply (get_subnode_loop with "Hn"). iIntros (r) "[-> Hn]". iApply "HΦ". iFrame. done.
  - destruct Hs as [|Hs]; [done|]. simpl in Hs. rw (proj2 (Z.ltb_lt k c)) // in Hs. rw Hs.
    iApply (get_subnode_again _ _ _ _ Hs with "Hn"). iIntros (r) "[-> Hn]". iApply "HΦ". iFrame. done.
Qed.

Lemma fwalk_find c p f : fwalk c p f = match ffind c f with Some (a, sub) => (a, (a, froot sub)) | None => (NULL, (fwalk c p f).2) end.
Proof.
  revert p. induction f as [|a k sub _ next IH]; intros p; simpl; [done|]. destruct (k <? c); [apply IH|]. by destruct (c <? k).
Qed.

(** Where a new node is linked: below the parent, or after the child before it. *)
Lemma trees_link c p f prev pn a : ffind c f = None -> (fwalk c p f).2 = (prev, pn) ->
  (prev = p /\ pn = froot f /\ fput c a f = FCons a c FNil f) \/
  ((trees f ∗ tnode a NULL pn c ⊢ (prev + TN_BROTHER) ↦ pn ∗ ((prev + TN_BROTHER) ↦ a -∗ trees (fput c a f))) /\
   froot (fput c a f) = froot f /\ forall x v, (x + TN_FIRST) ↦ v ∗ trees f ⊢ ⌜prev ≠ x /\ 0 < prev⌝).
Proof.
  revert p. induction f as [|b k sub _ next IH]; intros p E Hw; simpl in *; [simplify_eq; by left|].
  destruct (Z.ltb_spec k c); [|destruct (c <? k); simplify_eq/=; by left]. right. destruct (IH b E Hw) as [(-> & -> & ->)|(Hl & Hr & Hx)].
  - split_and!; [|done|].
    + iIntros "[((%Hb & Hh & H0 & H1 & H2) & Hs & Hn) Ha]". iFrame "H1". iIntros "H1". simpl. iFrame. done.
    + iIntros (x v) "[Hx ((%Hb & _ & H0 & _) & _)]". iDestruct (pointsto_ne with "[$Hx $H0]") as %Hne. iPureIntro. split; [by intros ->|]. by destruct Hb.
  - split_and!; [|done|].
    + iIntros "[((%Hb & Hh & H0 & H1 & H2) & Hs & Hn) Ha]". iDestruct (Hl with "[$Hn $Ha]") as "[$ Hcl]". iIntros "Hp". iDestruct ("Hcl" with "Hp") as "Hn". simpl. rw Hr. iFrame. done.
    + iIntros (x v) "[Hx (_ & _ & Hn)]". iApply Hx. iFrame.
Qed.

Lemma children_link c parrent f prev pn a : 0 < parrent -> ffind c f = None -> fwalk c parrent f = (NULL, (prev, pn)) ->
  children parrent f ∗ tnode a NULL pn c ⊢
  let d := if prev =? parrent then prev + TN_FIRST else prev + TN_BROTHER in
  ⟨0 < d⟩ ∗ d ↦ pn ∗ (d ↦ a -∗ children parrent (fput c a f)).
Proof.
  intros Hpos E Hw. destruct (trees_link c parrent f prev pn a E) as [(-> & -> & ->)|(Hl & Hr & Hx)]; [by rw Hw|..]; iIntros "[[Hp Hf] Ha]".
  - rw Z.eqb_refl. iSplitR; [iPureIntro; unfold TN_FIRST; lia|]. iFrame "Hp". iIntros "Hp". unfold children. simpl. iFrame.
  - iDestruct (Hx with "[$Hp $Hf]") as %[Hne Hpp]. rw (proj2 (Z.eqb_neq _ _) Hne). iSplitR; [iPureIntro; unfold TN_BROTHER; lia|]. iDestruct (Hl with "[$Hf $Ha]") as "[$ Hcl]". iIntros "Hd".
    unfold children. rw Hr. iFrame "Hp". by iApply "Hcl".
Qed.

(** A key that is not there takes the first free node. *)
Lemma lf_trie_insert_node_spec ts b l root parrent f s c :
  0 < parrent -> fsorted f -> ffind c f = None -> ready c parrent f s -> l ≠ [] \/ b = NULL ->
  {{{ trie_base ts b l root ∗ children parrent f }}} lf_trie_insert_node ts parrent s c
  {{{ r, match l with
         | [] => ⟨r = (NULL, s)⟩ ∗ trie_base ts b [] root ∗ children parrent f
         | a :: l => ⟨r = (a, (a, NULL)) /\ 0 < a⟩ ∗ trie_base ts b l root ∗ children parrent (fput c a f)
         end }}}.
Proof.
  iIntros (Hp Hsf E Hs Hl Φ) "[(%nl & %e & %n & (%Ha & Hh & H0 & H1 & H2) & Hl & He) Hf] HΦ". unfold lf_trie_insert_node. wp_load.
  wp_call. iApply (tnode_pop_spec with "Hl"); [done|]. iIntros (r) "Hr". destruct l as [|a l].
  { iDestruct "Hr" as "[-> Hl]". simpl. iApply wp_ret. iApply "HΦ". iSplitR; [done|]. iFrame "Hf". iExists nl, e, n. by iFrame. }
  iDestruct "Hr" as "(-> & (%k & %Haa & Hah & Hf0 & Hf1 & Hf2) & Hl)". simpl. wp_store.
  iApply wp_loop. unfold lf_trie_insert_node_body. wp_call. iApply (get_subnode_spec with "Hf"); [done|done|]. iIntros (r) "[-> Hf]".
  destruct (fwalk c parrent f) as [r [prev pn]] eqn:Hw. pose proof (fwalk_find c parrent f) as Hw'. rw Hw E in Hw'. simplify_eq.
  change (non_null NULL) with false. wp_store.
  iDestruct (children_link c parrent f prev pn a Hp E Hw with "[$Hf Hah Hf0 Hf1 Hf2]") as "(%Hd & Hd & Hcl)"; [by iFrame|].
  replace (if prev =? parrent then abstraction_cas (prev + TN_FIRST) a pn else abstraction_cas (prev + TN_BROTHER) a pn)
    with (abstraction_cas (if prev =? parrent then prev + TN_FIRST else prev + TN_BROTHER) a pn) by by destruct (prev =? parrent).
  set (d := if prev =? parrent then _ else _). unfold abstraction_cas. wp_assert; [by apply non_null_pos|]. wp_cas. rw Z.eqb_refl.
  iDestruct ("Hcl" with "Hd") as "Hf". assert (ffind c (fput c a f) = Some (a, FNil)) as E' by by rw ffind_fput // Z.eqb_refl.
  iDestruct (children_find _ _ _ _ _ E' with "Hf") as "[[Hf0 Hsub] Hcl]". wp_load. wp_load.
  iDestruct "He" as "(%Hee & Heh & He & (%m & Hm))". unfold abstraction_increment. wp_assert; [eauto with addr|]. wp_incr. iApply wp_ret. iApply "HΦ".
  iSplitR; [iPureIntro; split; [done|by destruct Haa]|]. iDestruct ("Hcl" with "[$Hf0 $Hsub]") as "Hf". rw (fset_same _ _ _ _ E'). iFrame "Hf".
  iExists nl, e, n. by iFrame.
Qed.

(** The rest of a string is added below a node, as far as there are nodes. *)
Lemma insert_rest_spec ts b root in_str s : forall pre l parrent f sp,
  in_str = pre ++ s -> 0 < parrent -> fsorted f ->
  (if s is c :: _ then ffind c f = None /\ ready c parrent f sp else True) -> b = NULL \/ (length s <= length l)%nat ->
  {{{ trie_base ts b l root ∗ children parrent f }}} loop (insert_rest_body ts in_str) (length pre, parrent, sp)
  {{{ r, ⟨r = if (length s <=? length l)%nat then TRIE_INSERT_SUCCESS else TRIE_INSERT_ERROR⟩ ∗
         trie_base ts b (drop (length s) l) root ∗ children parrent (fadd f s l) }}}.
Proof.
  induction s as [|c s IH]; iIntros (pre l parrent f sp Hs Hp Hf Hc Hb Φ) "[Ht Hf] HΦ"; iApply wp_loop; unfold insert_rest_body at 1; cbn [fadd length].
  - rw (proj2 (Nat.ltb_ge (length pre) (length in_str))); last (rw Hs length_app /=; lia). iApply wp_ret. iApply "HΦ". iFrame. done.
  - rw (proj2 (Nat.ltb_lt (length pre) (length in_str))); last (rw Hs length_app /=; lia). rw Hs list_lookup_total_middle // -Hs.
    destruct Hc as [E Hr]. rw E. wp_call. iApply (lf_trie_insert_node_spec with "[$Ht $Hf]"); [done..| |].
    { destruct Hb; [by right|]. left. destruct l; simpl in *; [lia|done]. }
    iIntros (r) "Hr". destruct l as [|a l]; simpl.
    { iDestruct "Hr" as "(-> & Ht & Hf)". simpl. iApply wp_ret. iApply "HΦ". iFrame. done. }
    iDestruct "Hr" as "(%Ha & Ht & Hf)". destruct Ha as [-> Ha]. rw (proj2 (Z.eqb_neq a NULL)); last (unfold NULL; lia). iApply wp_ret.
    assert (ffind c (fput c a f) = Some (a, FNil)) as E' by by rw ffind_fput // Z.eqb_refl.
    iDestruct (children_find _ _ _ _ _ E' with "Hf") as "[Hsub Hcl]".
    replace (S (length pre)) with (length (pre ++ [c])) by (rw length_app /=; lia).
    iApply (IH (pre ++ [c]) l a FNil (a, NULL) with "[$Ht $Hsub]"); [by rw -app_assoc|done|done| |simpl in Hb; destruct Hb; [by left|right; lia]|].
    { destruct s; [done|]. split; [done|by left]. }
    iIntros (r) "(-> & Ht & Hsub)". iApply "HΦ". iFrame "Ht". iSplitR; [done|]. by iApply "Hcl".
Qed.

(** The first loop of an insertion follows the part of the string that is there. *)
Lemma insert_walk_spec in_str s : forall pre a par pn f, in_str = pre ++ s -> 0 < a -> fsorted f ->
  {{{ children a f }}} loop (insert_walk_body in_str) (true, length pre, a, par, (a, pn))
  {{{ r, (⟨fknown f s = length s /\ exists node p sp, r = (length in_str, node, p, sp) /\ 0 < node⟩ ∗ children a f) ∨
         (∃ p g sp, ⟨r = ((length pre + fknown f s)%nat, NULL, p, sp) /\ (fknown f s < length s)%nat /\ 0 < p /\ fsorted g /\
            (if drop (fknown f s) s is c :: _ then ffind c g = None /\ ready c p g sp else False)⟩ ∗
          children p g ∗ (∀ l, children p (fadd g (drop (fknown f s) s) l) -∗ children a (fadd f s l))) }}}.
Proof.
  induction s as [|c s IH]; iIntros (pre a par pn f Hs Ha Hf Φ) "Hf HΦ"; iApply wp_loop; unfold insert_walk_body at 1; cbn [fknown length andb].
  - rw (proj2 (Nat.ltb_ge (length pre) (length in_str))); last (rw Hs length_app /=; lia). iApply wp_ret. iApply "HΦ". iLeft. iFrame. iPureIntro.
    split; [done|]. exists a, par, (a, pn). by rw Hs app_nil_r.
  - rw (proj2 (Nat.ltb_lt (length pre) (length in_str))); last (rw Hs length_app /=; lia). rw Hs list_lookup_total_middle // -Hs.
    wp_call. iApply (get_subnode_spec with "Hf"); [done|by left|]. iIntros (r) "[-> Hf]". rw fwalk_find.
    iDestruct "Hf" as "[H0 Hf]". iDestruct (ffind_pos c with "Hf") as %Hpos.
    destruct (ffind c f) as [[a' sub]|] eqn:E.
    + rw (non_null_pos a'); last by eapply Hpos. iApply wp_ret. iDestruct (children_find a c f a' sub E with "[$H0 $Hf]") as "[Hc Hcl]".
      replace (S (length pre)) with (length (pre ++ [c])) by (rw length_app /=; lia).
      iApply (IH (pre ++ [c]) a' a (froot sub) sub with "Hc"); [by rw -app_assoc|by eapply Hpos|by eapply ffind_sorted|]. iIntros (r) "[[%Hr Hc]|(%p & %g & %sp & %Hr & Hg & Hw)]"; iApply "HΦ".
      * iLeft. destruct Hr as [Hk Hr]. iSplitR; [iPureIntro; split; [by rw Hk|done]|]. iDestruct ("Hcl" with "Hc") as "Hf". by rw (fset_same _ _ _ _ E).
      * iRight. iExists p, g, sp. destruct Hr as (-> & ? & ? & ? & ?). iSplitR.
        { iPureIntro. split_and!; [|lia|done|done|done]. rw length_app /=. do 3 f_equal. lia. }
        iFrame "Hg". iIntros (l) "Hg". cbn [fadd drop]. rw E. iApply "Hcl". by iApply "Hw".
    + iApply wp_ret. iApply wp_loop. unfold insert_walk_body at 1. simpl. iApply wp_ret. iApply "HΦ". iRight.
      iExists a, f, (fwalk c a f).2. iSplitR; [iPureIntro; split_and!; [by rw Nat.add_0_r|lia|done|done|done|]|].
      { right. pose proof (fwalk_find c a f) as Hw. by rw E in Hw. }
      iFrame. by iIntros (l) "Hf".
Qed.

Lemma fadd_known f s l : fknown f s = length s -> fadd f s l = f.
Proof.
  revert f. induction s as [|c s IH]; intros f; simpl; [done|]. destruct (ffind c f) as [[a sub]|] eqn:E; [|done]. intros [= Hk]. rw IH //. by eapply fset_same.
Qed.

Definition insert_answer (missing free : nat) : Z :=
  if (missing =? 0)%nat then TRIE_INSERT_DUPLICATION else if (missing <=? free)%nat then TRIE_INSERT_SUCCESS else TRIE_INSERT_ERROR.

Lemma lf_trie_insert_spec ts b l f s : fsorted f -> b = NULL \/ (length s - fknown f s <= length l)%nat ->
  {{{ trie ts b l f }}} lf_trie_insert_real_data ts s
  {{{ r, ⟨r = insert_answer (length s - fknown f s) (length l)⟩ ∗ trie ts b (drop (length s - fknown f s) l) (fadd f s l) }}}.
Proof.
  iIntros (Hf Hb Φ) "(%root & (%nl & %e & %n & (%Ha & Hh & H0 & H1 & H2) & Hl & (%He & Heh & Hr & Hn)) & (%Hr & Hrh & Hf & Hbr & Hk) & Hs) HΦ".
  unfold lf_trie_insert_real_data, insert_answer. wp_load. wp_load. wp_call.
  iApply (insert_walk_spec s s [] root NULL NULL f with "[$Hf $Hs]"); [done|by destruct Hr|done|]. iIntros (r) "[[%Hw Hf]|(%p & %g & %sp & %Hw & Hg & Hw)]".
  - destruct Hw as (Hkn & node & p & sp & -> & Hnode). rw (non_null_pos node) // Nat.eqb_refl /=. wp_simpl. iApply wp_ret. iApply "HΦ".
    rw fadd_known // Hkn Nat.sub_diag. iSplitR; [done|]. iDestruct "Hf" as "[Hf Hs]". iExists root. iSplitL "Hh H0 H1 H2 Hl Heh Hr Hn"; [iExists nl, e, n|]; by iFrame.
  - destruct Hw as (-> & Hlt & Hp & Hg & Hc). change (non_null NULL) with false. cbn [negb orb].
    replace (length (@nil Z) + fknown f s)%nat with (length (take (fknown f s) s)) by (rw length_take /=; lia).
    iApply (insert_rest_spec ts b root s (drop (fknown f s) s) (take (fknown f s) s) l p g sp with "[$Hg Hh H0 H1 H2 Hl Heh Hr Hn]").
    { by rw take_drop. }
    { done. }
    { done. }
    { by destruct (drop _ _). }
    { by rw length_drop. }
    { iExists nl, e, n. by iFrame. }
    rw length_drop. iIntros (r) "(-> & Ht & Hg)". iApply "HΦ". rw (proj2 (Nat.eqb_neq (length s - fknown f s) 0)); last lia. iSplitR; [done|].
    iExists root. iFrame "Ht". iDestruct ("Hw" with "Hg") as "[Hf Hs]". by iFrame.
Qed.

(** Freeing takes the free nodes, the entry and the state, and leaves the root and what is below it. *)
Lemma trie_state_free_spec ts l f :
  {{{ trie ts NULL l f }}} trie_state_free ts {{{ _u, ∃ root, tnode root (froot f) NULL 0 ∗ trees f }}}.
Proof.
  iIntros (Φ) "(%root & (%nl & %e & %n & (%Ha & Hh & H0 & H1 & H2) & Hl & (%He & Heh & Hr & (%m & Hm))) & Hroot & Hs) HΦ".
  unfold trie_state_free. rw (aligned_addr_non_null0 _ _ _ Ha). wp_load.
  iAssert (⌜non_null nl = true⌝)%I as %Hnl; [iDestruct "Hl" as "(%Hnl & _)"; iPureIntro; eauto with addr|]. rw Hnl. wp_load.
  wp_call. iApply (trie_nodelist_free_spec with "Hl"). iIntros ([]) "_". wp_load. rw (aligned_addr_non_null0 _ _ _ He). wp_load.
  unfold trie_entry_free. wp_assert; [eauto with addr|]. wp_call. iApply (aligned_free_spec e sizeof_trie LF_ALIGN_DOUBLE_POINTER [root; m] with "[Heh Hr Hm]").
  { unfold aligned, T_ROOT, T_COUNTER. simpl. rw Z.add_0_r. iFrame. done. }
  iIntros ([]) "_". wp_tail. wp_call. iApply (aligned_free_spec ts sizeof_trie_state LF_ALIGN_DOUBLE_POINTER [nl; e; n] with "[Hh H0 H1 H2]").
  { unfold aligned, TS_NODES, TS_ENTRY, TS_INIT. simpl. rw Z.add_0_r -!Z.add_assoc /=. iFrame. done. }
  iIntros ([]) "_". iApply wp_ret. iApply "HΦ". iExists root. iFrame.
Qed.
End specs.

(** ** The trie as a set of strings *)

(** The prefixes of a string. *)
Definition prefixes (s : list Z) : gset (list Z) := list_to_set ((fun n => take n s) <$> seq 0 (S (length s))).

(** The length of the longest prefix of [s] in a set. *)
Definition longest (S : gset (list Z)) (s : list Z) : nat :=
  max_list (filter (fun n => take n s ∈ S) (seq 0 (Datatypes.S (length s)))).

(** The strings that are in the trie, which has every prefix of its strings, and the number of free nodes. *)
Record trie_abs : Type := TrieAbs { strings : gset (list Z); free_count : nat }.

Inductive trie_op : Set :=
| TrieInsert (s : list Z)
| TrieSearch (s : list Z).

Definition trie_exec {OO : OperandOrder} (op : trie_op) (ts : Z) : prog (Z * Z) :=
  match op with
  | TrieInsert s => let! r := lf_trie_insert_real_data ts s in Ret (r, ts)
  | TrieSearch s => let! r := lf_trie_search_real_data ts s in Ret (r, ts)
  end.

Definition trie_aexec (op : trie_op) (t : trie_abs) : Z * trie_abs :=
  match op with
  | TrieInsert s =>
      let known := longest (strings t) s in
      let missing := (length s - known)%nat in
      (insert_answer missing (free_count t),
       TrieAbs (strings t ∪ prefixes (take (known + free_count t) s)) (free_count t - missing))
  | TrieSearch s => (if bool_decide (s ∈ strings t) then TRIE_SEARCH_SUCCESS else TRIE_SEARCH_ERROR, t)
  end.

Lemma elem_of_prefixes t s : t ∈ prefixes s <-> t `prefix_of` s.
Proof.
  unfold prefixes. rw elem_of_list_to_set list_elem_of_fmap. split.
  - intros (n & -> & _). exists (drop n s). by rw take_drop.
  - intros [u ->]. exists (length t). rw take_app_length. split; [done|]. apply elem_of_seq. rw length_app. lia.
Qed.

Lemma longest_known S f s : (forall t, t ∈ S <-> fmem f t) -> longest S s = fknown f s.
Proof.
  intros HS. unfold longest. set (ns := filter _ _).
  assert (forall n, n ∈ ns <-> (n <= fknown f s)%nat) as Hns.
  { intros n. unfold ns. rw list_elem_of_filter elem_of_seq HS. pose proof (fknown_le f s). split.
    - intros [Hn ?]. rw fknown_mem in Hn; last lia. by apply Nat.leb_le, Is_true_true.
    - intros Hn. split; [|lia]. rw fknown_mem; last lia. by apply Is_true_true, Nat.leb_le. }
  apply Nat.le_antisymm; [apply Hns, max_list_elem_of|by apply max_list_elem_of_le, Hns].
  intros Hnil. assert (0%nat ∈ ns) as H0 by (apply Hns; lia). rw Hnil in H0. by apply not_elem_of_nil in H0.
Qed.

Lemma insert_answer_room missing free : insert_answer missing free <> TRIE_INSERT_ERROR -> (missing <= free)%nat.
Proof.
  unfold insert_answer. destruct (Nat.eqb_spec missing 0); [lia|]. destruct (Nat.leb_spec missing free); [done|]. by intros ?.
Qed.

Section scripts.
Context {AL : Allocator} {AO : AllocatorOk} {OO : OperandOrder}.

(** [f] and [l] are the trie [t]. *)
Definition trie_repr (t : trie_abs) (l : list Z) (f : forest) : Prop :=
  fsorted f /\ length l = free_count t /\ forall s, s ∈ strings t <-> fmem f s.

Lemma trie_repr_add t l f s : trie_repr t l f -> trie_repr (trie_aexec (TrieInsert s) t).2 (drop (length s - fknown f s) l) (fadd f s l).
Proof.
  intros (Hf & Hl & HS). split_and!; simpl.
  - by apply fadd_sorted.
  - by rw length_drop (longest_known _ f s HS) Hl.
  - intros u. rw elem_of_union elem_of_prefixes HS fadd_mem // (longest_known _ f s HS) -Hl. by rw orb_True bool_decide_spec.
Qed.

Lemma trie_script_spec ts b ops : forall t l f, trie_repr t l f -> b = NULL \/ TRIE_INSERT_ERROR ∉ (ascript trie_aexec ops t).1 ->
  {{{ trie ts b l f }}} script trie_exec ops ts
  {{{ r, ⟨r = ((ascript trie_aexec ops t).1, ts)⟩ ∗ ∃ l f, ⟨trie_repr (ascript trie_aexec ops t).2 l f⟩ ∗ trie ts b l f }}}.
Proof.
  induction ops as [|op ops IH]; iIntros (t l f Ht Hb Φ) "Hts HΦ"; cbn [script ascript] in *.
  { iApply wp_ret. iApply "HΦ". iSplitR; [done|]. iExists l, f. by iFrame. }
  destruct op as [s|s]; unfold trie_exec at 1; wp_simpl.
  - pose proof (trie_repr_add t l f s Ht) as Ht'. destruct Ht as (Hf & Hl & HS).
    assert (insert_answer (length s - fknown f s) (length l) = (trie_aexec (TrieInsert s) t).1) as Ea by by rw /= (longest_known _ f s HS) Hl.
    destruct (trie_aexec (TrieInsert s) t) as [out t']. simpl in Ht', Ea. subst out.
    assert (b = NULL \/ (insert_answer (length s - fknown f s) (length l) <> TRIE_INSERT_ERROR /\
      TRIE_INSERT_ERROR ∉ (ascript trie_aexec ops t').1)) as Hb'.
    { destruct Hb as [?|Hb]; [by left|right]. destruct (ascript trie_aexec ops t'). simpl in *. apply not_elem_of_cons in Hb as [? ?]. by split; [apply not_eq_sym|]. }
    wp_call. iApply (lf_trie_insert_spec with "Hts"); [done|destruct Hb' as [|[]]; [by left|right; by apply insert_answer_room]|].
    iIntros (r) "[-> Hts]". wp_simpl. wp_call. iApply (IH t' with "Hts"); [done|tauto|].
    iIntros (r) "[-> Hts]". destruct (ascript trie_aexec ops t'). iApply wp_ret. iApply "HΦ". by iFrame.
  - assert (b = NULL \/ TRIE_INSERT_ERROR ∉ (ascript trie_aexec ops t).1) as Hb'.
    { destruct Hb as [?|Hb]; [by left|right]. cbn [trie_aexec] in Hb. destruct (ascript trie_aexec ops t). simpl in *. by apply not_elem_of_cons in Hb as [_ ?]. }
    wp_call. iApply (lf_trie_search_spec with "Hts"). iIntros (r) "[-> Hts]". wp_simpl. cbn [trie_aexec].
    assert (fmem f s = bool_decide (s ∈ strings t)) as ->.
    { destruct Ht as (_ & _ & HS). specialize (HS s). destruct (fmem f s); symmetry; [by apply bool_decide_true, HS|]. apply bool_decide_false. by intros H%HS. }
    wp_call. iApply (IH t with "Hts"); [done|done|].
    iIntros (r) "[-> Hts]". destruct (ascript trie_aexec ops t). iApply wp_ret. iApply "HΦ". by iFrame.
Qed.
End scripts.

(** A client makes a trie with [n] nodes and runs a script on it. *)
Definition trie_session {OO : OperandOrder} (a n : Z) (ops : list trie_op) : prog (list Z * Z) :=
  trie_new a n;;
  let! ts := load a in
  script trie_exec ops ts.

Definition trie_client {OO : OperandOrder} (n : Z) (ops : list trie_op) : prog (list Z) :=
  with_variable (fun a =>
    let! (outs, _) := trie_session a n ops in
    Ret outs).

(** The same, with the trie freed at the end. *)
Definition trie_client_free {OO : OperandOrder} (n : Z) (ops : list trie_op) : prog (list Z) :=
  with_variable (fun a =>
    let! (outs, ts) := trie_session a n ops in
    trie_state_free ts;;
    Ret outs).

Definition trie_client_cost (n : Z) : nat := (variable_cost + trie_cost n)%nat.

(** A new trie has the empty string. *)
Definition empty_trie (n : Z) : trie_abs := TrieAbs {[ [] ]} (Z.to_nat n).

Lemma empty_trie_repr n l : Z.of_nat (length l) = n -> trie_repr (empty_trie n) l FNil.
Proof. intros Hl. split_and!; [done|simpl; lia|]. intros s. simpl. rw elem_of_singleton. by destruct s. Qed.

Section claims.
Context {AL : Allocator} {AO : AllocatorOk} {OO : OperandOrder}.

Lemma trie_session_spec (J : Z -> Prop) a n ops : 0 < a -> is_word n -> (forall h i, J (alloc_junk h i)) ->
  (forall b, J b -> b = NULL) \/ TRIE_INSERT_ERROR ∉ (ascript trie_aexec ops (empty_trie n)).1 ->
  {{{ cell a ∗ credits (trie_cost n) }}} trie_session a n ops
  {{{ r, cell a ∗ ∃ ts b l f, ⟨r = ((ascript trie_aexec ops (empty_trie n)).1, ts) /\ J b /\ trie_repr (ascript trie_aexec ops (empty_trie n)).2 l f⟩ ∗ trie ts b l f }}}.
Proof.
  iIntros (Ha Hn HJ Hb Φ) "[Ha Hc] HΦ". unfold trie_session. wp_call. iApply (trie_new_spec J with "[$Ha $Hc]"); [done..|].
  iIntros (rv) "(%ts & %b & %l & %H & Ha & Ht)". destruct H as (_ & _ & HJb & Hl). wp_load.
  iApply (trie_script_spec with "Ht"); [by apply empty_trie_repr|destruct Hb as [Hb|Hb]; [left; by apply Hb|by right]|].
  iIntros (r) "(-> & %l' & %f & %Hr & Ht)". iApply "HΦ". iSplitL "Ha"; [by iExists ts|]. iExists ts, b, l', f. by iFrame.
Qed.

Lemma trie_client_run (J : Z -> Prop) n ops h : is_word n -> (trie_client_cost n <= alloc_room h)%nat ->
  (forall h i, J (alloc_junk h i)) -> (forall b, J b -> b = NULL) \/ TRIE_INSERT_ERROR ∉ (ascript trie_aexec ops (empty_trie n)).1 ->
  exists k h', run k (trie_client n ops) h = Done (ascript trie_aexec ops (empty_trie n)).1 h' /\ h ⊆ h'.
Proof.
  intros Hn Hc HJ Hb.
  destruct (run_credits (trie_client n ops) (trie_client_cost n) (fun r => ⟨r = (ascript trie_aexec ops (empty_trie n)).1⟩ ∗ True)%I h) as (k & outs & r & Hr & Hd & HQ); [|done|].
  - unfold trie_client_cost. iIntros (Φ) "Hc HΦ". iDestruct (credits_add with "Hc") as "[Hv Hc]".
    iApply (with_variable_spec _ (credits (trie_cost n)) with "[$Hv $Hc]"); [|done]. iIntros (a Ha Ψ) "[Ha Hc] HΨ". wp_call.
    iApply (trie_session_spec J with "[$Ha $Hc]"); [done..|]. iIntros (r) "[Ha (%ts & %b & %l & %f & %Hr & Ht)]". destruct Hr as (-> & _ & _).
    iApply wp_ret. iApply "HΨ". by iFrame "Ha".
  - exists k, (r.1 ∪ h). destruct r as [hr c]. apply holds_fact in HQ as [-> _]. split; [done|]. apply map_union_subseteq_r. done.
Qed.

(** C17. A trie answers every script of insertions and searches that does not run out
    of nodes as a set of strings that is closed under prefixes: an insertion reports
    a duplicate when the string is there, and otherwise adds its prefixes, one node
    for each; a search finds what the set has.  The memory that was there before is
    left alone.  An insertion that runs out of nodes is left out, because the list of
    free nodes ends in what [malloc] left in its first word. *)
Theorem trie_refines n ops h : is_word n -> (trie_client_cost n <= alloc_room h)%nat ->
  TRIE_INSERT_ERROR ∉ (ascript trie_aexec ops (empty_trie n)).1 ->
  exists k h', run k (trie_client n ops) h = Done (ascript trie_aexec ops (empty_trie n)).1 h' /\ h ⊆ h'.
Proof. intros Hn Hc Hb. apply (trie_client_run (fun _ => True)); auto. Qed.

(** The same when [malloc] answers zeros, with insertions that run out of nodes. *)
Lemma trie_refines_zeros n ops h : is_word n -> (trie_client_cost n <= alloc_room h)%nat -> (forall h i, alloc_junk h i = 0) ->
  exists k h', run k (trie_client n ops) h = Done (ascript trie_aexec ops (empty_trie n)).1 h' /\ h ⊆ h'.
Proof. intros Hn Hc Hz. apply (trie_client_run (fun b => b = 0)); auto. Qed.

(** [trie_state_free] keeps the nodes of the trie: after a session on memory that
    [malloc] fills with zeros it gives back the free nodes, the entry and the state,
    and the root with a node for every other string stays allocated. *)
Lemma trie_free_leaks n ops h : is_word n -> (trie_client_cost n <= alloc_room h)%nat -> (forall h i, alloc_junk h i = 0) ->
  exists k r root f, run k (trie_client_free n ops) h = Done (ascript trie_aexec ops (empty_trie n)).1 (r.1 ∪ h) /\ r.1 ##ₘ h /\
    holds (tnode root (froot f) NULL 0 ∗ trees f) r /\ forall s, s ∈ strings (ascript trie_aexec ops (empty_trie n)).2 <-> fmem f s.
Proof.
  intros Hn Hc Hz.
  destruct (run_credits (trie_client_free n ops) (trie_client_cost n) (fun r => ⟨r = (ascript trie_aexec ops (empty_trie n)).1⟩ ∗
    ∃ root f, ⟨forall s, s ∈ strings (ascript trie_aexec ops (empty_trie n)).2 <-> fmem f s⟩ ∗ tnode root (froot f) NULL 0 ∗ trees f)%I h) as (k & outs & r & Hr & Hd & HQ); [|done|].
  - unfold trie_client_cost. iIntros (Φ) "Hc HΦ". iDestruct (credits_add with "Hc") as "[Hv Hc]".
    iApply (with_variable_spec _ (credits (trie_cost n)) with "[$Hv $Hc]"); [|done]. iIntros (a Ha Ψ) "[Ha Hc] HΨ". wp_call.
    iApply (trie_session_spec (fun b => b = NULL) with "[$Ha $Hc]"); [done|done|done|by left|]. iIntros (r) "[Ha (%ts & %b & %l & %f & %Hr & Ht)]". destruct Hr as (-> & -> & (_ & _ & HS)).
    wp_call. iApply (trie_state_free_spec with "Ht"). iIntros ([]) "(%root & Hroot & Hf)". iApply wp_ret. iApply "HΨ". iFrame "Ha". iSplitR; [done|]. iExists root, f. by iFrame.
  - destruct r as [hr c]. apply holds_fact in HQ as [-> (root & f & HQ)]. apply holds_fact in HQ as [HS HQ]. by exists k, (hr, c), root, f.
Qed.
End claims.

(** ** Witnesses *)

Definition sample_trie : list trie_op :=
  [TrieInsert [7; 8; 9]; TrieSearch [7; 8]; TrieSearch [8]; TrieInsert [7; 3]; TrieInsert [7; 8]; TrieInsert [2; 1; 1]; TrieSearch [2]; TrieSearch [2; 1]; TrieSearch []].

Lemma trie_refines_witness : exists k h', @run arena _ k (@trie_client true 7 sample_trie) ∅ = Done [1; 1; 2; 1; 2; 1; 1; 1; 1] h' /\ ∅ ⊆ h'.
Proof.
  apply (@trie_refines arena arena_ok true 7 sample_trie ∅); [done|apply arena_room; by vm_compute|].
  assert ((ascript trie_aexec sample_trie (empty_trie 7)).1 = [1; 1; 2; 1; 2; 1; 1; 1; 1]) as -> by (vm_compute; reflexivity).
  repeat (apply not_elem_of_cons; split; [done|]). apply not_elem_of_nil.
Defined.
