(* ===== verification/MemtrieThreads.v ===== *)
(** * src/advance/lf_memtrie.c with several threads, and on memory that is not zero. *)
From S2P Require Import Prelude Machine SepLogic Alloc Script Basic Memtrie.
#[local] Open Scope Z_scope.

(** ** Threads *)

(** The memory after a session that makes a trie of [n] nodes through a pointer at 16,
    with an allocator that fills blocks with zeros. *)
Definition shared_trie {OO : OperandOrder} (n : Z) : heap :=
  if @run zero_arena _ 500 (trie_new 16 n) {[Word 16 := 0]} is Done _ h then h else ∅.

Definition race_faults : list nat := (replicate 15 1 ++ replicate 25 0 ++ replicate 30 1 ++ replicate 3 0)%nat.
Definition race_aba : list nat := (replicate 11 0 ++ replicate 15 1 ++ replicate 30 2 ++ replicate 30 1 ++ replicate 30 0)%nat.

Lemma shared_trie_done {OO : OperandOrder} n h : @run zero_arena _ 500 (trie_new 16 n) {[Word 16 := 0]} = Done 1 h -> shared_trie n = h.
Proof. unfold shared_trie. by intros ->. Qed.

Lemma shared_trie_new {OO : OperandOrder} n : n = 2 \/ n = 3 ->
  exists k, @run zero_arena _ k (trie_new 16 n) {[Word 16 := 0]} = Done 1 (shared_trie n) /\ shared_trie n !! Word 16 = Some 48.
Proof.
  intros Hn. exists 500%nat.
  assert (answer (@run zero_arena _ 500 (trie_new 16 n) {[Word 16 := 0]}) = Some (inl 1)) as (h & Hh)%answer_done.
  { destruct Hn as [->| ->], OO; vm_compute; reflexivity. }
  assert (shared_trie n !! Word 16 = Some 48) as Hp; [destruct Hn as [->| ->], OO; vm_compute; reflexivity|].
  split; [|exact Hp]. rw (shared_trie_done n h Hh). exact Hh.
Qed.

(** Insertions race: [tnode_pop] tests the list for null and then goes through the
    pointer that it read before.  Two threads that insert [1; 2] and [1] into a new trie can
    be scheduled so that the first one reads the link of a null node. *)
Theorem trie_pop_race {OO : OperandOrder} : exists k h ts c,
  @run zero_arena _ k (trie_new 16 2) {[Word 16 := 0]} = Done 1 h /\ h !! Word 16 = Some ts /\
  rtc (@cstep zero_arena _) ([lf_trie_insert_real_data ts [1; 2]; lf_trie_insert_real_data ts [1]], h) c /\
  c.1 !! 0%nat = Some (Crash BadAccess).
Proof.
  destruct (shared_trie_new 2) as (k & Hr & Hp); [by left|]. exists k, (shared_trie 2), 48. eexists. split_and!; [done|done|apply (run_schedule_cstep race_faults)|].
  destruct OO; vm_compute; reflexivity.
Qed.

(** C39. The list of free nodes has no counter, so a node can be in the trie and in the
    list at once: three threads insert [1], [7] and [7], all report success, and after
    one more insertion, of [8], the string [7] is lost. *)
Theorem trie_aba {OO : OperandOrder} : exists k h ts c,
  @run zero_arena _ k (trie_new 16 3) {[Word 16 := 0]} = Done 1 h /\ h !! Word 16 = Some ts /\
  rtc (@cstep zero_arena _) ([lf_trie_insert_real_data ts [1]; lf_trie_insert_real_data ts [7]; lf_trie_insert_real_data ts [7]], h) c /\
  c.1 = [Ret TRIE_INSERT_SUCCESS; Ret TRIE_INSERT_SUCCESS; Ret TRIE_INSERT_SUCCESS] /\
  exists k' h', @run zero_arena _ k' (script trie_exec [TrieSearch [7]; TrieInsert [8]; TrieSearch [7]] ts) c.2 =
    Done ([TRIE_SEARCH_SUCCESS; TRIE_INSERT_SUCCESS; TRIE_SEARCH_ERROR], ts) h'.
Proof.
  destruct (shared_trie_new 3) as (k & Hr & Hp); [by right|]. exists k, (shared_trie 3), 48. eexists. split_and!; [done|done|apply (run_schedule_cstep race_aba)| |].
  - destruct OO; vm_compute; reflexivity.
  - exists 500%nat. apply answer_done. destruct OO; vm_compute; reflexivity.
Qed.

(** ** Memory that is not zero, and memory that runs out *)

(** The list of free nodes ends in what [malloc] left in it, and freeing the list follows it. *)
Lemma trie_free_follows_junk {OO : OperandOrder} : exists k h, @run arena _ k (trie_client_free 1 []) ∅ = Error BadAccess h.
Proof. exists 500%nat. apply answer_error. destruct OO; vm_compute; reflexivity. Qed.
