(* ===== verification/Divergence.v ===== *)
(** * Runs that do not end, because they come back to where they were. *)
From S2P Require Import Prelude Machine.
#[local] Open Scope Z_scope.
#[local] Open Scope prog_scope.

Section cycles.
Context {AL : Allocator} {A : Set}.

(** [n] steps of a thread that runs alone. *)
Inductive steps : nat -> prog A * heap -> prog A * heap -> Prop :=
| StepsO c : steps 0 c c
| StepsS n p h c c' : step p h = Some c -> steps n c c' -> steps (S n) (p, h) c'.

Lemma steps_app n m c1 c2 c3 : steps n c1 c2 -> steps m c2 c3 -> steps (n + m) c1 c3.
Proof. induction 1; simpl; [done|]. intros. econstructor; eauto. Qed.

Lemma run_steps n m p h p' h' : steps n (p, h) (p', h') -> run (n + m) p h = run m p' h'.
Proof.
  remember (p, h) as c eqn:Ec. remember (p', h') as c' eqn:Ec'. intros Hs. revert p h p' h' Ec Ec'.
  induction Hs as [c|n p h [p1 h1] c' Hst Hs IH]; intros p0 h0 p' h' Ec Ec'; simplify_eq; [done|].
  rw Nat.add_succ_l (run_step _ _ _ _ _ Hst). by apply IH.
Qed.

(** A run that has not ended after fewer steps than it can take. *)
Lemma run_inside n k p h c : steps n (p, h) c -> (k < n)%nat -> run k p h = Timeout.
Proof.
  intros Hs. remember (p, h) as c0 eqn:Ec. revert k p h Ec. induction Hs as [c|n p h [p1 h1] c' Hst Hs IH]; intros k p0 h0 Ec Hk; simplify_eq; [lia|].
  destruct k as [|k]; [by destruct p0|]. rw (run_step _ _ _ _ _ Hst). apply IH; [done|lia].
Qed.

(** A run that comes back to where it was does not end. *)
Lemma run_cycle n p h k : steps (S n) (p, h) (p, h) -> run k p h = Timeout.
Proof.
  intros Hs. induction k as [k IH] using lt_wf_ind. destruct (decide (k < S n)%nat) as [Hk|Hk]; [by eapply run_inside|].
  replace k with (S n + (k - S n))%nat by lia. rw (run_steps _ _ _ _ _ _ Hs). apply IH. lia.
Qed.

Lemma run_into_cycle m n p h p' h' k : steps m (p, h) (p', h') -> steps (S n) (p', h') (p', h') -> run k p h = Timeout.
Proof.
  intros Hm Hn. destruct (decide (k < m)%nat) as [Hk|Hk]; [by eapply run_inside|].
  replace k with (m + (k - m))%nat by lia. rw (run_steps _ _ _ _ _ _ Hm). by eapply run_cycle.
Qed.

Lemma steps_load n a v (k : Z -> prog A) h c : h !! Word a = Some v -> steps n (k v, h) c -> steps (S n) (bind (load a) k, h) c.
Proof. intros Hv Hs. econstructor; [|done]. simpl. by rw Hv. Qed.

Lemma steps_loop {S' B : Set} n (body : S' -> prog (S' + B)) s (k : B -> prog A) h c :
  steps n (bind (body s) (loop_next body k), h) c -> steps (S n) (bind (loop body s) k, h) c.
Proof. intros Hs. econstructor; [|done]. done. Qed.

Lemma steps_store n a v w (k : unit -> prog A) h c : h !! Word a = Some v -> steps n (k tt, <[Word a := w]> h) c -> steps (S n) (bind (store a w) k, h) c.
Proof. intros Hv Hs. econstructor; [|done]. simpl. by rw Hv. Qed.

Lemma steps_add n a v d (k : Z -> prog A) h c : h !! Word a = Some v -> steps n (k (v +w d), <[Word a := v +w d]> h) c -> steps (S n) (bind (add_fetch a d) k, h) c.
Proof. intros Hv Hs. econstructor; [|done]. simpl. by rw Hv. Qed.

(** A compare-and-swap that succeeds. *)
Lemma steps_cas n a v e (k : Z -> prog A) h c : h !! Word a = Some v -> steps n (k v, <[Word a := e]> h) c -> steps (S n) (bind (cas a e v) k, h) c.
Proof. intros Hv Hs. econstructor; [|done]. simpl. rw Hv /=. by rw Z.eqb_refl. Qed.
End cycles.

Ltac prog_simpl := repeat first [rw !bind_assoc | rw !bind_ret_l]; cbn beta iota.
