(* ===== verification/Hashmap.v ===== *)
(** * src/advance/lf_hashmap.c: a hash map with sorted buckets, whose items and data come
      from lists made in advance. *)
From S2P Require Import Prelude Words Machine SepLogic Alloc Script Basic Freelist.
#[local] Open Scope Z_scope.
#[local] Open Scope prog_scope.

(** ** Layout and constants (src/advance/lf_hashmap.h) *)

Definition MAX_HASH_LIST_NUM : Z := 30000000.
Definition MAX_HASH_DATA_NUM : Z := 30000000.
Definition HASH_MAP_NODE_EXIST : Z := 0.
Definition HASH_MAP_NODE_ADD : Z := 1.
Definition HASH_MAP_NODE_REPLACE : Z := 2.
Definition HEAD_NODE : Z := 1.
Definition I_NODE : Z := 2.
Definition END_NODE : Z := 3.
Definition HASH_MAP_SEARCH_FAIL : Z := 0.
Definition HASH_MAP_SEARCH_SUCC : Z := 1.

(** [struct hash_data]: [next], [key], [val]. *)
Definition HD_NEXT : Z := 0.
Definition HD_KEY : Z := 8.
Definition HD_VAL : Z := 16.
Definition sizeof_hash_data : Z := 24.

(** [struct hash_item]: [next], [data], [node_type]. *)
Definition HI_NEXT : Z := 0.
Definition HI_DATA : Z := 8.
Definition HI_TYPE : Z := 16.
Definition sizeof_hash_item : Z := 24.

(** [struct data_list]: [hd], [data_count]. *)
Definition DL_HD : Z := 0.
Definition DL_COUNT : Z := 8.
Definition sizeof_data_list : Z := 16.

(** [struct hash_list]: [he], [item_num]. *)
Definition HL_HE : Z := 0.
Definition HL_NUM : Z := 8.
Definition sizeof_hash_list : Z := 16.

(** [struct hash]: [bucket_max], [bucket_mask], [table], [hl], [dl]. *)
Definition H_MAX : Z := 0.
Definition H_MASK : Z := 8.
Definition H_TABLE : Z := 16.
Definition H_HL : Z := 24.
Definition H_DL : Z := 32.
Definition sizeof_hash : Z := 40.

(** ** The lists of free items and data *)

Section code.
Context {OO : OperandOrder}.

Definition hashlist_push_body (hl he_local he_original : Z) : prog (Z + unit) :=
  store (he_local + HI_NEXT) he_original;;
  let! (again, he_original) := cas_against (he_local + HI_NEXT) (hl + HL_HE) he_local he_original in
  if again then Ret (inl he_original) else Ret (inr tt).

Definition hashlist_push (hl he : Z) : prog unit :=
  barrier;;
  let! he_original := load (hl + HL_HE) in
  loop (hashlist_push_body hl he) he_original.

(** The local [he_local] and the counter of the caller; [None]: there is no item. *)
Definition hashlist_pop_body (hl : Z) (s : Z * Z) : prog ((Z * Z) + (option Z * Z)) :=
  let '(he_local, retry) := s in
  let he_cmp := he_local in
  let! none :=
    (if he_local =? NULL then Ret true else let! next := load (he_local + HI_NEXT) in Ret (next =? NULL)) in
  if none then Ret (inr (None, retry))
  else
    let retry := retry +w 1 in
    let! next := load (he_local + HI_NEXT) in
    let! he_local := abstraction_cas (hl + HL_HE) next he_cmp in
    if he_cmp =? he_local then Ret (inr (Some he_local, retry)) else Ret (inl (he_local, retry)).

(** What is stored through [he], and returned, and the counter. *)
Definition hashlist_pop (hl retry : Z) : prog (Z * Z) :=
  c_assert (non_null hl);;
  barrier;;
  let! he_local := load (hl + HL_HE) in
  let! (popped, retry) := loop (hashlist_pop_body hl) (he_local, retry) in
  match popped with
  | None => Ret (NULL, retry)
  | Some he_local => abstraction_sub (hl + HL_NUM);; Ret (he_local, retry)
  end.

Definition datalist_push_body (dl hd_local hd_original : Z) : prog (Z + unit) :=
  store (hd_local + HD_NEXT) hd_original;;
  let! (again, hd_original) := cas_against (hd_local + HD_NEXT) (dl + DL_HD) hd_local hd_original in
  if again then Ret (inl hd_original) else Ret (inr tt).

Definition datalist_push (dl hd : Z) : prog unit :=
  barrier;;
  let! hd_original := load (dl + DL_HD) in
  loop (datalist_push_body dl hd) hd_original.

Definition datalist_pop_body (dl : Z) (s : Z * Z) : prog ((Z * Z) + (option Z * Z)) :=
  let '(hd_local, retry) := s in
  let hd_cmp := hd_local in
  let! next := load (hd_local + HI_NEXT) in
  if next =? NULL then Ret (inr (None, retry))
  else
    let retry := retry +w 1 in
    let! next := load (hd_local + HI_NEXT) in
    let! hd_local := abstraction_cas (dl + DL_HD) next hd_cmp in
    if hd_cmp =? hd_local then Ret (inr (Some hd_local, retry)) else Ret (inl (hd_local, retry)).

Definition datalist_pop (dl retry : Z) : prog (Z * Z) :=
  c_assert (non_null dl);;
  barrier;;
  let! hd_local := load (dl + DL_HD) in
  let! (popped, retry) := loop (datalist_pop_body dl) (hd_local, retry) in
  match popped with
  | None => Ret (NULL, retry)
  | Some hd_local => abstraction_sub (dl + DL_COUNT);; Ret (hd_local, retry)
  end.

Definition init_hashlist (hl : Z) : prog Z :=
  c_assert (non_null hl);;
  let! he := aligned_malloc sizeof_hash_item LF_ALIGN_DOUBLE_POINTER in
  store (hl + HL_HE) he;;
  let! he := load (hl + HL_HE) in
  if non_null he then store (hl + HL_NUM) 1;; Ret 1 else Ret 0.

(** The return value, and what is stored through [he]. *)
Definition hashlist_internal_new_element (hl : Z) : prog (Z * Z) :=
  c_assert (non_null hl);;
  let! he := aligned_malloc sizeof_hash_item LF_ALIGN_DOUBLE_POINTER in
  if non_null he then
    abstraction_increment (hl + HL_NUM);;
    store (he + HI_TYPE) I_NODE;;
    Ret (1, he)
  else Ret (0, he).

Definition hash_new_element_body (hl number_elements : Z) (s : Z * Z) : prog ((Z * Z) + Z) :=
  let '(loop, count) := s in
  if loop <? number_elements then
    let! p := load hl in
    let! (rv, he) := hashlist_internal_new_element p in
    if truthy rv then
      let! p := load hl in
      hashlist_push p he;;
      Ret (inl (loop +w 1, count +w 1))
    else Ret (inl (loop +w 1, count))
  else Ret (inr count).

(** [hl] is the address of the caller's pointer. *)
Definition hash_new_element (hl number_elements : Z) : prog Z :=
  c_assert (non_null hl);;
  let! p := aligned_malloc sizeof_hash_list LF_ALIGN_DOUBLE_POINTER in
  store hl p;;
  let! p := load hl in
  let! ok := init_hashlist p in
  if negb (truthy ok) then Ret 0
  else
    let! count := loop (hash_new_element_body hl number_elements) (0, 0) in
    if number_elements =? count then Ret 1
    else
      let! p := load hl in
      aligned_free p;;
      store hl NULL;;
      Ret 0.

Definition init_datalist (dl : Z) : prog Z :=
  c_assert (non_null dl);;
  let! hd := aligned_malloc sizeof_hash_data LF_ALIGN_DOUBLE_POINTER in
  store (dl + DL_HD) hd;;
  let! hd := load (dl + DL_HD) in
  if non_null hd then store (dl + DL_COUNT) 1;; Ret 1 else Ret 0.

(** The code tests the address [hd] of the caller's variable, which is not null. *)
Definition hashlist_internal_new_data (dl count : Z) : prog (Z * Z) :=
  c_assert (non_null dl);;
  let! hd := aligned_malloc sizeof_hash_data LF_ALIGN_DOUBLE_POINTER in
  store (hd + HD_KEY) count;;
  store (hd + HD_VAL) count;;
  abstraction_increment (dl + DL_COUNT);;
  barrier;;
  Ret (1, hd).

Definition hash_new_data_list_body (dl data_count : Z) (s : Z * Z) : prog ((Z * Z) + Z) :=
  let '(loop, count) := s in
  if loop <? data_count then
    let! p := load dl in
    let! (rv, hd) := hashlist_internal_new_data p count in
    if truthy rv then
      store (hd + HD_VAL) count;;
      let! p := load dl in
      datalist_push p hd;;
      Ret (inl (loop +w 1, count +w 1))
    else Ret (inl (loop +w 1, count))
  else Ret (inr count).

Definition hash_new_data_list (dl data_count : Z) : prog Z :=
  c_assert (non_null dl);;
  let! p := aligned_malloc sizeof_data_list LF_ALIGN_DOUBLE_POINTER in
  store dl p;;
  let! p := load dl in
  let! ok := init_datalist p in
  if negb (truthy ok) then Ret 0
  else
    let! count := loop (hash_new_data_list_body dl data_count) (0, 0) in
    if data_count =? count then Ret 1
    else
      let! p := load dl in
      aligned_free p;;
      store dl NULL;;
      Ret 0.

(** ** Deallocation *)

Definition hash_delete_item_func (bucket state : Z) : prog unit :=
  c_assert (non_null bucket);;
  c_assert (state =? NULL);;
  let! data := load (bucket + HI_DATA) in
  (if non_null data then let! data := load (bucket + HI_DATA) in aligned_free data else Ret tt);;
  aligned_free bucket.

Definition hash_delete_data_func (data state : Z) : prog unit :=
  c_assert (non_null data);;
  c_assert (state =? NULL);;
  aligned_free data.

(** [retry] is kept as a value; the source passes the address of an [int] to a function
    that counts in an [atom_t]. *)
Definition hashlist_delete_body (h : Z) (delete_func : Z -> Z -> prog unit) (state retry : Z) : prog (Z + unit) :=
  let! hl := load (h + H_HL) in
  let! (ihash, retry) := hashlist_pop hl retry in
  if non_null ihash then delete_func ihash state;; Ret (inl retry) else Ret (inr tt).

(** A function pointer that is passed is not null. *)
Definition hashlist_delete (h : Z) (delete_func : Z -> Z -> prog unit) (state : Z) : prog unit :=
  let! hl := load (h + H_HL) in
  c_assert (non_null hl);;
  c_assert (state =? NULL);;
  loop (hashlist_delete_body h delete_func state) 0.

Definition datalist_delete_body (h : Z) (delete_func : Z -> Z -> prog unit) (state retry : Z) : prog (Z + unit) :=
  let! dl := load (h + H_DL) in
  let! (hd, retry) := datalist_pop dl retry in
  if non_null hd then delete_func hd state;; Ret (inl retry) else Ret (inr tt).

Definition datalist_delete (h : Z) (delete_func : Z -> Z -> prog unit) (state : Z) : prog unit :=
  let! dl := load (h + H_DL) in
  c_assert (non_null dl);;
  c_assert (state =? NULL);;
  loop (datalist_delete_body h delete_func state) 0.

Definition bucket_delete_body (delete_func : Z -> Z -> prog unit) (state bucket : Z) : prog (Z + unit) :=
  if non_null bucket then
    let! next := load (bucket + HI_NEXT) in
    delete_func bucket state;;
    Ret (inl next)
  else Ret (inr tt).

Definition hashtable_delete_body (h bucket_max : Z) (delete_func : Z -> Z -> prog unit) (state i : Z) : prog (Z + unit) :=
  if i <? bucket_max then
    let! table := load (h + H_TABLE) in
    let! bucket := load (table + 8 * i) in
    loop (bucket_delete_body delete_func state) bucket;;
    Ret (inl (i + 1))
  else Ret (inr tt).

Definition hashtable_delete (h : Z) (delete_func : Z -> Z -> prog unit) (state : Z) : prog unit :=
  c_assert (state =? NULL);;
  let! bucket_max := load (h + H_MAX) in
  loop (hashtable_delete_body h (to_int bucket_max) delete_func state) 0.

Definition hash_free (h : Z) : prog unit :=
  if non_null h then
    let! hl := load (h + H_HL) in
    (if non_null hl then
       hashlist_delete h hash_delete_item_func NULL;;
       let! hl := load (h + H_HL) in
       aligned_free hl
     else Ret tt);;
    let! dl := load (h + H_DL) in
    (if non_null dl then
       datalist_delete h hash_delete_data_func NULL;;
       let! dl := load (h + H_DL) in
       aligned_free dl
     else Ret tt);;
    let! table := load (h + H_TABLE) in
    (if non_null table then
       hashtable_delete h hash_delete_item_func NULL;;
       let! table := load (h + H_TABLE) in
       let! first := load table in
       aligned_free first
     else Ret tt);;
    aligned_free h
  else Ret tt.

(** ** Creation *)

Definition init_hash_table_body (h bucket_max loop : Z) : prog (Z + Z) :=
  if loop <? wrap bucket_max then
    let! head := aligned_malloc sizeof_hash_item LF_ALIGN_DOUBLE_POINTER in
    let! end_ := aligned_malloc sizeof_hash_item LF_ALIGN_DOUBLE_POINTER in
    if non_null head && non_null end_ then
      store (head + HI_TYPE) HEAD_NODE;;
      store (end_ + HI_TYPE) END_NODE;;
      let! table := load (h + H_TABLE) in
      store (table + 8 * loop) head;;
      let! table := load (h + H_TABLE) in
      let! head := load (table + 8 * loop) in
      store (head + HI_NEXT) end_;;
      Ret (inl (loop +w 1))
    else Ret (inr 0)
  else Ret (inr 1).

Definition init_hash_table (h bucket_max : Z) : prog Z :=
  c_assert (non_null h);;
  let! table := aligned_malloc (wrap (8 * wrap bucket_max)) LF_ALIGN_DOUBLE_POINTER in
  store (h + H_TABLE) table;;
  loop (init_hash_table_body h bucket_max) 0.

(** What [hash_new] does when something is missing. *)
Definition hash_new_undo (p : Z) : prog Z :=
  (if non_null p then
     let! hl := load (p + H_HL) in
     (if non_null hl then
        hashlist_delete p hash_delete_item_func NULL;;
        let! hl := load (p + H_HL) in
        aligned_free hl
      else Ret tt);;
     let! dl := load (p + H_DL) in
     (if non_null dl then
        datalist_delete p hash_delete_data_func NULL;;
        let! dl := load (p + H_DL) in
        aligned_free dl
      else Ret tt);;
     aligned_free p
   else Ret tt);;
  Ret 0.

(** Whether the map at [p] has its table and both lists. *)
Definition hash_complete (p : Z) : prog bool :=
  if non_null p then
    let! table := load (p + H_TABLE) in
    if non_null table then
      let! hl := load (p + H_HL) in
      if non_null hl then let! dl := load (p + H_DL) in Ret (non_null dl)
      else Ret false
    else Ret false
  else Ret false.

(** [hash_new] with [items] and [data] elements in the two lists. *)
Definition hash_new_sized (items data h nbpow : Z) : prog Z :=
  let bucket_max := to_int (wrap (Z.shiftl 1 nbpow)) in
  let bucket_mask := wrap bucket_max -w 1 in
  let! p := aligned_malloc sizeof_hash LF_ALIGN_DOUBLE_POINTER in
  store h p;;
  let! p := load h in
  let! failed :=
    (if non_null p then
       let! p := load h in
       let! ok := init_hash_table p bucket_max in
       if negb (truthy ok) then Ret true
       else
         let! p := load h in
         hash_new_element (p + H_HL) items;;
         let! p := load h in
         hash_new_data_list (p + H_DL) data;;
         Ret false
     else Ret false) in
  if failed : bool then Ret 0
  else
    let! p := load h in
    let! complete := hash_complete p in
    if negb complete then hash_new_undo p
    else
      let! p := load h in
      store (p + H_MAX) (wrap bucket_max);;
      let! p := load h in
      store (p + H_MASK) bucket_mask;;
      barrier;;
      Ret 1.

Definition hash_new (h nbpow : Z) : prog Z := hash_new_sized MAX_HASH_LIST_NUM MAX_HASH_DATA_NUM h nbpow.

(** ** Operations *)

Definition hash_lookup_body (key bucket : Z) : prog (Z + Z) :=
  if non_null bucket then
    let! data := load (bucket + HI_DATA) in
    let! k := load (data + HD_KEY) in
    if k =? key then
      let! data := load (bucket + HI_DATA) in
      let! val := load (data + HD_VAL) in
      Ret (inr val)
    else let! next := load (bucket + HI_NEXT) in Ret (inl next)
  else Ret (inr 0).

Definition hash_lookup (h key : Z) : prog Z :=
  let! bucket_max := load (h + H_MAX) in
  let bucket_mask := wrap (to_int bucket_max) in
  let bucket_index := to_int (Z.land key bucket_mask) in
  let! table := load (h + H_TABLE) in
  let! bucket := load (table + 8 * bucket_index) in
  loop (hash_lookup_body key) bucket.

(** The return value, [*h_item], and the counter. *)
Definition lf_hash_add_new_element_from_hashlist (h retry : Z) : prog (Z * Z * Z) :=
  c_assert (non_null h);;
  let! hl := load (h + H_HL) in
  let! (h_item, retry) := hashlist_pop hl retry in
  Ret (if non_null h_item then 1 else 0, h_item, retry).

Definition lf_hash_internal_new_data_from_datalist (h retry : Z) : prog (Z * Z * Z) :=
  c_assert (non_null h);;
  let! dl := load (h + H_DL) in
  let! (data, retry) := datalist_pop dl retry in
  Ret (if non_null data then 1 else 0, data, retry).

Definition new_element_body (h retry : Z) : prog (Z + (Z * Z)) :=
  let! (rv, h_item, retry) := lf_hash_add_new_element_from_hashlist h retry in
  if rv =? 0 then Ret (inl retry) else Ret (inr (h_item, retry)).

Definition replace_data_body (prev_next hdata hd_cmp : Z) : prog (Z + Z) :=
  let h_data := hd_cmp in
  let! hd_cmp := abstraction_cas (prev_next + HI_DATA) hdata h_data in
  if h_data =? hd_cmp then Ret (inr h_data) else Ret (inl hd_cmp).

(** The locals [h_prev] and [prev_next] and the counter [*add_retry]; the answer is [operation]. *)
Definition lf_hash_add_body (h_item hdata : Z) (s : Z * Z * Z) : prog ((Z * Z * Z) + (Z * Z)) :=
  let '(h_prev, prev_next, add_retry) := s in
  let! node_type := load (prev_next + HI_TYPE) in
  let! here :=
    (if node_type =? END_NODE then Ret true
     else
       let! data := load (prev_next + HI_DATA) in
       let! k := load (data + HD_KEY) in
       let! key := load (hdata + HD_KEY) in
       Ret (k >? key)) in
  if here then
    store (h_item + HI_NEXT) prev_next;;
    let bucket := prev_next in
    let! prev_next := abstraction_cas (h_prev + HI_NEXT) h_item bucket in
    if prev_next =? bucket then Ret (inr (HASH_MAP_NODE_ADD, add_retry +w 1))
    else Ret (inl (h_prev, prev_next, add_retry +w 1))
  else
    let! data := load (prev_next + HI_DATA) in
    let! k := load (data + HD_KEY) in
    let! key := load (hdata + HD_KEY) in
    if k <? key then
      let! next := load (prev_next + HI_NEXT) in
      Ret (inl (prev_next, next, add_retry +w 1))
    else
      let! val := load (hdata + HD_VAL) in
      let! data := load (prev_next + HI_DATA) in
      let! v := load (data + HD_VAL) in
      if val =? v then
        aligned_free hdata;;
        Ret (inr (HASH_MAP_NODE_EXIST, add_retry +w 1))
      else
        let! hd_cmp := load (prev_next + HI_DATA) in
        let! h_data := loop (replace_data_body prev_next hdata) hd_cmp in
        aligned_free h_data;;
        Ret (inr (HASH_MAP_NODE_REPLACE, add_retry +w 1)).

(** The return value, and the counters [*retry] and [*add_retry]. *)
Definition lf_hash_add (h hdata retry add_retry : Z) : prog (Z * Z * Z) :=
  c_assert (non_null h);;
  let! bucket_mask := load (h + H_MASK) in
  let! key := load (hdata + HD_KEY) in
  let bucket_index := to_int (Z.land key bucket_mask) in
  let! (h_item, retry) := loop (new_element_body h) retry in
  let! table := load (h + H_TABLE) in
  let! h_prev := load (table + 8 * bucket_index) in
  let! prev_next := load (h_prev + HI_NEXT) in
  store (h_item + HI_DATA) hdata;;
  c_assert (non_null h_item);;
  barrier;;
  let! (operation, add_retry) := loop (lf_hash_add_body h_item hdata) (h_prev, prev_next, add_retry) in
  (if (operation =? HASH_MAP_NODE_EXIST) || (operation =? HASH_MAP_NODE_REPLACE) then aligned_free h_item else Ret tt);;
  Ret (operation, retry, add_retry).

Definition lf_hash_search_body (hd bucket : Z) : prog (Z + Z) :=
  let! node_type := load (bucket + HI_TYPE) in
  let! stop :=
    (if node_type =? END_NODE then Ret true
     else
       let! data := load (bucket + HI_DATA) in
       let! k := load (data + HD_KEY) in
       let! key := load (hd + HD_KEY) in
       Ret (k >? key)) in
  if stop then Ret (inr HASH_MAP_SEARCH_FAIL)
  else
    let! data := load (bucket + HI_DATA) in
    let! k := load (data + HD_KEY) in
    let! key := load (hd + HD_KEY) in
    if k <? key then let! next := load (bucket + HI_NEXT) in Ret (inl next)
    else Ret (inr HASH_MAP_SEARCH_SUCC).

Definition lf_hash_search (hs hd : Z) : prog Z :=
  c_assert (non_null hs);;
  c_assert (non_null hd);;
  let! bucket_mask := load (hs + H_MASK) in
  let! key := load (hd + HD_KEY) in
  let bucket_index := to_int (Z.land key bucket_mask) in
  let! table := load (hs + H_TABLE) in
  let! h_prev := load (table + 8 * bucket_index) in
  let! bucket := load (h_prev + HI_NEXT) in
  barrier;;
  loop (lf_hash_search_body hd) bucket.

Definition hashmap_use (hs : Z) : prog unit :=
  c_assert (non_null hs);;
  barrier.
End code.

(** ** Buckets

    A bucket is a list of keys and values in the order of the keys. *)

Definition bucket := list (Z * Z).

(** What an addition answers and leaves. *)
Fixpoint badd (k v : Z) (l : bucket) : Z * bucket :=
  match l with
  | [] => (HASH_MAP_NODE_ADD, [(k, v)])
  | (k', v') :: l' =>
      if k <? k' then (HASH_MAP_NODE_ADD, (k, v) :: l)
      else if k' <? k then let '(op, r) := badd k v l' in (op, (k', v') :: r)
      else if v =? v' then (HASH_MAP_NODE_EXIST, l) else (HASH_MAP_NODE_REPLACE, (k', v) :: l')
  end.

Fixpoint bfind (k : Z) (l : bucket) : option Z :=
  match l with
  | [] => None
  | (k', v') :: l' => if k <? k' then None else if k' <? k then bfind k l' else Some v'
  end.

Ltac bkeys :=
  repeat match goal with
  | |- context [?a <? ?b] => destruct (Z.ltb_spec a b)
  | |- context [?a =? ?b] => destruct (Z.eqb_spec a b)
  end; simpl; try lia; try done.

(** The answer tells whether the key was there and with which value. *)
Lemma badd_answer k v l : (badd k v l).1 =
  match bfind k l with None => HASH_MAP_NODE_ADD | Some v' => if v =? v' then HASH_MAP_NODE_EXIST else HASH_MAP_NODE_REPLACE end.
Proof.
  induction l as [|[k' v'] l IH]; simpl; [done|]. destruct (badd k v l). simpl in IH. bkeys.
Qed.

Lemma bfind_badd k v k' l : bfind k' (badd k v l).2 = if k' =? k then Some v else bfind k' l.
Proof.
  induction l as [|[k1 v1] l IH]; simpl; [bkeys|]. destruct (badd k v l) as [op r]. simpl in IH.
  bkeys; subst; try (rw Z.eqb_refl in IH); auto; try (f_equal; lia); bkeys.
Qed.

(** ** Assertions *)

Definition hitem (a next data ty : Z) : hProp :=
  (⟨aligned_addr a sizeof_hash_item LF_ALIGN_DOUBLE_POINTER⟩ ∗
   aligned_hdr a sizeof_hash_item LF_ALIGN_DOUBLE_POINTER ∗
   (a + HI_NEXT) ↦ next ∗ (a + HI_DATA) ↦ data ∗ (a + HI_TYPE) ↦ ty)%I.

Definition hdata (a next k v : Z) : hProp :=
  (⟨aligned_addr a sizeof_hash_data LF_ALIGN_DOUBLE_POINTER⟩ ∗
   aligned_hdr a sizeof_hash_data LF_ALIGN_DOUBLE_POINTER ∗
   (a + HD_NEXT) ↦ next ∗ (a + HD_KEY) ↦ k ∗ (a + HD_VAL) ↦ v)%I.

(** Items and data have the same layout. *)
Lemma hdata_hitem a x y z : hdata a x y z = hitem a x y z.
Proof. done. Qed.

Lemma hitem_aligned a x y z :
  hitem a x y z ⊣⊢ aligned a sizeof_hash_item LF_ALIGN_DOUBLE_POINTER [x; y; z].
Proof.
  unfold hitem, aligned, HI_NEXT, HI_DATA, HI_TYPE. simpl. rw Z.add_0_r -!Z.add_assoc /=. iSplit.
  - iIntros "(%Ha & Hh & H0 & H1 & H2)". iFrame. done.
  - iIntros "((%Ha & _) & Hh & H0 & H1 & H2 & _)". iFrame. done.
Qed.

(** The elements of a bucket, from [p] to the end node [e]. *)
Fixpoint entries (l : bucket) (p e : Z) : hProp :=
  match l with
  | [] => ⟨p = e⟩
  | (k, v) :: l => ∃ next d x, hitem p next d I_NODE ∗ hdata d x k v ∗ entries l next e
  end%I.

(** The elements of a bucket with its end node. *)
Definition entries_end (l : bucket) (p : Z) : hProp := (∃ e x y, entries l p e ∗ hitem e x y END_NODE)%I.

Definition bucket_at (head : Z) (l : bucket) : hProp := (∃ p x, hitem head p x HEAD_NODE ∗ entries_end l p)%I.

(** The third word of an item that is in use, and of any element. *)
Definition is_item (ty : Z) : Prop := ty = I_NODE.
Definition any_word (z : Z) : Prop := True.

(** Elements that are not in use, the last of which points to [q]; [T] is true of their third word. *)
Fixpoint spares (T : Z -> Prop) (q : Z) (l : list Z) : hProp :=
  match l with
  | [] => emp
  | a :: l => (∃ d ty, ⟨T ty⟩ ∗ hitem a (hd q l) d ty) ∗ spares T q l
  end%I.

(** A list of them, with the element [q] that was made with the list at its end. *)
Definition spare_list (T : Z -> Prop) (hl : Z) (l : list Z) : hProp :=
  (∃ q n x y z, ⟨aligned_addr hl sizeof_hash_list LF_ALIGN_DOUBLE_POINTER⟩ ∗
   aligned_hdr hl sizeof_hash_list LF_ALIGN_DOUBLE_POINTER ∗
   (hl + HL_HE) ↦ hd q l ∗ (hl + HL_NUM) ↦ n ∗ spares T q l ∗ hitem q x y z)%I.

Definition hash_fields (h mx mask table hl dl : Z) : hProp :=
  (⟨aligned_addr h sizeof_hash LF_ALIGN_DOUBLE_POINTER⟩ ∗
   aligned_hdr h sizeof_hash LF_ALIGN_DOUBLE_POINTER ∗
   (h + H_MAX) ↦ mx ∗ (h + H_MASK) ↦ mask ∗ (h + H_TABLE) ↦ table ∗ (h + H_HL) ↦ hl ∗ (h + H_DL) ↦ dl)%I.

(** The table with the buckets [bs]. *)
Definition table_at (table : Z) (bs : list bucket) : hProp :=
  (∃ heads, aligned table (8 * length bs) LF_ALIGN_DOUBLE_POINTER heads ∗ [∗ list] head; l ∈ heads; bs, bucket_at head l)%I.

(** A map of [2 ^ n] buckets with the spare items [li] and the spare data [ld]. *)
Definition hashmap (h n : Z) (bs : list bucket) (li ld : list Z) : hProp :=
  (∃ table hl dl, hash_fields h (2 ^ n) (2 ^ n - 1) table hl dl ∗ table_at table bs ∗
   spare_list is_item hl li ∗ spare_list any_word dl ld)%I.

Section specs.
Context {AL : Allocator} {AO : AllocatorOk} {OO : OperandOrder}.

Lemma hitem_pos a x y z : hitem a x y z ⊢ ⌜0 < a⌝.
Proof. iIntros "(%Ha & _)". iPureIntro. by destruct Ha. Qed.

(** *** The lists of spare elements *)

Lemma hashlist_push_spec T hl l a x y z : T z ->
  {{{ spare_list T hl l ∗ hitem a x y z }}} hashlist_push hl a {{{ _u, spare_list T hl (a :: l) }}}.
Proof.
  iIntros (Hz Φ) "[(%q & %n & %qx & %qy & %qz & %Hhl & Hh & He & Hn & Hl & Hq) (%Ha & Hah & H0 & H1 & H2)] HΦ". unfold hashlist_push. wp_load.
  iApply wp_loop. unfold hashlist_push_body. wp_store. wp_call.
  iApply (cas_against_spec with "[$H0 $He]"); [unfold HL_HE; destruct Hhl; lia|]. iIntros (r) "(-> & H0 & He)".
  rw Z.eqb_refl. simpl. iApply wp_ret. iApply "HΦ". iExists q, n, qx, qy, qz. iFrame. done.
Qed.

Lemma spare_next T q l x y z : spares T q l ∗ hitem q x y z ⊢ ⌜(hd q l =? NULL) = false⌝.
Proof.
  iIntros "[Hl Hq]". destruct l as [|a l]; simpl.
  - iDestruct (hitem_pos with "Hq") as %H. iPureIntro. apply Z.eqb_neq. unfold NULL. lia.
  - iDestruct "Hl" as "[(%d & %ty & _ & Ha) _]". iDestruct (hitem_pos with "Ha") as %H. iPureIntro. apply Z.eqb_neq. unfold NULL. lia.
Qed.

Lemma hashlist_pop_spec T hl a l retry :
  {{{ spare_list T hl (a :: l) }}} hashlist_pop hl retry
  {{{ r, ⟨r = (a, retry +w 1)⟩ ∗ (∃ x y z, ⟨T z⟩ ∗ hitem a x y z) ∗ spare_list T hl l }}}.
Proof.
  iIntros (Φ) "(%q & %n & %qx & %qy & %qz & %Hhl & Hh & He & Hn & [(%d & %ty & %HT & Ha) Hl] & Hq) HΦ". simpl.
  iDestruct (spare_next with "[$Hl $Hq]") as %Hnext. iDestruct (hitem_pos with "Ha") as %Hpos. iDestruct "Ha" as "(%Ha & Hah & H0 & H1 & H2)".
  unfold hashlist_pop. wp_assert; [eauto with addr|]. wp_load. wp_call. iApply wp_loop. unfold hashlist_pop_body.
  rw (proj2 (Z.eqb_neq a NULL)); last (unfold NULL; lia). wp_load. rw Hnext. wp_load. unfold abstraction_cas. wp_assert; [eauto with addr|]. wp_cas. rw Z.eqb_refl.
  iApply wp_ret. unfold abstraction_sub. wp_assert; [eauto with addr|]. wp_incr. iApply wp_ret. iApply "HΦ". iSplitR; [done|].
  iSplitL "Hah H0 H1 H2"; [iExists (hd q l), d, ty; by iFrame|]. iExists q, (n +w -1), qx, qy, qz. by iFrame.
Qed.

Lemma datalist_pop_spec T dl a l retry :
  {{{ spare_list T dl (a :: l) }}} datalist_pop dl retry
  {{{ r, ⟨r = (a, retry +w 1)⟩ ∗ (∃ x y z, ⟨T z⟩ ∗ hitem a x y z) ∗ spare_list T dl l }}}.
Proof.
  iIntros (Φ) "(%q & %n & %qx & %qy & %qz & %Hhl & Hh & He & Hn & [(%d & %ty & %HT & Ha) Hl] & Hq) HΦ". simpl.
  iDestruct (spare_next with "[$Hl $Hq]") as %Hnext. iDestruct "Ha" as "(%Ha & Hah & H0 & H1 & H2)".
  unfold datalist_pop. change DL_HD with HL_HE. change DL_COUNT with HL_NUM. wp_assert; [eauto with addr|]. wp_load. wp_call. iApply wp_loop. unfold datalist_pop_body. change DL_HD with HL_HE.
  wp_load. rw Hnext. wp_load. unfold abstraction_cas. wp_assert; [eauto with addr|]. wp_cas. rw Z.eqb_refl.
  iApply wp_ret. unfold abstraction_sub. wp_assert; [eauto with addr|]. wp_incr. iApply wp_ret. iApply "HΦ". iSplitR; [done|].
  iSplitL "Hah H0 H1 H2"; [iExists (hd q l), d, ty; by iFrame|]. iExists q, (n +w -1), qx, qy, qz. by iFrame.
Qed.

Definition hash_item_cost : nat := aligned_cost sizeof_hash_item LF_ALIGN_DOUBLE_POINTER.
Definition spare_list_cost (n : Z) : nat :=
  (aligned_cost sizeof_hash_list LF_ALIGN_DOUBLE_POINTER + hash_item_cost + Z.to_nat n * hash_item_cost)%nat.

(** A new block of three words. *)
Lemma new_hitem {A : Set} (k : Z -> prog A) Φ :
  credits hash_item_cost -∗ (∀ a x y z, ⟨0 < a⟩ -∗ hitem a x y z -∗ wp (k a) Φ) -∗
  wp (bind (aligned_malloc sizeof_hash_item LF_ALIGN_DOUBLE_POINTER) k) Φ.
Proof.
  iIntros "Hc HΦ". wp_call. iApply (aligned_malloc_spec with "Hc"); [done|]. iIntros (a) "(%vs & Ha)".
  iDestruct (aligned_facts with "Ha") as %[Ha Hlen]. destruct vs as [|x [|y [|z [|]]]]; simpl in Hlen; unfold sizeof_hash_item in Hlen; try lia.
  rw -hitem_aligned. iApply ("HΦ" with "[] Ha"). iPureIntro. by destruct Ha.
Qed.

Lemma init_hashlist_spec T hl vs :
  {{{ aligned hl sizeof_hash_list LF_ALIGN_DOUBLE_POINTER vs ∗ credits hash_item_cost }}} init_hashlist hl
  {{{ rv, ⟨rv = 1⟩ ∗ spare_list T hl [] }}}.
Proof.
  iIntros (Φ) "[Hl Hc] HΦ". iDestruct (aligned_facts with "Hl") as %[Hhl Hlen]. destruct vs as [|v0 [|v1 [|]]]; simpl in Hlen; unfold sizeof_hash_list in Hlen; try lia.
  iDestruct "Hl" as "(_ & Hh & H0 & H1 & _)". unfold init_hashlist. wp_assert; [eauto with addr|].
  iApply (new_hitem with "Hc"). iIntros (a x y z Ha) "Ha". change (hl + 8) with (hl + HL_NUM). rw -{2}(Z.add_0_r hl). change (hl + 0) with (hl + HL_HE).
  wp_store. wp_load. rw non_null_pos //. wp_store. iApply wp_ret. iApply "HΦ". iSplitR; [done|]. iExists a, 1, x, y, z. iFrame. done.
Qed.

Lemma hashlist_internal_new_element_spec T hl l :
  {{{ spare_list T hl l ∗ credits hash_item_cost }}} hashlist_internal_new_element hl
  {{{ r, ∃ he x y, ⟨r = (1, he)⟩ ∗ hitem he x y I_NODE ∗ spare_list T hl l }}}.
Proof.
  iIntros (Φ) "[(%q & %n & %qx & %qy & %qz & %Hhl & Hh & He & Hn & Hl) Hc] HΦ". unfold hashlist_internal_new_element. wp_assert; [eauto with addr|].
  iApply (new_hitem with "Hc"). iIntros (a x y z Ha) "(%Haa & Hah & H0 & H1 & H2)". rw non_null_pos //. unfold abstraction_increment. wp_assert; [eauto with addr|]. wp_incr. wp_store.
  iApply wp_ret. iApply "HΦ". iExists a, x, y. iSplitR; [done|]. iSplitL "Hah H0 H1 H2"; [by iFrame|]. iExists q, (n +w 1), qx, qy, qz. by iFrame.
Qed.

Lemma hash_new_element_loop a hl n k : is_word n -> forall l j, j + Z.of_nat k = n -> 0 <= j ->
  {{{ a ↦ hl ∗ spare_list is_item hl l ∗ credits (k * hash_item_cost) }}} loop (hash_new_element_body a n) (j, j)
  {{{ r, ∃ new, ⟨r = n /\ length new = k⟩ ∗ a ↦ hl ∗ spare_list is_item hl (new ++ l) }}}.
Proof.
  intros Hw. unfold is_word in Hw.
  induction k as [|k IH]; iIntros (l j Hj Hj0 Φ) "(Ha & Hl & Hcr) HΦ"; iApply wp_loop; unfold hash_new_element_body at 1.
  - rw (proj2 (Z.ltb_ge j n)); last lia. iApply (wp_credits 0). iFrame "Hcr". iApply wp_ret. iApply "HΦ". iExists []. iFrame. iPureIntro. split; [lia|done].
  - rw (proj2 (Z.ltb_lt j n)); last lia. iDestruct (credits_add with "Hcr") as "[Hcr1 Hcr]". wp_load.
    wp_call. iApply (hashlist_internal_new_element_spec with "[$Hl $Hcr1]"). iIntros (r) "(%he & %x & %y & -> & He & Hl)". change (truthy 1) with true. wp_load.
    wp_call. iApply (hashlist_push_spec with "[$Hl $He]"); [done|]. iIntros ([]) "Hl". iApply wp_ret. rw (wrap_small (j + 1)); last (unfold is_word; lia).
    iApply (IH with "[$Ha $Hl $Hcr]"); [lia|lia|]. iIntros (r) "(%new & %Hr & Ha & Hl)". destruct Hr as [-> Hn]. iApply "HΦ". iExists (new ++ [he]). rw -app_assoc. iFrame. iPureIntro.
    rw length_app /=. split; [done|lia].
Qed.

Lemma hash_new_element_spec a n : 0 < a -> is_word n ->
  {{{ cell a ∗ credits (spare_list_cost n) }}} hash_new_element a n
  {{{ _rv, ∃ hl l, ⟨0 < hl /\ Z.of_nat (length l) = n⟩ ∗ a ↦ hl ∗ spare_list is_item hl l }}}.
Proof.
  iIntros (Ha Hw Φ) "[(%v & Ha) Hc] HΦ". unfold hash_new_element, spare_list_cost. wp_assert; [by apply non_null_pos|].
  iDestruct (credits_add with "Hc") as "[Hc Hc3]". iDestruct (credits_add with "Hc") as "[Hc1 Hc2]".
  wp_call. iApply (aligned_malloc_spec with "Hc1"); [done|]. iIntros (hl) "(%vs & Hl)". iDestruct (aligned_facts with "Hl") as %[Hhl _]. wp_store. wp_load.
  wp_call. iApply (init_hashlist_spec with "[$Hl $Hc2]"). iIntros (rv) "[-> Hl]". change (truthy 1) with true. simpl. wp_call.
  iApply (hash_new_element_loop a hl n (Z.to_nat n) Hw [] 0 with "[$Ha $Hl $Hc3]"); [unfold is_word in Hw; lia|lia|]. iIntros (r) "(%new & %Hr & Ha & Hl)". destruct Hr as [-> Hn].
  rw Z.eqb_refl. iApply wp_ret. iApply "HΦ". iExists hl, new. rw app_nil_r. iFrame. iPureIntro. unfold is_word in Hw. split; [by destruct Hhl|lia].
Qed.

Lemma hash_new_data_list_loop a dl n k : is_word n -> forall l j, j + Z.of_nat k = n -> 0 <= j ->
  {{{ a ↦ dl ∗ spare_list any_word dl l ∗ credits (k * hash_item_cost) }}} loop (hash_new_data_list_body a n) (j, j)
  {{{ r, ∃ new, ⟨r = n /\ length new = k⟩ ∗ a ↦ dl ∗ spare_list any_word dl (new ++ l) }}}.
Proof.
  intros Hw. unfold is_word in Hw.
  induction k as [|k IH]; iIntros (l j Hj Hj0 Φ) "(Ha & Hl & Hcr) HΦ"; iApply wp_loop; unfold hash_new_data_list_body at 1.
  - rw (proj2 (Z.ltb_ge j n)); last lia. iApply (wp_credits 0). iFrame "Hcr". iApply wp_ret. iApply "HΦ". iExists []. iFrame. iPureIntro. split; [lia|done].
  - rw (proj2 (Z.ltb_lt j n)); last lia. iDestruct (credits_add with "Hcr") as "[Hcr1 Hcr]". wp_load. unfold hashlist_internal_new_data.
    iDestruct "Hl" as "(%q & %m & %qx & %qy & %qz & %Hhl & Hh & He & Hn & Hl)". change DL_COUNT with HL_NUM. wp_assert; [eauto with addr|].
    change sizeof_hash_data with sizeof_hash_item. wp_simpl. iApply (new_hitem with "Hcr1"). iIntros (d x y z Hd) "Hd". rw -hdata_hitem. iDestruct "Hd" as "(%Hdd & Hdh & H0 & H1 & H2)". do 2 wp_store.
    unfold abstraction_increment. wp_assert; [eauto with addr|]. wp_incr. change (truthy 1) with true. wp_store. wp_load.
    wp_call. change (datalist_push dl d) with (hashlist_push dl d). iApply (hashlist_push_spec any_word dl l d x j j with "[Hh He Hn Hl Hdh H0 H1 H2]"); [done| |].
    { iSplitL "Hh He Hn Hl"; [iExists q, (m +w 1), qx, qy, qz; by iFrame|]. rw -hdata_hitem. by iFrame. }
    iIntros ([]) "Hl". iApply wp_ret. rw (wrap_small (j + 1)); last (unfold is_word; lia).
    iApply (IH with "[$Ha $Hl $Hcr]"); [lia|lia|]. iIntros (r) "(%new & %Hr & Ha & Hl)". destruct Hr as [-> Hnn]. iApply "HΦ". iExists (new ++ [d]). rw -app_assoc. iFrame. iPureIntro.
    rw length_app /=. split; [done|lia].
Qed.

Lemma hash_new_data_list_spec a n : 0 < a -> is_word n ->
  {{{ cell a ∗ credits (spare_list_cost n) }}} hash_new_data_list a n
  {{{ _rv, ∃ dl l, ⟨0 < dl /\ Z.of_nat (length l) = n⟩ ∗ a ↦ dl ∗ spare_list any_word dl l }}}.
Proof.
  iIntros (Ha Hw Φ) "[(%v & Ha) Hc] HΦ". unfold hash_new_data_list, spare_list_cost. wp_assert; [by apply non_null_pos|].
  iDestruct (credits_add with "Hc") as "[Hc Hc3]". iDestruct (credits_add with "Hc") as "[Hc1 Hc2]".
  wp_call. iApply (aligned_malloc_spec with "Hc1"); [done|]. iIntros (dl) "(%vs & Hl)". iDestruct (aligned_facts with "Hl") as %[Hhl _]. wp_store. wp_load.
  wp_call. change (init_datalist dl) with (init_hashlist dl). iApply (init_hashlist_spec with "[$Hl $Hc2]"). iIntros (rv) "[-> Hl]". change (truthy 1) with true. simpl. wp_call.
  iApply (hash_new_data_list_loop a dl n (Z.to_nat n) Hw [] 0 with "[$Ha $Hl $Hc3]"); [unfold is_word in Hw; lia|lia|]. iIntros (r) "(%new & %Hr & Ha & Hl)". destruct Hr as [-> Hn].
  rw Z.eqb_refl. iApply wp_ret. iApply "HΦ". iExists dl, new. rw app_nil_r. iFrame. iPureIntro. unfold is_word in Hw. split; [by destruct Hhl|lia].
Qed.

(** *** The table *)

Lemma init_hash_table_loop h table N rest : is_word N -> forall heads, Z.of_nat (length heads + length rest) = N ->
  {{{ (h + H_TABLE) ↦ table ∗ table ↦∗ (heads ++ rest) ∗ ([∗ list] head ∈ heads, bucket_at head []) ∗ credits (length rest * (hash_item_cost + hash_item_cost)) }}}
    loop (init_hash_table_body h N) (Z.of_nat (length heads))
  {{{ r, ∃ hs, ⟨r = 1 /\ Z.of_nat (length hs) = N⟩ ∗ (h + H_TABLE) ↦ table ∗ table ↦∗ hs ∗ [∗ list] head ∈ hs, bucket_at head [] }}}.
Proof.
  intros Hw. induction rest as [|v rest IH]; iIntros (heads Hlen Φ) "(Ht & Ha & Hb & Hc) HΦ"; iApply wp_loop; unfold init_hash_table_body at 1; rw (wrap_small N) //.
  - rw (proj2 (Z.ltb_ge (length heads) N)); last (simpl in Hlen; lia). iApply (wp_credits 0). iFrame "Hc". iApply wp_ret. iApply "HΦ". iExists heads. rw app_nil_r. iFrame.
    iPureIntro. simpl in Hlen. split; [done|lia].
  - rw (proj2 (Z.ltb_lt (length heads) N)); last (simpl in Hlen; lia). iDestruct (credits_add with "Hc") as "[Hc0 Hc]". iDestruct (credits_add with "Hc0") as "[Hc1 Hc2]".
    iApply (new_hitem with "Hc1"). iIntros (head x y z Hhd) "Hhd". iApply (new_hitem with "Hc2"). iIntros (e ex ey ez He) "He".
    rw non_null_pos // non_null_pos //. simpl. iDestruct "Hhd" as "(%Hha & Hhh & H0 & H1 & H2)". iDestruct "He" as "(%Hea & Heh & E0 & E1 & E2)". do 2 wp_store. wp_load.
    iDestruct (array_app with "Ha") as "[Ha1 [Hav Ha2]]". wp_store. wp_load. wp_load. wp_store. iApply wp_ret.
    unfold is_word in Hw. simpl in Hlen. rw (wrap_small (length heads + 1)); last (unfold is_word; lia). replace (length heads + 1) with (Z.of_nat (length (heads ++ [head]))) by (rw length_app /=; lia).
    iApply (IH (heads ++ [head]) with "[$Ht $Hc Ha1 Hav Ha2 Hb Hhh H0 H1 H2 Heh E0 E1 E2]"); [rw length_app /=; lia| |done].
    rw -app_assoc /=. iSplitL "Ha1 Hav Ha2"; [iApply array_app; iFrame|]. iApply big_sepL_snoc. iFrame "Hb".
    iExists e, y. iSplitL "Hhh H0 H1 H2"; [by iFrame|]. iExists e, ex, ey. by iFrame.
Qed.

Definition table_cost (n : Z) : nat :=
  (aligned_cost (8 * 2 ^ n) LF_ALIGN_DOUBLE_POINTER + Z.to_nat (2 ^ n) * (hash_item_cost + hash_item_cost))%nat.

Lemma bucket_count n : 0 <= n < 31 -> 1 <= 2 ^ n <= 1073741824.
Proof. intros Hn. split; [pose proof (Z.pow_pos_nonneg 2 n); lia|]. change 1073741824 with (2 ^ 30). apply Z.pow_le_mono_r; lia. Qed.

Lemma init_hash_table_spec h n v : 0 < h -> 0 <= n < 31 ->
  {{{ (h + H_TABLE) ↦ v ∗ credits (table_cost n) }}} init_hash_table h (2 ^ n)
  {{{ r, ∃ table, ⟨r = 1 /\ 0 < table⟩ ∗ (h + H_TABLE) ↦ table ∗ table_at table (replicate (Z.to_nat (2 ^ n)) []) }}}.
Proof.
  iIntros (Hh Hn Φ) "[Ht Hc] HΦ". unfold init_hash_table, table_cost. pose proof (bucket_count n Hn). wp_assert; [by apply non_null_pos|].
  rw (wrap_small (2 ^ n)); last (unfold is_word, word_mod; lia). rw wrap_small; last (unfold is_word, word_mod; lia). iDestruct (credits_add with "Hc") as "[Hc1 Hc]".
  wp_call. iApply (aligned_malloc_spec with "Hc1").
  { split_and!; [lia|by rw Z.mul_comm Z_mod_mult|done|done|unfold LF_ALIGN_DOUBLE_POINTER, word_mod; lia]. }
  iIntros (table) "(%vs & Htb)". iDestruct (aligned_facts with "Htb") as %[Hta Hlen]. wp_store. iDestruct "Htb" as "(_ & Hhd & Ha)".
  iApply (init_hash_table_loop h table (2 ^ n) vs ltac:(unfold is_word, word_mod; lia) [] with "[Ht Ha Hc]"); [simpl; lia| |].
  { simpl. replace (length vs) with (Z.to_nat (2 ^ n)) by lia. by iFrame. }
  iIntros (r) "(%hs & %Hr & Ht & Ha & Hb)". destruct Hr as [-> Hl]. iApply "HΦ". iExists table. iFrame "Ht". iSplitR; [iPureIntro; split; [done|by destruct Hta]|].
  iExists hs. rw length_replicate Z2Nat.id; last lia. iSplitR "Hb"; [iSplitR; [iPureIntro; split; [done|lia]|]; iFrame "Hhd"; iFrame|].
  rw big_sepL2_replicate_r //. lia.
Qed.

Definition hash_cost (items data n : Z) : nat :=
  (aligned_cost sizeof_hash LF_ALIGN_DOUBLE_POINTER + table_cost n + spare_list_cost items + spare_list_cost data)%nat.

Lemma hash_new_sized_spec items data a n : 0 < a -> is_word items -> is_word data -> 0 <= n < 31 ->
  {{{ cell a ∗ credits (hash_cost items data n) }}} hash_new_sized items data a n
  {{{ rv, ∃ h li ld, ⟨rv = 1 /\ 0 < h /\ Z.of_nat (length li) = items /\ Z.of_nat (length ld) = data⟩ ∗ a ↦ h ∗ hashmap h n (replicate (Z.to_nat (2 ^ n)) []) li ld }}}.
Proof.
  iIntros (Ha Hi Hd Hn Φ) "[(%v & Ha) Hc] HΦ". unfold hash_new_sized, hash_cost. pose proof (bucket_count n Hn) as Hb.
  rw Z.shiftl_mul_pow2; last lia. rw Z.mul_1_l (wrap_small (2 ^ n)); last (unfold is_word, word_mod; lia). rw to_int_small; last lia. rw !(wrap_small (2 ^ n)); last (unfold is_word, word_mod; lia).
  iDestruct (credits_add with "Hc") as "[Hc Hc4]". iDestruct (credits_add with "Hc") as "[Hc Hc3]". iDestruct (credits_add with "Hc") as "[Hc1 Hc2]".
  wp_call. iApply (aligned_malloc_spec with "Hc1"); [done|]. iIntros (h) "(%vs & Hh)". iDestruct (aligned_facts with "Hh") as %[Hh Hlen].
  destruct vs as [|v0 [|v1 [|v2 [|v3 [|v4 [|]]]]]]; simpl in Hlen; unfold sizeof_hash in Hlen; try lia.
  iAssert (hash_fields h v0 v1 v2 v3 v4) with "[Hh]" as "(_ & Hh & H0 & H1 & H2 & H3 & H4)".
  { unfold hash_fields, H_MAX, H_MASK, H_TABLE, H_HL, H_DL. rw Z.add_0_r. iDestruct "Hh" as "(_ & Hh & H0 & H1 & H2 & H3 & H4 & _)". rw -!Z.add_assoc. iFrame. done. }
  assert (0 < h) as Hpos by by destruct Hh. wp_store. wp_load. rw (non_null_pos h) //. wp_load.
  wp_call. iApply (init_hash_table_spec with "[$H2 $Hc2]"); [done|done|]. iIntros (r) "(%table & %Hr & H2 & Ht)". destruct Hr as [-> Htb]. change (truthy 1) with true. simpl. wp_load.
  wp_call. iApply (hash_new_element_spec with "[$Hc3 H3]"); [unfold H_HL; lia|done|by iExists v3|]. iIntros (r1) "(%hl & %li & %Hl & H3 & Hli)". destruct Hl as [Hhl Hli]. wp_load.
  wp_call. iApply (hash_new_data_list_spec with "[$Hc4 H4]"); [unfold H_DL; lia|done|by iExists v4|]. iIntros (r2) "(%dl & %ld & %Hl & H4 & Hld)". destruct Hl as [Hdl Hld]. wp_simpl. wp_load.
  unfold hash_complete. rw !(non_null_pos h) //. wp_load. rw (non_null_pos table) //. wp_load. rw (non_null_pos hl) //. wp_load. rw (non_null_pos dl) //. simpl. wp_load. wp_store. wp_load. wp_store.
  iApply wp_ret. iApply "HΦ". iExists h, li, ld. iFrame "Ha". iSplitR; [done|]. iExists table, hl, dl. rw (wrap_small (2 ^ n - 1)); last (unfold is_word, word_mod; lia). by iFrame.
Qed.

(** *** Adding and searching *)

Lemma hdata_free d x k v : {{{ hdata d x k v }}} aligned_free d {{{ _u, emp }}}.
Proof. iIntros (Φ) "Hd HΦ". rw hdata_hitem hitem_aligned. iApply (aligned_free_spec with "Hd HΦ"). Qed.

Lemma hitem_free a x y z : {{{ hitem a x y z }}} aligned_free a {{{ _u, emp }}}.
Proof. iIntros (Φ) "Ha HΦ". rw hitem_aligned. iApply (aligned_free_spec with "Ha HΦ"). Qed.

(** The loop of [lf_hash_add], from an item [hp] whose successors are [l]. *)
Lemma lf_hash_add_loop a x d y k v l : forall hp p n, 0 < hp ->
  {{{ (hp + HI_NEXT) ↦ p ∗ entries_end l p ∗ hitem a x d I_NODE ∗ hdata d y k v }}} loop (lf_hash_add_body a d) (hp, p, n)
  {{{ r, ∃ p', ⟨r.1 = (badd k v l).1⟩ ∗ (hp + HI_NEXT) ↦ p' ∗ entries_end (badd k v l).2 p' ∗
         if (badd k v l).1 =? HASH_MAP_NODE_ADD then emp else ∃ x y z, hitem a x y z }}}.
Proof.
  induction l as [|[k1 v1] l IH]; iIntros (hp p n Hhp Φ) "(Hp & (%e & %ex & %ey & Hl & He) & (%Ha & Hah & A0 & A1 & A2) & (%Hd & Hdh & D0 & D1 & D2)) HΦ";
    iApply wp_loop; unfold lf_hash_add_body at 1; cbn [entries badd].
  - iDestruct "Hl" as %->. iDestruct "He" as "(%Hea & Heh & E0 & E1 & E2)". wp_load. change (END_NODE =? END_NODE) with true. wp_simpl. wp_store.
    unfold abstraction_cas. wp_assert; [apply non_null_pos; unfold HI_NEXT; lia|]. wp_cas. rw Z.eqb_refl. iApply wp_ret. iApply "HΦ". iExists a. rw Z.eqb_refl. iFrame "Hp". iSplitR; [done|].
    iSplitL; [|done]. iExists e, ex, ey. iSplitR "Heh E0 E1 E2"; [|by iFrame]. iExists e, d, y. iSplitL "Hah A0 A1 A2"; [by iFrame|]. iSplitL; [by iFrame|done].
  - iDestruct "Hl" as (next d1 y1) "(Hi & Hd1 & Hl)". iDestruct "Hi" as "(%Hi & Hih & I0 & I1 & I2)". iDestruct "Hd1" as "(%Hd1 & Hd1h & F0 & F1 & F2)".
    wp_load. change (I_NODE =? END_NODE) with false. wp_load. wp_load. wp_load. rw Z.gtb_ltb. destruct (Z.ltb_spec k k1) as [Hk|Hk].
    + wp_simpl. wp_store. unfold abstraction_cas. wp_assert; [apply non_null_pos; unfold HI_NEXT; lia|]. wp_cas. rw Z.eqb_refl. iApply wp_ret. iApply "HΦ". iExists a. rw Z.eqb_refl. iFrame "Hp". iSplitR; [done|].
      iSplitL; [|done]. iExists e, ex, ey. iFrame "He". iExists p, d, y. iSplitL "Hah A0 A1 A2"; [by iFrame|]. iSplitL "Hdh D0 D1 D2"; [by iFrame|].
      iExists next, d1, y1. iFrame "Hl". iSplitL "Hih I0 I1 I2"; by iFrame.
    + wp_load. wp_load. wp_load. destruct (Z.ltb_spec k1 k) as [Hk'|Hk'].
      * wp_load. iApply wp_ret. iApply (IH p next (n +w 1) with "[$I0 Hl He Hah A0 A1 A2 Hdh D0 D1 D2]"); [by destruct Hi| |].
        { iSplitL "Hl He"; [iExists e, ex, ey; iFrame|]. iSplitL "Hah A0 A1 A2"; by iFrame. }
        iIntros (r) "(%p' & %Hr & I0 & (%e' & %ex' & %ey' & Hl & He) & Hrest)". iApply "HΦ". destruct (badd k v l) as [op l']. simpl. iExists p. iFrame "Hp Hrest". iSplitR; [done|].
        iExists e', ex', ey'. iFrame "He". iExists p', d1, y1. iFrame "Hl". iSplitL "Hih I0 I1 I2"; by iFrame.
      * assert (k1 = k) as -> by lia. wp_load. wp_load. wp_load. destruct (Z.eqb_spec v v1) as [<-|Hv].
        -- wp_call. iApply (hdata_free with "[Hdh D0 D1 D2]"); [by iFrame|]. iIntros ([]) "_". iApply wp_ret. iApply "HΦ". iExists p. iFrame "Hp". iSplitR; [done|].
           iSplitR "Hah A0 A1 A2"; [|iExists x, d, I_NODE; by iFrame]. iExists e, ex, ey. iFrame "He". iExists next, d1, y1. iFrame "Hl". iSplitL "Hih I0 I1 I2"; by iFrame.
        -- wp_load. wp_call. iApply wp_loop. unfold replace_data_body, abstraction_cas. wp_assert; [eauto with addr|]. wp_cas. rw Z.eqb_refl. iApply wp_ret.
           wp_call. iApply (hdata_free d1 y1 k v1 with "[Hd1h F0 F1 F2]"); [by iFrame|]. iIntros ([]) "_". iApply wp_ret. iApply "HΦ". iExists p. iFrame "Hp". iSplitR; [done|].
           iSplitR "Hah A0 A1 A2"; [|iExists x, d, I_NODE; by iFrame]. iExists e, ex, ey. iFrame "He". iExists next, d, y. iFrame "Hl". iSplitL "Hih I0 I1 I2"; by iFrame.
Qed.

Lemma lf_hash_search_loop q y k w l : forall p,
  {{{ entries_end l p ∗ hdata q y k w }}} loop (lf_hash_search_body q) p
  {{{ r, ⟨r = if bfind k l is Some _ then HASH_MAP_SEARCH_SUCC else HASH_MAP_SEARCH_FAIL⟩ ∗ entries_end l p ∗ hdata q y k w }}}.
Proof.
  induction l as [|[k1 v1] l IH]; iIntros (p Φ) "((%e & %ex & %ey & Hl & He) & (%Hd & Hdh & D0 & D1 & D2)) HΦ";
    iApply wp_loop; unfold lf_hash_search_body at 1; cbn [entries bfind].
  - iDestruct "Hl" as %->. iDestruct "He" as "(%Hea & Heh & E0 & E1 & E2)". wp_load. change (END_NODE =? END_NODE) with true. wp_simpl. iApply wp_ret. iApply "HΦ". iSplitR; [done|].
    iSplitR "Hdh D0 D1 D2"; [|by iFrame]. iExists e, ex, ey. iSplitR; [done|]. by iFrame.
  - iDestruct "Hl" as (next d1 y1) "((%Hi & Hih & I0 & I1 & I2) & (%Hd1 & Hd1h & F0 & F1 & F2) & Hl)".
    wp_load. change (I_NODE =? END_NODE) with false. wp_load. wp_load. wp_load. rw Z.gtb_ltb. destruct (Z.ltb_spec k k1) as [Hk|Hk].
    { wp_simpl. iApply wp_ret. iApply "HΦ". iSplitR; [done|]. iSplitR "Hdh D0 D1 D2"; [|by iFrame]. iExists e, ex, ey. iFrame "He". iExists next, d1, y1. iFrame "Hl". iSplitL "Hih I0 I1 I2"; by iFrame. }
    wp_load. wp_load. wp_load. destruct (Z.ltb_spec k1 k) as [Hk'|Hk'].
    + wp_load. iApply wp_ret. iApply (IH next with "[Hl He Hdh D0 D1 D2]"); [iSplitL "Hl He"; [iExists e, ex, ey; iFrame|by iFrame]|].
      iIntros (r) "(-> & (%e' & %ex' & %ey' & Hl & He) & Hd)". iApply "HΦ". iFrame "Hd". iSplitR; [done|]. iExists e', ex', ey'. iFrame "He". iExists next, d1, y1. iFrame "Hl". iSplitL "Hih I0 I1 I2"; by iFrame.
    + iApply wp_ret. iApply "HΦ". iSplitR; [done|]. iSplitR "Hdh D0 D1 D2"; [|by iFrame]. iExists e, ex, ey. iFrame "He". iExists next, d1, y1. iFrame "Hl". iSplitL "Hih I0 I1 I2"; by iFrame.
Qed.

Lemma array_lookup_acc a (vs : list Z) (i : nat) v : vs !! i = Some v -> a ↦∗ vs ⊢ (a + 8 * i) ↦ v ∗ ((a + 8 * i) ↦ v -∗ a ↦∗ vs).
Proof.
  intros Hv. rw -{1 2}(take_drop_middle vs i v Hv) array_app length_take_le; last (apply lookup_lt_Some in Hv; lia). iIntros "(H1 & H2 & H3)". iFrame "H2". iIntros "H2". iFrame.
Qed.

(** The head of the bucket at an index, and what is left of the table. *)
Lemma table_acc table bs (i : nat) l : bs !! i = Some l ->
  table_at table bs ⊢ ∃ head, (table + 8 * i) ↦ head ∗ bucket_at head l ∗ (∀ l', (table + 8 * i) ↦ head -∗ bucket_at head l' -∗ table_at table (<[i := l']> bs)).
Proof.
  iIntros (Hl) "(%heads & (%Ha & Hh & Hw) & Hb)". iDestruct (big_sepL2_length with "Hb") as %Hlen.
  destruct (lookup_lt_is_Some_2 heads i) as [head Hhd]; [rw Hlen; by eapply lookup_lt_Some|].
  iDestruct (big_sepL2_insert_acc with "Hb") as "[Hbi Hb]"; [done|done|]. iDestruct (array_lookup_acc _ _ _ _ Hhd with "Hw") as "[Hi Hw]".
  iExists head. iFrame "Hi Hbi". iIntros (l') "Hi Hbi". iExists heads. iDestruct ("Hb" with "Hbi") as "Hb". rw (list_insert_id heads) //. rw length_insert. iFrame "Hb". iSplitR; [done|]. iFrame "Hh". by iApply "Hw".
Qed.

(** The bucket of a key. *)
Definition bucket_of (n k : Z) : nat := Z.to_nat (k mod 2 ^ n).

Lemma bucket_index n k : 0 <= n < 31 -> to_int (Z.land k (2 ^ n - 1)) = bucket_of n k /\ (bucket_of n k < Z.to_nat (2 ^ n))%nat.
Proof.
  intros Hn. pose proof (bucket_count n Hn) as Hb. replace (2 ^ n - 1) with (Z.ones n) by (rw Z.ones_equiv; lia). rw Z.land_ones; last lia.
  pose proof (Z.mod_pos_bound k (2 ^ n)). unfold bucket_of. rw to_int_small; lia.
Qed.

Lemma new_element_loop h hl a li retry : 0 < h ->
  {{{ (h + H_HL) ↦ hl ∗ spare_list is_item hl (a :: li) }}} loop (new_element_body h) retry
  {{{ r, ∃ x y, ⟨r = (a, retry +w 1) /\ 0 < a⟩ ∗ (h + H_HL) ↦ hl ∗ hitem a x y I_NODE ∗ spare_list is_item hl li }}}.
Proof.
  iIntros (Hh Φ) "[Hhl Hl] HΦ". iApply wp_loop. unfold new_element_body, lf_hash_add_new_element_from_hashlist. wp_assert; [by apply non_null_pos|]. wp_load.
  wp_call. iApply (hashlist_pop_spec with "Hl"). iIntros (r) "(-> & (%x & %y & %z & %Hz & Ha) & Hl)". unfold is_item in Hz. subst z. iDestruct (hitem_pos with "Ha") as %Hpos.
  rw non_null_pos //. wp_simpl. change (1 =? 0) with false. cbv iota. iApply wp_ret. iApply "HΦ". iExists x, y. by iFrame.
Qed.

Lemma lf_hash_add_spec h n bs a li ld d x k v l r1 r2 : 0 <= n < 31 -> bs !! bucket_of n k = Some l ->
  {{{ hashmap h n bs (a :: li) ld ∗ hdata d x k v }}} lf_hash_add h d r1 r2
  {{{ r, ⟨r.1.1 = (badd k v l).1⟩ ∗ hashmap h n (<[bucket_of n k := (badd k v l).2]> bs) li ld }}}.
Proof.
  iIntros (Hn Hl Φ) "[(%table & %hl & %dl & (%Hh & Hhh & H0 & H1 & H2 & H3 & H4) & Ht & Hli & Hld) (%Hd & Hdh & D0 & D1 & D2)] HΦ".
  assert (0 < h) as Hpos by by destruct Hh. destruct (bucket_index n k Hn) as [Hi _].
  unfold lf_hash_add. wp_assert; [by apply non_null_pos|]. wp_load. wp_load. wp_call. iApply (new_element_loop with "[$H3 $Hli]"); [done|].
  iIntros (r) "(%ix & %iy & %Hr & H3 & (%Ha & Hah & A0 & A1 & A2) & Hli)". destruct Hr as [-> Hap]. wp_load. rw Hi. iDestruct (table_acc _ _ _ _ Hl with "Ht") as (head) "(Hhd & (%p & %hx & (%Hb & Hbh & B0 & B1 & B2) & Hl) & Ht)".
  wp_load. wp_load. wp_store. wp_assert; [by apply non_null_pos|]. wp_call.
  iApply (lf_hash_add_loop a ix d x k v l head p r2 with "[$B0 $Hl Hah A0 A1 A2 Hdh D0 D1 D2]"); [by destruct Hb|iSplitL "Hah A0 A1 A2"; by iFrame|].
  iIntros ([op r3]) "(%p' & %Hop & B0 & Hl & Hrest)". simpl in Hop. subst op. iDestruct ("Ht" with "Hhd [Hbh B0 B1 B2 Hl]") as "Ht"; [iExists p', hx; iFrame "Hl"; by iFrame|].
  iAssert (hashmap h n (<[bucket_of n k := (badd k v l).2]> bs) li ld) with "[Hhh H0 H1 H2 H3 H4 Ht Hli Hld]" as "Hm"; [iExists table, hl, dl; by iFrame|].
  assert ((badd k v l).1 = HASH_MAP_NODE_ADD \/ (badd k v l).1 = HASH_MAP_NODE_EXIST \/ (badd k v l).1 = HASH_MAP_NODE_REPLACE) as Hcase.
  { rw badd_answer. destruct (bfind k l) as [w|]; [|by left]. right. destruct (v =? w); by [left|right]. }
  destruct Hcase as [E|Hcase].
  - rw E. wp_simpl. iApply wp_ret. iApply "HΦ". by iFrame.
  - iAssert (∃ x y z, hitem a x y z)%I with "[Hrest]" as (x' y' z') "Ha"; [by destruct Hcase as [-> | ->]|].
    assert ((((badd k v l).1 =? HASH_MAP_NODE_EXIST) || ((badd k v l).1 =? HASH_MAP_NODE_REPLACE)) = true) as -> by by destruct Hcase as [-> | ->].
    wp_call. iApply (hitem_free with "Ha"). iIntros ([]) "_". iApply wp_ret. iApply "HΦ". by iFrame.
Qed.

Lemma lf_hash_search_spec h n bs li ld q y k w l : 0 <= n < 31 -> bs !! bucket_of n k = Some l ->
  {{{ hashmap h n bs li ld ∗ hdata q y k w }}} lf_hash_search h q
  {{{ r, ⟨r = if bfind k l is Some _ then HASH_MAP_SEARCH_SUCC else HASH_MAP_SEARCH_FAIL⟩ ∗ hashmap h n bs li ld ∗ hdata q y k w }}}.
Proof.
  iIntros (Hn Hl Φ) "[(%table & %hl & %dl & (%Hh & Hhh & H0 & H1 & H2 & H3 & H4) & Ht & Hli & Hld) (%Hd & Hdh & D0 & D1 & D2)] HΦ". destruct (bucket_index n k Hn) as [Hi _].
  unfold lf_hash_search. wp_assert; [eauto with addr|]. wp_assert; [eauto with addr|]. wp_load. wp_load. wp_load. rw Hi.
  iDestruct (table_acc _ _ _ _ Hl with "Ht") as (head) "(Hhd & (%p & %hx & (%Hb & Hbh & B0 & B1 & B2) & Hl) & Ht)". wp_load. wp_load.
  iApply (lf_hash_search_loop q y k w l p with "[$Hl Hdh D0 D1 D2]"); [by iFrame|]. iIntros (r) "(-> & Hl & Hd)". iApply "HΦ". iSplitR; [done|]. iSplitR "Hd"; [|done].
  iDestruct ("Ht" with "Hhd [Hbh B0 B1 B2 Hl]") as "Ht"; [iExists p, hx; iFrame "Hl"; by iFrame|]. rw list_insert_id //. iExists table, hl, dl. by iFrame.
Qed.

Lemma new_data_spec h n bs li d ld retry :
  {{{ hashmap h n bs li (d :: ld) }}} lf_hash_internal_new_data_from_datalist h retry
  {{{ r, ∃ x k v, ⟨r = (1, d, retry +w 1)⟩ ∗ hdata d x k v ∗ hashmap h n bs li ld }}}.
Proof.
  iIntros (Φ) "(%table & %hl & %dl & (%Hh & Hhh & H0 & H1 & H2 & H3 & H4) & Ht & Hli & Hld) HΦ". unfold lf_hash_internal_new_data_from_datalist. wp_assert; [eauto with addr|]. wp_load.
  wp_call. iApply (datalist_pop_spec with "Hld"). iIntros (r) "(-> & (%x & %k & %v & _ & Hd) & Hld)". iDestruct (hitem_pos with "Hd") as %Hpos. rw (non_null_pos d) //.
  iApply wp_ret. iApply "HΦ". iExists x, k, v. rw hdata_hitem. iSplitR; [done|]. iSplitL "Hd"; [done|]. iExists table, hl, dl. by iFrame.
Qed.
End specs.

(** ** The map *)

Inductive hash_op : Set :=
| HashAdd (k v : Z)
| HashSearch (k : Z).

(** A client takes a datum from the list for every addition; [q] is the datum it searches with. *)
Definition hash_exec {OO : OperandOrder} (op : hash_op) (c : Z * Z) : prog (Z * (Z * Z)) :=
  let '(h, q) := c in
  match op with
  | HashAdd k v =>
      let! (_, data, _) := lf_hash_internal_new_data_from_datalist h 0 in
      store (data + HD_KEY) k;;
      store (data + HD_VAL) v;;
      let! (operation, _, _) := lf_hash_add h data 0 0 in
      Ret (operation, c)
  | HashSearch k =>
      store (q + HD_KEY) k;;
      let! r := lf_hash_search h q in
      Ret (r, c)
  end.

Definition hash_aexec (op : hash_op) (m : gmap Z Z) : Z * gmap Z Z :=
  match op with
  | HashAdd k v =>
      (match m !! k with
       | None => HASH_MAP_NODE_ADD
       | Some w => if v =? w then HASH_MAP_NODE_EXIST else HASH_MAP_NODE_REPLACE
       end, <[k := v]> m)
  | HashSearch k => (if m !! k is Some _ then HASH_MAP_SEARCH_SUCC else HASH_MAP_SEARCH_FAIL, m)
  end.

(** Additions of a script. *)
Definition op_adds (op : hash_op) : nat := if op is HashAdd _ _ then 1 else 0.
Definition adds (ops : list hash_op) : nat := sum_list (op_adds <$> ops).

Lemma adds_cons op ops : adds (op :: ops) = (op_adds op + adds ops)%nat.
Proof. done. Qed.

(** The buckets hold the map: a key is looked for in its bucket. *)
Definition hash_repr (n : Z) (m : gmap Z Z) (bs : list bucket) : Prop :=
  length bs = Z.to_nat (2 ^ n) /\ forall k l, bs !! bucket_of n k = Some l -> bfind k l = m !! k.

Lemma hash_repr_empty n : hash_repr n ∅ (replicate (Z.to_nat (2 ^ n)) []).
Proof. split; [by rw length_replicate|]. intros k l [-> _]%lookup_replicate. by rw lookup_empty. Qed.

Lemma hash_repr_bucket n m bs k : 0 <= n < 31 -> hash_repr n m bs -> exists l, bs !! bucket_of n k = Some l /\ bfind k l = m !! k.
Proof.
  intros Hn [Hlen Hm]. destruct (bucket_index n k Hn) as [_ Hi]. destruct (lookup_lt_is_Some_2 bs (bucket_of n k)) as [l Hl]; [by rw Hlen|]. eauto.
Qed.

Lemma hash_repr_add n m bs k v l : hash_repr n m bs -> bs !! bucket_of n k = Some l -> hash_repr n (<[k := v]> m) (<[bucket_of n k := (badd k v l).2]> bs).
Proof.
  intros [Hlen Hm] Hl. split; [by rw length_insert|]. intros k' l' Hl'. destruct (decide (k' = k)) as [->|Hne].
  - rw list_lookup_insert_eq in Hl'; last by eapply lookup_lt_Some. simplify_eq. by rw bfind_badd Z.eqb_refl lookup_insert_eq.
  - rw lookup_insert_ne //. destruct (decide (bucket_of n k' = bucket_of n k)) as [E|E].
    + rw E list_lookup_insert_eq in Hl'; last by eapply lookup_lt_Some. simplify_eq. rw bfind_badd (proj2 (Z.eqb_neq _ _) Hne). apply Hm. by rw E.
    + rw list_lookup_insert_ne // in Hl'. by apply Hm.
Qed.

Section scripts.
Context {AL : Allocator} {AO : AllocatorOk} {OO : OperandOrder}.

(** A map [m] with enough spare items and data for [a] additions, and the datum of the client. *)
Definition client_map (n : Z) (m : gmap Z Z) (a : nat) (c : Z * Z) : hProp :=
  (∃ bs li ld x k v, ⟨hash_repr n m bs /\ (a <= length li)%nat /\ (a <= length ld)%nat⟩ ∗ hashmap c.1 n bs li ld ∗ hdata c.2 x k v)%I.

Lemma hash_exec_spec n m a op c : 0 <= n < 31 ->
  {{{ client_map n m (op_adds op + a) c }}} hash_exec op c
  {{{ r, ⟨r = ((hash_aexec op m).1, c)⟩ ∗ client_map n (hash_aexec op m).2 a c }}}.
Proof.
  iIntros (Hn Φ) "(%bs & %li & %ld & %x & %k0 & %v0 & %H & Hm & Hq) HΦ". destruct H as (Hr & Hli & Hld), c as [h q]. destruct op as [k v|k]; simpl in *.
  - destruct li as [|i li]; simpl in Hli; [lia|]. destruct ld as [|d ld]; simpl in Hld; [lia|]. wp_call. iApply (new_data_spec with "Hm"). iIntros (r) "(%x1 & %k1 & %v1 & -> & (%Hd & Hdh & D0 & D1 & D2) & Hm)".
    do 2 wp_store. destruct (hash_repr_bucket n m bs k Hn Hr) as (l & Hl & Hf). wp_call. iApply (lf_hash_add_spec h n bs i li ld d x1 k v l with "[$Hm Hdh D0 D1 D2]"); [done|done|by iFrame|].
    iIntros ([[op r1] r2]) "[%Hop Hm]". simpl in Hop. subst op. iApply wp_ret. iApply "HΦ". rw badd_answer Hf. iSplitR; [done|].
    iExists _, li, ld, x, k0, v0. iFrame. iPureIntro. split_and!; [by apply hash_repr_add|lia|lia].
  - iDestruct "Hq" as "(%Hq & Hqh & Q0 & Q1 & Q2)". wp_store. destruct (hash_repr_bucket n m bs k Hn Hr) as (l & Hl & Hf). wp_call.
    iApply (lf_hash_search_spec h n bs li ld q x k v0 l with "[$Hm Hqh Q0 Q1 Q2]"); [done|done|by iFrame|]. iIntros (r) "(-> & Hm & Hq)". iApply wp_ret. iApply "HΦ". rw Hf. iSplitR; [done|].
    iExists bs, li, ld, x, k, v0. iSplitR; [done|]. iSplitL "Hm"; done.
Qed.

Lemma hash_script_spec n ops c : 0 <= n < 31 -> forall m,
  {{{ client_map n m (adds ops) c }}} script hash_exec ops c
  {{{ r, ⟨r = ((ascript hash_aexec ops m).1, c)⟩ ∗ client_map n (ascript hash_aexec ops m).2 0 c }}}.
Proof.
  intros Hn. induction ops as [|op ops IH]; iIntros (m Φ) "Hm HΦ"; cbn [script ascript].
  { iApply wp_ret. iApply "HΦ". by iFrame. }
  rw adds_cons. wp_call. iApply (hash_exec_spec with "Hm"); [done|]. iIntros (r) "[-> Hm]". destruct (hash_aexec op m) as [out m']. cbn [fst snd].
  wp_call. iApply (IH with "Hm"). iIntros (r) "[-> Hm]". destruct (ascript hash_aexec ops m'). iApply wp_ret. iApply "HΦ". by iFrame.
Qed.
End scripts.

(** A client makes a map of [2 ^ n] buckets and runs a script on it; [items] and [data] are
    the numbers of items and data in the lists. *)
Definition hash_client {OO : OperandOrder} (items data n : Z) (ops : list hash_op) : prog (list Z) :=
  with_variable (fun a =>
    hash_new_sized items data a n;;
    let! h := load a in
    let! q := aligned_malloc sizeof_hash_data LF_ALIGN_DOUBLE_POINTER in
    let! (outs, _) := script hash_exec ops (h, q) in
    Ret outs).

Definition hash_client_cost (items data n : Z) : nat := (variable_cost + (hash_cost items data n + hash_item_cost))%nat.

Section claims.
Context {AL : Allocator} {AO : AllocatorOk} {OO : OperandOrder}.

Lemma hash_client_spec items data n ops : is_word items -> is_word data -> 0 <= n < 31 -> Z.of_nat (adds ops) <= items -> Z.of_nat (adds ops) <= data ->
  {{{ credits (hash_client_cost items data n) }}} hash_client items data n ops
  {{{ r, ⟨r = (ascript hash_aexec ops ∅).1⟩ ∗ True }}}.
Proof.
  iIntros (Hi Hd Hn Hai Had Φ) "Hc HΦ". unfold hash_client, hash_client_cost. iDestruct (credits_add with "Hc") as "[Hv Hc]".
  iApply (with_variable_spec _ (credits _) with "[$Hv $Hc] HΦ"). clear Φ. iIntros (a Ha Φ) "[Ha Hc] HΦ". iDestruct (credits_add with "Hc") as "[Hc1 Hc2]".
  wp_call. iApply (hash_new_sized_spec with "[$Ha $Hc1]"); [done..|]. iIntros (rv) "(%h & %li & %ld & %H & Ha & Hm)". destruct H as (_ & Hh & Hli & Hld). wp_load.
  change sizeof_hash_data with sizeof_hash_item. iApply (new_hitem with "Hc2"). iIntros (q x y z Hq) "Hq". wp_call.
  iApply (hash_script_spec n ops (h, q) Hn ∅ with "[Hm Hq]"); [iExists _, li, ld, x, y, z; iSplitR; [|iSplitL "Hm"; done]; iPureIntro; split_and!; [apply hash_repr_empty|lia|lia]|].
  iIntros (r) "[-> Hm]". iApply wp_ret. iApply "HΦ". iSplitL "Ha"; [by iExists h|]. by iSplitR.
Qed.

(** C16. The hash map answers every script of additions and searches as a finite map:
    an addition reports whether the key is new, has this value already, or gets another
    one, and a search finds the keys that were added.  The memory that was there before
    is left alone.  [hash_new] makes the lists with [MAX_HASH_LIST_NUM] items and
    [MAX_HASH_DATA_NUM] data; every addition takes one of each. *)
Theorem hash_refines items data n ops h : is_word items -> is_word data -> 0 <= n < 31 ->
  Z.of_nat (adds ops) <= items -> Z.of_nat (adds ops) <= data -> (hash_client_cost items data n <= alloc_room h)%nat ->
  exists k h', run k (hash_client items data n ops) h = Done (ascript hash_aexec ops ∅).1 h' /\ h ⊆ h'.
Proof.
  intros Hi Hd Hn Hai Had Hc. destruct (run_credits _ _ _ h (hash_client_spec items data n ops Hi Hd Hn Hai Had) Hc) as (k & outs & [hr c] & Hr & Hdj & HQ).
  apply holds_fact in HQ as [-> _]. exists k, (hr ∪ h). split; [done|]. by apply map_union_subseteq_r.
Qed.
End claims.

Definition sample_hash : list hash_op :=
  [HashAdd 5 50; HashAdd 9 90; HashAdd 1 10; HashSearch 9; HashSearch 13; HashAdd 9 90; HashAdd 9 91; HashAdd 13 7; HashSearch 13; HashAdd 2 3].

Lemma hash_refines_witness : exists k h', @run arena _ k (@hash_client true 7 8 2 sample_hash) ∅ = Done [1; 1; 1; 1; 0; 0; 2; 1; 1; 1] h' /\ ∅ ⊆ h'.
Proof.
  apply (@hash_refines arena arena_ok true 7 8 2 sample_hash ∅); [done|done|done|by vm_compute|by vm_compute|]. apply arena_room. by vm_compute.
Defined.
