(* ===== verification/HashmapThreads.v ===== *)
(** * src/advance/lf_hashmap.c: additions that do not end, threads that add, and deallocation. *)
From S2P Require Import Prelude Words Machine SepLogic Alloc Script Basic Divergence Hashmap.
#[local] Open Scope Z_scope.
#[local] Open Scope prog_scope.

Section starve.
Context {AL : Allocator} {OO : OperandOrder}.

(** An empty list of items stays empty, and [lf_hash_add] asks again. *)
Lemma new_element_cycle {A : Set} hs hl he retry (k : Z * Z -> prog A) h :
  0 < hs -> 0 < hl -> 0 < he -> h !! Word (hs + H_HL) = Some hl -> h !! Word (hl + HL_HE) = Some he -> h !! Word (he + HI_NEXT) = Some NULL ->
  steps 5 (bind (loop (new_element_body hs) retry) k, h) (bind (loop (new_element_body hs) retry) k, h).
Proof.
  intros Hhs Hhl Hhe H1 H2 H3. apply steps_loop. unfold new_element_body at 1, lf_hash_add_new_element_from_hashlist, hashlist_pop, barrier. rw (non_null_pos hs) //.
  change (c_assert true) with (Ret tt). prog_simpl. apply (steps_load _ _ hl); [done|]. rw (non_null_pos hl) //. change (c_assert true) with (Ret tt). prog_simpl.
  apply (steps_load _ _ he); [done|]. prog_simpl. apply steps_loop. unfold hashlist_pop_body at 1. rw (proj2 (Z.eqb_neq he NULL)); last (unfold NULL; lia). prog_simpl.
  apply (steps_load _ _ NULL); [done|]. change (NULL =? NULL) with true. prog_simpl. cbn [loop_next]. prog_simpl.
  change (non_null NULL) with false. prog_simpl. change (0 =? 0) with true. prog_simpl. cbn [loop_next]. constructor.
Qed.

(** C30. When the list of items is empty, [lf_hash_add] does not return: from every memory
    where the item at the end of the list is the only one left and its link is null, the
    addition runs for ever. *)
Theorem hash_add_starves hs hdata mask key hl he retry add_retry h k :
  0 < hs -> 0 < hl -> 0 < he -> h !! Word (hs + H_MASK) = Some mask -> h !! Word (hdata + HD_KEY) = Some key ->
  h !! Word (hs + H_HL) = Some hl -> h !! Word (hl + HL_HE) = Some he -> h !! Word (he + HI_NEXT) = Some NULL ->
  run k (lf_hash_add hs hdata retry add_retry) h = Timeout.
Proof.
  intros Hhs Hhl Hhe Hm Hk H1 H2 H3. unfold lf_hash_add. rw (non_null_pos hs) //. change (c_assert true) with (Ret tt). prog_simpl.
  eapply (run_into_cycle 2 4); [|by apply (new_element_cycle hs hl he retry)]. apply (steps_load _ _ mask); [done|]. apply (steps_load _ _ key); [done|]. constructor.
Qed.
End starve.

(** ** Concrete maps

    A map through a pointer at 16 with [items] items and [data] data, in memory that [malloc] fills
    with zeros; key 5 has value 50, and the two data it answers both say so too. *)
Definition sample_map {OO : OperandOrder} (items : Z) : prog (Z * Z * Z) :=
  hash_new_sized items 3 16 1;;
  let! h := load 16 in
  let! (_, d, _) := lf_hash_internal_new_data_from_datalist h 0 in
  store (d + HD_KEY) 5;;
  store (d + HD_VAL) 50;;
  lf_hash_add h d 0 0;;
  let! (_, d1, _) := lf_hash_internal_new_data_from_datalist h 0 in
  store (d1 + HD_KEY) 5;;
  store (d1 + HD_VAL) 50;;
  let! (_, d2, _) := lf_hash_internal_new_data_from_datalist h 0 in
  store (d2 + HD_KEY) 5;;
  store (d2 + HD_VAL) 50;;
  Ret (h, d1, d2).

Definition sample_memory {OO : OperandOrder} (items : Z) : heap :=
  if @run zero_arena _ 500 (sample_map items) {[Word 16 := 0]} is Done _ h then h else ∅.

Lemma sample_memory_done {OO : OperandOrder} items r h : @run zero_arena _ 500 (sample_map items) {[Word 16 := 0]} = Done r h -> sample_memory items = h.
Proof. unfold sample_memory. by intros ->. Qed.

Lemma sample_memory_new {OO : OperandOrder} : exists k, @run zero_arena _ k (sample_map 3) {[Word 16 := 0]} = Done (48, 736, 688) (sample_memory 3).
Proof.
  exists 500%nat. assert (answer (@run zero_arena _ 500 (sample_map 3) {[Word 16 := 0]}) = Some (inl (48, 736, 688))) as (h & Hh)%answer_done; [destruct OO; vm_compute; reflexivity|].
  rw (sample_memory_done _ _ _ Hh). exact Hh.
Qed.

Definition race_freed : list nat := (replicate 5 1 ++ replicate 60 0 ++ replicate 2 1)%nat.

(** C40. Additions race: an addition frees the item it took when the key is there already,
    while another one may still read that item in [hashlist_pop].  Two threads that add
    the same datum can be scheduled so that the second reads memory that was freed. *)
Theorem hash_add_race {OO : OperandOrder} : exists k hs d1 d2 h c,
  @run zero_arena _ k (sample_map 3) {[Word 16 := 0]} = Done (hs, d1, d2) h /\
  rtc (@cstep zero_arena _) ([lf_hash_add hs d1 0 0; lf_hash_add hs d2 0 0], h) c /\
  c.1 = [Ret (HASH_MAP_NODE_EXIST, 1, 1); Crash BadAccess].
Proof.
  destruct sample_memory_new as (k & Hr). exists k, 48, 736, 688, (sample_memory 3). eexists. split_and!; [exact Hr|apply (run_schedule_cstep race_freed)|].
  destruct OO; vm_compute; reflexivity.
Qed.

(** [hash_free] frees the first bucket twice: it ends with the head of bucket 0, which
    [hashtable_delete] has freed, in place of the table. *)
Theorem hash_free_twice {OO : OperandOrder} : exists k h, @run zero_arena _ k (let! (hs, _, _) := sample_map 3 in hash_free hs) {[Word 16 := 0]} = Error BadAccess h.
Proof. exists 1000%nat. apply answer_error. destruct OO; vm_compute; reflexivity. Qed.

(** [hash_lookup] takes the number of buckets for a mask and reads the data of the
    head of a bucket, which has none: looking for a key that was added faults. *)
Theorem hash_lookup_faults {OO : OperandOrder} : exists k h, @run zero_arena _ k (let! (hs, _, _) := sample_map 3 in hash_lookup hs 5) {[Word 16 := 0]} = Error BadAccess h.
Proof. exists 1000%nat. apply answer_error. destruct OO; vm_compute; reflexivity. Qed.

Lemma hash_add_starves_witness : exists h, forall k, @run zero_arena _ k (@lf_hash_add 48 640 0 0) h = Timeout.
Proof.
  exists (@sample_memory true 1). intros k.
  apply (@hash_add_starves zero_arena 48 640 1 5 352 400 0 0); vm_compute; reflexivity.
Defined.
