(* ===== verification/Binarytree.v ===== *)
(** * src/advance/lf_binarytree.c: a binary tree whose nodes come from a list made in advance.

    The insertion is a stub in the code; the list of nodes works, the search looks at
    the root only, and the constructor writes through a pointer that is not set. *)
From S2P Require Import Prelude Words Machine SepLogic Alloc Script Basic Freelist Divergence Memtrie.
#[local] Open Scope Z_scope.
#[local] Open Scope prog_scope.

(** ** Layout and constants (src/advance/lf_binarytree.h) *)

Definition BINARY_HIT_LEFT : Z := -1.
Definition BINARY_HIT_EQUAL : Z := 0.
Definition BINARY_HIT_RIGHT : Z := 1.
Definition BINARY_SEARCH_SUCCESS : Z := 1.
Definition BINARY_SEARCH_ERROR : Z := 2.

(** [struct binary_node]: [_left], [_right], [data]. *)
Definition BN_LEFT : Z := 0.
Definition BN_RIGHT : Z := 8.
Definition BN_DATA : Z := 16.
Definition sizeof_binary_node : Z := 24.

(** [struct binarytree]: [root], [cmp_func], [counter]. *)
Definition BT_ROOT : Z := 0.
Definition BT_CMP : Z := 8.
Definition BT_COUNTER : Z := 16.
Definition sizeof_binarytree : Z := 24.

(** [struct binary_node_list]: [first], [nodelist_counter]. *)
Definition BL_FIRST : Z := 0.
Definition BL_COUNTER : Z := 8.
Definition sizeof_binary_node_list : Z := 16.

(** [struct binarytree_state]: [nodelist], [tree], [init_node_counter]. *)
Definition BS_NODES : Z := 0.
Definition BS_TREE : Z := 8.
Definition BS_INIT : Z := 16.
Definition sizeof_binarytree_state : Z := 24.

(** ** The list of nodes *)

Section code.
Context {OO : OperandOrder} {LK : Linker}.

Definition binarytree_node_push_body (nodelist local_node original_node : Z) : prog (Z + unit) :=
  store (local_node + BN_RIGHT) original_node;;
  let! (again, original_node) :=
    cas_against (local_node + BN_RIGHT) (nodelist + BL_FIRST) local_node original_node in
  if again then Ret (inl original_node) else Ret (inr tt).

Definition binarytree_node_push (nodelist node : Z) : prog unit :=
  barrier;;
  let! original_node := load (nodelist + BL_FIRST) in
  loop (binarytree_node_push_body nodelist node) original_node;;
  abstraction_increment (nodelist + BL_COUNTER);;
  barrier.

(** [None]: the list is empty. *)
Definition binarytree_node_pop_body (nodelist local_node : Z) : prog (Z + option Z) :=
  let original_node := local_node in
  let! first := load (nodelist + BL_FIRST) in
  if first =? NULL then Ret (inr None)
  else
    let! right_node := load (local_node + BN_RIGHT) in
    let! local_node := abstraction_cas (nodelist + BL_FIRST) right_node original_node in
    if original_node =? local_node then Ret (inr (Some local_node)) else Ret (inl local_node).

(** The return value, and what is stored through [node]. *)
Definition binarytree_node_pop (nodelist : Z) : prog (Z * Z) :=
  c_assert (non_null nodelist);;
  barrier;;
  let! local_node := load (nodelist + BL_FIRST) in
  let! popped := loop (binarytree_node_pop_body nodelist) local_node in
  match popped with
  | None => Ret (0, NULL)
  | Some local_node =>
      abstraction_sub (nodelist + BL_COUNTER);;
      store (local_node + BN_RIGHT) NULL;;
      Ret (1, local_node)
  end.

Definition lf_binarytree_nodelist_free_body (nodelist : Z) (_ : unit) : prog (unit + unit) :=
  let! (rv, node) := binarytree_node_pop nodelist in
  if truthy rv then aligned_free node;; Ret (inl tt) else Ret (inr tt).

Definition lf_binarytree_nodelist_free (nodelist : Z) : prog unit :=
  c_assert (non_null nodelist);;
  loop (lf_binarytree_nodelist_free_body nodelist) tt;;
  aligned_free nodelist.

Definition binarytree_nodelist_new_elements_body (nodelist node_num : Z) (s : Z * Z) : prog ((Z * Z) + Z) :=
  let '(loop, count) := s in
  if loop <? node_num then
    let! node := aligned_malloc sizeof_binary_node LF_ALIGN_DOUBLE_POINTER in
    if non_null node then
      memset0 node 3;;
      binarytree_node_push nodelist node;;
      Ret (inl (loop +w 1, count +w 1))
    else Ret (inl (loop +w 1, count))
  else Ret (inr count).

Definition binarytree_nodelist_new_elements (nodelist node_num : Z) : prog Z :=
  c_assert (non_null nodelist);;
  let! count := loop (binarytree_nodelist_new_elements_body nodelist node_num) (0, 0) in
  barrier;;
  Ret count.

(** [nodelist] is the address of the caller's pointer; the fields of the new list keep
    what [malloc] left in them. *)
Definition binarytree_new_nodelist (nodelist node_num : Z) : prog Z :=
  let! p := aligned_malloc sizeof_binary_node_list LF_ALIGN_DOUBLE_POINTER in
  store nodelist p;;
  let! p := load nodelist in
  let! rv :=
    (if non_null p then
       let! p := load nodelist in
       let! element_count := binarytree_nodelist_new_elements p node_num in
       if element_count =? node_num then Ret 1
       else
         let! p := load nodelist in
         lf_binarytree_nodelist_free p;;
         let! p := load nodelist in
         aligned_free p;;
         store nodelist NULL;;
         Ret 0
     else Ret 0) in
  barrier;;
  Ret rv.

(** ** The tree *)

Definition binarytree_new_entry (tree : Z) : prog Z :=
  c_assert (non_null tree);;
  let! p := aligned_malloc sizeof_binarytree LF_ALIGN_DOUBLE_POINTER in
  store tree p;;
  let! p := load tree in
  if non_null p then
    let! p := load tree in
    memset0 p 3;;
    let! root := aligned_malloc sizeof_binary_node LF_ALIGN_DOUBLE_POINTER in
    let! p := load tree in
    store (p + BT_ROOT) root;;
    let! p := load tree in
    let! root := load (p + BT_ROOT) in
    memset0 root 3;;
    Ret 1
  else Ret 0.

(** [state] is the address of the caller's pointer.  The code passes the value of the
    field [nodelist] to [binarytree_new_nodelist], not its address. *)
Definition binarytree_new (state node_num : Z) : prog Z :=
  let! p := aligned_malloc sizeof_binarytree_state LF_ALIGN_DOUBLE_POINTER in
  store state p;;
  let! p := load state in
  (if non_null p then
     let! p := load state in
     store (p + BS_INIT) node_num;;
     let! p := load state in
     binarytree_new_entry (p + BS_TREE);;
     let! p := load state in
     let! nodelist := load (p + BS_NODES) in
     binarytree_new_nodelist nodelist node_num;;
     Ret tt
   else Ret tt);;
  let! p := load state in
  let! nodelist := load (p + BS_NODES) in
  let! both :=
    (if non_null nodelist then let! tree := load (p + BS_TREE) in Ret (non_null tree) else Ret false) in
  (if negb both then
     let! tree := load (p + BS_TREE) in
     (if non_null tree then aligned_free tree else Ret tt);;
     let! nodelist := load (p + BS_NODES) in
     (if non_null nodelist then aligned_free nodelist else Ret tt);;
     (if non_null p then aligned_free p else Ret tt)
   else Ret tt);;
  barrier;;
  Ret 1.

Definition binarytree_use (state : Z) : prog unit :=
  c_assert (non_null state);;
  barrier.

(** The code answers null whatever the tree holds. *)
Definition binarytree_get_subnode (state parent prev prev_next data : Z) : prog Z :=
  c_assert (non_null parent);;
  Ret NULL.

(** A call through a null function pointer faults. *)
Definition binarytree_search_subnode (state parent data : Z) : prog Z :=
  c_assert (non_null parent);;
  let! tree := load (state + BS_TREE) in
  let! cmp_func := load (tree + BT_CMP) in
  let! payload := load (parent + BN_DATA) in
  let! hit := (if non_null cmp_func then icall cmp_func payload data else Crash BadAccess) in
  if hit =? BINARY_HIT_LEFT then load (parent + BN_LEFT)
  else if hit =? BINARY_HIT_EQUAL then Ret parent
  else if hit =? BINARY_HIT_RIGHT then load (parent + BN_RIGHT)
  else Ret NULL.

Definition lf_binarytree_insert (state data : Z) : prog Z := Ret 0.

Definition lf_binarytree_search_body (state data current : Z) (_ : unit) : prog (unit + Z) :=
  let! node := binarytree_search_subnode state current data in
  if node =? current then Ret (inr BINARY_SEARCH_SUCCESS)
  else if node =? NULL then Ret (inr BINARY_SEARCH_ERROR)
  else Ret (inl tt).

Definition lf_binarytree_search (state data : Z) : prog Z :=
  let! tree := load (state + BS_TREE) in
  let! current := load (tree + BT_ROOT) in
  loop (lf_binarytree_search_body state data current) tt.

(** [cas_result] stays 0, so the loop goes on unless there is a subnode. *)
Definition lf_binarytree_insert_node_body (state node parent prev prev_next data : Z) (_ : unit) : prog (unit + Z) :=
  let! rv_node := binarytree_get_subnode state parent prev prev_next data in
  if non_null rv_node then
    store (node + BN_RIGHT) NULL;;
    let! nodelist := load (state + BS_NODES) in
    binarytree_node_push nodelist node;;
    Ret (inr rv_node)
  else Ret (inl tt).

Definition lf_binarytree_insert_node (state parent prev prev_next data : Z) : prog Z :=
  let! nodelist := load (state + BS_NODES) in
  let! (rv, node) := binarytree_node_pop nodelist in
  if negb (truthy rv) then Ret NULL
  else
    store (node + BN_DATA) data;;
    loop (lf_binarytree_insert_node_body state node parent prev prev_next data) tt.

Definition lf_binarytree_free (tree : Z) : prog unit :=
  c_assert (non_null tree);;
  aligned_free tree.

Definition lf_binarytree_state_free (state : Z) : prog unit :=
  if non_null state then
    let! nodelist := load (state + BS_NODES) in
    (if non_null nodelist then
       let! nodelist := load (state + BS_NODES) in
       lf_binarytree_nodelist_free nodelist
     else Ret tt);;
    let! tree := load (state + BS_TREE) in
    (if non_null tree then
       let! tree := load (state + BS_TREE) in
       lf_binarytree_free tree
     else Ret tt);;
    aligned_free state
  else Ret tt.

(** An [int] is the low half of a word; a difference that is not an [int] wraps around. *)
Definition lf_binarytree_int_comparator (d1 d2 : Z) : prog Z :=
  let! y := load d2 in
  let! x := load d1 in
  Ret (to_int (to_int y - to_int x)).
End code.

(** ** The list of nodes

    The functions on the list are those of the trie, for nodes of the same size. *)

Lemma node_push_trie {OO : OperandOrder} nl a : binarytree_node_push nl a = tnode_push nl a.
Proof. reflexivity. Qed.

Lemma node_pop_trie nl : binarytree_node_pop nl = tnode_pop nl.
Proof. reflexivity. Qed.

Lemma nodelist_free_trie nl : lf_binarytree_nodelist_free nl = trie_nodelist_free nl.
Proof. reflexivity. Qed.

Lemma new_elements_trie {OO : OperandOrder} nl n : binarytree_nodelist_new_elements nl n = trie_nodelist_new_elements nl n.
Proof. reflexivity. Qed.

(** A client asks for nodes and gives some back; it holds the nodes that it got. *)
Inductive node_op : Set := NodePop | NodePush (i : nat).

Definition node_exec {OO : OperandOrder} (nl : Z) (op : node_op) (held : list Z) : prog (list Z) :=
  match op with
  | NodePop =>
      let! (rv, node) := binarytree_node_pop nl in
      Ret (if truthy rv then node :: held else held)
  | NodePush i =>
      if held !! i is Some node then binarytree_node_push nl node;; Ret (delete i held) else Ret held
  end.

Fixpoint nodes_script {OO : OperandOrder} (nl : Z) (ops : list node_op) (held : list Z) : prog (list Z) :=
  match ops with
  | [] => Ret held
  | op :: ops => let! held := node_exec nl op held in nodes_script nl ops held
  end.

Definition nodes_client {OO : OperandOrder} (n : Z) (ops : list node_op) : prog (list Z) :=
  with_variable (fun a =>
    binarytree_new_nodelist a n;;
    let! nl := load a in
    nodes_script nl ops []).

(** A stack of nodes: the free ones and those of the client; [None] when a node is
    asked for and there is none. *)
Definition node_aexec (op : node_op) (s : list Z * list Z) : option (list Z * list Z) :=
  match op with
  | NodePop => if s.1 is node :: free then Some (free, node :: s.2) else None
  | NodePush i => Some (if s.2 !! i is Some node then (node :: s.1, delete i s.2) else s)
  end.

Fixpoint nodes_ascript (ops : list node_op) (s : list Z * list Z) : option (list Z * list Z) :=
  match ops with
  | [] => Some s
  | op :: ops => node_aexec op s ≫= nodes_ascript ops
  end.

(** Whether [free] nodes suffice for a client that has [held]. *)
Fixpoint nodes_fit (ops : list node_op) (free held : nat) : bool :=
  match ops with
  | [] => true
  | NodePop :: ops => (0 <? free)%nat && nodes_fit ops (free - 1) (held + 1)
  | NodePush i :: ops => if (i <? held)%nat then nodes_fit ops (free + 1) (held - 1) else nodes_fit ops free held
  end.

Definition nodes_client_cost (n : Z) : nat := (variable_cost + trie_nodelist_cost n)%nat.

Section nodes.
Context {AL : Allocator} {AO : AllocatorOk} {OO : OperandOrder}.

Lemma binarytree_new_nodelist_spec a n : is_word n ->
  {{{ cell a ∗ credits (trie_nodelist_cost n) }}} binarytree_new_nodelist a n
  {{{ rv, ∃ nl b l, ⟨rv = 1 /\ Z.of_nat (length l) = n⟩ ∗ a ↦ nl ∗ node_list nl b l }}}.
Proof.
  iIntros (Hw Φ) "[(%v & Ha) Hcr] HΦ". unfold binarytree_new_nodelist. iDestruct (credits_add with "Hcr") as "[Hcr1 Hcr]".
  wp_call. iApply (aligned_malloc_spec with "Hcr1"); [done|]. iIntros (nl) "(%vs & Hnl)".
  iDestruct (aligned_facts with "Hnl") as %[Hnl Hlen]. destruct vs as [|b [|c [|]]]; simpl in Hlen; unfold sizeof_trie_node_list in Hlen; try lia.
  wp_store. wp_load. rw (aligned_addr_non_null0 _ _ _ Hnl). wp_load. rw new_elements_trie. wp_call. unfold trie_nodelist_new_elements. wp_assert; [eauto with addr|]. wp_call.
  iApply (trie_nodelist_new_elements_loop nl b n (Z.to_nat n) Hw [] 0 with "[Hnl $Hcr]"); [unfold is_word in Hw; lia|lia| |].
  { unfold node_list, NL_FIRST, NL_COUNTER. rw Z.add_0_r. iDestruct "Hnl" as "(_ & Hh & H0 & H1 & _)". simpl. iFrame. done. }
  iIntros (r) "(%new & %Hr & Hl)". destruct Hr as [-> Hn]. wp_simpl. iApply wp_ret. rw Z.eqb_refl. wp_simpl. iApply wp_ret.
  iApply "HΦ". iExists nl, b, new. rw app_nil_r. iFrame. iPureIntro. unfold is_word in Hw. split; [done|lia].
Qed.

(** Nodes of the client. *)
Definition own_nodes (l : list Z) : hProp := ([∗ list] a ∈ l, ∃ k, tnode a NULL NULL k)%I.

Lemma free_nodes_fresh b l a v : free_nodes b l ∗ (a + TN_FIRST) ↦ v ⊢ ⌜a ∉ l⌝.
Proof.
  induction l as [|x l IH]; simpl.
  - iIntros "_". iPureIntro. apply not_elem_of_nil.
  - iIntros "[[(%k & _ & _ & Hx & _) Hl] Ha]". rw not_elem_of_cons. iDestruct (IH with "[$Hl $Ha]") as %?.
    iDestruct (pointsto_ne with "[$Ha $Hx]") as %?. iPureIntro. split; [unfold TN_FIRST in *; lia|done].
Qed.

Lemma node_list_NoDup nl b l : node_list nl b l ⊢ ⌜NoDup l⌝.
Proof.
  iIntros "(_ & _ & _ & _ & Hl)". iInduction l as [|x l] "IH"; simpl; [iPureIntro; constructor|].
  iDestruct "Hl" as "[(%k & _ & _ & Hx & _) Hl]". iDestruct (free_nodes_fresh with "[$Hl $Hx]") as %?.
  iDestruct ("IH" with "Hl") as %?. iPureIntro. by constructor.
Qed.

Lemma node_exec_spec nl b op l held l' held' : node_aexec op (l, held) = Some (l', held') ->
  {{{ node_list nl b l ∗ own_nodes held }}} node_exec nl op held {{{ r, ⟨r = held'⟩ ∗ node_list nl b l' ∗ own_nodes held' }}}.
Proof.
  iIntros (Ha Φ) "[Hl Hh] HΦ". destruct op as [|i]; simpl in *.
  - destruct l as [|a l]; [done|]. simplify_eq. rw node_pop_trie. wp_call. iApply (tnode_pop_spec with "Hl"); [by left|].
    iIntros (r) "(-> & Ha & Hl)". wp_simpl. iApply wp_ret. iApply "HΦ". change (truthy 1) with true. iSplitR; [done|]. iFrame "Hl".
    unfold own_nodes. simpl. iFrame.
  - destruct (held !! i) as [a|] eqn:Hi; simplify_eq; [|iApply wp_ret; iApply "HΦ"; by iFrame].
    unfold own_nodes. rewrite -> (delete_Permutation held i a Hi) at 1. simpl. iDestruct "Hh" as "[(%k & Ha) Hh]".
    rw node_push_trie. wp_call. iApply (tnode_push_spec with "[$Hl $Ha]"). iIntros ([]) "Hl". iApply wp_ret. iApply "HΦ". by iFrame.
Qed.

Lemma nodes_script_spec nl b ops : forall l held l' held', nodes_ascript ops (l, held) = Some (l', held') ->
  {{{ node_list nl b l ∗ own_nodes held }}} nodes_script nl ops held {{{ r, ⟨r = held'⟩ ∗ node_list nl b l' ∗ own_nodes held' }}}.
Proof.
  induction ops as [|op ops IH]; iIntros (l held l' held' Ha Φ) "[Hl Hh] HΦ"; simpl in *.
  - simplify_eq. iApply wp_ret. iApply "HΦ". by iFrame.
  - apply bind_Some in Ha as ([l1 held1] & H1 & H2). wp_call. iApply (node_exec_spec with "[$Hl $Hh]"); [done|].
    iIntros (r) "(-> & Hl & Hh)". iApply (IH with "[$Hl $Hh] HΦ"). done.
Qed.

Lemma nodes_fit_ascript ops : forall l held, nodes_fit ops (length l) (length held) = true -> is_Some (nodes_ascript ops (l, held)).
Proof.
  induction ops as [|[|i] ops IH]; intros l held; simpl; [by eexists|..].
  - destruct l as [|a l]; [done|]. simpl. rw Nat.sub_0_r. intros Hf. apply IH. simpl. by replace (S (length held)) with (length held + 1)%nat by lia.
  - destruct (held !! i) as [a|] eqn:Hi.
    + rewrite -> (proj2 (Nat.ltb_lt i (length held))) by by eapply lookup_lt_Some. intros Hf. apply IH. simpl.
      rewrite -> length_delete by by eexists. by rewrite <- Nat.add_1_r.
    + rewrite -> (proj2 (Nat.ltb_ge i (length held))) by by apply lookup_ge_None. apply IH.
Qed.

(** C25. The list of nodes of the tree is a stack: for any client that asks for nodes
    and gives them back in any order, and never asks for one when there is none left,
    the nodes that it has are those that a stack of [n] distinct nodes hands out; the
    memory that was there before is left alone.  A request to the empty list is left
    out, because the list ends in what [malloc] left in its first word. *)
Theorem binarytree_nodes n ops h : is_word n -> (nodes_client_cost n <= alloc_room h)%nat -> nodes_fit ops (Z.to_nat n) 0 = true ->
  exists m h' nodes free held, run m (nodes_client n ops) h = Done held h' /\ h ⊆ h' /\
    Z.of_nat (length nodes) = n /\ NoDup nodes /\ nodes_ascript ops (nodes, []) = Some (free, held).
Proof.
  intros Hn Hc Hf.
  destruct (run_credits (nodes_client n ops) (nodes_client_cost n) (fun r => ∃ nodes free, ⟨Z.of_nat (length nodes) = n /\ NoDup nodes /\
    nodes_ascript ops (nodes, []) = Some (free, r)⟩ ∗ True)%I h) as (k & held & r & Hr & Hd & HQ); [|done|].
  - iIntros (Φ) "Hc HΦ". iDestruct (credits_add with "Hc") as "[Hv Hc]".
    iApply (with_variable_spec _ (credits (trie_nodelist_cost n)) with "[$Hv $Hc]"); [|done]. iIntros (a Ha Ψ) "[Ha Hc] HΨ".
    wp_call. iApply (binarytree_new_nodelist_spec with "[$Ha $Hc]"); [done|]. iIntros (rv) "(%nl & %b & %l & %Hl & Ha & Hl)". destruct Hl as [_ Hl].
    iDestruct (node_list_NoDup with "Hl") as %Hnd. destruct (nodes_fit_ascript ops l []) as [[free held] Hs]; [by replace (length l) with (Z.to_nat n) by lia|].
    wp_load. iApply (nodes_script_spec with "[$Hl]"); [done|by rw /own_nodes /=|]. iIntros (r) "(-> & Hl & Hh)". iApply "HΨ". iSplitL "Ha"; [by iExists nl|].
    iExists l, free. by iSplitR.
  - destruct r as [hr c]. destruct HQ as (nodes & free & HQ). apply holds_fact in HQ as [(Hl & Hnd & Hs) _].
    exists k, (hr ∪ h), nodes, free, held. split_and!; [done|by apply map_union_subseteq_r|done..].
Qed.
End nodes.

Definition sample_nodes : list node_op := [NodePop; NodePop; NodePush 1; NodePop; NodePush 0; NodePush 5].

Lemma binarytree_nodes_witness : exists m h' nodes free held, @run arena _ m (@nodes_client true 2 sample_nodes) ∅ = Done held h' /\ ∅ ⊆ h' /\
  Z.of_nat (length nodes) = 2 /\ NoDup nodes /\ nodes_ascript sample_nodes (nodes, []) = Some (free, held).
Proof. apply (@binarytree_nodes arena arena_ok true 2 sample_nodes ∅); [done|apply arena_room; by vm_compute|by vm_compute]. Defined.

(** ** Search and insertion *)

(** The node that [binarytree_search_subnode] answers when the comparator says [hit]. *)
Definition hit_node (hit node left_node right_node : Z) : Z :=
  if hit =? BINARY_HIT_LEFT then left_node
  else if hit =? BINARY_HIT_EQUAL then node
  else if hit =? BINARY_HIT_RIGHT then right_node
  else NULL.

Section search.
Context {AL : Allocator} {OO : OperandOrder} {LK : Linker}.

(** A callback that takes [m] steps, answers [r] and leaves the memory alone. *)
Definition answers (m : nat) (f x y r : Z) (h : heap) : Prop :=
  forall (A : Set) (k : Z -> prog A), steps m (bind (icall f x y) k, h) (k r, h).

(** A tree whose root has these fields. *)
Record root_at (state root cmp_func payload left_node right_node : Z) (h : heap) : Prop := {
  root_tree : exists tree, h !! Word (state + BS_TREE) = Some tree /\ h !! Word (tree + BT_ROOT) = Some root /\ h !! Word (tree + BT_CMP) = Some cmp_func;
  root_data : h !! Word (root + BN_DATA) = Some payload;
  root_left : h !! Word (root + BN_LEFT) = Some left_node;
  root_right : h !! Word (root + BN_RIGHT) = Some right_node
}.

Lemma search_subnode_steps state root cmp_func payload left_node right_node hit data m h :
  root_at state root cmp_func payload left_node right_node h -> 0 < root -> cmp_func ≠ NULL -> answers m cmp_func payload data hit h ->
  exists n, forall (A : Set) (k : Z -> prog A),
    steps n (bind (binarytree_search_subnode state root data) k, h) (k (hit_node hit root left_node right_node), h).
Proof.
  intros [(tree & Ht & _ & Hc) Hd Hl Hr] Hp Hf Ha.
  assert (exists n, forall (A : Set) (k : Z -> prog A),
    steps n (bind (if hit =? BINARY_HIT_LEFT then load (root + BN_LEFT) else if hit =? BINARY_HIT_EQUAL then Ret root
      else if hit =? BINARY_HIT_RIGHT then load (root + BN_RIGHT) else Ret NULL) k, h) (k (hit_node hit root left_node right_node), h)) as [n Hn].
  { unfold hit_node. repeat case_match; [exists 1%nat|exists 0%nat|exists 1%nat|exists 0%nat]; intros A k; try constructor;
      (eapply steps_load; [done|constructor]). }
  exists (3 + (m + n))%nat. intros A k. unfold binarytree_search_subnode. rw (non_null_pos root) //. change (c_assert true) with (Ret tt). prog_simpl.
  apply (steps_load _ _ tree); [done|]. prog_simpl. apply (steps_load _ _ cmp_func); [done|]. prog_simpl. apply (steps_load _ _ payload); [done|]. prog_simpl.
  assert (non_null cmp_func = true) as -> by (by apply negb_true_iff, Z.eqb_neq).
  eapply steps_app; [apply Ha|apply Hn].
Qed.

(** C31. [lf_binarytree_search] looks at the root only: when the comparator sends it to
    the root itself it succeeds, when it sends it to no node it fails, and when it
    sends it to a child it does not return, since the loop never goes to the child. *)
Theorem binarytree_search_root state root cmp_func payload left_node right_node hit data m h :
  root_at state root cmp_func payload left_node right_node h -> 0 < root -> cmp_func ≠ NULL -> answers m cmp_func payload data hit h ->
  let next := hit_node hit root left_node right_node in
  if next =? root then exists k, run k (lf_binarytree_search state data) h = Done BINARY_SEARCH_SUCCESS h
  else if next =? NULL then exists k, run k (lf_binarytree_search state data) h = Done BINARY_SEARCH_ERROR h
  else forall k, run k (lf_binarytree_search state data) h = Timeout.
Proof.
  intros Hat Hp Hf Ha next. destruct (search_subnode_steps state root cmp_func payload left_node right_node hit data m h Hat Hp Hf Ha) as [n Hn].
  destruct Hat as [(tree & Ht & Hr & _) _ _ _].
  assert (steps 2 (lf_binarytree_search state data, h) (loop (lf_binarytree_search_body state data root) tt, h)) as Hstart.
  { unfold lf_binarytree_search. apply (steps_load _ _ tree); [done|]. apply (steps_load _ _ root); [done|]. constructor. }
  assert (steps (S n) (loop (lf_binarytree_search_body state data root) tt, h)
    (bind (if next =? root then Ret (inr BINARY_SEARCH_SUCCESS) else if next =? NULL then Ret (inr BINARY_SEARCH_ERROR) else Ret (inl tt))
       (loop_next (lf_binarytree_search_body state data root) Ret), h)) as Hbody.
  { rw -(bind_ret_r (loop _ _)). apply steps_loop. unfold lf_binarytree_search_body at 1. rw bind_assoc. apply Hn. }
  pose proof (steps_app _ _ _ _ _ Hstart Hbody) as Hall.
  destruct (next =? root); [|destruct (next =? NULL)].
  - exists (2 + S n + 0)%nat. rw (run_steps _ _ _ _ _ _ Hall). done.
  - exists (2 + S n + 0)%nat. rw (run_steps _ _ _ _ _ _ Hall). done.
  - intros k. by apply (run_into_cycle 2 n _ _ _ _ _ Hstart).
Qed.

(** The first node of a list, in memory where its fields are apart from those of the list. *)
Record first_node (nodelist node : Z) (h : heap) : Prop := {
  first_addr : 0 < nodelist /\ 0 < node;
  first_head : h !! Word (nodelist + BL_FIRST) = Some node;
  first_count : is_Some (h !! Word (nodelist + BL_COUNTER));
  first_right : is_Some (h !! Word (node + BN_RIGHT));
  first_data : is_Some (h !! Word (node + BN_DATA));
  first_apart : nodelist + BL_COUNTER ≠ node + BN_RIGHT /\ nodelist + BL_FIRST ≠ node + BN_RIGHT /\
    nodelist + BL_FIRST ≠ node + BN_DATA /\ nodelist + BL_COUNTER ≠ node + BN_DATA
}.

Lemma node_pop_steps nodelist node h : first_node nodelist node h ->
  exists n h', is_Some (h' !! Word (node + BN_DATA)) /\
    forall (A : Set) (k : Z * Z -> prog A), steps n (bind (binarytree_node_pop nodelist) k, h) (k (1, node), h').
Proof.
  intros [[Hnl Hno] Hf [c Hc] [r Hr] [d Hd] (N1 & N2 & N3 & N4)].
  exists 7%nat, (<[Word (node + BN_RIGHT) := NULL]> (<[Word (nodelist + BL_COUNTER) := c +w -1]> (<[Word (nodelist + BL_FIRST) := r]> h))). split.
  { exists d. rw !lookup_insert_ne //; unfold BN_RIGHT, BN_DATA, BL_FIRST, BL_COUNTER in *; congruence || (intros [=]; lia). }
  intros A k. unfold binarytree_node_pop, barrier. rw (non_null_pos nodelist) //. change (c_assert true) with (Ret tt). prog_simpl.
  apply (steps_load _ _ node); [done|]. prog_simpl. apply steps_loop. unfold binarytree_node_pop_body at 1. prog_simpl.
  apply (steps_load _ _ node); [done|]. rw (proj2 (Z.eqb_neq node NULL)); last (unfold NULL; lia). prog_simpl.
  apply (steps_load _ _ r); [done|]. unfold abstraction_cas, abstraction_sub. rw (non_null_pos (nodelist + BL_FIRST)); last (unfold BL_FIRST; lia).
  change (c_assert true) with (Ret tt). prog_simpl. apply steps_cas; [done|]. rw Z.eqb_refl. prog_simpl. cbn [loop_next]. prog_simpl.
  rw (non_null_pos (nodelist + BL_COUNTER)); last (unfold BL_COUNTER; lia). change (c_assert true) with (Ret tt). prog_simpl.
  eapply (steps_add _ _ c); [rw lookup_insert_ne //; unfold BL_FIRST, BL_COUNTER; intros [=]; lia|]. prog_simpl.
  apply (steps_store _ _ r); [rw !lookup_insert_ne //; congruence|]. constructor.
Qed.

(** [lf_binarytree_insert_node] does not return when there is a free node:
    [binarytree_get_subnode] always answers null and nothing sets [cas_result]. *)
Theorem binarytree_insert_diverges state parent prev prev_next data nodelist node h k :
  0 < parent -> h !! Word (state + BS_NODES) = Some nodelist -> first_node nodelist node h ->
  run k (lf_binarytree_insert_node state parent prev prev_next data) h = Timeout.
Proof.
  intros Hpa Hs Hfn. destruct (node_pop_steps nodelist node h Hfn) as (n & h' & [d Hd] & Hn).
  set (body := lf_binarytree_insert_node_body state node parent prev prev_next data).
  eapply (run_into_cycle (1 + (n + 1)) 0 _ _ (loop body tt) (<[Word (node + BN_DATA) := data]> h')).
  - unfold lf_binarytree_insert_node. apply (steps_load _ _ nodelist); [done|]. eapply steps_app; [apply Hn|]. simpl. apply (steps_store _ _ d); [done|]. constructor.
  - rw -{1}(bind_ret_r (loop body tt)). apply steps_loop. unfold body at 1, lf_binarytree_insert_node_body, binarytree_get_subnode. rw (non_null_pos parent) //.
    change (c_assert true) with (Ret tt). prog_simpl. change (non_null NULL) with false. prog_simpl. cbn [loop_next]. constructor.
Qed.
End search.

(** [binarytree_new] faults: it hands the contents of the new field [nodelist] to
    [binarytree_new_nodelist], which stores through it.  This holds when [malloc] leaves
    zeros in the field and when it leaves something that is no address. *)
Theorem binarytree_new_faults {OO : OperandOrder} :
  (exists k h, @run zero_arena _ k (with_variable (fun a => binarytree_new a 1)) ∅ = Error BadAccess h) /\
  (exists k h, @run arena _ k (with_variable (fun a => binarytree_new a 1)) ∅ = Error BadAccess h).
Proof. split; exists 500%nat; apply answer_error; destruct OO; vm_compute; reflexivity. Qed.

(** ** Witnesses *)

(** The comparator for integers, at address 1. *)
#[local] Instance int_linker : Linker := fun f x y => if f =? 1 then lf_binarytree_int_comparator x y else Crash BadAccess.

(** A state at 16 with its tree at 48, the root at 80 with payload 5 and a left child, a
    list at 112 with the node at 144; the words at 200 and 208 hold 5 and 4. *)
Definition sample_tree : heap := list_to_map
  [(Word 16, 112); (Word 24, 48); (Word 32, 1); (Word 48, 80); (Word 56, 1); (Word 64, 0); (Word 80, 176); (Word 88, 0); (Word 96, 200);
   (Word 112, 144); (Word 120, 1); (Word 144, 0); (Word 152, 0); (Word 160, 0); (Word 200, 5); (Word 208, 4)].

Lemma binarytree_search_root_witness : exists h, forall k, @run arena _ k (@lf_binarytree_search int_linker 16 208) h = Timeout.
Proof.
  exists sample_tree. apply (@binarytree_search_root arena int_linker 16 80 1 200 176 0 (-1) 208 2 sample_tree); [|done|done|].
  - split; [exists 48; done|done..].
  - intros A k. apply (steps_load _ _ 4); [done|]. apply (steps_load _ _ 5); [done|]. constructor.
Defined.

Lemma binarytree_insert_diverges_witness : exists h, forall k, @run arena _ k (@lf_binarytree_insert_node true 16 80 0 0 208) h = Timeout.
Proof.
  exists sample_tree. intros k. apply (@binarytree_insert_diverges arena true 16 80 0 0 208 112 144 sample_tree k); [done|done|].
  split; [done|done|by eexists|by eexists|by eexists|done].
Defined.
