(* ===== verification/Objects.v ===== *)
(** * Concurrent objects and their clients.

    An object has operations that take effect at once on an abstract state.  A
    client is a program, one per thread, that uses shared memory and calls the
    operations.  An implementation gives a program for every operation; it is
    linearizable when the clients cannot tell it from the object, whatever the
    interleaving of their threads. *)
From Stdlib Require Import FunctionalExtensionality.
From S2P Require Import Prelude Machine.
#[local] Open Scope Z_scope.

(** ** Objects *)

(** [call_ok s o]: the operation may be called; [call s o r s']: it may answer
    [r] and leave [s']. *)
Record object : Type := Object {
  op : Set;
  ret : op -> Set;
  ostate : Type;
  call_ok : ostate -> op -> bool;
  call : ostate -> forall o, ret o -> ostate -> Prop;
}.
Arguments ret {_} _.
Arguments call_ok {_} _ _.
Arguments call {_} _ _ _ _.

(** Memory alone. *)
Definition no_object : object := Object Empty_set (fun _ => Empty_set) unit (fun _ _ => false) (fun _ _ _ _ => False).

(** ** Clients *)

Inductive cprog (O : object) (A : Set) : Type :=
| CRet (a : A)
| CCrash (e : fault)
| CAct (x : action) (k : resp x -> cprog O A)
| CCall (o : op O) (k : ret o -> cprog O A)
| CLoop (S B : Set) (body : S -> cprog O (S + B)) (s : S) (k : B -> cprog O A).
Arguments CRet {O A} a.
Arguments CCrash {O A} e.
Arguments CAct {O A} x k.
Arguments CCall {O A} o k.
Arguments CLoop {O A S B} body s k.

Section cprog.
Context {O : object}.

Fixpoint cbind {A B : Set} (p : cprog O A) (f : A -> cprog O B) : cprog O B :=
  match p with
  | CRet a => f a
  | CCrash e => CCrash e
  | CAct x k => CAct x (fun r => cbind (k r) f)
  | CCall o k => CCall o (fun r => cbind (k r) f)
  | CLoop body s k => CLoop body s (fun b => cbind (k b) f)
  end.

Definition cloop_next {A S B : Set} (body : S -> cprog O (S + B)) (k : B -> cprog O A) (r : S + B) : cprog O A :=
  match r with inl s => CLoop body s k | inr b => k b end.

Lemma cbind_assoc {A B C : Set} (p : cprog O A) (f : A -> cprog O B) (g : B -> cprog O C) :
  cbind (cbind p f) g = cbind p (fun a => cbind (f a) g).
Proof.
  revert f. induction p as [| |A x k IH|A o k IH|A S D body IHb s k IH]; intros f; simpl; [done|done|..];
    f_equal; extensionality r; apply IH.
Qed.

Lemma cbind_ret_r {A : Set} (p : cprog O A) : cbind p CRet = p.
Proof.
  induction p as [| |A x k IH|A o k IH|A S D body IHb s k IH]; simpl; [done|done|..];
    f_equal; extensionality r; apply IH.
Qed.

(** Programs of the machine are clients that call nothing. *)
Fixpoint lift {A : Set} (p : prog A) : cprog O A :=
  match p with
  | Ret a => CRet a
  | Crash e => CCrash e
  | Act x k => CAct x (fun r => lift (k r))
  | Loop body s k => CLoop (fun s => lift (body s)) s (fun b => lift (k b))
  end.

Lemma lift_bind {A B : Set} (p : prog A) (f : A -> prog B) : lift (bind p f) = cbind (lift p) (fun a => lift (f a)).
Proof.
  induction p as [| |A x k IH|A S D body IHb s k IH]; simpl; [done|done|..];
    f_equal; extensionality r; apply IH.
Qed.
End cprog.

(** ** Replacing calls by an implementation *)

Section inline.
Context {O1 O2 : object} (impl : forall o : op O2, cprog O1 (ret o)).

Fixpoint inline {A : Set} (c : cprog O2 A) : cprog O1 A :=
  match c with
  | CRet a => CRet a
  | CCrash e => CCrash e
  | CAct x k => CAct x (fun r => inline (k r))
  | CCall o k => cbind (impl o) (fun r => inline (k r))
  | CLoop body s k => CLoop (fun s => inline (body s)) s (fun b => inline (k b))
  end.

Lemma inline_bind {A B : Set} (c : cprog O2 A) (f : A -> cprog O2 B) :
  inline (cbind c f) = cbind (inline c) (fun a => inline (f a)).
Proof.
  induction c as [| |A x k IH|A o k IH|A S D body IHb s k IH]; simpl; [done|done|..].
  - f_equal. extensionality r. apply IH.
  - rw cbind_assoc. f_equal. extensionality r. apply IH.
  - f_equal. extensionality r. apply IH.
Qed.

Lemma inline_lift {A : Set} (p : prog A) : inline (lift p) = lift p.
Proof.
  induction p as [| |A x k IH|A S D body IHb s k IH]; simpl; [done|done|..];
    f_equal; extensionality r; done.
Qed.
End inline.

(** ** Steps

    Clients do not allocate: a thread that calls [malloc] or [free] is at fault. *)

Definition shared_action (x : action) : bool := match x with AMalloc _ | AFree _ => false | _ => true end.

Section steps.
Context `{Allocator}.

Definition exec_mem (x : action) (m : heap) : option (resp x * heap) := if shared_action x then exec_action x m else None.

Definition tstep {O : object} {A : Set} (p : cprog O A) (m : heap) (s : ostate O) (p' : cprog O A) (m' : heap) (s' : ostate O) : Prop :=
  match p with
  | CRet _ | CCrash _ => False
  | CAct x k => exists r, exec_mem x m = Some (r, m') /\ p' = k r /\ s' = s
  | CCall o k => exists r, call s o r s' /\ p' = k r /\ m' = m
  | CLoop body v k => p' = cbind (body v) (cloop_next body k) /\ m' = m /\ s' = s
  end.

Definition stuck {O : object} {A : Set} (p : cprog O A) (m : heap) (s : ostate O) : Prop :=
  match p with
  | CCrash _ => True
  | CAct x _ => exec_mem x m = None
  | CCall o _ => call_ok s o = false
  | _ => False
  end.

(** The threads, the memory they share and the state of the object. *)
Record system (O : object) (A : Set) : Type := System { threads : list (cprog O A); memory : heap; state : ostate O }.
Arguments System {O A} _ _ _.
Arguments threads {O A} _.
Arguments memory {O A} _.
Arguments state {O A} _.

Inductive astep {O : object} {A : Set} : system O A -> system O A -> Prop :=
| AStep i ts m s p p' m' s' :
    ts !! i = Some p -> tstep p m s p' m' s' -> astep (System ts m s) (System (<[i := p']> ts) m' s').

Definition faulty {O : object} {A : Set} (c : system O A) : Prop :=
  exists i p, threads c !! i = Some p /\ stuck p (memory c) (state c).

(** No thread is at fault before the [n]-th step. *)
Definition safe {O : object} {A : Set} (n : nat) (c : system O A) : Prop :=
  forall k c', (k < n)%nat -> nsteps astep k c c' -> ~ faulty c'.
End steps.
Arguments System {O A} _ _ _.
Arguments threads {O A} _.
Arguments memory {O A} _.
Arguments state {O A} _.

(** ** Facts about steps *)

Section facts.
Context `{Allocator}.

(** Memory that an action does not use does not matter to it. *)
Lemma exec_mem_frame x m f r m' :
  exec_mem x m = Some (r, m') -> m ##ₘ f -> exec_mem x (m ∪ f) = Some (r, m' ∪ f) /\ m' ##ₘ f.
Proof.
  assert (forall k v w, m !! k = Some v -> m ##ₘ f -> <[k := w]> m ##ₘ f /\ (m ∪ f) !! k = Some v) as Hk.
  { intros k v w Hk Hd. split; [|by apply lookup_union_Some_l]. apply map_disjoint_insert_l. split; [|done].
    by eapply map_disjoint_Some_l. }
  unfold exec_mem. destruct x as [a|a v|a e c|a x0 x1 c0 c1|a d| |]; cbn [shared_action exec_action]; intros E Hd; [..|done|done].
  - destruct (m !! Word a) as [v|] eqn:Ha; simplify_eq/=. split; [|done]. by rw (proj2 (Hk _ _ 0 Ha Hd)).
  - destruct (m !! Word a) as [w|] eqn:Ha; simplify_eq/=. destruct (Hk _ _ v Ha Hd) as [? ->]. by rw /= insert_union_l.
  - destruct (m !! Word a) as [w|] eqn:Ha; simplify_eq/=. destruct (Hk _ _ e Ha Hd) as [? ->]. cbn [mbind option_bind].
    destruct (_ =? _); [|done]. by rw insert_union_l.
  - destruct (dcas_aligned a); [|done]. cbn [mbind option_bind] in *.
    destruct (m !! Word a) as [v0|] eqn:H0; [|done]. destruct (m !! Word (a + 8)) as [v1|] eqn:H1; [|done]. cbn [mbind option_bind] in *.
    destruct (Hk _ _ x1 H1 Hd) as [Hd1 ->], (Hk _ _ x0 H0 Hd) as [_ ->]. cbn [mbind option_bind].
    destruct (_ && _); simplify_eq; [|done]. rw !insert_union_l. split; [done|].
    apply map_disjoint_insert_l. split; [|done]. exact (map_disjoint_Some_l _ _ _ _ Hd H0).
  - destruct (m !! Word a) as [w|] eqn:Ha; simplify_eq/=. destruct (Hk _ _ (w +w d) Ha Hd) as [? ->]. by rw /= insert_union_l.
Qed.

Context {O : object}.

Lemma tstep_frame {A : Set} (p p' : cprog O A) m f m' s s' :
  ~ stuck p m s -> m ##ₘ f -> tstep p (m ∪ f) s p' m' s' ->
  exists m1, tstep p m s p' m1 s' /\ m' = m1 ∪ f /\ m1 ##ₘ f.
Proof.
  destruct p as [a|e|x k|o k|S D body v k]; intros Hs Hd Ht; simpl in *; [done|done|..].
  - destruct Ht as (r & E & -> & ->). destruct (exec_mem x m) as [[r1 m1]|] eqn:E1; [|done].
    destruct (exec_mem_frame x m f r1 m1 E1 Hd) as [E' Hd']. rw E in E'. simplify_eq. eauto 10.
  - destruct Ht as (r & E & -> & ->). eauto 10.
  - destruct Ht as (-> & -> & ->). eauto 10.
Qed.

Lemma stuck_frame {A : Set} (p : cprog O A) m f s : ~ stuck p m s -> m ##ₘ f -> ~ stuck p (m ∪ f) s.
Proof.
  destruct p; simpl; try done. intros Hs Hd E. destruct (exec_mem x m) as [[r1 m1]|] eqn:E1; [|done].
  destruct (exec_mem_frame x m f r1 m1 E1 Hd) as [E' _]. by rw E in E'.
Qed.

Lemma tstep_bind_inv {A B : Set} (p : cprog O A) (f : A -> cprog O B) m s q m' s' :
  (forall a, p <> CRet a) -> tstep (cbind p f) m s q m' s' -> exists p', tstep p m s p' m' s' /\ q = cbind p' f.
Proof.
  destruct p as [a|e|x k|o k|S D body v k]; intros Hp Ht; simpl in *.
  - by destruct (Hp a).
  - done.
  - destruct Ht as (r & E & -> & ->). eauto 10.
  - destruct Ht as (r & E & -> & ->). eauto 10.
  - destruct Ht as (-> & -> & ->). eexists. split; [done|]. rw cbind_assoc. f_equal. extensionality r. by destruct r.
Qed.

Lemma stuck_bind {A B : Set} (p : cprog O A) (f : A -> cprog O B) m s :
  (forall a, p <> CRet a) -> stuck (cbind p f) m s -> stuck p m s.
Proof. destruct p as [a| | | |]; intros Hp; simpl; try done. by destruct (Hp a). Qed.

(** [p] has a step to take, and [P] holds wherever it leads. *)
Definition goes {A : Set} (p : cprog O A) (h : heap) (s : ostate O) (P : cprog O A -> heap -> ostate O -> Prop) : Prop :=
  (forall a, p <> CRet a) /\ ~ stuck p h s /\ forall p' h' s', tstep p h s p' h' s' -> P p' h' s'.

Lemma goes_mono {A : Set} (p : cprog O A) h s (P Q : cprog O A -> heap -> ostate O -> Prop) :
  goes p h s P -> (forall p' h' s', P p' h' s' -> Q p' h' s') -> goes p h s Q.
Proof. intros (? & ? & HP) HQ. split; [done|]. split; [done|]. intros p' h' s' Ht. by apply HQ, HP. Qed.

Lemma goes_act {A : Set} x (k : resp x -> cprog O A) h s r h' (P : cprog O A -> heap -> ostate O -> Prop) :
  exec_mem x h = Some (r, h') -> P (k r) h' s -> goes (CAct x k) h s P.
Proof.
  intros Ex HP. split; [done|]. split; [simpl; by rw Ex|]. intros p' h1 s' (r1 & E1 & -> & ->). rw Ex in E1. by simplify_eq.
Qed.

Lemma goes_load {A : Set} a (k : Z -> cprog O A) h s v (P : cprog O A -> heap -> ostate O -> Prop) :
  h !! Word a = Some v -> P (k v) h s -> goes (CAct (ALoad a) k) h s P.
Proof. intros Ha. apply (goes_act (ALoad a)). unfold exec_mem. simpl. by rw Ha. Qed.

Lemma goes_store {A : Set} a v (k : unit -> cprog O A) h s v0 (P : cprog O A -> heap -> ostate O -> Prop) :
  h !! Word a = Some v0 -> P (k tt) (<[Word a := v]> h) s -> goes (CAct (AStore a v) k) h s P.
Proof. intros Ha. apply (goes_act (AStore a v)). unfold exec_mem. simpl. by rw Ha. Qed.

Lemma goes_add {A : Set} a d (k : Z -> cprog O A) h s v (P : cprog O A -> heap -> ostate O -> Prop) :
  h !! Word a = Some v -> P (k (v +w d)) (<[Word a := v +w d]> h) s -> goes (CAct (AAddFetch a d) k) h s P.
Proof. intros Ha. apply (goes_act (AAddFetch a d)). unfold exec_mem. simpl. by rw Ha. Qed.

Lemma goes_dcas {A : Set} a x0 x1 c0 c1 (k : bool * Z * Z -> cprog O A) h s v0 v1 (P : cprog O A -> heap -> ostate O -> Prop) :
  a mod 16 = 0 -> h !! Word a = Some v0 -> h !! Word (a + 8) = Some v1 ->
  (v0 = c0 -> v1 = c1 -> P (k (true, v0, v1)) (<[Word a := x0]> (<[Word (a + 8) := x1]> h)) s) ->
  (~ (v0 = c0 /\ v1 = c1) -> P (k (false, v0, v1)) h s) ->
  goes (CAct (ADcas a x0 x1 c0 c1) k) h s P.
Proof.
  intros Hal H0 H1 Hyes Hno.
  assert (exec_mem (ADcas a x0 x1 c0 c1) h = if (v0 =? c0) && (v1 =? c1) then Some ((true, v0, v1), <[Word a := x0]> (<[Word (a + 8) := x1]> h)) else Some ((false, v0, v1), h)) as Ex.
  { unfold exec_mem. simpl. unfold dcas_aligned. by rw Hal H0 H1. }
  destruct (Z.eqb_spec v0 c0) as [E0|], (Z.eqb_spec v1 c1) as [E1|]; simpl in Ex; eapply goes_act; try exact Ex; (by apply Hyes) || (apply Hno; tauto).
Qed.

Lemma goes_loop {A S B : Set} (body : S -> cprog O (S + B)) v (k : B -> cprog O A) h s (P : cprog O A -> heap -> ostate O -> Prop) :
  P (cbind (body v) (cloop_next body k)) h s -> goes (CLoop body v k) h s P.
Proof. intros HP. split; [done|]. split; [simpl; tauto|]. by intros p' h' s' (-> & -> & ->). Qed.

Lemma lift_loop_next {A S B : Set} (p : prog (S + B)) (body : S -> prog (S + B)) (k : B -> prog A) :
  cbind (lift (O := O) p) (cloop_next (fun s => lift (body s)) (fun b => lift (k b))) = lift (bind p (loop_next body k)).
Proof. rw lift_bind. f_equal. extensionality r. by destruct r. Qed.

Lemma goes_lift_loop {S B : Set} (body : S -> prog (S + B)) v h s (P : cprog O B -> heap -> ostate O -> Prop) :
  P (lift (bind (body v) (loop_next body Ret))) h s -> goes (lift (loop body v)) h s P.
Proof. intros HP. apply goes_loop. rw -lift_loop_next in HP. exact HP. Qed.

Lemma goes_call {A : Set} o (k : ret o -> cprog O A) h s (P : cprog O A -> heap -> ostate O -> Prop) :
  call_ok s o = true -> (forall r s', call s o r s' -> P (k r) h s') -> goes (CCall o k) h s P.
Proof. intros Hok HP. split; [done|]. split; [simpl; by rw Hok|]. intros p' h' s' (r & Hc & -> & ->). by apply HP. Qed.
End facts.

(** ** Implementations

    The proof that an implementation is linearizable and lock-free.  The
    implementation owns memory of its own and an object of the layer below.
    [inv n] is the invariant with which [n] more steps can be taken.  A thread
    inside of a call is [busy] until the operation takes effect, and then
    [finishing] with its answer; the rank bounds the steps that it takes while
    nothing is stirred.  What stirs the other threads is an operation that takes
    effect, or a step that makes up for some [lag]. *)

Section implements.
Context `{Allocator} {O1 O2 : object}.

(** The operation of each thread that has not yet taken effect. *)
Definition activity : Type := nat -> option (op O2).

Class Implements (impl : forall o : op O2, cprog O1 (ret o)) : Type := {
  ghost : Type;
  inv : nat -> ghost -> heap -> ostate O1 -> ostate O2 -> Prop;
  busy : ghost -> heap -> nat -> nat -> forall o : op O2, cprog O1 (ret o) -> Prop;
  finishing : ghost -> heap -> nat -> nat -> forall o : op O2, cprog O1 (ret o) -> ret o -> Prop;
  patience : nat;
  lag : ghost -> nat;
  max_lag : nat;
  (** What holds of the other threads is kept, their ranks unless they are stirred. *)
  keeps (stirs : bool) (i : nat) (act : activity) (w : ghost) (h : heap) (w' : ghost) (h' : heap) : Prop :=
    forall j e o p, j <> i ->
      (act j = Some o -> busy w h j e o p -> busy w' h' j (if stirs then patience else e) o p) /\
      (forall r, finishing w h j e o p r -> finishing w' h' j e o p r);
  (** A step of thread [i] from rank [e] to [e'] that does not take effect. *)
  quiet (i : nat) (act : activity) (w : ghost) (h : heap) (e : nat) (w' : ghost) (h' : heap) (e' : nat) : Prop :=
    (keeps false i act w h w' h' /\ (lag w' <= lag w)%nat /\ (e' < e)%nat) \/
    (keeps true i act w h w' h' /\ (lag w' < lag w)%nat /\ (e' <= patience)%nat);
  (** The operations that other threads are about to do stay possible. *)
  peace (i : nat) (o : op O2) (act : activity) (s : ostate O2) : Prop :=
    forall j o', j <> i -> act j = Some o' -> call_ok s o' = true /\ forall r s', call s o r s' -> call_ok s' o' = true;
  inv_pred n w h s1 s : inv (S n) w h s1 s -> inv n w h s1 s;
  inv_lag n w h s1 s : inv n w h s1 s -> (lag w <= max_lag)%nat;
  busy_start n w h s1 s i o : inv n w h s1 s -> call_ok s o = true -> busy w h i patience o (impl o);
  busy_step n w h s1 s i e o p act : inv (S n) w h s1 s -> busy w h i e o p -> (e <= patience)%nat -> call_ok s o = true -> peace i o act s ->
    goes p h s1 (fun p' h' s1' => exists w',
      (inv n w' h' s1' s /\ exists e', quiet i act w h e w' h' e' /\ busy w' h' i e' o p') \/
      (keeps true i act w h w' h' /\ exists r s' e', call s o r s' /\ inv n w' h' s1' s' /\ (e' <= patience)%nat /\ finishing w' h' i e' o p' r));
  finishing_step n w h s1 s i e o p r act : inv (S n) w h s1 s -> finishing w h i e o p r -> (e <= patience)%nat ->
    p = CRet r \/
    goes p h s1 (fun p' h' s1' => exists w', inv n w' h' s1' s /\ exists e', quiet i act w h e w' h' e' /\ finishing w' h' i e' o p' r);
}.
End implements.
Arguments activity : clear implicits.

Section simulation.
Context `{Allocator} {O1 O2 : object} (impl : forall o : op O2, cprog O1 (ret o)) {I : Implements impl} {A : Set}.
Implicit Types (lo : system O1 A) (up : system O2 A).

(** A thread of the layer below, of some rank, and its client. *)
Inductive related (w : ghost) (h : heap) (i : nat) : nat -> option (op O2) -> cprog O1 A -> cprog O2 A -> Prop :=
| RelClient c : related w h i patience None (inline impl c) c
| RelBusy e o k p : busy w h i e o p -> (e <= patience)%nat -> related w h i e (Some o) (cbind p (fun r => inline impl (k r))) (CCall o k)
| RelFinishing e o k p r : finishing w h i e o p r -> (e <= patience)%nat ->
    related w h i (S (patience + e)) None (cbind p (fun r => inline impl (k r))) (k r).

Record simulates (n : nat) (w : ghost) (h : heap) (act : activity O2) (rk : list nat) lo up : Prop := {
  sim_memory : memory lo = h ∪ memory up;
  sim_disjoint : h ##ₘ memory up;
  sim_inv : inv n w h (state lo) (state up);
  sim_length : length (threads lo) = length (threads up);
  sim_ranks : length rk = length (threads lo);
  sim_threads i e p c : rk !! i = Some e -> threads lo !! i = Some p -> threads up !! i = Some c -> related w h i e (act i) p c;
  sim_active i o : act i = Some o -> is_Some (threads lo !! i);
}.

Lemma simulates_thread n w h act rk lo up i p : simulates n w h act rk lo up -> threads lo !! i = Some p ->
  exists e c, rk !! i = Some e /\ threads up !! i = Some c /\ related w h i e (act i) p c.
Proof.
  intros HS Hp. pose proof (lookup_lt_Some _ _ _ Hp) as Hlt.
  destruct (lookup_lt_is_Some_2 (threads up) i) as [c Hc]; [by rw -(sim_length _ _ _ _ _ _ _ HS)|].
  destruct (lookup_lt_is_Some_2 rk i) as [e He]; [by rw (sim_ranks _ _ _ _ _ _ _ HS)|].
  exists e, c. split; [done|]. split; [done|]. by eapply sim_threads.
Qed.

Definition set_activity (i : nat) (a : option (op O2)) (act : activity O2) : activity O2 :=
  fun j => if decide (j = i) then a else act j.

(** The ranks of the threads that are stirred. *)
Definition stir (stirs : bool) (act : activity O2) (rk : list nat) : list nat :=
  if stirs then imap (fun j e => if act j is Some _ then patience else e) rk else rk.

Lemma stir_length stirs act rk : length (stir stirs act rk) = length rk.
Proof. unfold stir. destruct stirs; [by rw length_imap|done]. Qed.

Lemma stir_lookup stirs act rk j e' : stir stirs act rk !! j = Some e' ->
  exists e, rk !! j = Some e /\ e' = if stirs then (if act j is Some _ then patience else e) else e.
Proof.
  unfold stir. destruct stirs; [|by exists e']. rw list_lookup_imap. destruct (rk !! j) as [e|]; simpl; [|done]. intros [=]. by exists e.
Qed.

Lemma related_keeps stirs i act w h w' h' j e p c : j <> i -> keeps stirs i act w h w' h' -> related w h j e (act j) p c ->
  related w' h' j (if stirs then (if act j is Some _ then patience else e) else e) (act j) p c.
Proof.
  intros Hj HK HR. destruct (act j) as [o'|] eqn:Ha.
  - inversion HR; subst. apply RelBusy; [by apply (proj1 (HK j e o' p0 Hj))|]. by destruct stirs.
  - inversion HR; subst; [by destruct stirs; constructor|]. destruct stirs; (apply RelFinishing; [by apply (proj2 (HK j e0 o p0 Hj))|done]).
Qed.

(** A thread has moved. *)
Lemma simulates_update stirs n n' w h act rk ts m s1 cs mu s i p w' h' a e' p' c' s1' m' mu' s' :
  simulates n w h act rk (System ts m s1) (System cs mu s) -> ts !! i = Some p -> keeps stirs i act w h w' h' -> m' = h' ∪ mu' -> h' ##ₘ mu' ->
  inv n' w' h' s1' s' -> related w' h' i e' a p' c' ->
  simulates n' w' h' (set_activity i a act) (<[i := e']> (stir stirs act rk)) (System (<[i := p']> ts) m' s1') (System (<[i := c']> cs) mu' s').
Proof.
  intros HS Hp HK Hm Hd HI HR. pose proof (lookup_lt_Some _ _ _ Hp) as Hlt. pose proof (sim_length _ _ _ _ _ _ _ HS) as Hlen. pose proof (sim_ranks _ _ _ _ _ _ _ HS) as Hrk. simpl in Hlen, Hrk.
  split; simpl; try done; [by rw !length_insert|by rw !length_insert stir_length|intros j e q c He Hq Hc|intros j o]; unfold set_activity; case_decide as Hj.
  - subst. rw list_lookup_insert_eq ?stir_length in He; [lia|]. rw list_lookup_insert_eq // in Hq. rw list_lookup_insert_eq in Hc; [lia|]. by simplify_eq.
  - rw list_lookup_insert_ne // in He. rw list_lookup_insert_ne // in Hq. rw list_lookup_insert_ne // in Hc. apply stir_lookup in He as (e0 & He & ->).
    apply (related_keeps stirs i act w h); [done|done|]. by apply (sim_threads _ _ _ _ _ _ _ HS).
  - subst. rw list_lookup_insert_eq //.
  - rw list_lookup_insert_ne //. apply (sim_active _ _ _ _ _ _ _ HS).
Qed.

Lemma keeps_refl i act w h : keeps false i act w h w h.
Proof. by intros j e o p _. Qed.

(** ** Energy: steps that can be taken while no operation takes effect *)

Definition max_rank : nat := S (patience + patience).

Definition energy (w : ghost) (rk : list nat) : nat := (lag w * S (length rk * max_rank) + sum_list rk)%nat.

Definition max_energy (threads : nat) : nat := (max_lag * S (threads * max_rank) + threads * max_rank)%nat.

Lemma related_rank w h i e a p c : related w h i e a p c -> (e <= max_rank)%nat.
Proof. unfold max_rank. inversion 1; lia. Qed.

Lemma sum_list_bound k (l : list nat) : (forall i e, l !! i = Some e -> (e <= k)%nat) -> (sum_list l <= length l * k)%nat.
Proof.
  induction l as [|x l IH]; intros Hl; simpl; [done|]. pose proof (Hl 0%nat x eq_refl). assert (sum_list l <= length l * k)%nat; [|lia].
  apply IH. intros i e Hi. by apply (Hl (Datatypes.S i)).
Qed.

Lemma sum_list_update (l : list nat) i x y : l !! i = Some x -> (sum_list (<[i := y]> l) + x = sum_list l + y)%nat.
Proof.
  revert i. induction l as [|z l IH]; intros [|i] Hi; simpl in *; try done; [simplify_eq; lia|]. apply IH in Hi. lia.
Qed.

Lemma simulates_sum n w h act rk lo up : simulates n w h act rk lo up -> (sum_list rk <= length rk * max_rank)%nat.
Proof.
  intros HS. apply sum_list_bound. intros i e He. destruct (lookup_lt_is_Some_2 (threads lo) i) as [p Hp].
  { rw -(sim_ranks _ _ _ _ _ _ _ HS). by eapply lookup_lt_Some. }
  destruct (simulates_thread _ _ _ _ _ _ _ _ _ HS Hp) as (e' & c & He' & _ & HR). rw He in He'. simplify_eq. by eapply related_rank.
Qed.

Lemma simulates_energy n w h act rk lo up : simulates n w h act rk lo up -> (energy w rk <= max_energy (length (threads lo)))%nat.
Proof.
  intros HS. unfold energy, max_energy. pose proof (simulates_sum _ _ _ _ _ _ _ HS) as Hsum. pose proof (inv_lag _ _ _ _ _ (sim_inv _ _ _ _ _ _ _ HS)) as Hlag.
  rw (sim_ranks _ _ _ _ _ _ _ HS) in Hsum |- *. nia.
Qed.

(** A step that is not visible above uses up energy. *)
Lemma quiet_energy n w h act rk lo up w' h' act' rk' lo' up' i e e' stirs :
  simulates n w h act rk lo up -> simulates n w' h' act' rk' lo' up' -> rk !! i = Some e -> rk' = <[i := e']> (stir stirs act rk) ->
  (stirs = false /\ (lag w' <= lag w)%nat /\ (e' < e)%nat) \/ (lag w' < lag w)%nat -> (energy w' rk' < energy w rk)%nat.
Proof.
  intros HS HS' He -> Hq. unfold energy. rw length_insert stir_length.
  destruct Hq as [(-> & Hlag & Hlt)|Hlag].
  - simpl. pose proof (sum_list_update rk i e e' He). pose proof (Nat.mul_le_mono_r _ _ (S (length rk * max_rank)) Hlag). lia.
  - pose proof (simulates_sum _ _ _ _ _ _ _ HS') as Hsum. rw length_insert stir_length in Hsum.
    assert (S (lag w') <= lag w)%nat as Hlag' by lia. pose proof (Nat.mul_le_mono_r _ _ (S (length rk * max_rank)) Hlag'). lia.
Qed.

(** What a thread of the layer below does next is what its client does, or leaves
    the client where it is and uses up energy. *)
Definition moves (n : nat) (w : ghost) (rk : list nat) lo up (i : nat) (p : cprog O1 A) : Prop :=
  ~ stuck p (memory lo) (state lo) /\
  forall p' m' s', tstep p (memory lo) (state lo) p' m' s' -> exists up' w' h' act' rk',
    ((up' = up /\ (energy w' rk' < energy w rk)%nat) \/ astep up up') /\
    simulates n w' h' act' rk' (System (<[i := p']> (threads lo)) m' s') up'.

Lemma safe_not_faulty {O : object} n (c : system O A) : safe (S n) c -> ~ faulty c.
Proof. intros HS. apply (HS 0%nat); [lia|constructor]. Qed.

Lemma safe_step {O : object} n (c c' : system O A) : safe (S n) c -> astep c c' -> safe n c'.
Proof. intros HS Hst k d Hk Hd. apply (HS (S k)); [lia|]. by econstructor. Qed.

Lemma safe_le {O : object} n m (c : system O A) : safe n c -> (m <= n)%nat -> safe m c.
Proof. intros HS Hm k d Hk Hd. apply (HS k); [lia|done]. Qed.

Lemma active_call n w h act rk lo up j o : simulates n w h act rk lo up -> act j = Some o -> exists k, threads up !! j = Some (CCall o k).
Proof.
  intros HS Ha. destruct (sim_active _ _ _ _ _ _ _ HS j o Ha) as [p Hp]. destruct (simulates_thread _ _ _ _ _ _ _ _ _ HS Hp) as (e & c & _ & Hc & HR).
  rw Ha in HR. inversion HR; subst. by exists k.
Qed.

Lemma call_possible up i o k : ~ faulty up -> threads up !! i = Some (CCall o k) -> call_ok (state up) o = true.
Proof. intros Hf Hi. apply not_false_is_true. intros Hn. apply Hf. by exists i, (CCall o k). Qed.

Lemma safe_peace n w h act rk lo up i o k : simulates n w h act rk lo up -> safe 2 up -> threads up !! i = Some (CCall o k) ->
  call_ok (state up) o = true /\ peace i o act (state up).
Proof.
  intros HS Hsafe Hi. pose proof (safe_not_faulty _ _ Hsafe) as Hf. split; [by eapply call_possible|].
  intros j o' Hj Ha. destruct (active_call _ _ _ _ _ _ _ _ _ HS Ha) as [k' Hk']. split; [by eapply call_possible|].
  intros r s' Hc. destruct up as [cs mu s]. simpl in *.
  assert (astep (System cs mu s) (System (<[i := k r]> cs) mu s')) as Hst by (econstructor; [done|]; by exists r).
  pose proof (safe_not_faulty _ _ (safe_step _ _ _ Hsafe Hst)) as Hf'.
  apply (call_possible _ j o' k' Hf'). simpl. by rw list_lookup_insert_ne.
Qed.

(** A client that is not about to call. *)
Lemma client_moves n w h act rk lo up i c : simulates (S n) w h act rk lo up -> safe 2 up -> threads lo !! i = Some (inline impl c) -> threads up !! i = Some c ->
  (forall o k, c <> CCall o k) -> moves n w rk lo up i (inline impl c).
Proof.
  intros HS Hsafe Hp Hc Hcall. pose proof (safe_not_faulty _ _ Hsafe) as Hf. destruct lo as [ts m s1], up as [cs mu s]. simpl in *.
  assert (m = mu ∪ h /\ mu ##ₘ h) as [-> Hd].
  { pose proof (sim_memory _ _ _ _ _ _ _ HS) as Hm. pose proof (sim_disjoint _ _ _ _ _ _ _ HS) as Hd. simpl in *. subst m.
    split; [by apply map_union_comm|done]. }
  assert (forall c' mu' f, c' = inline impl f -> tstep c mu s f mu' s -> mu' ##ₘ h -> exists up' w' h' act' rk',
    ((up' = System cs mu s /\ (energy w' rk' < energy w rk)%nat) \/ astep (System cs mu s) up') /\
    simulates n w' h' act' rk' (System (<[i := c']> ts) (mu' ∪ h) s1) up') as Hgo.
  { intros c' mu' f -> Ht Hd'. exists (System (<[i := f]> cs) mu' s), w, h, (set_activity i None act), (<[i := patience]> (stir false act rk)). split; [right; by econstructor|].
    eapply simulates_update; [done|done|apply keeps_refl|by apply map_union_comm|done|by apply inv_pred, HS|constructor]. }
  unfold moves. destruct c as [a|e|x k|o k|S D body v k]; simpl in *.
  - split; [tauto|done].
  - exfalso. apply Hf. by exists i, (CCrash e).
  - destruct (exec_mem x mu) as [[r mu']|] eqn:E.
    + destruct (exec_mem_frame x mu h r mu' E Hd) as [E' Hd']. split; [by rw E'|]. intros p' m' s' (r' & E2 & -> & ->).
      rw E' in E2. simplify_eq. apply (Hgo _ _ (k r')); [done| |done]. by exists r'.
    + exfalso. apply Hf. by exists i, (CAct x k).
  - by destruct (Hcall o k).
  - split; [tauto|]. intros p' m' s' (-> & -> & ->). apply (Hgo _ mu (cbind (body v) (cloop_next body k))); [|done|done].
    rw inline_bind. f_equal. extensionality r. by destruct r.
Qed.

(** A step of the implementation's own program, in the memory that it owns. *)
Lemma own_step {B : Set} (p : cprog O1 B) (f : B -> cprog O1 A) h mu s1 P :
  goes p h s1 P -> h ##ₘ mu ->
  ~ stuck (cbind p f) (h ∪ mu) s1 /\
  forall q m' s', tstep (cbind p f) (h ∪ mu) s1 q m' s' -> exists p' h', P p' h' s' /\ q = cbind p' f /\ m' = h' ∪ mu /\ h' ##ₘ mu.
Proof.
  intros (Hp & Hs & HP) Hd. split.
  - intros E. apply stuck_bind in E; [|done]. by apply (stuck_frame p h mu s1).
  - intros q m' s' Ht. apply tstep_bind_inv in Ht as (p' & Ht & ->); [|done].
    apply tstep_frame in Ht as (h' & Ht & -> & Hd'); [|done..]. exists p', h'. split; [by apply HP|done].
Qed.

Lemma simulates_inv_pred n w h act rk lo up : simulates (S n) w h act rk lo up -> simulates n w h act rk lo up.
Proof. intros [? ? ? ? ? ? ?]. split; try done. by apply inv_pred. Qed.

(** A quiet step, from the rank [er] of the thread to the rank [en]. *)
Lemma quiet_moves n w h act rk ts m s1 cs mu s i p w' h' e1 e2 er en a p' c s1' :
  simulates (S n) w h act rk (System ts m s1) (System cs mu s) -> ts !! i = Some p -> cs !! i = Some c -> rk !! i = Some er ->
  quiet i act w h e1 w' h' e2 -> ((e2 < e1)%nat -> (en < er)%nat) -> inv n w' h' s1' s -> related w' h' i en a p' c -> h' ##ₘ mu ->
  exists up' w2 h2 act' rk', ((up' = System cs mu s /\ (energy w2 rk' < energy w rk)%nat) \/ astep (System cs mu s) up') /\
    simulates n w2 h2 act' rk' (System (<[i := p']> ts) (h' ∪ mu) s1') up'.
Proof.
  intros HS Hp Hc He Hq Hen HI HR Hd.
  assert (exists st, keeps st i act w h w' h' /\ ((st = false /\ (lag w' <= lag w)%nat /\ (en < er)%nat) \/ (lag w' < lag w)%nat)) as (st & HK & Hst).
  { destruct Hq as [(HK & Hlag & Hlt)|(HK & Hlag & _)]; [exists false|exists true]; (split; [done|]); [left; auto|by right]. }
  assert (simulates n w' h' (set_activity i a act) (<[i := en]> (stir st act rk)) (System (<[i := p']> ts) (h' ∪ mu) s1') (System (<[i := c]> cs) mu s)) as HS'
    by by eapply simulates_update.
  rw (list_insert_id cs i c) // in HS'. eexists _, w', h', _, _. split; [|exact HS']. left. split; [done|].
  by eapply (quiet_energy n w h act rk); [by apply simulates_inv_pred|done|done|done|].
Qed.

Lemma quiet_rank i act w h e w' h' e' : quiet i act w h e w' h' e' -> (e <= patience)%nat -> (e' <= patience)%nat.
Proof. intros [(_ & _ & ?)|(_ & _ & ?)]; lia. Qed.

Lemma busy_moves n w h act rk lo up i er e o k p : simulates (S n) w h act rk lo up -> safe 2 up -> rk !! i = Some er -> (e <= er)%nat ->
  threads up !! i = Some (CCall o k) -> busy w h i e o p -> (e <= patience)%nat ->
  threads lo !! i = Some (cbind p (fun r => inline impl (k r))) -> moves n w rk lo up i (cbind p (fun r => inline impl (k r))).
Proof.
  intros HS Hsafe Hr Her Hc Hb Hle Hp. destruct (safe_peace _ _ _ _ _ _ _ _ _ _ HS Hsafe Hc) as [Hok Hpeace].
  pose proof (busy_step n w h _ _ i e o p act (sim_inv _ _ _ _ _ _ _ HS) Hb Hle Hok Hpeace) as Hgo.
  destruct lo as [ts m s1], up as [cs mu s]. simpl in *. pose proof (sim_memory _ _ _ _ _ _ _ HS) as Hm. pose proof (sim_disjoint _ _ _ _ _ _ _ HS) as Hd. simpl in Hm, Hd. subst m.
  destruct (own_step p (fun r => inline impl (k r)) h mu s1 _ Hgo Hd) as [Hns Hown]. split; [done|]. simpl.
  intros q m' s' Ht. apply Hown in Ht as (p' & h' & (w' & [(HI & e' & Hq & Hb')|(HK & r & s2 & e' & Hcall & HI & He' & Hf)]) & -> & -> & Hd').
  - eapply (quiet_moves n w h act rk _ _ _ cs mu s i _ w' h' e e' er e'); [done..|exact Hq|lia|exact HI| |exact Hd'].
    constructor; [done|by eapply quiet_rank].
  - exists (System (<[i := k r]> cs) mu s2), w', h', (set_activity i None act), (<[i := S (patience + e')]> (stir true act rk)). split; [right; econstructor; [done|]; by exists r|].
    eapply simulates_update; [done|done|done|done|done|done|by constructor].
Qed.

Lemma finishing_moves n w h act rk lo up i e o k p r : simulates (S n) w h act rk lo up -> safe 2 up -> rk !! i = Some (S (patience + e)) -> threads up !! i = Some (k r) -> finishing w h i e o p r ->
  (e <= patience)%nat -> threads lo !! i = Some (cbind p (fun r => inline impl (k r))) ->
  p = CRet r \/ moves n w rk lo up i (cbind p (fun r => inline impl (k r))).
Proof.
  intros HS Hsafe He Hc Hb Hle Hp. destruct (finishing_step n w h _ _ i e o p r act (sim_inv _ _ _ _ _ _ _ HS) Hb Hle) as [->|Hgo]; [by left|right].
  destruct lo as [ts m s1], up as [cs mu s]. simpl in *. pose proof (sim_memory _ _ _ _ _ _ _ HS) as Hm. pose proof (sim_disjoint _ _ _ _ _ _ _ HS) as Hd. simpl in Hm, Hd. subst m.
  destruct (own_step p (fun r => inline impl (k r)) h mu s1 _ Hgo Hd) as [Hns Hown]. split; [done|]. simpl.
  intros q m' s' Ht. apply Hown in Ht as (p' & h' & (w' & HI & e' & Hq & Hf) & -> & -> & Hd').
  eapply (quiet_moves n w h act rk _ _ _ cs mu s i _ w' h' e e' _ (S (patience + e'))); [done..|exact Hq|lia|exact HI| |exact Hd'].
  apply (RelFinishing _ _ _ e' o); [done|by eapply quiet_rank].
Qed.

(** A thread that is not inside of a call. *)
Lemma inline_moves n w h act rk lo up i er c : simulates (S n) w h act rk lo up -> safe 2 up -> rk !! i = Some er -> (patience <= er)%nat ->
  threads lo !! i = Some (inline impl c) -> threads up !! i = Some c -> moves n w rk lo up i (inline impl c).
Proof.
  intros HS Hsafe Hr Hle Hp Hc. destruct c as [a|f|x k|o k|S D body v k]; [by eapply client_moves..| |by eapply client_moves].
  apply (busy_moves n w h act rk lo up i er patience o k (impl o) HS Hsafe Hr Hle Hc); [|done|done].
  apply (busy_start _ _ _ _ _ _ _ (sim_inv _ _ _ _ _ _ _ HS)). by eapply call_possible; [eapply safe_not_faulty|].
Qed.

Lemma thread_moves n w h act rk lo up i p : simulates (S n) w h act rk lo up -> safe 2 up -> threads lo !! i = Some p -> moves n w rk lo up i p.
Proof.
  intros HS Hsafe Hp. destruct (simulates_thread _ _ _ _ _ _ _ _ _ HS Hp) as (e & c & He & Hc & HR). inversion HR; subst.
  - by eapply inline_moves.
  - by eapply busy_moves.
  - destruct (finishing_moves n w h act rk lo up i e0 o k p0 r) as [->|?]; try done. simpl in *. eapply inline_moves; [done|done|done| |done|done]. lia.
Qed.

(** Every run of the implementation is a run of the object, and free of faults; a
    step above follows after at most [max_energy] steps. *)
Lemma simulation n lo up w h act rk : safe (S n) up -> simulates n w h act rk lo up ->
  safe n lo /\ forall j lo', (j <= n)%nat -> nsteps astep j lo lo' -> exists k up' w' h' act' rk',
    (k <= j)%nat /\ (j <= energy w rk + k * S (max_energy (length (threads lo))))%nat /\ nsteps astep k up up' /\ simulates (n - j) w' h' act' rk' lo' up'.
Proof.
  revert lo up w h act rk. induction n as [|n IH]; intros lo up w h act rk Hsafe HS.
  - split; [intros k c Hk; lia|]. intros j lo' Hj Hst. assert (j = 0)%nat as -> by lia. inversion Hst; subst.
    exists 0%nat, up, w, h, act, rk. split; [done|]. split; [lia|]. split; [constructor|done].
  - assert (forall lo1, astep lo lo1 -> exists up1 w1 h1 act1 rk1, length (threads lo1) = length (threads lo) /\ simulates n w1 h1 act1 rk1 lo1 up1 /\ safe (S n) up1 /\
      ((up1 = up /\ (energy w1 rk1 < energy w rk)%nat) \/ astep up up1)) as Hone.
    { intros lo1 Hst. destruct Hst as [i ts m s p p' m' s' Hi Ht].
      destruct (thread_moves n w h act rk _ up i p HS) as [_ Hm]; [by eapply safe_le; [done|lia]|done|].
      destruct (Hm _ _ _ Ht) as (up1 & w1 & h1 & act1 & rk1 & Hup & HS1). exists up1, w1, h1, act1, rk1. simpl. rw length_insert. split; [done|]. split; [done|].
      destruct Hup as [[-> Hup]|Hup]; [split; [by eapply safe_le; [done|lia]|by left]|split; [by eapply safe_step|by right]]. }
    split.
    + intros k c Hk Hst. inversion Hst as [|k' ? lo1 ? Hst1 Hst2]; subst.
      * intros (i & p & Hp & Hs). destruct (thread_moves n w h act rk c up i p HS) as [Hns _]; [by eapply safe_le; [done|lia]|done|]. by apply Hns.
      * destruct (Hone lo1 Hst1) as (up1 & w1 & h1 & act1 & rk1 & _ & HS1 & Hsafe1 & _). apply (proj1 (IH lo1 up1 w1 h1 act1 rk1 Hsafe1 HS1) k'); [lia|done].
    + intros j lo' Hj Hst. inversion Hst as [|j' ? lo1 ? Hst1 Hst2]; subst.
      * exists 0%nat, up, w, h, act, rk. split; [done|]. split; [lia|]. split; [constructor|done].
      * destruct (Hone lo1 Hst1) as (up1 & w1 & h1 & act1 & rk1 & Hlen & HS1 & Hsafe1 & Hup).
        destruct (proj2 (IH lo1 up1 w1 h1 act1 rk1 Hsafe1 HS1) j' lo') as (k & up' & w' & h' & act' & rk' & Hk & Hen & Hsts & HS'); [lia|done|]. rw Hlen in Hen.
        destruct Hup as [[-> Hup]|Hup].
        -- exists k, up', w', h', act', rk'. split; [lia|]. split; [lia|]. by split.
        -- exists (S k), up', w', h', act', rk'. split; [lia|]. split; [|split; [by econstructor|done]].
           pose proof (simulates_energy _ _ _ _ _ _ _ HS1) as Hmax. rw Hlen in Hmax. lia.
Qed.

(** The answer of a thread that has ended is that of its client. *)
Lemma cbind_CRet {B : Set} (p : cprog O1 B) (f : B -> cprog O1 A) a : cbind p f = CRet a -> exists b, p = CRet b /\ f b = CRet a.
Proof. destruct p; simpl; try done. by exists a0. Qed.

Lemma inline_ret n w h act rk lo up i c a : simulates (S n) w h act rk lo up -> safe 2 up -> threads up !! i = Some c -> inline impl c = CRet a -> c = CRet a.
Proof.
  intros HS Hsafe Hc E. destruct c as [b|e|x k|o k|S D body v k]; simpl in E; try done; [congruence|].
  apply cbind_CRet in E as (b & Hb & _). destruct (safe_peace _ _ _ _ _ _ _ _ _ _ HS Hsafe Hc) as [Hok Hpeace].
  pose proof (sim_inv _ _ _ _ _ _ _ HS) as HI. by destruct (proj1 (busy_step n w h _ _ i _ o _ act HI (busy_start _ _ _ _ _ i o HI Hok) (le_n _) Hok Hpeace) b).
Qed.

Lemma simulates_ret n w h act rk lo up i a : simulates (S n) w h act rk lo up -> safe 2 up -> threads lo !! i = Some (CRet a) -> threads up !! i = Some (CRet a).
Proof.
  intros HS Hsafe Hp. destruct (simulates_thread _ _ _ _ _ _ _ _ _ HS Hp) as (e & c & He & Hc & HR). pose proof (sim_inv _ _ _ _ _ _ _ HS) as HI.
  inversion HR as [c' He' Ha E|e' o k p Hb Hle He' Ha E|e' o k p r Hf Hle He' Ha E]; subst.
  - rw Hc. f_equal. by eapply inline_ret.
  - apply cbind_CRet in E as (b & -> & _). destruct (safe_peace _ _ _ _ _ _ _ _ _ _ HS Hsafe Hc) as [Hok Hpeace].
    by destruct (proj1 (busy_step n w h _ _ i _ o _ act HI Hb Hle Hok Hpeace) b).
  - apply cbind_CRet in E as (b & -> & E).
    destruct (finishing_step n w h _ _ i _ o _ r act HI Hf Hle) as [Hr|[Hr _]]; [|by destruct (Hr b)]. simplify_eq.
    rw Hc. f_equal. by eapply inline_ret.
Qed.
End simulation.

(** ** Down to the machine *)

Section machine.
Context `{Allocator}.

Lemma lift_step {A : Set} (p : prog A) h p' h' :
  ~ stuck (O := no_object) (lift p) h tt -> step p h = Some (p', h') -> tstep (O := no_object) (lift p) h tt (lift p') h' tt.
Proof.
  destruct p as [a|e|x k|S B body v k]; simpl; try done.
  - intros Hs E. unfold exec_mem in *. destruct (shared_action x); [|done].
    destruct (exec_action x h) as [[r h1]|]; [|done]. simplify_eq. by exists r.
  - intros _ E. simplify_eq. rw lift_bind. split; [|done]. f_equal. extensionality r. by destruct r.
Qed.

Lemma lift_ret {A : Set} (p : prog A) a : lift (O := no_object) p = CRet a -> p = Ret a.
Proof. destruct p; simpl; try done. congruence. Qed.

(** Threads that use memory alone. *)
Definition raw {A : Set} (c : config A) : system no_object A := System (O := no_object) (lift <$> c.1) c.2 tt.

Lemma lift_cstep {A : Set} (c c' : config A) :
  ~ faulty (raw c) -> cstep c c' ->
  astep (raw c) (raw c').
Proof.
  intros Hf Hst. destruct Hst as [ts1 p ts2 h p' h' Hs]. unfold raw in *. simpl in *.
  assert ((lift (O := no_object) <$> ts1 ++ p :: ts2) !! length ts1 = Some (lift p)) as Hi.
  { rw list_lookup_fmap list_lookup_middle //. }
  replace (lift (O := no_object) <$> ts1 ++ p' :: ts2) with (<[length ts1 := lift p']> (lift (O := no_object) <$> ts1 ++ p :: ts2)).
  - econstructor; [done|]. apply lift_step; [|done]. intros Hn. apply Hf. by exists (length ts1), (lift p).
  - rw -list_fmap_insert. f_equal. rw insert_app_r_alt // Nat.sub_diag //.
Qed.

Lemma lift_nsteps {A : Set} n (c c' : config A) :
  safe (S n) (raw c) -> nsteps cstep n c c' ->
  nsteps astep n (raw c) (raw c').
Proof.
  revert c. induction n as [|n IH]; intros c Hs Hst; inversion Hst as [|? ? c1 ? H1 H2]; subst; [constructor|].
  pose proof (lift_cstep c c1 (safe_not_faulty _ _ Hs) H1) as Ha. econstructor; [done|]. apply IH; [by eapply safe_step|done].
Qed.

Context {O : object} (impl : forall o : op O, prog (ret o)).

(** The client with the code of the operations in place of the calls. *)
Fixpoint link {A : Set} (c : cprog O A) : prog A :=
  match c with
  | CRet a => Ret a
  | CCrash e => Crash e
  | CAct x k => Act x (fun r => link (k r))
  | CCall o k => bind (impl o) (fun r => link (k r))
  | CLoop body s k => Loop (fun s => link (body s)) s (fun b => link (k b))
  end.

Lemma lift_link {A : Set} (c : cprog O A) : lift (O := no_object) (link c) = inline (fun o => lift (impl o)) c.
Proof.
  induction c as [| |A x k IH|A o k IH|A S D body IHb s k IH]; simpl; [done|done|..].
  - f_equal. extensionality r. apply IH.
  - rw lift_bind. f_equal. extensionality r. apply IH.
  - f_equal; extensionality r; [apply IHb|apply IH].
Qed.

Context {I : Implements (O1 := no_object) (fun o => lift (impl o))} {A : Set}.

(** Clients linked with the implementation run without faults, and do what they do
    with the object. *)
Lemma linked_runs N n (cs : list (cprog O A)) m s w h ts' h' :
  safe (S N) (System cs m s) -> h ##ₘ m -> inv N w h tt s ->
  (n < N)%nat -> nsteps cstep n (link <$> cs, h ∪ m) (ts', h') ->
  (forall i e, ts' !! i <> Some (Crash e)) /\
  exists k cs' m' s' w' p', (k <= n)%nat /\ nsteps astep k (System cs m s) (System cs' m' s') /\
    (n <= S k * S (max_energy (fun o => lift (impl o)) (length cs)))%nat /\
    h' = p' ∪ m' /\ p' ##ₘ m' /\ inv (N - n) w' p' tt s' /\ length ts' = length cs' /\
    forall i a, ts' !! i = Some (Ret a) -> cs' !! i = Some (CRet a).
Proof.
  intros Hsafe Hd HI Hn Hst. set (lo := raw (link <$> cs, h ∪ m)).
  assert (simulates (fun o => lift (impl o)) N w h (fun _ => None) (replicate (length cs) patience) lo (System cs m s)) as HS.
  { split; simpl; try done; [by rw !length_fmap|by rw length_replicate !length_fmap|]. intros i e p c He Hp Hc. apply lookup_replicate in He as [-> _].
    rw !list_lookup_fmap Hc /= in Hp. simplify_eq. rw lift_link. constructor. }
  destruct (simulation _ N lo _ _ _ _ _ Hsafe HS) as [Hlo Hrun].
  assert (safe (S n) lo) as Hlo' by (eapply safe_le; [done|lia]). pose proof (lift_nsteps n _ _ Hlo' Hst) as Hst'. split.
  - intros i e Hi. apply (Hlo n _ Hn Hst'). exists i, (CCrash e). simpl. by rw list_lookup_fmap Hi.
  - destruct (Hrun n _ (Nat.lt_le_incl _ _ Hn) Hst') as (k & [cs' m' s'] & w' & p' & act & rk & Hk & Hen & Hup & HS'). pose proof HS' as [Hm Hd' HI' Hlen _ _ _]. simpl in *.
    exists k, cs', m', s', w', p'. split_and!; try done.
    + pose proof (simulates_energy _ _ _ _ _ _ _ _ HS) as Hmax. simpl in Hmax. rw !length_fmap in Hmax Hen. lia.
    + by rw length_fmap in Hlen.
    + intros i a Hi. destruct (N - n)%nat as [|d] eqn:E; [lia|].
      eapply (simulates_ret _ d w' p' act rk _ _ i a HS').
      * intros k2 c2 Hk2 Hc2. apply (Hsafe (k + k2)%nat); [lia|]. by eapply nsteps_trans.
      * simpl. by rw list_lookup_fmap Hi.
Qed.

Lemma run_schedule_nsteps {B : Set} sched (c : config B) : exists n, (n <= length sched)%nat /\ nsteps cstep n c (run_schedule sched c).
Proof.
  revert c. induction sched as [|i sched IH]; intros [ts h]; simpl; [exists 0%nat; split; [done|constructor]|].
  destruct (ts !! i) as [p|] eqn:Hi; simpl; [destruct (step p h) as [[p' h']|] eqn:Hs|].
  - destruct (IH (<[i := p']> ts, h')) as (n & Hn & Hst). exists (S n). split; [lia|]. econstructor; [|exact Hst].
    rw -{1}(take_drop_middle ts i p) // insert_take_drop; [by eapply lookup_lt_Some|]. by constructor.
  - destruct (IH (ts, h)) as (n & Hn & Hst). exists n. split; [lia|done].
  - destruct (IH (ts, h)) as (n & Hn & Hst). exists n. split; [lia|done].
Qed.
End machine.
