(* ===== verification/FreelistAtomic.v ===== *)
(** * src/basic/lf_freelist.c: the freelist under concurrency.

    [freelist_pop] and [freelist_push] of threads that run at the same time take
    effect at once on a stack of elements: the counter next to the top, which no
    two pushes share, makes the double compare-and-swap fail when the element at
    the top has been taken and put back in the meantime. *)
From Stdlib Require Import FunctionalExtensionality.
From S2P Require Import Prelude Machine SepLogic Basic Chain Freelist Objects.
#[local] Open Scope Z_scope.

(** ** The abstract object *)

(** The operations take the address of the freelist. *)
Inductive pool_op : Set := Pop (f : Z) | Push (f fe : Z).

Definition pool_ret (o : pool_op) : Set := match o with Pop _ => Z | Push _ _ => unit end.

(** The freelist is the one at [fs]; an element that is pushed is one of its elements
    and is not in the list. *)
Definition pool_ok (fs : Z) (E s : list Z) (o : pool_op) : bool :=
  match o with Pop f => bool_decide (f = fs) | Push f fe => bool_decide (f = fs /\ fe ∈ E /\ fe ∉ s) end.

Definition pool_call (s : list Z) (o : pool_op) : pool_ret o -> list Z -> Prop :=
  match o with
  | Pop _ => fun r s' => match s with [] => r = NULL /\ s' = [] | fe :: l => r = fe /\ s' = l end
  | Push _ fe => fun _ s' => s' = fe :: s
  end.

(** The freelist at [fs] with the elements [E], of which a list is free. *)
Definition pool (fs : Z) (E : list Z) : object := Object pool_op pool_ret (list Z) (pool_ok fs E) pool_call.

Definition freelist_code (o : pool_op) : prog (pool_ret o) :=
  match o with Pop f => freelist_pop f | Push f fe => freelist_push f fe end.

(** ** The invariant *)

(** A push puts an element on the list with a counter of its own.  [live] are the
    counters of the elements in the list; [hist] has the element and the top it was
    put on, for every counter used so far; [tick] is the counter that a thread will
    use, and [aba] the last one that was given out. *)
Record pushes : Type := Pushes {
  live : list Z;
  hist : gmap Z (Z * (Z * Z));
  tick : gmap nat Z;
  aba : Z;
}.

Definition top_pair (cs l : list Z) : Z * Z :=
  match cs, l with c :: _, p :: _ => (p, c) | _, _ => (NULL, 0) end.

Definition pair_in (h : heap) (a : Z) (v : Z * Z) : Prop := h !! Word a = Some v.1 /\ h !! Word (a + 8) = Some v.2.

Fixpoint linked (h : heap) (t : gmap Z (Z * (Z * Z))) (cs l : list Z) : Prop :=
  match cs, l with
  | [], [] => True
  | c :: cs, p :: l => t !! c = Some (p, top_pair cs l) /\ pair_in h (p + NEXT) (top_pair cs l) /\ linked h t cs l
  | _, _ => False
  end.

(** Where the elements are. *)
Record places (fs : Z) (E : list Z) : Prop := {
  pl_state : 0 < fs /\ fs mod 16 = 0;
  pl_elem p : p ∈ E -> 0 < p /\ p mod 16 = 0 /\ p <> fs /\ p <> fs + FS_ABA;
}.

Record freelist_inv (fs : Z) (E : list Z) (n : nat) (w : pushes) (h : heap) (l : list Z) : Prop := {
  fi_top : pair_in h (fs + FS_TOP) (top_pair (live w) l);
  fi_aba : h !! Word (fs + FS_ABA) = Some (aba w);
  fi_bound : 0 <= aba w /\ aba w + Z.of_nat n < word_mod;
  fi_elem p : p ∈ E -> exists v, pair_in h (p + NEXT) v;
  fi_linked : linked h (hist w) (live w) l;
  fi_list : NoDup l /\ forall p, p ∈ l -> p ∈ E;
  fi_live : NoDup (live w);
  fi_hist c e : hist w !! c = Some e -> 0 < c <= aba w;
  fi_tick i k : tick w !! i = Some k -> 0 < k <= aba w /\ hist w !! k = None;
  fi_ticks i j k : tick w !! i = Some k -> tick w !! j = Some k -> i = j;
}.

(** ** Inside of a call *)

Section points.
Context (fs : Z) (E : list Z).

(** What is left of [freelist_pop] once it has read [c], [p], and the [next] pair of [p]. *)
Definition pop_rest (c : Z) : prog Z := let! p := load (fs + FS_TOP) in loop (freelist_pop_body fs) (p, c).
Definition pop_again (p : prog ((Z * Z) + Z)) : prog Z := bind p (loop_next (freelist_pop_body fs) Ret).
Definition pop_swap (p c np nc : Z) : prog ((Z * Z) + Z) :=
  let! (ok, fe_local) := abstraction_dcas (fs + FS_TOP) (np, nc) (p, c) in
  if ok then Ret (inr p) else Ret (inl fe_local).
Definition pop_rest_next (p c np : Z) : prog ((Z * Z) + Z) := let! nc := load (p + NEXT + 8) in pop_swap p c np nc.

(** The counter [c] has been read at the top. *)
Definition seen (w : pushes) (c : Z) : Prop := c = 0 \/ is_Some (hist w !! c).
(** As long as the push with [c] is in the list, [f] is true of the top below it. *)
Definition below (w : pushes) (p c : Z) (f : Z * Z -> Prop) : Prop := 0 < c -> forall e, hist w !! c = Some (p, e) -> c ∈ live w -> f e.

(** The top in memory.  A thread whose view of it is not [v] has to try again, which
    takes four steps more. *)
Definition view (h : heap) : Z * Z := (default 0 (h !! Word (fs + FS_TOP)), default 0 (h !! Word (fs + FS_TOP + 8))).
Definition takes (h : heap) (v : Z * Z) (k e : nat) : Prop := (k + (if decide (v = view h) then 0 else 4) <= e)%nat.

Inductive popping (w : pushes) (h : heap) (e : nat) : cprog no_object Z -> Prop :=
| PopStart : (10 <= e)%nat -> popping w h e (lift (freelist_pop fs))
| PopCounter c : (9 <= e)%nat -> seen w c -> popping w h e (lift (pop_rest c))
| PopRead p c : takes h (p, c) 4 e -> seen w c -> p ∈ E -> popping w h e (lift (loop (freelist_pop_body fs) (p, c)))
| PopNext p c : takes h (p, c) 3 e -> seen w c -> p ∈ E -> popping w h e (lift (pop_again (freelist_pop_body fs (p, c))))
| PopNextCounter p c np : takes h (p, c) 2 e -> seen w c -> p ∈ E -> below w p c (fun e => np = e.1) -> popping w h e (lift (pop_again (pop_rest_next p c np)))
| PopSwap p c np nc : takes h (p, c) 1 e -> seen w c -> p ∈ E -> below w p c (fun e => (np, nc) = e) -> popping w h e (lift (pop_again (pop_swap p c np nc))).

Definition push_again (fe k : Z) (p : prog ((Z * Z) + unit)) : prog unit := bind p (loop_next (freelist_push_body fs fe k) Ret).
Definition push_swap (fe k : Z) (v : Z * Z) : prog ((Z * Z) + unit) :=
  let! (ok, v) := abstraction_dcas (fs + FS_TOP) (fe, k) v in
  if ok then Ret (inr tt) else Ret (inl v).

Inductive pushing (w : pushes) (h : heap) (i : nat) (e : nat) (fe : Z) : cprog no_object unit -> Prop :=
| PushStart : (11 <= e)%nat -> pushing w h i e fe (lift (freelist_push fs fe))
| PushTop k : (10 <= e)%nat -> tick w !! i = Some k -> pushing w h i e fe (lift (let! p := load (fs + FS_TOP) in
    let! c := load (fs + FS_TOP + 8) in loop (freelist_push_body fs fe k) (p, c)))
| PushCounter k p : (9 <= e)%nat -> tick w !! i = Some k -> pushing w h i e fe (lift (let! c := load (fs + FS_TOP + 8) in loop (freelist_push_body fs fe k) (p, c)))
| PushRead k v : takes h v 4 e -> tick w !! i = Some k -> pushing w h i e fe (lift (loop (freelist_push_body fs fe k) v))
| PushNext k v : takes h v 3 e -> tick w !! i = Some k -> pushing w h i e fe (lift (push_again fe k (freelist_push_body fs fe k v)))
| PushNextCounter k v : takes h v 2 e -> tick w !! i = Some k -> h !! Word (fe + NEXT) = Some v.1 ->
    pushing w h i e fe (lift (push_again fe k (store (fe + NEXT + 8) v.2;; push_swap fe k v)))
| PushSwap k v : takes h v 1 e -> tick w !! i = Some k -> pair_in h (fe + NEXT) v -> pushing w h i e fe (lift (push_again fe k (push_swap fe k v))).

Definition freelist_patience : nat := 11.

Definition freelist_busy (w : pushes) (h : heap) (i e : nat) (o : pool_op) : cprog no_object (pool_ret o) -> Prop :=
  match o with Pop _ => popping w h e | Push _ fe => pushing w h i e fe end.

(** Once the list has been seen empty, the loop only has to end. *)
Definition freelist_finishing (e : nat) (o : pool_op) : cprog no_object (pool_ret o) -> pool_ret o -> Prop :=
  match o with
  | Pop _ => fun p r => p = CRet r \/ r = NULL /\ (1 <= e)%nat /\ exists c, p = lift (loop (freelist_pop_body fs) (NULL, c))
  | Push _ _ => fun p r => p = CRet r
  end.
End points.

(** ** The programs between two accesses of memory *)

Section code_steps.
Context (fs : Z).

Lemma freelist_pop_lift : 0 < fs -> lift (O := no_object) (freelist_pop fs) = CAct (ALoad (fs + FS_TOP + 8)) (fun c => lift (pop_rest fs c)).
Proof. intros Hfs. unfold freelist_pop. by rw non_null_pos. Qed.

Lemma pop_body_lift p c : 0 < p ->
  lift (O := no_object) (pop_again fs (freelist_pop_body fs (p, c))) = CAct (ALoad (p + NEXT)) (fun np => lift (pop_again fs (pop_rest_next fs p c np))).
Proof. intros Hp. unfold pop_again, freelist_pop_body. by rw non_null_pos. Qed.

Lemma pop_null_lift c : lift (O := no_object) (pop_again fs (freelist_pop_body fs (NULL, c))) = CRet NULL.
Proof. done. Qed.

Lemma pop_swap_lift p c np nc : 0 < fs ->
  lift (O := no_object) (pop_again fs (pop_swap fs p c np nc)) =
  CAct (ADcas (fs + FS_TOP) np nc p c) (fun r : bool * Z * Z => if r.1.1 then CRet p else lift (loop (freelist_pop_body fs) (r.1.2, r.2))).
Proof.
  intros Hfs. unfold pop_again, pop_swap, abstraction_dcas. rw non_null_pos; last (unfold FS_TOP; lia).
  simpl. f_equal. extensionality r. by destruct r as [[[] v0] v1].
Qed.

Lemma freelist_push_lift fe : 0 < fs -> 0 < fe -> lift (O := no_object) (freelist_push fs fe) =
  CAct (AAddFetch (fs + FS_ABA) 1) (fun k => lift (let! p := load (fs + FS_TOP) in let! c := load (fs + FS_TOP + 8) in loop (freelist_push_body fs fe k) (p, c))).
Proof.
  intros Hfs Hfe. unfold freelist_push, abstraction_increment. rw (non_null_pos fs) // (non_null_pos fe) // (non_null_pos (fs + FS_ABA)) //. unfold FS_ABA. lia.
Qed.

Lemma push_body_lift fe k v : lift (O := no_object) (push_again fs fe k (freelist_push_body fs fe k v)) =
  CAct (AStore (fe + NEXT) v.1) (fun _ => lift (push_again fs fe k (store (fe + NEXT + 8) v.2;; push_swap fs fe k v))).
Proof. done. Qed.

Lemma push_swap_lift fe k v : 0 < fs -> lift (O := no_object) (push_again fs fe k (push_swap fs fe k v)) =
  CAct (ADcas (fs + FS_TOP) fe k v.1 v.2) (fun r : bool * Z * Z => if r.1.1 then CRet tt else lift (loop (freelist_push_body fs fe k) (r.1.2, r.2))).
Proof.
  intros Hfs. unfold push_again, push_swap, abstraction_dcas. rw non_null_pos; last (unfold FS_TOP; lia).
  simpl. f_equal. extensionality r. by destruct r as [[[] v0] v1].
Qed.
End code_steps.

(** ** What the other threads may do *)

Section evolution.
Context (fs : Z) (E : list Z).

Record evolves (stirs : bool) (i : nat) (act : activity (pool fs E)) (w : pushes) (h : heap) (w' : pushes) (h' : heap) : Prop := {
  ev_hist : hist w ⊆ hist w';
  ev_live c : is_Some (hist w !! c) -> c ∈ live w' -> c ∈ live w;
  ev_tick j : j <> i -> tick w' !! j = tick w !! j;
  ev_next j f fe v : j <> i -> act j = Some (Push f fe) -> (h !! Word (fe + NEXT) = Some v.1 -> h' !! Word (fe + NEXT) = Some v.1) /\
    (pair_in h (fe + NEXT) v -> pair_in h' (fe + NEXT) v);
  ev_view : stirs = true \/ view fs h' = view fs h;
}.

Lemma seen_evolves w w' c : hist w ⊆ hist w' -> seen w c -> seen w' c.
Proof. intros Hh [->|[e He]]; [by left|right]. exists e. by eapply lookup_weaken. Qed.

Lemma below_evolves st i act w h w' h' p c f : evolves st i act w h w' h' -> seen w c -> below w p c f -> below w' p c f.
Proof.
  intros HE [->|[e He]] Hb Hc e' He' Hl; [lia|]. assert (hist w' !! c = Some e) as He2 by (eapply lookup_weaken; [done|by apply (ev_hist _ _ _ _ _ _ _ HE)]).
  simplify_eq. apply Hb; [done|done|]. apply (ev_live _ _ _ _ _ _ _ HE); [by eexists|done].
Qed.

Lemma takes_evolves (st : bool) h h' v k e : st = true \/ view fs h' = view fs h -> (k <= 7)%nat -> takes fs h v k e -> takes fs h' v k (if st then freelist_patience else e).
Proof. unfold takes, freelist_patience. intros [->|Hv] Hk Ht; [|rw Hv; destruct st; [|done]]; repeat case_decide; lia. Qed.

Lemma popping_evolves (st : bool) i act w h w' h' e p : evolves st i act w h w' h' -> popping fs E w h e p -> popping fs E w' h' (if st then freelist_patience else e) p.
Proof.
  intros HE Hp. pose proof (ev_hist _ _ _ _ _ _ _ HE) as Hh. pose proof (ev_view _ _ _ _ _ _ _ HE) as Hv.
  destruct Hp as [He|c He Hc|p c He Hc Hp|p c He Hc Hp|p c np He Hc Hp Hb|p c np nc He Hc Hp Hb]; try apply (takes_evolves st h h') in He; try done; try lia.
  - apply PopStart. unfold freelist_patience. destruct st; lia.
  - apply PopCounter; [unfold freelist_patience; destruct st; lia|by eapply seen_evolves].
  - apply PopRead; [done|by eapply seen_evolves|done].
  - apply PopNext; [done|by eapply seen_evolves|done].
  - apply PopNextCounter; [done|by eapply seen_evolves|done|by eapply below_evolves].
  - apply PopSwap; [done|by eapply seen_evolves|done|by eapply below_evolves].
Qed.

Lemma pushing_evolves (st : bool) i act w h w' h' j e f fe p : evolves st i act w h w' h' -> j <> i -> act j = Some (Push f fe) ->
  pushing fs w h j e fe p -> pushing fs w' h' j (if st then freelist_patience else e) fe p.
Proof.
  intros HE Hj Ha Hp. pose proof (ev_tick _ _ _ _ _ _ _ HE j Hj) as Ht. pose proof (ev_view _ _ _ _ _ _ _ HE) as Hvw.
  destruct Hp as [He|k He Hk|k p He Hk|k v He Hk|k v He Hk|k v He Hk Hv|k v He Hk Hv]; try rw -Ht in Hk; try apply (takes_evolves st h h') in He; try done; try lia.
  - apply PushStart. unfold freelist_patience. destruct st; lia.
  - apply PushTop; [unfold freelist_patience; destruct st; lia|done].
  - apply PushCounter; [unfold freelist_patience; destruct st; lia|done].
  - by apply PushRead.
  - by apply PushNext.
  - apply PushNextCounter; [done|done|]. by apply (proj1 (ev_next _ _ _ _ _ _ _ HE j f fe v Hj Ha)).
  - apply PushSwap; [done|done|]. by apply (proj2 (ev_next _ _ _ _ _ _ _ HE j f fe v Hj Ha)).
Qed.

Lemma evolves_keeps (st : bool) i act w h w' h' : evolves st i act w h w' h' -> forall j e o p, j <> i ->
  (act j = Some o -> freelist_busy fs E w h j e o p -> freelist_busy fs E w' h' j (if st then freelist_patience else e) o p) /\
  (forall r, freelist_finishing fs e o p r -> freelist_finishing fs e o p r).
Proof.
  intros HE j e o p Hj. split; [|done]. destruct o as [f|f fe]; simpl.
  - intros _. by eapply popping_evolves.
  - intros Ha. by eapply pushing_evolves.
Qed.

Lemma evolves_refl i act w h : evolves false i act w h w h.
Proof. split; try done. by right. Qed.
End evolution.

(** ** Memory *)

Section memory.
Context (fs : Z) (E : list Z) (HP : places fs E).
Implicit Types (h : heap) (w : pushes).

Lemma elem_16 p : p ∈ E -> exists a, p = 16 * a /\ 0 < a.
Proof using HP. intros Hp. destruct (pl_elem _ _ HP p Hp) as (? & Hm & _). apply Z.mod_divide in Hm as [a ->]; [|done]. exists a. lia. Qed.

Lemma state_16 : exists a, fs = 16 * a /\ 0 < a.
Proof using HP. destruct (pl_state _ _ HP) as [? Hm]. apply Z.mod_divide in Hm as [a ->]; [|done]. exists a. lia. Qed.

Lemma pair_in_insert h a v b x : b <> a -> b <> a + 8 -> pair_in h a v -> pair_in (<[Word b := x]> h) a v.
Proof. intros H1 H2 [Ha Hb]. split; rw lookup_insert_ne //; congruence. Qed.

(** The words of the state are not those of an element. *)
Lemma pair_in_state h p v b x : p ∈ E -> b = fs + FS_TOP \/ b = fs + FS_TOP + 8 \/ b = fs + FS_ABA ->
  pair_in h (p + NEXT) v -> pair_in (<[Word b := x]> h) (p + NEXT) v.
Proof using HP.
  intros Hp Hb. destruct (elem_16 p Hp) as (a & -> & Ha), state_16 as (f & Hf & Hf0). destruct (pl_elem _ _ HP _ Hp) as (_ & _ & H1 & H2).
  unfold FS_TOP, FS_ABA, NEXT in *. apply pair_in_insert; lia.
Qed.

(** The words of different elements are different. *)
Lemma pair_in_elem h p q d v x : p ∈ E -> q ∈ E -> p <> q -> d = 0 \/ d = 8 -> pair_in h (p + NEXT) v -> pair_in (<[Word (q + NEXT + d) := x]> h) (p + NEXT) v.
Proof using HP.
  intros Hp Hq Hne Hd. destruct (elem_16 p Hp) as (a & -> & Ha), (elem_16 q Hq) as (b & -> & Hb). unfold NEXT. apply pair_in_insert; lia.
Qed.

Lemma top_insert h v q d x : q ∈ E -> d = 0 \/ d = 8 -> pair_in h (fs + FS_TOP) v -> pair_in (<[Word (q + NEXT + d) := x]> h) (fs + FS_TOP) v.
Proof using HP.
  intros Hq Hd. destruct (elem_16 q Hq) as (b & -> & Hb), state_16 as (f & Hf & Hf0). destruct (pl_elem _ _ HP _ Hq) as (_ & _ & H1 & H2).
  unfold NEXT, FS_TOP in *. apply pair_in_insert; lia.
Qed.

Lemma aba_insert h v q d x : q ∈ E -> d = 0 \/ d = 8 -> h !! Word (fs + FS_ABA) = Some v -> <[Word (q + NEXT + d) := x]> h !! Word (fs + FS_ABA) = Some v.
Proof using HP.
  intros Hq Hd Hv. destruct (elem_16 q Hq) as (b & -> & Hb), state_16 as (f & Hf & Hf0). destruct (pl_elem _ _ HP _ Hq) as (_ & _ & H1 & H2).
  unfold NEXT, FS_ABA in *. rw lookup_insert_ne //. intros [=]. lia.
Qed.

Lemma pair_in_write h a v : pair_in (<[Word a := v.1]> (<[Word (a + 8) := v.2]> h)) a v.
Proof. split; [by rw lookup_insert_eq|]. rw lookup_insert_ne; last (intros [=]; lia). by rw lookup_insert_eq. Qed.

Lemma linked_lookup h t cs l c p e : linked h t cs l -> c ∈ cs -> t !! c = Some (p, e) -> pair_in h (p + NEXT) e.
Proof.
  revert l. induction cs as [|c' cs IH]; intros [|q l] Hl Hc Ht; simpl in *; try done; [by apply elem_of_nil in Hc|].
  destruct Hl as (Hq & Hn & Hl). apply elem_of_cons in Hc as [->|Hc]; [by simplify_eq|by eapply IH].
Qed.

Lemma linked_hist h t cs l c : linked h t cs l -> c ∈ cs -> is_Some (t !! c).
Proof.
  revert l. induction cs as [|c' cs IH]; intros [|q l] Hl Hc; simpl in *; try done; [by apply elem_of_nil in Hc|].
  destruct Hl as (Hq & Hn & Hl). apply elem_of_cons in Hc as [->|Hc]; [by eexists|by eapply IH].
Qed.

Lemma linked_change h t h' t' cs l : linked h t cs l -> t ⊆ t' -> (forall p v, p ∈ l -> pair_in h (p + NEXT) v -> pair_in h' (p + NEXT) v) -> linked h' t' cs l.
Proof.
  intros Hl Ht. revert l Hl. induction cs as [|c cs IH]; intros [|p l] Hl Hh; simpl in *; try done. destruct Hl as (Hp & Hn & Hl).
  split; [by eapply lookup_weaken|]. split; [apply Hh; [by left|done]|]. apply IH; [done|]. intros q v Hq. apply Hh. by right.
Qed.

Lemma linked_seen w h l : linked h (hist w) (live w) l -> seen w (top_pair (live w) l).2.
Proof. destruct (live w) as [|c cs], l as [|p l]; simpl; try by left. intros (Hc & _). right. by eexists. Qed.
End memory.

(** ** The steps *)

Section steps.
Context {AL : Allocator} (fs : Z) (E : list Z) (HP : places fs E).
Implicit Types (h : heap) (w : pushes) (l : list Z).

Definition advances (n i e : nat) (act : activity (pool fs E)) w h l (o : pool_op) (p : cprog no_object (pool_ret o)) (h' : heap) : Prop :=
  exists w',
    (freelist_inv fs E n w' h' l /\ evolves fs E false i act w h w' h' /\ exists e', (e' < e)%nat /\ freelist_busy fs E w' h' i e' o p) \/
    (evolves fs E true i act w h w' h' /\ exists r l', pool_call l o r l' /\ freelist_inv fs E n w' h' l' /\ freelist_finishing fs 1 o p r).

Lemma freelist_inv_pred n w h l : freelist_inv fs E (S n) w h l -> freelist_inv fs E n w h l.
Proof. intros []. split; try done. lia. Qed.

Lemma stays n i e e' act w h l o p : freelist_inv fs E (S n) w h l -> (e' < e)%nat -> freelist_busy fs E w h i e' o p -> advances n i e act w h l o p h.
Proof. intros HI He Hb. exists w. left. split; [by apply freelist_inv_pred|]. split; [apply evolves_refl|by exists e']. Qed.

Lemma evolves_stirs i act w h w' h' : evolves fs E false i act w h w' h' -> evolves fs E true i act w h w' h'.
Proof. intros []. split; try done. by left. Qed.

(** One step less is left. *)
Lemma takes_next h v k e : takes fs h v (S k) e -> takes fs h v k (pred e) /\ (pred e < e)%nat.
Proof. unfold takes. lia. Qed.

Lemma view_top n w h l : freelist_inv fs E n w h l -> view fs h = top_pair (live w) l.
Proof. intros HI. destruct (fi_top _ _ _ _ _ _ HI) as [H0 H1]. unfold view. rw H0 H1. by destruct (top_pair _ _). Qed.

Lemma takes_view h k : takes fs h (view fs h) k k.
Proof. unfold takes. case_decide; [lia|done]. Qed.

Lemma takes_any h v k : takes fs h v k (k + 4).
Proof. unfold takes. case_decide; lia. Qed.

(** A failed swap shows a view that was not the top. *)
Lemma takes_retry n w h l v k e : freelist_inv fs E n w h l -> ~ ((top_pair (live w) l).1 = v.1 /\ (top_pair (live w) l).2 = v.2) -> takes fs h v k e -> (k + 4 <= e)%nat.
Proof. intros HI Hne Ht. unfold takes in Ht. rw (view_top _ _ _ _ HI) in Ht. case_decide; [|done]. exfalso. apply Hne. by subst. Qed.

(** The elements that other threads push. *)
Definition others (i : nat) (act : activity (pool fs E)) (P : Z -> Prop) : Prop := forall j f fe, j <> i -> act j = Some (Push f fe) -> P fe.

(** A write to the words of the state does not concern the other threads. *)
Lemma state_pairs h b0 x0 b1 x1 p v : p ∈ E -> b0 = fs + FS_TOP \/ b0 = fs + FS_TOP + 8 \/ b0 = fs + FS_ABA ->
  b1 = fs + FS_TOP \/ b1 = fs + FS_TOP + 8 \/ b1 = fs + FS_ABA ->
  pair_in h (p + NEXT) v -> pair_in (<[Word b0 := x0]> (<[Word b1 := x1]> h)) (p + NEXT) v.
Proof using HP. intros Hp H0 H1 Hv. by do 2 (apply (pair_in_state fs E); [done|done|done|]). Qed.

Lemma pair_in_next h h' fe (v : Z * Z) : (exists x, pair_in h (fe + NEXT) x) -> (forall x, pair_in h (fe + NEXT) x -> pair_in h' (fe + NEXT) x) ->
  (h !! Word (fe + NEXT) = Some v.1 -> h' !! Word (fe + NEXT) = Some v.1) /\ (pair_in h (fe + NEXT) v -> pair_in h' (fe + NEXT) v).
Proof. intros [x Hx] Hh. split; [|apply Hh]. intros Hv. destruct (Hh x Hx) as [H0 _]. destruct Hx as [H1 _]. congruence. Qed.

(** A thread that reads the top: the list is empty, or there is an element. *)
Lemma top_cases n w h l : freelist_inv fs E n w h l ->
  (l = [] /\ top_pair (live w) l = (NULL, 0)) \/
  exists p l' c cs, l = p :: l' /\ live w = c :: cs /\ top_pair (live w) l = (p, c) /\ p ∈ E /\ 0 < p /\ 0 < c /\ hist w !! c = Some (p, top_pair cs l').
Proof using HP.
  intros HI. pose proof (fi_linked _ _ _ _ _ _ HI) as Hl. destruct l as [|p l'], (live w) as [|c cs] eqn:Hc; simpl in Hl; try done; [by left|right].
  destruct Hl as (Hh & _). exists p, l', c, cs. assert (p ∈ E) as Hp by (apply HI; by left). split_and!; try done.
  - by apply (pl_elem _ _ HP).
  - apply (fi_hist _ _ _ _ _ _ HI) in Hh. lia.
Qed.

(** After a read of the top, a pop ends or tries the element. *)
Lemma pop_read n i e act w h l v : freelist_inv fs E (S n) w h l -> v.1 = (top_pair (live w) l).1 -> seen w v.2 ->
  (exists e', (e' < e)%nat /\ takes fs h v 4 e') -> advances n i e act w h l (Pop fs) (lift (loop (freelist_pop_body fs) v)) h.
Proof using HP.
  destruct v as [p c]. simpl. intros HI -> Hc (e' & He & Ht'). destruct (top_cases _ _ _ _ HI) as [[-> Ht]|(q & l' & k & cs & -> & Hlive & Ht & Hq & _)]; rw Ht /= in Ht' |- *.
  - exists w. right. split; [apply evolves_stirs, evolves_refl|]. exists NULL, []. split; [done|]. split; [by apply freelist_inv_pred|]. right. split; [done|]. split; [done|by exists c].
  - apply (stays _ _ _ e'); [done|done|]. by apply PopRead.
Qed.

Lemma pop_taken n w h p l c cs : freelist_inv fs E (S n) w h (p :: l) -> live w = c :: cs ->
  let top := top_pair cs l in
  freelist_inv fs E n (Pushes cs (hist w) (tick w) (aba w)) (<[Word (fs + FS_TOP) := top.1]> (<[Word (fs + FS_TOP + 8) := top.2]> h)) l.
Proof using HP.
  intros [Htop Haba Hb Hel Hl [Hnd Hsub] Hlv Hh Htk Htks] Hc top. rw Hc /= in Hl Hlv. destruct Hl as (_ & _ & Hl).
  assert (forall q v, q ∈ E -> pair_in h (q + NEXT) v -> pair_in (<[Word (fs + FS_TOP) := top.1]> (<[Word (fs + FS_TOP + 8) := top.2]> h)) (q + NEXT) v) as Hmem.
  { intros q v Hq. by apply state_pairs; [done|left|right; left]. }
  split; simpl; try done.
  - apply pair_in_write.
  - rw !lookup_insert_ne //; unfold FS_TOP, FS_ABA; intros [=]; lia.
  - lia.
  - intros q Hq. destruct (Hel q Hq) as [v Hv]. exists v. by apply Hmem.
  - eapply linked_change; [done|done|]. intros q v Hq. apply Hmem, Hsub. by right.
  - apply NoDup_cons in Hnd as [_ Hnd]. split; [done|]. intros q Hq. apply Hsub. by right.
  - by apply NoDup_cons in Hlv as [_ ?].
Qed.

Lemma pop_step n i e act w h l p : freelist_inv fs E (S n) w h l -> popping fs E w h e p -> others i act (fun fe => fe ∈ E) ->
  goes p h tt (fun p' h' _ => advances n i e act w h l (Pop fs) p' h').
Proof using HP.
  intros HI Hp Hact. pose proof (proj1 (pl_state _ _ HP)) as Hfs. pose proof (fi_top _ _ _ _ _ _ HI) as [Ht0 Ht1].
  destruct Hp as [He|c He Hc|p c He Hc HpE|p c He Hc HpE|p c np He Hc HpE Hb|p c np nc He Hc HpE Hb].
  - rw freelist_pop_lift //. eapply goes_load; [exact Ht1|]. apply (stays _ _ _ 9); [done|lia|]. apply PopCounter; [done|]. by eapply linked_seen, HI.
  - change (lift (pop_rest fs c)) with (CAct (O := no_object) (ALoad (fs + FS_TOP)) (fun p => lift (loop (freelist_pop_body fs) (p, c)))).
    eapply goes_load; [exact Ht0|]. apply pop_read; [done|done|done|]. exists 8%nat. split; [lia|apply (takes_any _ _ 4)].
  - destruct (takes_next _ _ _ _ He) as [He1 He2]. apply goes_lift_loop. apply (stays _ _ _ (pred e)); [done|done|]. by apply PopNext.
  - destruct (takes_next _ _ _ _ He) as [He1 He2]. destruct (fi_elem _ _ _ _ _ _ HI p HpE) as [v [H0 H1]]. rw pop_body_lift; last by apply (pl_elem _ _ HP).
    eapply goes_load; [exact H0|]. apply (stays _ _ _ (pred e)); [done|done|]. apply PopNextCounter; [done|done|done|]. intros _ x Hx Hlv.
    destruct (linked_lookup _ _ _ _ _ _ _ (fi_linked _ _ _ _ _ _ HI) Hlv Hx) as [H2 _]. congruence.
  - destruct (takes_next _ _ _ _ He) as [He1 He2]. destruct (fi_elem _ _ _ _ _ _ HI p HpE) as [v [H0 H1]].
    change (lift (pop_again fs (pop_rest_next fs p c np))) with (CAct (O := no_object) (ALoad (p + NEXT + 8)) (fun nc => lift (pop_again fs (pop_swap fs p c np nc)))).
    eapply goes_load; [exact H1|]. apply (stays _ _ _ (pred e)); [done|done|]. apply PopSwap; [done|done|done|]. intros Hc0 x Hx Hlv. rw (Hb Hc0 x Hx Hlv).
    destruct (linked_lookup _ _ _ _ _ _ _ (fi_linked _ _ _ _ _ _ HI) Hlv Hx) as [_ H2]. rw H1 in H2. destruct x. simpl in *. congruence.
  - rw pop_swap_lift //. eapply goes_dcas; [|exact Ht0|exact Ht1| |].
    + rw Z.add_0_r. apply (pl_state _ _ HP).
    + intros E0 E1. simpl. destruct (top_cases _ _ _ _ HI) as [[-> Ht]|(q & l' & k & cs & -> & Hlive & Ht & Hq & Hq0 & Hk & Hh)].
      { exfalso. rw Ht /= in E0. apply (pl_elem _ _ HP) in HpE as [? _]. unfold NULL in E0. lia. }
      rw Ht /= in E0 E1. subst q k. assert ((np, nc) = top_pair cs l') as Hn.
      { apply (Hb Hk); [done|]. rw Hlive. by left. }
      exists (Pushes cs (hist w) (tick w) (aba w)). right. split.
      * split; simpl; try done; [intros c' _; rw Hlive; by right| |by left]. intros j f fe v Hj Ha.
        pose proof (Hact j f fe Hj Ha) as Hfe. apply pair_in_next; [by apply (fi_elem _ _ _ _ _ _ HI)|]. intros x. by apply state_pairs; [done|left|right; left].
      * exists p, l'. split; [done|]. split; [|by left]. pose proof (pop_taken n w h p l' c cs HI Hlive) as HI'. by rw -Hn in HI'.
    + intros Hne. simpl. apply pop_read; [done|done|by eapply linked_seen, HI|]. pose proof (takes_retry _ _ _ _ (p, c) _ _ HI Hne He). exists 4%nat. split; [lia|].
      rw -surjective_pairing -(view_top _ _ _ _ HI). apply takes_view.
Qed.

(** The next counter goes to the thread. *)
Lemma push_ticket n i w h l : freelist_inv fs E (S n) w h l ->
  freelist_inv fs E n (Pushes (live w) (hist w) (<[i := aba w + 1]> (tick w)) (aba w + 1)) (<[Word (fs + FS_ABA) := aba w + 1]> h) l.
Proof using HP.
  intros [Htop Haba Hb Hel Hl [Hnd Hsub] Hlv Hh Htk Htks].
  assert (forall q v, q ∈ E -> pair_in h (q + NEXT) v -> pair_in (<[Word (fs + FS_ABA) := aba w + 1]> h) (q + NEXT) v) as Hmem.
  { intros q v Hq. apply (pair_in_state fs E); [done|done|by right; right]. }
  split; simpl; try done.
  - apply pair_in_insert; [unfold FS_TOP, FS_ABA; lia..|done].
  - by rw lookup_insert_eq.
  - lia.
  - intros q Hq. destruct (Hel q Hq) as [v Hv]. exists v. by apply Hmem.
  - eapply linked_change; [done|done|]. intros q v Hq. by apply Hmem, Hsub.
  - intros c e He. apply Hh in He. lia.
  - intros j k. rw lookup_insert_Some. intros [[-> <-]|[Hj Hk]].
    + split; [lia|]. destruct (hist w !! (aba w + 1)) as [e|] eqn:He; [|done]. apply Hh in He. lia.
    + destruct (Htk j k Hk). split; [lia|done].
  - intros j1 j2 k. rw !lookup_insert_Some. intros [[-> <-]|[Hj Hk]] [[-> Hk2]|[Hj2 Hk2]]; [done|..].
    + apply Htk in Hk2. lia.
    + subst k. apply Htk in Hk. lia.
    + by eapply Htks.
Qed.

(** Writing the [next] pair of an element that is not in the list. *)
Lemma push_write n w h l fe d x : freelist_inv fs E (S n) w h l -> fe ∈ E -> fe ∉ l -> d = 0 \/ d = 8 -> freelist_inv fs E n w (<[Word (fe + NEXT + d) := x]> h) l.
Proof using HP.
  intros [Htop Haba Hb Hel Hl [Hnd Hsub] Hlv Hh Htk Htks] Hfe Hfl Hd. split; try done.
  - by apply (top_insert fs E).
  - by apply (aba_insert fs E).
  - lia.
  - intros q Hq. destruct (Hel q Hq) as [v Hv]. destruct (decide (q = fe)) as [->|Hne]; [|exists v; by apply (pair_in_elem fs E)].
    destruct Hv as [H0 H1]. destruct Hd as [->| ->].
    + rw Z.add_0_r. exists (x, v.2). split; [by rw lookup_insert_eq|]. rw lookup_insert_ne //. intros [=]. lia.
    + exists (v.1, x). split; [|by rw lookup_insert_eq]. rw lookup_insert_ne //. intros [=]. lia.
  - eapply linked_change; [done|done|]. intros q v Hq. apply (pair_in_elem fs E); [done|by apply Hsub|done| |done]. intros ->. done.
Qed.

(** The element becomes the top of the list. *)
Lemma push_done n i w h l fe k : freelist_inv fs E (S n) w h l -> fe ∈ E -> fe ∉ l -> tick w !! i = Some k -> pair_in h (fe + NEXT) (top_pair (live w) l) ->
  freelist_inv fs E n (Pushes (k :: live w) (<[k := (fe, top_pair (live w) l)]> (hist w)) (delete i (tick w)) (aba w))
    (<[Word (fs + FS_TOP) := fe]> (<[Word (fs + FS_TOP + 8) := k]> h)) (fe :: l).
Proof using HP.
  intros HI Hfe Hfl Hk Hn. destruct HI as [Htop Haba Hb Hel Hl [Hnd Hsub] Hlv Hh Htk Htks]. destruct (Htk i k Hk) as [Hk0 Hk1].
  assert (forall q v, q ∈ E -> pair_in h (q + NEXT) v -> pair_in (<[Word (fs + FS_TOP) := fe]> (<[Word (fs + FS_TOP + 8) := k]> h)) (q + NEXT) v) as Hmem.
  { intros q v Hq. by apply state_pairs; [done|left|right; left]. }
  assert (linked (<[Word (fs + FS_TOP) := fe]> (<[Word (fs + FS_TOP + 8) := k]> h)) (<[k := (fe, top_pair (live w) l)]> (hist w)) (live w) l) as Hl'.
  { eapply linked_change; [done|by apply insert_subseteq|]. intros q v Hq. by apply Hmem, Hsub. }
  split; simpl; try done.
  - apply (pair_in_write h (fs + FS_TOP) (fe, k)).
  - rw !lookup_insert_ne //; unfold FS_TOP, FS_ABA; intros [=]; lia.
  - lia.
  - intros q Hq. destruct (Hel q Hq) as [v Hv]. exists v. by apply Hmem.
  - split; [by rw lookup_insert_eq|]. split; [by apply Hmem|done].
  - split; [by apply NoDup_cons|]. intros q Hq. apply elem_of_cons in Hq as [->|Hq]; [done|by apply Hsub].
  - apply NoDup_cons. split; [|done]. intros Hin. destruct (linked_hist _ _ _ _ _ Hl Hin) as [e He]. congruence.
  - intros c e. rw lookup_insert_Some. intros [[-> _]|[_ He]]; [lia|by apply Hh in He].
  - intros j k'. rw lookup_delete_Some. intros [Hj Hk']. destruct (Htk j k' Hk') as [? ?]. split; [done|]. rw lookup_insert_ne //.
    intros ->. apply Hj. by eapply Htks.
  - intros j1 j2 k'. rw !lookup_delete_Some. intros [_ ?] [_ ?]. by eapply Htks.
Qed.

(** Writes to an element that is pushed do not concern the other threads. *)
Lemma push_write_evolves n i act w h l fe d x : freelist_inv fs E (S n) w h l -> fe ∈ E -> fe ∉ l -> d = 0 \/ d = 8 -> others i act (fun p => p ∈ E /\ p <> fe) ->
  evolves fs E false i act w h w (<[Word (fe + NEXT + d) := x]> h).
Proof using HP.
  intros HI Hfe Hfl Hd Hact. split; try done.
  - intros j f p v Hj Ha. destruct (Hact j f p Hj Ha) as [Hp Hne].
    apply pair_in_next; [by apply (fi_elem _ _ _ _ _ _ HI)|]. intros y. by apply (pair_in_elem fs E).
  - right. pose proof (push_write n w h l fe d x HI Hfe Hfl Hd) as HI'. by rw (view_top _ _ _ _ HI) (view_top _ _ _ _ HI').
Qed.

Lemma push_step n i e act w h l fe p : freelist_inv fs E (S n) w h l -> pushing fs w h i e fe p -> fe ∈ E -> fe ∉ l ->
  others i act (fun p => p ∈ E /\ p <> fe) ->
  goes p h tt (fun p' h' _ => advances n i e act w h l (Push fs fe) p' h').
Proof using HP.
  intros HI Hp Hfe Hfl Hact. pose proof (proj1 (pl_state _ _ HP)) as Hfs. pose proof (fi_top _ _ _ _ _ _ HI) as [Ht0 Ht1].
  pose proof (fi_bound _ _ _ _ _ _ HI) as Hb. destruct (fi_elem _ _ _ _ _ _ HI fe Hfe) as [v0 [H0 H1]].
  assert (forall x d, d = 0 \/ d = 8 -> view fs (<[Word (fe + NEXT + d) := x]> h) = view fs h) as Hview.
  { intros x d Hd. pose proof (push_write n w h l fe d x HI Hfe Hfl Hd) as HI'. by rw (view_top _ _ _ _ HI) (view_top _ _ _ _ HI'). }
  destruct Hp as [He|k He Hk|k p He Hk|k v He Hk|k v He Hk|k v He Hk Hv|k v He Hk Hv].
  - pose proof (push_ticket n i w h l HI) as HI'. rw freelist_push_lift //; last by apply (pl_elem _ _ HP). eapply goes_add; [apply HI|].
    rw wrap_small; last (unfold is_word; lia). exists (Pushes (live w) (hist w) (<[i := aba w + 1]> (tick w)) (aba w + 1)). left. split; [done|]. split.
    + split; simpl; try done; [intros j Hj; by rw lookup_insert_ne| |right; by rw (view_top _ _ _ _ HI) (view_top _ _ _ _ HI')].
      intros j f q v Hj Ha. destruct (Hact j f q Hj Ha) as [Hq _].
      apply pair_in_next; [by apply (fi_elem _ _ _ _ _ _ HI)|]. intros y. apply (pair_in_state fs E); [done|done|by right; right].
    + exists 10%nat. split; [lia|]. apply PushTop; [done|]. by rw lookup_insert_eq.
  - eapply (goes_load (fs + FS_TOP)); [exact Ht0|]. apply (stays _ _ _ 9); [done|lia|]. by apply PushCounter.
  - eapply (goes_load (fs + FS_TOP + 8)); [exact Ht1|]. apply (stays _ _ _ 8); [done|lia|]. apply (PushRead _ _ _ _ _ _ k (p, _)); [apply (takes_any _ _ 4)|done].
  - destruct (takes_next _ _ _ _ He) as [He1 He2]. apply goes_lift_loop. apply (stays _ _ _ (pred e)); [done|done|]. by apply PushNext.
  - destruct (takes_next _ _ _ _ He) as [He1 He2]. pose proof (push_write n w h l fe 0 v.1 HI Hfe Hfl (or_introl eq_refl)) as HI'.
    pose proof (push_write_evolves _ i act w h l fe 0 v.1 HI Hfe Hfl (or_introl eq_refl) Hact) as Hev. specialize (Hview v.1 0 (or_introl eq_refl)). rw Z.add_0_r in HI' Hev Hview.
    rw push_body_lift. eapply goes_store; [exact H0|]. exists w. left. split; [done|]. split; [done|]. exists (pred e). split; [done|].
    apply PushNextCounter; [unfold takes in *; by rw Hview|done|]. by rw lookup_insert_eq.
  - destruct (takes_next _ _ _ _ He) as [He1 He2]. specialize (Hview v.2 8 (or_intror eq_refl)).
    eapply (goes_store (fe + NEXT + 8)); [exact H1|]. exists w. left. split; [by apply push_write; auto|]. split; [by eapply push_write_evolves; eauto|].
    exists (pred e). split; [done|]. apply PushSwap; [unfold takes in *; by rw Hview|done|]. split; [|by rw lookup_insert_eq].
    rw lookup_insert_ne //. intros [=]. lia.
  - rw push_swap_lift //. eapply goes_dcas; [|exact Ht0|exact Ht1| |].
    + rw Z.add_0_r. apply (pl_state _ _ HP).
    + intros E0 E1. assert (v = top_pair (live w) l) as -> by (destruct v, (top_pair (live w) l); simpl in *; congruence).
      destruct (fi_tick _ _ _ _ _ _ HI i k Hk) as [_ Hkh]. simpl.
      exists (Pushes (k :: live w) (<[k := (fe, top_pair (live w) l)]> (hist w)) (delete i (tick w)) (aba w)). right. split.
      * split; simpl; [by apply insert_subseteq| | | |by left].
        -- intros c [x Hx] Hc. apply elem_of_cons in Hc as [->|Hc]; [congruence|done].
        -- intros j Hj. by rw lookup_delete_ne.
        -- intros j f q v Hj Ha. destruct (Hact j f q Hj Ha) as [Hq _]. apply pair_in_next; [by apply (fi_elem _ _ _ _ _ _ HI)|].
           intros y. by apply state_pairs; [done|left|right; left].
      * exists tt, (fe :: l). split; [done|]. split; [|done]. by apply push_done.
    + intros Hne. simpl. pose proof (takes_retry _ _ _ _ _ _ _ HI Hne He). apply (stays _ _ _ 4); [done|lia|]. apply (PushRead _ _ _ _ _ _ k (_, _)); [|done].
      rw -surjective_pairing -(view_top _ _ _ _ HI). apply takes_view.
Qed.
End steps.

(** ** The implementation *)

Section instance.
Context {AL : Allocator} (fs : Z) (E : list Z) (HP : places fs E).

#[export] Instance freelist_implements : Implements (O1 := no_object) (O2 := pool fs E) (fun o => lift (freelist_code o)).
Proof using HP.
  refine {|
    ghost := pushes;
    inv := fun n w h (_ : ostate no_object) (l : ostate (pool fs E)) => freelist_inv fs E n w h l;
    busy := fun w h i e (o : op (pool fs E)) (p : cprog no_object (ret o)) => freelist_busy fs E w h i e o p;
    finishing := fun w h i e (o : op (pool fs E)) (p : cprog no_object (ret o)) r => freelist_finishing fs e o p r;
    patience := freelist_patience;
    lag _ := 0%nat;
    max_lag := 0%nat;
  |}.
  - intros n w h _ l. apply freelist_inv_pred.
  - done.
  - intros n w h _ l i [f|f fe] HI Hok; simpl in *.
    + apply bool_decide_eq_true in Hok as ->. apply PopStart. unfold freelist_patience. lia.
    + apply bool_decide_eq_true in Hok as [-> _]. apply PushStart. unfold freelist_patience. lia.
  - intros n w h [] l i e o p act HI Hb He Hok Hpeace.
    assert (others fs E i act (fun fe => fe ∈ E)) as Hact.
    { intros j f fe Hj Ha. destruct (Hpeace j _ Hj Ha) as [Hj' _]. simpl in Hj'. by apply bool_decide_eq_true in Hj' as (_ & ? & _). }
    assert (goes p h tt (fun p' h' _ => advances fs E n i e act w h l o p' h')) as Hgo.
    { destruct o as [f|f fe]; simpl in Hok.
      - apply bool_decide_eq_true in Hok as ->. by apply pop_step.
      - apply bool_decide_eq_true in Hok as (-> & Hfe & Hfl). apply push_step; try done.
        intros j f q Hj Ha. split; [by apply (Hact j f)|]. destruct (Hpeace j _ Hj Ha) as [_ Hj']. specialize (Hj' tt (fe :: l) eq_refl).
        simpl in Hj'. apply bool_decide_eq_true in Hj' as (_ & _ & Hq). intros ->. apply Hq. by left. }
    eapply goes_mono; [exact Hgo|]. intros p' h' [] (w' & [(HI' & Hev & e' & He' & Hb')|(Hev & r & l' & Hcall & HI' & Hf)]); exists w'.
    + left. split; [done|]. exists e'. split; [|done]. left. split; [by apply (evolves_keeps fs E false)|]. split; [done|done].
    + right. split; [by apply (evolves_keeps fs E true)|]. exists r, l', 1%nat. split; [done|]. split; [done|]. split; [unfold freelist_patience; lia|done].
  - intros n w h [] l i e [f|f fe] p r act HI Hf He; simpl in *; [|by left]. destruct Hf as [->|(-> & Hr & c & ->)]; [by left|right].
    apply goes_lift_loop. exists w. split; [by apply freelist_inv_pred|]. exists 0%nat. split; [|by left].
    left. split; [by apply (evolves_keeps fs E false), evolves_refl|]. split; [done|lia].
Defined.
End instance.
