(* ===== verification/FreelistThreads.v ===== *)
(** * src/basic/lf_freelist.c: threads that share a freelist.

    Any number of threads take elements from one freelist, write to the data of
    those they have, and give them back. *)
From Stdlib Require Import FunctionalExtensionality.
From S2P Require Import Prelude Machine SepLogic Alloc Script Basic Chain Freelist Objects FreelistAtomic.
#[local] Open Scope Z_scope.

(** What a thread does with the elements in its hands, which are named by position. *)
Inductive hand_op : Set :=
| Take
| Give (j : nat)
| Write (j : nat) (v : Z).

Section threads.
Context {AL : Allocator} (fs : Z) (E : list Z).

(** The elements in the hands of a thread, with their data. *)
Fixpoint hands (ops : list hand_op) (held : list (Z * Z)) : cprog (pool fs E) (list (Z * Z)) :=
  match ops with
  | [] => CRet held
  | Take :: ops => CCall (O := pool fs E) (Pop fs) (fun fe : Z =>
      if fe =? NULL then hands ops held
      else CAct (ALoad (fe + FE_DATA)) (fun v : Z => hands ops ((fe, v) :: held)))
  | Give j :: ops =>
      match held !! j with
      | Some (fe, _) => CCall (O := pool fs E) (Push fs fe) (fun _ => hands ops (delete j held))
      | None => hands ops held
      end
  | Write j v :: ops =>
      match held !! j with
      | Some (fe, _) => CAct (AStore (fe + FE_DATA) v) (fun _ => hands ops (<[j := (fe, v)]> held))
      | None => hands ops held
      end
  end.

(** A thread between two steps: just after a take it reads the data. *)
Inductive at_hands : cprog (pool fs E) (list (Z * Z)) -> list (Z * Z) -> Prop :=
| AtHands ops held : at_hands (hands ops held) held
| AtTaken ops fe v held : at_hands (CAct (ALoad (fe + FE_DATA)) (fun v : Z => hands ops ((fe, v) :: held))) ((fe, v) :: held).

(** The same elements are free or in the hands of one thread. *)
Record hands_inv (c : system (pool fs E) (list (Z * Z))) (hs : list (list (Z * Z))) : Prop := {
  hi_threads : Forall2 at_hands (threads c) hs;
  hi_elements : (state c ++ (concat hs).*1) ≡ₚ E;
  hi_data fe v : (fe, v) ∈ concat hs -> memory c !! Word (fe + FE_DATA) = Some v;
  hi_words fe : fe ∈ E -> is_Some (memory c !! Word (fe + FE_DATA));
}.

Hypothesis HE : NoDup E.
Hypothesis Hpos : forall fe, fe ∈ E -> 0 < fe.

Lemma concat_delete {B} (hs : list (list B)) i x : hs !! i = Some x -> concat hs ≡ₚ x ++ concat (delete i hs).
Proof.
  revert i. induction hs as [|y hs IH]; intros [|i] Hi; simpl in *; try done; [by simplify_eq|].
  rw (IH i Hi). by rw !app_assoc (Permutation_app_comm y x).
Qed.

Lemma concat_insert {B} (hs : list (list B)) i x y : hs !! i = Some y -> concat (<[i := x]> hs) ≡ₚ x ++ concat (delete i hs).
Proof.
  revert i. induction hs as [|z hs IH]; intros [|i] Hi; simpl in *; try done.
  rw (IH i Hi). by rw !app_assoc (Permutation_app_comm z x).
Qed.

(** An element in the hands of a thread is an element, is not free and is in no other hands. *)
Lemma held_alone c hs i held fe : hands_inv c hs -> hs !! i = Some held -> fe ∈ held.*1 ->
  fe ∈ E /\ (fe ∉ state c) /\ (fe ∉ (concat (delete i hs)).*1).
Proof using HE.
  intros HI Hi Hfe. pose proof (hi_elements _ _ HI) as HP. rw (concat_delete _ _ _ Hi) fmap_app in HP. pose proof HE as Hnd. rw -HP in Hnd.
  apply NoDup_app in Hnd as (_ & Hd1 & Hnd). apply NoDup_app in Hnd as (_ & Hd2 & _). split; [rw -HP !elem_of_app; tauto|].
  split; [|by apply Hd2]. intros Hin. apply (Hd1 fe Hin). rw elem_of_app. by left.
Qed.

(** Thread [i] has moved, with [held'] in its hands. *)
Lemma hands_update ts m l hs i held p' held' m' l' :
  hands_inv (System ts m l) hs -> hs !! i = Some held -> at_hands p' held' -> (l' ++ held'.*1) ≡ₚ (l ++ held.*1) ->
  (forall fe v, (fe, v) ∈ held' -> m' !! Word (fe + FE_DATA) = Some v) ->
  (forall fe v, fe ∉ held.*1 -> m !! Word (fe + FE_DATA) = Some v -> m' !! Word (fe + FE_DATA) = Some v) ->
  (forall fe, is_Some (m !! Word (fe + FE_DATA)) -> is_Some (m' !! Word (fe + FE_DATA))) ->
  hands_inv (System (<[i := p']> ts) m' l') (<[i := held']> hs).
Proof using HE.
  intros HI Hi Hp HP Hh Ho Hw. split; simpl.
  - by apply Forall2_insert; [apply HI|].
  - rw (concat_insert _ _ _ _ Hi) fmap_app app_assoc HP -app_assoc -fmap_app -(concat_delete _ _ _ Hi). apply HI.
  - intros fe v. rw (concat_insert _ _ _ _ Hi) elem_of_app. intros [Hin|Hin]; [by apply Hh|]. apply Ho.
    + intros Hfe. destruct (held_alone _ _ _ _ _ HI Hi Hfe) as (_ & _ & Hn). apply Hn. apply list_elem_of_fmap. by exists (fe, v).
    + apply (hi_data _ _ HI). rw (concat_delete _ _ _ Hi) elem_of_app. by right.
  - intros fe Hfe. by apply Hw, (hi_words _ _ HI).
Qed.

(** What the next step of a thread may be. *)
Definition hands_go (ts : list (cprog (pool fs E) (list (Z * Z)))) hs i p m l : Prop :=
  (exists a, p = CRet a) \/ goes p m l (fun p' m' l' => exists held', hands_inv (System (<[i := p']> ts) m' l') (<[i := held']> hs)).

Lemma hands_step ts m l hs i held ops : hands_inv (System ts m l) hs -> hs !! i = Some held -> hands_go ts hs i (hands ops held) m l.
Proof using HE Hpos.
  intros HI Hi.
  assert (forall fe v, (fe, v) ∈ held -> m !! Word (fe + FE_DATA) = Some v) as Hdata.
  { intros fe v Hin. apply (hi_data _ _ HI). rw (concat_delete _ _ _ Hi) elem_of_app. by left. }
  induction ops as [|[|j|j v] ops IH]; simpl.
  - left. by eexists.
  - right. apply (goes_call (O := pool fs E)); [simpl; by rw bool_decide_eq_true_2|]. intros r l' Hc. simpl in Hc. destruct l as [|fe l1]; destruct Hc as [-> ->]; simpl.
    + exists held. by eapply hands_update; [done|done|constructor|..].
    + assert (fe ∈ E) as Hfe by (rw -(hi_elements _ _ HI); by left). destruct (hi_words _ _ HI fe Hfe) as [v Hv]. simpl in Hv.
      rw (proj2 (Z.eqb_neq fe NULL)); last (pose proof (Hpos fe Hfe); unfold NULL; lia). exists ((fe, v) :: held).
      eapply hands_update; [done|done|constructor| |intros fe' v' [[= -> ->]|Hin]%elem_of_cons; [done|by apply Hdata]|done|done].
      simpl. by rw -Permutation_middle.
  - destruct (held !! j) as [[fe v]|] eqn:Hj; [|done]. right. pose proof (list_elem_of_lookup_2 _ _ _ Hj) as Hin.
    destruct (held_alone _ _ _ _ fe HI Hi) as (Hfe & Hfl & _); [apply list_elem_of_fmap; by exists (fe, v)|]. simpl in Hfl.
    apply (goes_call (O := pool fs E)); [simpl; by rw bool_decide_eq_true_2|]. intros r l' ->. exists (delete j held).
    eapply hands_update; [done|done|constructor| |..|done|done].
    + rw {2}(delete_Permutation held j (fe, v) Hj) /=. by rw -Permutation_middle.
    + intros fe' v' Hin'. apply Hdata. rw (delete_Permutation held j (fe, v) Hj). by right.
  - destruct (held !! j) as [[fe v0]|] eqn:Hj; [|done]. right. pose proof (list_elem_of_lookup_2 _ _ _ Hj) as Hin.
    apply (goes_store _ _ _ _ _ v0); [by apply Hdata|]. exists (<[j := (fe, v)]> held).
    pose proof (hi_elements _ _ HI) as HPm.
    assert (NoDup held.*1) as Hnd.
    { pose proof HE as Hnd. rw -HPm (concat_delete _ _ _ Hi) fmap_app in Hnd. by apply NoDup_app in Hnd as (_ & _ & (? & _)%NoDup_app). }
    eapply hands_update; [done|done|constructor|..].
    + rw list_fmap_insert /= list_insert_id // list_lookup_fmap Hj //.
    + intros fe' v' Hin'. apply list_elem_of_lookup in Hin' as [j' Hj']. rw list_lookup_insert_Some in Hj'. destruct Hj' as [(<- & [= <- <-] & _)|[Hne Hj']].
      * by rw lookup_insert_eq.
      * rw lookup_insert_ne; [by apply Hdata; eapply list_elem_of_lookup_2|]. intros [= E1]. assert (fe' = fe) as -> by lia. apply Hne.
        eapply (NoDup_lookup held.*1); [done|by rw list_lookup_fmap Hj|by rw list_lookup_fmap Hj'].
    + intros fe' v' Hn Hv'. rw lookup_insert_ne //. intros [= E1]. assert (fe' = fe) as -> by lia. apply Hn. apply list_elem_of_fmap. by exists (fe, v0).
    + intros fe' Hs. destruct (decide (fe' = fe)) as [->|Hne]; [by rw lookup_insert_eq|]. rw lookup_insert_ne //. intros [= E1]. lia.
Qed.

Lemma at_hands_step ts m l hs i p held : hands_inv (System ts m l) hs -> hs !! i = Some held -> at_hands p held -> hands_go ts hs i p m l.
Proof using HE Hpos.
  intros HI Hi Hat. destruct Hat as [ops held|ops fe v held]; [by apply hands_step|]. right.
  assert (forall fe' v', (fe', v') ∈ (fe, v) :: held -> m !! Word (fe' + FE_DATA) = Some v') as Hdata.
  { intros fe' v' Hin. apply (hi_data _ _ HI). rw (concat_delete _ _ _ Hi) elem_of_app. by left. }
  apply (goes_load _ _ _ _ v); [apply Hdata; by left|]. eexists. by eapply hands_update; [done|done|constructor|..].
Qed.

Lemma hands_inv_step c hs : hands_inv c hs -> ~ faulty c /\ forall c', astep c c' -> exists hs', hands_inv c' hs'.
Proof using HE Hpos.
  intros HI. assert (forall i p, threads c !! i = Some p -> hands_go (threads c) hs i p (memory c) (state c)) as Hgo.
  { intros i p Hp. destruct c as [ts m l]. pose proof (hi_threads _ _ HI) as Hf. destruct (Forall2_lookup_l _ _ _ _ _ Hf Hp) as (held & Hi & Hat). by eapply at_hands_step. }
  split.
  - intros (i & p & Hp & Hs). destruct (Hgo i p Hp) as [[a ->]|(_ & Hn & _)]; done.
  - intros c' Hst. destruct Hst as [i ts m l p p' m' l' Hp Ht]. destruct (Hgo i p Hp) as [[a ->]|(_ & _ & Hn)]; [done|].
    destruct (Hn _ _ _ Ht) as [held' HI']. by eexists.
Qed.

Lemma hands_inv_steps k c hs c' : hands_inv c hs -> nsteps astep k c c' -> exists hs', hands_inv c' hs'.
Proof using HE Hpos.
  intros HI Hst. revert hs HI. induction Hst as [|k c c1 c' Hst _ IH]; intros hs HI; [by exists hs|].
  destruct (proj2 (hands_inv_step c hs HI) _ Hst) as [hs1 HI1]. by eapply IH.
Qed.

Lemma hands_safe N c hs : hands_inv c hs -> safe N c.
Proof using HE Hpos. intros HI k c' _ Hst. destruct (hands_inv_steps _ _ _ _ HI Hst) as [hs' HI']. by apply (hands_inv_step c' hs'). Qed.

(** ** The steps that are left

    An operation takes at most two. *)
Inductive steps_left : cprog (pool fs E) (list (Z * Z)) -> nat -> Prop :=
| LeftHands ops held : steps_left (hands ops held) (2 * length ops)
| LeftTaken ops fe held : steps_left (CAct (ALoad (fe + FE_DATA)) (fun v : Z => hands ops ((fe, v) :: held))) (S (2 * length ops)).

Lemma steps_left_step p b m s p' m' s' : steps_left p b -> tstep p m s p' m' s' -> exists b', (b' < b)%nat /\ steps_left p' b'.
Proof.
  intros Hb Ht. destruct Hb as [ops held|ops fe held].
  - induction ops as [|[|j|j v] ops IH]; simpl in *.
    + done.
    + destruct Ht as (r & _ & -> & _). destruct (r =? NULL); eexists; (split; [|constructor]); lia.
    + destruct (held !! j) as [[fe v]|]; simpl in Ht; [|destruct (IH Ht) as (b' & ? & ?); exists b'; split; [lia|done]].
      destruct Ht as (r & _ & -> & _). eexists. split; [|constructor]. lia.
    + destruct (held !! j) as [[fe v0]|]; simpl in Ht; [|destruct (IH Ht) as (b' & ? & ?); exists b'; split; [lia|done]].
      destruct Ht as (r & _ & -> & _). eexists. split; [|constructor]. lia.
  - destruct Ht as (r & _ & -> & _). eexists. split; [|constructor]. lia.
Qed.

Lemma steps_left_bound k c c' bs : nsteps astep k c c' -> Forall2 steps_left (threads c) bs -> (k <= sum_list bs)%nat.
Proof.
  intros Hst. revert bs. induction Hst as [c|k c c1 c' Hst _ IH]; intros bs Hb; [lia|].
  destruct Hst as [i ts m s p p' m' s' Hp Ht]. simpl in Hb. destruct (Forall2_lookup_l _ _ _ _ _ Hb Hp) as (b & Hi & Hpb).
  destruct (steps_left_step _ _ _ _ _ _ _ Hpb Ht) as (b' & Hlt & Hb'). pose proof (sum_list_update bs i b b' Hi).
  assert (k <= sum_list (<[i := b']> bs))%nat; [|lia]. apply IH. simpl. by apply Forall2_insert.
Qed.
End threads.

(** ** A new freelist

    [freelist_new] gives the counters 1, 2, ... to the elements that it pushes. *)

Fixpoint down (n : nat) : list Z := match n with O => [] | S n => Z.of_nat (S n) :: down n end.

Fixpoint counted (cs : list Z) (l : list (Z * Z)) : hProp :=
  match cs, l with
  | [], [] => emp
  | _ :: cs, x :: l => (x.1 + NEXT) ↦₂ top_pair cs l.*1 ∗ fl_elem x ∗ counted cs l
  | _, _ => False
  end%I.

Definition freelist_counted (fs init st count : Z) (l : list (Z * Z)) : hProp :=
  (fl_state fs (top_pair (down (length l)) l.*1) init st (Z.of_nat (length l)) count ∗ counted (down (length l)) l)%I.

Section new.
Context {AL : Allocator} {AO : AllocatorOk} {LK : Linker}.

Lemma freelist_push_counted fs init st count l x :
  Z.of_nat (length l) + 1 < word_mod ->
  {{{ freelist_counted fs init st count l ∗ fl_node x }}} freelist_push fs x.1
  {{{ _u, freelist_counted fs init st count (x :: l) }}}.
Proof.
  iIntros (Hlt Φ) "[((%Ha & Hh & Htop & Hi & Hs & Haba & Hc) & Hl) Hx] HΦ".
  iDestruct "Hx" as ([np nc]) "(Hn & %Hx & Hxh & Hxd)". destruct (top_pair (down (length l)) l.*1) as [p c] eqn:Htop.
  unfold freelist_push. wp_assert; [eauto with addr|]. wp_assert; [eauto with addr|].
  unfold abstraction_increment. wp_assert; [eauto with addr|]. wp_incr. wp_load. wp_load.
  iApply wp_loop. unfold freelist_push_body. wp_store. wp_store. wp_abs_dcas.
  iApply wp_ret. iApply "HΦ". unfold freelist_counted. cbn [length down fmap list_fmap top_pair counted]. rw Htop.
  rw wrap_small; last (unfold is_word; lia). replace (Z.of_nat (length l) + 1) with (Z.of_nat (S (length l))) by lia.
  iFrame. done.
Qed.

Lemma freelist_new_counted_loop fs init st D cost number_elements k :
  init_spec init st D cost -> is_word number_elements ->
  forall n l j, j + Z.of_nat k = number_elements -> j = Z.of_nat (length l) ->
  {{{ freelist_counted fs init st (wrap n) l ∗ credits (k * element_cost cost) }}}
    loop (freelist_new_elements_body fs number_elements) (j, j)
  {{{ r, ∃ new, ⟨r = number_elements /\ length new = k⟩ ∗
         freelist_counted fs init st (wrap (n + k)) (new ++ l) ∗ [∗ list] x ∈ new, D x.2 }}}.
Proof.
  intros Hinit Hw. unfold is_word in Hw.
  induction k as [|k IH]; iIntros (n l j Hj Hl Φ) "[Hf Hcr] HΦ";
    iApply wp_loop; unfold freelist_new_elements_body at 1.
  - rw (proj2 (Z.ltb_ge j number_elements)); last lia.
    iApply (wp_credits 0). iFrame "Hcr". iApply wp_ret. iApply "HΦ". iExists [].
    rw Z.add_0_r. iFrame. iSplitR; [|done]. iPureIntro. split; [lia|done].
  - rw (proj2 (Z.ltb_lt j number_elements)); last lia.
    iDestruct (credits_add with "Hcr") as "[Hcr1 Hcr]". iDestruct "Hf" as "[Hf Hl]".
    wp_call. iApply (freelist_new_element_state with "[$Hf $Hcr1]"); [done|].
    iIntros ([rv fe]) "(%d & %Hrv & Hfe & HD & Hf)". simpl in Hrv |- *. subst rv.
    change (truthy 1) with true. wp_call.
    iApply (freelist_push_counted _ _ _ _ _ (fe, d) with "[$Hf $Hl $Hfe]"); [lia|].
    iIntros ([]) "Hf". iApply wp_ret. rw wrap_add_l (wrap_small (j + 1)); last (unfold is_word; lia).
    iApply (IH with "[$Hf $Hcr]"); [lia|simpl; lia|].
    iIntros (r) "(%new & %Hr & Hf & HDs)". destruct Hr as [-> Hlen]. iApply "HΦ". iExists (new ++ [(fe, d)]).
    rw -app_assoc /=. replace (n + 1 + k) with (n + S k) by lia. iFrame "Hf".
    iSplitR; [iPureIntro; split; [done|rw length_app /=; lia]|].
    rw big_sepL_snoc. iFrame.
Qed.

Lemma freelist_new_counted a number_elements init st D cost :
  init_spec init st D cost -> is_word number_elements ->
  {{{ cell a ∗ credits (freelist_cost cost number_elements) }}}
    freelist_new a number_elements init st
  {{{ rv, ∃ fs l, ⟨rv = 1 /\ Z.of_nat (length l) = number_elements⟩ ∗ a ↦ fs ∗
         freelist_counted fs init st number_elements l ∗ [∗ list] x ∈ l, D x.2 }}}.
Proof.
  iIntros (Hinit Hw Φ) "[(%v & Ha) Hcr] HΦ". unfold freelist_new.
  iDestruct (credits_add with "Hcr") as "[Hcr1 Hcr]".
  wp_call. iApply (aligned_malloc_spec with "Hcr1"); [apply alignable_state|].
  iIntros (fs) "(%vs & Hfs)". iDestruct (aligned_facts with "Hfs") as %[Hfs Hlen].
  destruct vs as [|w0 [|w1 [|w2 [|w3 [|w4 [|w5 [|]]]]]]]; simpl in Hlen;
    unfold sizeof_freelist_state in Hlen; try lia.
  wp_store. rw (aligned_addr_non_null0 fs _ _ Hfs). rw -fl_state_aligned.
  iDestruct "Hfs" as "(_ & Hh & Htop & Hi & Hs & Haba & Hc)".
  do 6 wp_store. wp_call. pose proof Hw as Hw'. unfold is_word in Hw'.
  unfold freelist_new_elements. wp_assert; [eauto with addr|].
  iApply (freelist_new_counted_loop fs init st D cost number_elements (Z.to_nat number_elements) Hinit Hw 0 [] 0 with "[$Hcr Hh Htop Hi Hs Haba Hc]");
    [lia|done| |].
  { unfold freelist_counted. iFrame. done. }
  iIntros (r) "(%new & %Hr & Hf & HDs)". destruct Hr as [-> Hl].
  rw Z.eqb_refl. wp_simpl. iApply wp_ret. iApply "HΦ". iExists fs, new.
  rw app_nil_r Z.add_0_l Z2Nat.id; last lia. rw wrap_small //. iFrame. iPureIntro. split; [done|lia].
Qed.
End new.

(** ** What the assertions say of memory *)

Lemma holds_pair_at a v h c : holds (a ↦₂ v) (h, c) -> pair_in h a v.
Proof.
  intros H. apply holds_sep in H as (h1 & h2 & c1 & c2 & H1%holds_at & H2%holds_at & _ & Hs1 & Hs2).
  split; by eapply lookup_weaken.
Qed.

Lemma pair_in_weaken h h' a v : h ⊆ h' -> pair_in h a v -> pair_in h' a v.
Proof. intros Hs [? ?]. split; by eapply lookup_weaken. Qed.

Fixpoint hist_of (cs l : list Z) : gmap Z (Z * (Z * Z)) :=
  match cs, l with
  | c :: cs, p :: l => <[c := (p, top_pair cs l)]> (hist_of cs l)
  | _, _ => ∅
  end.

Lemma hist_of_down n l c e : hist_of (down n) l !! c = Some e -> 0 < c <= Z.of_nat n.
Proof.
  revert l. induction n as [|n IH]; intros [|p l]; cbn [down hist_of]; try by rw lookup_empty.
  rw lookup_insert_Some. intros [[<- _]|[_ H]]; [lia|]. apply IH in H. lia.
Qed.

Lemma down_NoDup n : NoDup (down n) /\ forall c, c ∈ down n -> 0 < c <= Z.of_nat n.
Proof.
  induction n as [|n [IH1 IH2]]; cbn [down]; [split; [constructor|by intros c ?%elem_of_nil]|]. split.
  - constructor; [|done]. intros Hin. apply IH2 in Hin. lia.
  - intros c [->|Hc]%elem_of_cons; [lia|]. apply IH2 in Hc. lia.
Qed.

(** The elements of a new freelist. *)
Record counted_in (h : heap) (l : list (Z * Z)) : Prop := {
  ci_linked : linked h (hist_of (down (length l)) l.*1) (down (length l)) l.*1;
  ci_elem x : x ∈ l -> aligned_addr x.1 sizeof_freelist_element LF_ALIGN_DOUBLE_POINTER /\ h !! Word (x.1 + FE_DATA) = Some x.2 /\ exists v, pair_in h (x.1 + NEXT) v;
  ci_nodup : NoDup l.*1;
  ci_apart x y : x ∈ l -> y ∈ l -> x.1 + FE_DATA <> y.1 + NEXT;
}.

Lemma disjoint_words (h1 h2 : heap) a b v v' : h1 ##ₘ h2 -> h1 !! Word a = Some v -> h2 !! Word b = Some v' -> a <> b.
Proof. intros Hd H1 H2 ->. by eapply map_disjoint_spec in Hd. Qed.

Lemma holds_counted l h c : holds (counted (down (length l)) l) (h, c) -> counted_in h l.
Proof.
  revert h c. induction l as [|x l IH]; intros h c H.
  - split; [done|by intros x ?%elem_of_nil|constructor|by intros x y ?%elem_of_nil].
  - cbn [length down counted] in H. apply holds_sep in H as (h1 & h2 & c1 & c2 & H1%holds_pair_at & H & Hd & Hs1 & Hs2).
    apply holds_sep in H as (h3 & h4 & c3 & c4 & H3 & [Hl He Hn Hap]%IH & Hd2 & Hs3 & Hs4). unfold fl_elem in H3. apply holds_fact in H3 as [Ha H3].
    apply holds_sep in H3 as (h5 & h6 & c5 & c6 & _ & H6%holds_at & _ & _ & Hs6). eapply lookup_weaken in H6; [|exact Hs6].
    assert (h4 ⊆ h) as Hs by by transitivity h2. assert (h3 ⊆ h) as Hs3' by by transitivity h2. assert (forall y, y ∈ l -> y.1 <> x.1) as Hne.
    { intros y Hy E. destruct (He y Hy) as (_ & _ & v & Hv & _). destruct H1 as [H1 _]. eapply lookup_weaken in Hv; [|exact Hs4].
      apply (disjoint_words _ _ _ _ _ _ Hd H1 Hv). by rw E. }
    split.
    + cbn [length down fmap list_fmap linked hist_of]. rw lookup_insert_eq. split; [done|]. split; [exact (pair_in_weaken _ _ _ _ Hs1 H1)|].
      eapply linked_change; [exact Hl| |intros p v _; by apply pair_in_weaken]. apply insert_subseteq.
      destruct (hist_of (down (length l)) l.*1 !! Z.of_nat (S (length l))) as [e|] eqn:E; [|done]. apply hist_of_down in E. lia.
    + intros y [->|Hy]%elem_of_cons.
      * split; [done|]. split; [|eexists; exact (pair_in_weaken _ _ _ _ Hs1 H1)]. by eapply lookup_weaken.
      * destruct (He y Hy) as (? & ? & v & ?). split; [done|]. split; [by eapply lookup_weaken|]. exists v. by apply (pair_in_weaken h4).
    + cbn [fmap list_fmap]. constructor; [|done]. intros (y & E & Hy)%list_elem_of_fmap. by apply (Hne y Hy).
    + intros y z [->|Hy]%elem_of_cons [->|Hz]%elem_of_cons.
      * unfold FE_DATA, NEXT. lia.
      * destruct (He z Hz) as (_ & _ & v & Hv & _). by eapply (disjoint_words h3 h4).
      * destruct (He y Hy) as (_ & Hv & _). destruct H1 as [H1 _]. eapply lookup_weaken in Hv; [|exact Hs4]. intros E. by eapply (disjoint_words h1 h2).
      * by apply Hap.
Qed.

(** ** The words that only the code of the freelist uses *)

Definition private_words (fs : Z) (E : list Z) : list Z :=
  fs + FS_TOP :: fs + FS_TOP + 8 :: fs + FS_ABA :: (E ≫= fun p => [p + NEXT; p + NEXT + 8]).

Definition is_private (fs : Z) (E : list Z) (kv : key * Z) : Prop := kv.1 ∈ Word <$> private_words fs E.

#[export] Instance is_private_dec fs E kv : Decision (is_private fs E kv).
Proof. unfold is_private. apply _. Defined.

Lemma elem_of_private fs E a : a ∈ private_words fs E <->
  a = fs + FS_TOP \/ a = fs + FS_TOP + 8 \/ a = fs + FS_ABA \/ exists p, p ∈ E /\ (a = p + NEXT \/ a = p + NEXT + 8).
Proof.
  unfold private_words. rw !elem_of_cons list_elem_of_bind. do 3 (apply or_iff_compat_l). split; intros (p & Hp & Ha); exists p.
  - rw !elem_of_cons elem_of_nil in Hp. tauto.
  - rw !elem_of_cons elem_of_nil. tauto.
Qed.

Lemma private_lookup fs E (h : heap) a v : a ∈ private_words fs E -> h !! Word a = Some v -> filter (is_private fs E) h !! Word a = Some v.
Proof. intros Ha Hv. apply map_lookup_filter_Some. split; [done|]. by apply (list_elem_of_fmap_2 Word). Qed.

Lemma public_lookup fs E (h : heap) a v : a ∉ private_words fs E -> h !! Word a = Some v -> filter (fun kv => ~ is_private fs E kv) h !! Word a = Some v.
Proof.
  intros Ha Hv. apply map_lookup_filter_Some. split; [done|]. intros (b & [= ->] & Hb)%list_elem_of_fmap. done.
Qed.

Lemma holds_state fs top init st aba count h c : holds (fl_state fs top init st aba count) (h, c) ->
  aligned_addr fs sizeof_freelist_state LF_ALIGN_DOUBLE_POINTER /\ pair_in h (fs + FS_TOP) top /\ h !! Word (fs + FS_ABA) = Some aba.
Proof.
  intros Hst. apply holds_fact in Hst as [Ha Hst]. split; [done|].
  apply holds_sep in Hst as (_ & h4 & _ & c4 & _ & Hst & _ & _ & Hs4).
  apply holds_sep in Hst as (h5 & h6 & c5 & c6 & Htop%holds_pair_at & Hst & _ & Hs5 & Hs6).
  apply holds_sep in Hst as (_ & h8 & _ & c8 & _ & Hst & _ & _ & Hs8). apply holds_sep in Hst as (_ & h10 & _ & c10 & _ & Hst & _ & _ & Hs10).
  apply holds_sep in Hst as (h11 & _ & c11 & _ & Haba%holds_at & _ & _ & Hs11 & _). split.
  - apply (pair_in_weaken h5); [|done]. by transitivity h4.
  - eapply lookup_weaken; [exact Haba|]. transitivity h10; [done|]. transitivity h8; [done|]. transitivity h6; [done|]. by transitivity h4.
Qed.

(** The elements of [l], of which none is used yet, form an invariant. *)
Lemma counted_inv fs l (h2 f : heap) N : Z.of_nat (length l) + Z.of_nat N < word_mod ->
  pair_in f (fs + FS_TOP) (top_pair (down (length l)) l.*1) -> f !! Word (fs + FS_ABA) = Some (Z.of_nat (length l)) -> counted_in h2 l ->
  (forall x v, x ∈ l -> pair_in h2 (x.1 + NEXT) v -> pair_in f (x.1 + NEXT) v) ->
  freelist_inv fs l.*1 N (Pushes (down (length l)) (hist_of (down (length l)) l.*1) ∅ (Z.of_nat (length l))) f l.*1.
Proof.
  intros Hlt Htop Haba [Hl He Hnd _] Hf. split; simpl; try done.
  - lia.
  - intros p (x & -> & Hx)%list_elem_of_fmap. destruct (He x Hx) as (_ & _ & v & Hv). exists v. by apply Hf.
  - eapply linked_change; [exact Hl|done|]. intros p v (x & -> & Hx)%list_elem_of_fmap. by apply Hf.
  - apply down_NoDup.
  - apply hist_of_down.
Qed.

(** A new freelist is one that threads can share. *)
Lemma new_inv fs init st count l h H c N : holds (freelist_counted fs init st count l) (h, c) -> h ⊆ H -> Z.of_nat (length l) + Z.of_nat N < word_mod ->
  let E := l.*1 in let f := filter (is_private fs E) H in let m := filter (fun kv => ~ is_private fs E kv) H in
  places fs E /\ NoDup E /\ f ##ₘ m /\ f ∪ m = H /\ (exists w, freelist_inv fs E N w f E) /\ forall x, x ∈ l -> m !! Word (x.1 + FE_DATA) = Some x.2.
Proof.
  intros HH Hs Hlt E f m. apply holds_sep in HH as (h1 & h2 & c1 & c2 & (Ha & Htop & Haba)%holds_state & Hcnt%holds_counted & Hd & Hs1 & Hs2).
  assert (h1 ⊆ H) as H1H by by transitivity h. assert (h2 ⊆ H) as H2H by by transitivity h. pose proof Hcnt as [Hl He Hnd Hap].
  assert (forall x, x ∈ l -> x.1 + NEXT <> fs + FS_TOP /\ x.1 + NEXT <> fs + FS_ABA /\ x.1 + FE_DATA <> fs + FS_TOP /\ x.1 + FE_DATA <> fs + FS_ABA) as Hap2.
  { intros x Hx. destruct (He x Hx) as (_ & Hv & v & Hn & _). destruct Htop as [Htop _].
    split_and!; intros Heq; symmetry in Heq; revert Heq; by eapply (disjoint_words h1 h2). }
  split_and!.
  - split; [by destruct Ha as (? & ? & _)|]. intros p (x & -> & Hx)%list_elem_of_fmap. destruct (He x Hx) as ((? & ? & _) & _).
    destruct (Hap2 x Hx) as (Hx1 & Hx2 & _). unfold NEXT, FS_TOP in *. split_and!; try done; lia.
  - done.
  - apply map_disjoint_filter_complement.
  - apply map_filter_union_complement.
  - exists (Pushes (down (length l)) (hist_of (down (length l)) l.*1) ∅ (Z.of_nat (length l))). apply (counted_inv fs l h2); try done.
    + destruct Htop. split; (apply private_lookup; [apply elem_of_private; tauto|by eapply lookup_weaken]).
    + apply private_lookup; [apply elem_of_private; tauto|by eapply lookup_weaken].
    + intros x v Hx [? ?]. split; (apply private_lookup; [apply elem_of_private; do 3 right; exists x.1|by eapply lookup_weaken]);
        (split; [apply list_elem_of_fmap; by exists x|tauto]).
  - intros x Hx. destruct (He x Hx) as ((_ & Hmod & _) & Hv & _). apply public_lookup; [|by eapply lookup_weaken].
    intros Hin. apply elem_of_private in Hin as Hin. destruct (Hap2 x Hx) as (_ & _ & H3 & H4).
    apply Z.mod_divide in Hmod as [k Hk]; [|done]. destruct Ha as (_ & Hfs & _). apply Z.mod_divide in Hfs as [k' Hk']; [|done].
    unfold LF_ALIGN_DOUBLE_POINTER, FE_DATA, NEXT, FS_TOP, FS_ABA in *. destruct Hin as [?|[?|[?|(p & (y & -> & Hy)%list_elem_of_fmap & Hp)]]]; try lia.
    pose proof (Hap x y Hx Hy). destruct (He y Hy) as ((_ & Hmy & _) & _). apply Z.mod_divide in Hmy as [ky Hky]; [|done].
    unfold LF_ALIGN_DOUBLE_POINTER, FE_DATA, NEXT in *. lia.
Qed.

(** ** Threads on a new freelist *)

(** The program of a thread. *)
Fixpoint user (fs : Z) (ops : list hand_op) (held : list (Z * Z)) : prog (list (Z * Z)) :=
  match ops with
  | [] => Ret held
  | Take :: ops =>
      let! fe := freelist_pop fs in
      if fe =? NULL then user fs ops held
      else let! v := load (fe + FE_DATA) in user fs ops ((fe, v) :: held)
  | Give j :: ops =>
      match held !! j with
      | Some (fe, _) => freelist_push fs fe;; user fs ops (delete j held)
      | None => user fs ops held
      end
  | Write j v :: ops =>
      match held !! j with
      | Some (fe, _) => store (fe + FE_DATA) v;; user fs ops (<[j := (fe, v)]> held)
      | None => user fs ops held
      end
  end.

Lemma link_hands fs E ops held : link (O := pool fs E) freelist_code (hands fs E ops held) = user fs ops held.
Proof.
  revert held. induction ops as [|[|j|j v] ops IH]; intros held; simpl.
  - done.
  - f_equal. extensionality fe. destruct (_ =? _); [done|]. cbn [link]. unfold load. unfold bind. f_equal. extensionality v. apply IH.
  - destruct (held !! j) as [[fe v]|]; [|done]. cbn [link]. f_equal. extensionality r. apply IH.
  - destruct (held !! j) as [[fe v0]|]; [|done]. cbn [link]. unfold store, bind. f_equal. extensionality r. apply IH.
Qed.

(** The list [l] of elements from the pointer [p] in memory. *)
Fixpoint chain_at (h : heap) (p : Z) (l : list Z) : Prop :=
  match l with
  | [] => p = NULL
  | q :: l => p = q /\ exists next, h !! Word (q + NEXT) = Some next /\ chain_at h next l
  end.

Lemma linked_chain h t cs l : linked h t cs l -> chain_at h (top_pair cs l).1 l.
Proof.
  revert l. induction cs as [|c cs IH]; intros [|p l] Hl; simpl in *; try done. destruct Hl as (_ & [H0 _] & Hl). split; [done|]. eexists. split; [done|]. by apply IH.
Qed.

Lemma chain_weaken h h' p l : h ⊆ h' -> chain_at h p l -> chain_at h' p l.
Proof.
  intros Hs. revert p. induction l as [|q l IH]; intros p; simpl; [done|]. intros (-> & next & Hn & Hl). split; [done|]. exists next. split; [by eapply lookup_weaken|by apply IH].
Qed.

Lemma hands_ret fs E ops held a : hands fs E ops held = CRet a -> a = held.
Proof.
  revert held. induction ops as [|[|j|j v] ops IH]; intros held; simpl.
  - congruence.
  - done.
  - destruct (held !! j) as [[fe v]|]; [done|apply IH].
  - destruct (held !! j) as [[fe v0]|]; [done|apply IH].
Qed.

Lemma at_hands_ret fs E a held : at_hands fs E (CRet a) held -> held = a.
Proof. intros H. inversion H as [ops held' E1 E2|]; subst. symmetry. by eapply hands_ret. Qed.

(** What the hands of the threads that have ended have. *)
Lemma hands_ended fs E c hs i a : hands_inv fs E c hs -> threads c !! i = Some (CRet a) -> hs !! i = Some a.
Proof.
  intros HI Hi. destruct (Forall2_lookup_l _ _ _ _ _ (hi_threads _ _ _ _ HI) Hi) as (held & Hh & Hat). by apply at_hands_ret in Hat as ->.
Qed.

Lemma hands_apart fs E c hs i j a b fe : NoDup E -> hands_inv fs E c hs -> hs !! i = Some a -> hs !! j = Some b -> fe ∈ a.*1 -> fe ∈ b.*1 -> i = j.
Proof.
  intros HE HI Hi Hj Ha Hb. destruct (decide (i = j)) as [|Hne]; [done|]. exfalso.
  destruct (held_alone fs E HE c hs i a fe HI Hi Ha) as (_ & _ & Hn). apply Hn. apply list_elem_of_fmap in Hb as ([fe' v] & -> & Hb).
  apply list_elem_of_fmap. exists (fe', v). split; [done|]. apply list_elem_of_In, in_concat. exists b. split; [|by apply list_elem_of_In]. apply list_elem_of_In.
  destruct (decide (j < i)%nat).
  - eapply (list_elem_of_lookup_2 _ j). rw list_lookup_delete_lt //.
  - eapply (list_elem_of_lookup_2 _ (pred j)). rw list_lookup_delete_ge; [by replace (S (pred j)) with j by lia|lia].
Qed.

Section claims.
Context {AL : Allocator} {AO : AllocatorOk} {LK : Linker}.

(** What threads that share a freelist see, from the memory [h] with a freelist of
    the elements [E] at [fs]. *)
Definition shared_well (fs : Z) (E : list Z) (ts : list (prog (list (Z * Z)))) (h : heap) : Prop :=
  (forall i e, ts !! i <> Some (Crash e)) /\
  (forall i held fe v, ts !! i = Some (Ret held) -> (fe, v) ∈ held -> fe ∈ E /\ h !! Word (fe + FE_DATA) = Some v) /\
  (forall i j a b fe, ts !! i = Some (Ret a) -> ts !! j = Some (Ret b) -> fe ∈ a.*1 -> fe ∈ b.*1 -> i = j) /\
  (forall helds, ts = Ret <$> helds -> exists top free, h !! Word (fs + FS_TOP) = Some top /\ chain_at h top free /\ (free ++ (concat helds).*1) ≡ₚ E).

(** Steps that the threads can take together: two visible ones for each operation,
    and between them no more than 23 of each thread. *)
Definition shared_steps (scripts : list (list hand_op)) : nat :=
  (S (sum_list ((fun ops => 2 * length ops) <$> scripts)) * S (23 * length scripts))%nat.

Lemma shared_threads fs E (f m : heap) w N n scripts ts h : places fs E -> NoDup E -> f ##ₘ m -> freelist_inv fs E N w f E ->
  (forall p, p ∈ E -> is_Some (m !! Word (p + FE_DATA))) -> (n < N)%nat ->
  nsteps cstep n ((fun ops => user fs ops []) <$> scripts, f ∪ m) (ts, h) -> shared_well fs E ts h /\ (n <= shared_steps scripts)%nat.
Proof using AL.
  intros HP HE Hd HI Hw Hn Hst.
  assert (forall p, p ∈ E -> 0 < p) as Hpos by (intros p Hp; by apply (pl_elem _ _ HP)).
  set (cs := (fun ops => hands fs E ops []) <$> scripts).
  assert (hands_inv fs E (System cs m E) (replicate (length scripts) [])) as HH.
  { unfold cs. split; simpl.
    - apply Forall2_same_length_lookup_2; [by rw length_fmap length_replicate|]. intros i x y Hx Hy. apply lookup_replicate in Hy as [-> _].
      rw list_lookup_fmap fmap_Some in Hx. destruct Hx as (ops & _ & ->). constructor.
    - assert (concat (replicate (length scripts) ([] : list (Z * Z))) = []) as ->; [|by rw app_nil_r]. by induction (length scripts).
    - intros fe v. assert (concat (replicate (length scripts) ([] : list (Z * Z))) = []) as ->; [|by intros ?%elem_of_nil]. by induction (length scripts).
    - done. }
  assert ((fun ops => user fs ops []) <$> scripts = link (O := pool fs E) freelist_code <$> cs) as Hcs.
  { unfold cs. rw -list_fmap_compose. apply list_fmap_ext. intros i ops _. simpl. by rw link_hands. }
  rw Hcs in Hst. pose proof (hands_safe fs E HE Hpos (S N) _ _ HH) as Hsafe.
  destruct (linked_runs (O := pool fs E) (I := freelist_implements fs E HP) freelist_code N n cs m E w f ts h Hsafe Hd HI Hn Hst)
    as (Hc & k & cs' & m' & l' & w' & f' & Hk & Hsts & Hen & -> & Hd' & HI' & Hlen & Hret).
  destruct (hands_inv_steps fs E HE Hpos _ _ _ _ HH Hsts) as [hs HH'].
  assert (forall i a, ts !! i = Some (Ret a) -> hs !! i = Some a) as Hend by (intros i a Hi; exact (hands_ended fs E _ hs i a HH' (Hret i a Hi))).
  split; [split; [done|]; split; [|split]|].
  - intros i held fe v Hi Hin. apply Hend in Hi. split.
    + eapply held_alone; [done|done|done|]. apply list_elem_of_fmap. by exists (fe, v).
    + apply lookup_union_Some_r; [done|]. apply (hi_data _ _ _ _ HH'). rw (concat_delete _ _ _ Hi) elem_of_app. by left.
  - intros i j a b fe Hi Hj. eapply hands_apart; [done|done|by apply Hend|by apply Hend].
  - intros helds ->. assert (hs = helds) as ->.
    { pose proof (Forall2_length _ _ _ (hi_threads _ _ _ _ HH')) as Hlen'. simpl in Hlen'. rw length_fmap in Hlen.
      apply (list_eq_same_length _ _ (length helds)); [done|congruence|]. intros i x y Hi Hx Hy.
      specialize (Hend i y). rw list_lookup_fmap Hy /= in Hend. specialize (Hend eq_refl). congruence. }
    destruct (fi_top _ _ _ _ _ _ HI') as [Ht _]. eexists _, l'. split; [by apply lookup_union_Some_l|]. split; [|apply (hi_elements _ _ _ _ HH')].
    eapply chain_weaken; [apply map_union_subseteq_l|]. by eapply linked_chain, HI'.
  - assert (k <= sum_list ((fun ops => 2 * length ops) <$> scripts))%nat as Hk'.
    { eapply (steps_left_bound fs E _ _ _ _ Hsts). simpl. unfold cs. apply Forall2_fmap_l, Forall2_fmap_r, Forall_Forall2_diag, Forall_true. intros ops. constructor. }
    etrans; [exact Hen|]. unfold shared_steps, max_energy, max_rank, cs. rw length_fmap. cbn [patience max_lag freelist_implements]. unfold freelist_patience.
    apply Nat.mul_le_mono; lia.
Qed.

Lemma new_from_memory a number_elements h0 v : is_word number_elements -> h0 !! Word a = Some v -> (freelist_cost 0 number_elements <= alloc_room h0)%nat ->
  exists k h1 fs l h c, run k (freelist_new a number_elements NULL NULL) h0 = Done 1 h1 /\ h1 !! Word a = Some fs /\ Z.of_nat (length l) = number_elements /\
    h ⊆ h1 /\ holds (freelist_counted fs NULL NULL number_elements l) (h, c).
Proof using AO.
  intros Hw Ha Hroom. set (rest := delete (Word a) h0).
  assert (holds (exactly rest ∗ cell a ∗ credits (freelist_cost 0 number_elements)) (h0, freelist_cost 0 number_elements)) as HP.
  { exists (rest, 0%nat), ({[Word a := v]}, freelist_cost 0 number_elements). split_and!.
    - unfold radd. simpl. f_equal. rw -(insert_delete_id h0 (Word a) v Ha) -/rest. rw insert_union_singleton_r //. apply lookup_delete_eq.
    - apply map_disjoint_singleton_r_2, lookup_delete_eq.
    - done.
    - exists ({[Word a := v]}, 0%nat), (∅, freelist_cost 0 number_elements). split_and!; [unfold radd; simpl; by rw right_id_L|by apply map_disjoint_empty_r|by exists v|done]. }
  assert (exactly rest ∗ cell a ∗ credits (freelist_cost 0 number_elements) ⊢ WP freelist_new a number_elements NULL NULL {{ rv,
    ∃ fs l, ⟨rv = 1 /\ Z.of_nat (length l) = number_elements⟩ ∗ a ↦ fs ∗ freelist_counted fs NULL NULL number_elements l ∗ exactly rest }}) as Hwp.
  { iIntros "(Hr & Ha & Hc)". iApply (freelist_new_counted with "[$Ha $Hc]"); [apply no_init|done|]. iIntros (rv) "(%fs & %l & %H & Ha & Hf & HD)".
    iExists fs, l. iFrame. iDestruct (no_data_list with "HD") as "_". done. }
  destruct Hwp as [Hwp]. destruct (wp_run _ _ _ _ (Hwp _ HP) Hroom) as (k & rv & h1 & c' & Hr & fs & l & HQ).
  apply holds_fact in HQ as [[-> Hl] HQ]. apply holds_sep in HQ as (h2 & h3 & c2 & c3 & H2%holds_at & HQ & _ & Hs2 & Hs3).
  apply holds_sep in HQ as (h4 & h5 & c4 & c5 & H4 & _ & _ & Hs4 & _). exists k, h1, fs, l, h4, c4. split_and!; try done; [by eapply lookup_weaken|by transitivity h3].
Qed.

(** A new freelist, and the threads that share it. *)
Lemma new_shared a number_elements h0 v :
  is_word number_elements -> h0 !! Word a = Some v -> (freelist_cost 0 number_elements <= alloc_room h0)%nat ->
  exists k h1 fs E, run k (freelist_new a number_elements NULL NULL) h0 = Done 1 h1 /\ h1 !! Word a = Some fs /\
    NoDup E /\ Z.of_nat (length E) = number_elements /\
    forall scripts n ts h, number_elements + Z.of_nat n + 1 < word_mod ->
      nsteps cstep n ((fun ops => user fs ops []) <$> scripts, h1) (ts, h) -> shared_well fs E ts h /\ (n <= shared_steps scripts)%nat.
Proof using AO.
  intros Hw Ha Hroom. destruct (new_from_memory a number_elements h0 v Hw Ha Hroom) as (k & h1 & fs & l & h & c & Hr & Hfs & Hl & Hs & HH).
  exists k, h1, fs, l.*1. split; [done|]. split; [done|].
  assert (NoDup l.*1) as HE.
  { apply holds_sep in HH as (_ & h2 & _ & c2 & _ & Hcnt%holds_counted & _). apply Hcnt. }
  split; [done|]. split; [by rw length_fmap|]. intros scripts n ts h2 Hn Hst.
  destruct (new_inv fs NULL NULL number_elements l h h1 c (S n) HH Hs) as (HP & _ & Hd & Hu & [w HI] & Hdata); [lia|].
  eapply (shared_threads fs l.*1 _ _ w (S n) n scripts); [done|done|exact Hd|exact HI| |lia|by rw Hu].
  intros p (x & -> & Hx)%list_elem_of_fmap. eexists. by apply Hdata.
Qed.

(** C2. A freelist that [freelist_new] has made can be shared by any number of
    threads, which take elements, write to their data and give them back in any
    order, with any interleaving of their memory accesses: no thread faults, no
    element is in the hands of two threads, what a thread has written to an element
    in its hands stays there, and when all threads have ended the list has the
    elements that are in no hands, each once.  The counter of the freelist must not
    wrap around, which takes [2 ^ 64] steps. *)
Theorem freelist_shared a number_elements h0 v :
  is_word number_elements -> h0 !! Word a = Some v -> (freelist_cost 0 number_elements <= alloc_room h0)%nat ->
  exists k h1 fs E, run k (freelist_new a number_elements NULL NULL) h0 = Done 1 h1 /\ h1 !! Word a = Some fs /\
    NoDup E /\ Z.of_nat (length E) = number_elements /\
    forall scripts n ts h, number_elements + Z.of_nat n + 1 < word_mod ->
      nsteps cstep n ((fun ops => user fs ops []) <$> scripts, h1) (ts, h) -> shared_well fs E ts h.
Proof using AO.
  intros Hw Ha Hroom. destruct (new_shared a number_elements h0 v Hw Ha Hroom) as (k & h1 & fs & E & Hr & Hfs & HE & Hl & Hsh).
  exists k, h1, fs, E. split_and!; try done. intros scripts n ts h Hn Hst. by apply (Hsh scripts n ts h Hn).
Qed.

(** C8. The freelist is lock-free: whatever the scheduler does, threads that share it
    cannot take more than [shared_steps] steps together, so that all of them end. *)
Theorem freelist_lock_free a number_elements h0 v :
  is_word number_elements -> h0 !! Word a = Some v -> (freelist_cost 0 number_elements <= alloc_room h0)%nat ->
  exists k h1 fs, run k (freelist_new a number_elements NULL NULL) h0 = Done 1 h1 /\ h1 !! Word a = Some fs /\
    forall scripts n c, number_elements + Z.of_nat (shared_steps scripts) + 2 < word_mod ->
      nsteps cstep n ((fun ops => user fs ops []) <$> scripts, h1) c -> (n <= shared_steps scripts)%nat.
Proof using AO.
  intros Hw Ha Hroom. destruct (new_shared a number_elements h0 v Hw Ha Hroom) as (k & h1 & fs & E & Hr & Hfs & HE & Hl & Hsh).
  exists k, h1, fs. split_and!; try done. intros scripts n c Hn Hst. apply Nat.nlt_ge. intros Hlt.
  replace n with (S (shared_steps scripts) + (n - S (shared_steps scripts)))%nat in Hst by lia.
  apply nsteps_add_inv in Hst as ([ts h] & Hst & _). apply Hsh in Hst as [_ Hle]; lia.
Qed.

(** C3. [freelist_pop] and [freelist_push] are linearizable: clients of any kind that
    call them from several threads run without faults, and do what they do with an
    object that pushes and pops at once on a list of elements, provided that with
    that object they do not push an element that is in the list.  Of [n] steps, at
    least one in 23 per thread is a step of a client. *)
Theorem freelist_linearizable (fs : Z) (E : list Z) {A : Set} N n (cs : list (cprog (pool fs E) A)) (m f : heap) l w ts h :
  places fs E -> freelist_inv fs E N w f l -> f ##ₘ m -> safe (S N) (System cs m l) -> (n < N)%nat ->
  nsteps cstep n (link (O := pool fs E) freelist_code <$> cs, f ∪ m) (ts, h) ->
  (forall i e, ts !! i <> Some (Crash e)) /\
  exists k cs' m' l' w' f', nsteps astep k (System cs m l) (System cs' m' l') /\ (k <= n <= S k * S (23 * length cs))%nat /\
    (forall i a, ts !! i = Some (Ret a) -> cs' !! i = Some (CRet a)) /\ h = f' ∪ m' /\ freelist_inv fs E (N - n) w' f' l'.
Proof using AL.
  intros HP HI Hd Hsafe Hn Hst.
  destruct (linked_runs (O := pool fs E) (I := freelist_implements fs E HP) freelist_code N n cs m l w f ts h Hsafe Hd HI Hn Hst)
    as (Hc & k & cs' & m' & l' & w' & f' & Hk & Hsts & Hen & -> & Hd' & HI' & _ & Hret).
  split; [done|]. exists k, cs', m', l', w', f'. split_and!; try done. etrans; [exact Hen|]. unfold max_energy, max_rank. cbn [patience max_lag freelist_implements].
  unfold freelist_patience. apply Nat.mul_le_mono; lia.
Qed.
End claims.

(** Three elements and two threads. *)
Lemma freelist_shared_witness : exists k h1 fs E, @run arena _ k (@freelist_new no_callbacks 16 3 NULL NULL) {[Word 16 := 5]} = Done 1 h1 /\ h1 !! Word 16 = Some fs /\
  NoDup E /\ Z.of_nat (length E) = 3 /\
  forall scripts n ts h, 3 + Z.of_nat n + 1 < word_mod -> nsteps (@cstep arena _) n ((fun ops => user fs ops []) <$> scripts, h1) (ts, h) -> shared_well fs E ts h.
Proof.
  apply (@freelist_shared arena arena_ok no_callbacks 16 3 {[Word 16 := 5]} 5); [done|done|]. apply arena_room. by vm_compute.
Defined.

Lemma freelist_lock_free_witness : exists k h1 fs, @run arena _ k (@freelist_new no_callbacks 16 3 NULL NULL) {[Word 16 := 5]} = Done 1 h1 /\ h1 !! Word 16 = Some fs /\
  forall scripts n c, 3 + Z.of_nat (shared_steps scripts) + 2 < word_mod -> nsteps (@cstep arena _) n ((fun ops => user fs ops []) <$> scripts, h1) c -> (n <= shared_steps scripts)%nat.
Proof.
  apply (@freelist_lock_free arena arena_ok no_callbacks 16 3 {[Word 16 := 5]} 5); [done|done|]. apply arena_room. by vm_compute.
Defined.

(** One element at 64, free, and two threads that both want it. *)
Definition tiny_freelist : heap := {[Word 16 := 64; Word 24 := 1; Word 48 := 1; Word 64 := 0; Word 72 := 0]}.
Definition tiny_data : heap := {[Word 80 := 7]}.
Definition tiny_clients : list (cprog (pool 16 [64]) (list (Z * Z))) :=
  [hands 16 [64] [Take; Write 0 9; Give 0] []; hands 16 [64] [Take; Write 0 8; Give 0; Take] []].
Definition tiny_schedule : list nat := [0; 1; 1; 0; 1; 1; 0; 0; 1; 0; 0; 0; 1; 1; 1; 0; 1; 0; 1; 1; 1; 0; 1; 1; 1; 1; 1; 0; 1; 1; 1; 1; 1; 1; 1]%nat.
Definition tiny_start : config (list (Z * Z)) := (link (O := pool 16 [64]) freelist_code <$> tiny_clients, tiny_freelist ∪ tiny_data).

Lemma tiny_inv N : Z.of_nat N + 1 < word_mod -> freelist_inv 16 [64] N (Pushes [1] {[1 := (64, (0, 0))]} ∅ 1) tiny_freelist [64].
Proof.
  intros HN. split; simpl; try done.
  - lia.
  - intros p Hp%list_elem_of_singleton. subst p. by exists (0, 0).
  - split; [apply NoDup_singleton|done].
  - apply NoDup_singleton.
  - intros c e. rw lookup_singleton_Some. intros [<- _]. lia.
Qed.

Lemma tiny_places : places 16 [64].
Proof. split; [done|]. intros p Hp%list_elem_of_singleton. by subst p. Qed.

Lemma freelist_linearizable_witness : exists n ts h, nsteps (@cstep arena _) n tiny_start (ts, h) /\ ts = (@run_schedule arena _ tiny_schedule tiny_start).1 /\
  forall i e, ts !! i <> Some (Crash e).
Proof.
  destruct (run_schedule_nsteps (H := arena) tiny_schedule tiny_start) as (n & Hn & Hst).
  destruct (run_schedule tiny_schedule tiny_start) as [ts h] eqn:E. simpl in Hn |- *.
  exists n, ts, h. split; [exact Hst|]. split; [reflexivity|].
  refine (proj1 (@freelist_linearizable arena 16 [64] _ 1000 n tiny_clients tiny_data tiny_freelist [64] _ ts h tiny_places (tiny_inv 1000 eq_refl) _ _ _ Hst)).
  - by apply map_disjoint_singleton_r.
  - apply (hands_safe (AL := arena) 16 [64] (NoDup_singleton 64)) with [[]; []].
    + intros fe Hfe%list_elem_of_singleton. by subst fe.
    + split; simpl.
      * repeat constructor.
      * done.
      * by intros fe v ?%elem_of_nil.
      * intros fe Hfe%list_elem_of_singleton. subst fe. by exists 7.
  - lia.
Defined.
