(* ===== verification/Hashfunc.v ===== *)
(** * src/advance/hashfunc: the hash functions.

    [__hash_func] of basic_hashfunc.h and the MurmurHash3 family of
    bloom_hashfunc.h.  A key is the list of its bytes; a [uint32_t] or a
    [uint64_t] is a [Z] and its operations wrap at the width of the type. *)
From S2P Require Import Prelude Words.
#[local] Open Scope Z_scope.

(** ** Rotations *)

(** [rotl32] and [rotl64]. *)
Definition rotl (w x r : Z) : Z := uwrap w (Z.lor (Z.shiftl x r) (Z.shiftr x (w - r))).
Definition rotl32 (x r : Z) : Z := rotl 32 x r.
Definition rotl64 (x r : Z) : Z := rotl 64 x r.

(** ** Keys *)

Definition is_byte (b : Z) : Prop := 0 <= b < 256.

(** The byte at [i]; the functions read no byte after the last. *)
Definition byte_at (key : list Z) (i : nat) : Z := nth i key 0.

(** [getblock]: the [n] bytes from [i], little-endian. *)
Fixpoint read_le (n : nat) (key : list Z) (i : nat) : Z :=
  match n with
  | O => 0
  | S n => byte_at key i + 256 * read_le n key (S i)
  end.

(** ** basic_hashfunc.h *)

Definition DCHARHASH (h c : Z) : Z := uwrap 32 (0x63c63cd9 * h + 0x9c39c33d + c).

(** The loop from [k] to [e = key + len]; [fuel] bounds its turns. *)
Fixpoint hash_func_loop (fuel : nat) (key : list Z) (k e : nat) (h : Z) : option Z :=
  if decide (k = e) then Some h
  else match fuel with
       | O => None
       | S fuel =>
           let c := byte_at key k in
           let k := S k in
           if (c =? 0) && bool_decide (e < k)%nat then Some h
           else hash_func_loop fuel key k e (DCHARHASH h c)
       end.

Definition hash_func (key : list Z) : option Z :=
  hash_func_loop (length key) key 0 (length key) 0.

(** ** MurmurHash3 *)

Definition fmix32 (h : Z) : Z :=
  let h := Z.lxor h (Z.shiftr h 16) in
  let h := umul 32 h 0x85ebca6b in
  let h := Z.lxor h (Z.shiftr h 13) in
  let h := umul 32 h 0xc2b2ae35 in
  Z.lxor h (Z.shiftr h 16).

Definition fmix64 (k : Z) : Z :=
  let k := Z.lxor k (Z.shiftr k 33) in
  let k := umul 64 k 0xff51afd7ed558ccd in
  let k := Z.lxor k (Z.shiftr k 33) in
  let k := umul 64 k 0xc4ceb9fe1a85ec53 in
  Z.lxor k (Z.shiftr k 33).

(** [k *= a; k = ROTL (k, r); k *= b]. *)
Definition kmix (w a r b k : Z) : Z := umul w (rotl w (umul w k a) r) b.

(** The bytes [lo .. hi - 1] of the tail that are in the key, shifted into place
    (the cases of the [switch] fall through from the last byte to the first). *)
Definition tail_word (w : Z) (key : list Z) (base lo hi rem : nat) : Z :=
  foldl (fun k i => if decide (i < rem)%nat
                    then Z.lxor k (uwrap w (Z.shiftl (byte_at key (base + i)) (8 * Z.of_nat (i - lo))))
                    else k)
        0 (rev (seq lo (hi - lo))).

(** [MurmurHash3_x86_32]. *)
Module X86_32.

Definition c1 : Z := 0xcc9e2d51.
Definition c2 : Z := 0x1b873593.

(** The body of the loop, on block [i]. *)
Definition body (key : list Z) (h1 : Z) (i : nat) : Z :=
  let k1 := read_le 4 key (4 * i) in
  let k1 := kmix 32 c1 15 c2 k1 in
  let h1 := Z.lxor h1 k1 in
  let h1 := rotl32 h1 13 in
  uadd 32 (umul 32 h1 5) 0xe6546b64.

Definition tail (key : list Z) (nblocks rem : nat) (h1 : Z) : Z :=
  if decide (1 <= rem)%nat then
    let k1 := tail_word 32 key (4 * nblocks) 0 3 rem in
    Z.lxor h1 (kmix 32 c1 15 c2 k1)
  else h1.

Definition hash (key : list Z) (seed : Z) : Z :=
  let len := length key in
  let nblocks := (len / 4)%nat in
  let h1 := foldl (body key) seed (seq 0 nblocks) in
  let h1 := tail key nblocks (len mod 4)%nat h1 in
  let h1 := Z.lxor h1 (uwrap 32 (Z.of_nat len)) in
  fmix32 h1.
End X86_32.

(** [MurmurHash3_x86_128]. *)
Module X86_128.

Definition c1 : Z := 0x239b961b.
Definition c2 : Z := 0xab0e9789.
Definition c3 : Z := 0x38b34ae5.
Definition c4 : Z := 0xa1e38b93.

Definition state : Set := Z * Z * Z * Z.

Definition body (key : list Z) (s : state) (i : nat) : state :=
  let '(h1, h2, h3, h4) := s in
  let k1 := read_le 4 key (16 * i) in
  let k2 := read_le 4 key (16 * i + 4) in
  let k3 := read_le 4 key (16 * i + 8) in
  let k4 := read_le 4 key (16 * i + 12) in
  let h1 := Z.lxor h1 (kmix 32 c1 15 c2 k1) in
  let h1 := uadd 32 (rotl32 h1 19) h2 in
  let h1 := uadd 32 (umul 32 h1 5) 0x561ccd1b in
  let h2 := Z.lxor h2 (kmix 32 c2 16 c3 k2) in
  let h2 := uadd 32 (rotl32 h2 17) h3 in
  let h2 := uadd 32 (umul 32 h2 5) 0x0bcaa747 in
  let h3 := Z.lxor h3 (kmix 32 c3 17 c4 k3) in
  let h3 := uadd 32 (rotl32 h3 15) h4 in
  let h3 := uadd 32 (umul 32 h3 5) 0x96cd1c35 in
  let h4 := Z.lxor h4 (kmix 32 c4 18 c1 k4) in
  let h4 := uadd 32 (rotl32 h4 13) h1 in
  let h4 := uadd 32 (umul 32 h4 5) 0x32ac3b17 in
  (h1, h2, h3, h4).

Definition tail (key : list Z) (nblocks rem : nat) (s : state) : state :=
  let '(h1, h2, h3, h4) := s in
  let word := tail_word 32 key (16 * nblocks) in
  let h4 := if decide (13 <= rem)%nat then Z.lxor h4 (kmix 32 c4 18 c1 (word 12 15 rem)%nat) else h4 in
  let h3 := if decide (9 <= rem)%nat then Z.lxor h3 (kmix 32 c3 17 c4 (word 8 12 rem)%nat) else h3 in
  let h2 := if decide (5 <= rem)%nat then Z.lxor h2 (kmix 32 c2 16 c3 (word 4 8 rem)%nat) else h2 in
  let h1 := if decide (1 <= rem)%nat then Z.lxor h1 (kmix 32 c1 15 c2 (word 0 4 rem)%nat) else h1 in
  (h1, h2, h3, h4).

(** [h1 += h2; h1 += h3; h1 += h4; h2 += h1; h3 += h1; h4 += h1]. *)
Definition add_all (s : state) : state :=
  let '(h1, h2, h3, h4) := s in
  let h1 := uadd 32 h1 h2 in
  let h1 := uadd 32 h1 h3 in
  let h1 := uadd 32 h1 h4 in
  (h1, uadd 32 h2 h1, uadd 32 h3 h1, uadd 32 h4 h1).

Definition finish (len : Z) (s : state) : state :=
  let '(h1, h2, h3, h4) := s in
  let len := uwrap 32 len in
  let '(h1, h2, h3, h4) := add_all (Z.lxor h1 len, Z.lxor h2 len, Z.lxor h3 len, Z.lxor h4 len) in
  add_all (fmix32 h1, fmix32 h2, fmix32 h3, fmix32 h4).

Definition hash (key : list Z) (seed : Z) : state :=
  let len := length key in
  let nblocks := (len / 16)%nat in
  let s := foldl (body key) (seed, seed, seed, seed) (seq 0 nblocks) in
  finish (Z.of_nat len) (tail key nblocks (len mod 16)%nat s).
End X86_128.

(** [MurmurHash3_x64_128]. *)
Module X64_128.

Definition c1 : Z := 0x87c37b91114253d5.
Definition c2 : Z := 0x4cf5ad432745937f.

Definition state : Set := Z * Z.

Definition body (key : list Z) (s : state) (i : nat) : state :=
  let '(h1, h2) := s in
  let k1 := read_le 8 key (16 * i) in
  let k2 := read_le 8 key (16 * i + 8) in
  let h1 := Z.lxor h1 (kmix 64 c1 31 c2 k1) in
  let h1 := uadd 64 (rotl64 h1 27) h2 in
  let h1 := uadd 64 (umul 64 h1 5) 0x52dce729 in
  let h2 := Z.lxor h2 (kmix 64 c2 33 c1 k2) in
  let h2 := uadd 64 (rotl64 h2 31) h1 in
  let h2 := uadd 64 (umul 64 h2 5) 0x38495ab5 in
  (h1, h2).

Definition tail (key : list Z) (nblocks rem : nat) (s : state) : state :=
  let '(h1, h2) := s in
  let word := tail_word 64 key (16 * nblocks) in
  let h2 := if decide (9 <= rem)%nat then Z.lxor h2 (kmix 64 c2 33 c1 (word 8 15 rem)%nat) else h2 in
  let h1 := if decide (1 <= rem)%nat then Z.lxor h1 (kmix 64 c1 31 c2 (word 0 8 rem)%nat) else h1 in
  (h1, h2).

(** [h1 += h2; h2 += h1]. *)
Definition add_both (s : state) : state :=
  let h1 := uadd 64 s.1 s.2 in (h1, uadd 64 s.2 h1).

Definition finish (len : Z) (s : state) : state :=
  let '(h1, h2) := add_both (Z.lxor s.1 (uwrap 64 len), Z.lxor s.2 (uwrap 64 len)) in
  add_both (fmix64 h1, fmix64 h2).

Definition hash (key : list Z) (seed : Z) : state :=
  let len := length key in
  let nblocks := (len / 16)%nat in
  let s := foldl (body key) (seed, seed) (seq 0 nblocks) in
  finish (Z.of_nat len) (tail key nblocks (len mod 16)%nat s).
End X64_128.

Definition MurmurHash3_x86_32 (key : list Z) (seed : Z) : Z := X86_32.hash key seed.
Definition MurmurHash3_x86_128 (key : list Z) (seed : Z) : Z * Z * Z * Z := X86_128.hash key seed.
Definition MurmurHash3_x64_128 (key : list Z) (seed : Z) : Z * Z := X64_128.hash key seed.

(** ** Rotations can be undone *)

Lemma rotl_bit w x r i : 0 < r < w -> is_uint w x -> 0 <= i < w ->
  Z.testbit (rotl w x r) i = Z.testbit x (if decide (i < r) then i + (w - r) else i - r).
Proof.
  intros Hr Hx Hi. unfold rotl. rewrite -> uwrap_bit by lia. rewrite -> decide_True by lia.
  rw Z.lor_spec. rewrite -> Z.shiftl_spec by lia. rewrite -> Z.shiftr_spec by lia. case_decide.
  - by rewrite -> (Z.testbit_neg_r x (i - r)) by lia.
  - rewrite -> (uint_bits w x (i + (w - r))) by (done || lia). apply orb_false_r.
Qed.

Lemma rotl_uint w x r : 0 <= w -> is_uint w (rotl w x r).
Proof. apply uwrap_uint. Qed.

(** Rotating by [r] and then by [w - r] is the identity. *)
Lemma rotl_rotl w x r : 0 < r < w -> is_uint w x -> rotl w (rotl w x r) (w - r) = x.
Proof.
  intros Hr Hx. apply Z.bits_inj'. intros i Hi. destruct (decide (i < w)) as [Hlt|Hge].
  - assert (is_uint w (rotl w x r)) by (apply rotl_uint; lia).
    rewrite -> rotl_bit by (done || lia). case_decide.
    + rewrite -> rotl_bit by (done || lia). rewrite -> decide_False by lia. f_equal. lia.
    + rewrite -> rotl_bit by (done || lia). rewrite -> decide_True by lia. f_equal. lia.
  - assert (is_uint w (rotl w (rotl w x r) (w - r))) by (apply rotl_uint; lia).
    by rewrite -> !(uint_bits w) by (done || lia).
Qed.

Lemma rotl_inj w x y r : 0 < r < w -> is_uint w x -> is_uint w y -> rotl w x r = rotl w y r -> x = y.
Proof. intros Hr Hx Hy E. by rw -(rotl_rotl w x r) // E rotl_rotl. Qed.

(** ** Arithmetic that can be undone *)

Lemma umul_inv w c d x : 0 <= w -> umul w c d = 1 -> is_uint w x -> umul w (umul w x c) d = x.
Proof.
  intros Hw Hc Hx. unfold umul, uwrap in *. rewrite -> Z.mul_mod_idemp_l by lia.
  rw -Z.mul_assoc. rewrite <- Z.mul_mod_idemp_r by lia. rw Hc Z.mul_1_r. by apply Z.mod_small.
Qed.

Lemma umul_inj w c d x y : 0 <= w -> umul w c d = 1 -> is_uint w x -> is_uint w y ->
  umul w x c = umul w y c -> x = y.
Proof. intros Hw Hc Hx Hy E. by rw -(umul_inv w c d x) // E (umul_inv w c d y). Qed.

Lemma uadd_inj w c x y : 0 <= w -> is_uint w x -> is_uint w y -> uadd w x c = uadd w y c -> x = y.
Proof.
  intros Hw Hx Hy E. unfold uadd, uwrap in E.
  assert ((x + c - c) mod 2 ^ w = (y + c - c) mod 2 ^ w) as E'.
  { rw Zminus_mod E -Zminus_mod. done. }
  rw !Z.add_simpl_r in E'. by rw !Z.mod_small in E'.
Qed.

(** ** The finalisers are bijections *)

Definition xorshift (s x : Z) : Z := Z.lxor x (Z.shiftr x s).

(** The inverse of [xorshift s] on words of at most [3 * s] bits. *)
Definition unxorshift (s x : Z) : Z := Z.lxor (Z.lxor x (Z.shiftr x s)) (Z.shiftr x (s + s)).

Lemma xorshift_uint w s x : 0 <= w -> 0 <= s -> is_uint w x -> is_uint w (xorshift s x).
Proof. intros Hw Hs Hx. apply lxor_uint; [done..|]. by apply shiftr_uint. Qed.

Lemma unxorshift_uint w s x : 0 <= w -> 0 <= s -> is_uint w x -> is_uint w (unxorshift s x).
Proof.
  intros Hw Hs Hx. apply lxor_uint; [done| |apply shiftr_uint; [done|lia|done]].
  by apply xorshift_uint.
Qed.

Lemma xorshift_bit s x i : 0 <= s -> 0 <= i ->
  Z.testbit (xorshift s x) i = xorb (Z.testbit x i) (Z.testbit x (i + s)).
Proof. intros Hs Hi. unfold xorshift. by rw Z.lxor_spec Z.shiftr_spec. Qed.

Lemma unxorshift_bit s x i : 0 <= s -> 0 <= i ->
  Z.testbit (unxorshift s x) i =
  xorb (xorb (Z.testbit x i) (Z.testbit x (i + s))) (Z.testbit x (i + s + s)).
Proof.
  intros Hs Hi. unfold unxorshift. rw !Z.lxor_spec !Z.shiftr_spec //. by rw Z.add_assoc.
Qed.

Lemma unxorshift_xorshift w s x : 0 <= s -> w <= s + s + s -> is_uint w x ->
  unxorshift s (xorshift s x) = x.
Proof.
  intros Hs Hw Hx. apply Z.bits_inj'. intros i Hi. rw unxorshift_bit //.
  rewrite -> !xorshift_bit by lia. rewrite -> (uint_bits w x (i + s + s + s)) by (done || lia).
  by destruct (Z.testbit x i), (Z.testbit x (i + s)), (Z.testbit x (i + s + s)).
Qed.

Lemma xorshift_unxorshift w s x : 0 <= s -> w <= s + s + s -> is_uint w x ->
  xorshift s (unxorshift s x) = x.
Proof.
  intros Hs Hw Hx. apply Z.bits_inj'. intros i Hi. rw xorshift_bit //.
  rewrite -> !unxorshift_bit by lia. rewrite -> (uint_bits w x (i + s + s + s)) by (done || lia).
  by destruct (Z.testbit x i), (Z.testbit x (i + s)), (Z.testbit x (i + s + s)).
Qed.

Lemma umul_uint w a b : 0 <= w -> is_uint w (umul w a b).
Proof. apply uwrap_uint. Qed.

Create HintDb uint discriminated.
#[export] Hint Resolve umul_uint xorshift_uint unxorshift_uint lxor_uint rotl_uint uwrap_uint : uint.
#[export] Hint Extern 1 (_ <= _) => lia : uint.

(** The finaliser with any shifts and constants; [d1] and [d2] undo the
    multiplications by [c1] and [c2]. *)
Definition fmix (w s1 c1 s2 c2 s3 h : Z) : Z :=
  xorshift s3 (umul w (xorshift s2 (umul w (xorshift s1 h) c1)) c2).
Definition unfmix (w s1 d1 s2 d2 s3 h : Z) : Z :=
  unxorshift s1 (umul w (unxorshift s2 (umul w (unxorshift s3 h) d2)) d1).

Section fmix.
Context (w s1 s2 s3 c1 c2 d1 d2 : Z).
Context (Hw : 0 <= w) (Hs1 : 0 <= s1 /\ w <= s1 + s1 + s1) (Hs2 : 0 <= s2 /\ w <= s2 + s2 + s2).
Context (Hs3 : 0 <= s3 /\ w <= s3 + s3 + s3) (Hd1 : umul w c1 d1 = 1) (Hd2 : umul w c2 d2 = 1).

Lemma fmix_uint h : is_uint w h -> is_uint w (fmix w s1 c1 s2 c2 s3 h).
Proof using Hw Hs3. intros Hh. unfold fmix. destruct Hs3. eauto with uint. Qed.

Lemma unfmix_fmix h : is_uint w h -> unfmix w s1 d1 s2 d2 s3 (fmix w s1 c1 s2 c2 s3 h) = h.
Proof using All.
  intros Hh. destruct Hs1, Hs2, Hs3. unfold fmix, unfmix.
  rewrite -> (unxorshift_xorshift w s3) by eauto with uint.
  rewrite -> (umul_inv w c2 d2) by eauto with uint.
  rewrite -> (unxorshift_xorshift w s2) by eauto with uint.
  rewrite -> (umul_inv w c1 d1) by eauto with uint.
  by apply (unxorshift_xorshift w s1).
Qed.

Lemma fmix_unfmix h : is_uint w h -> fmix w s1 c1 s2 c2 s3 (unfmix w s1 d1 s2 d2 s3 h) = h.
Proof using All.
  assert (umul w d1 c1 = 1) as Hc1 by (unfold umul; by rw Z.mul_comm).
  assert (umul w d2 c2 = 1) as Hc2 by (unfold umul; by rw Z.mul_comm).
  intros Hh. destruct Hs1, Hs2, Hs3. unfold fmix, unfmix.
  rewrite -> (xorshift_unxorshift w s1) by eauto with uint.
  rewrite -> (umul_inv w d1 c1) by eauto with uint.
  rewrite -> (xorshift_unxorshift w s2) by eauto with uint.
  rewrite -> (umul_inv w d2 c2) by eauto with uint.
  by apply (xorshift_unxorshift w s3).
Qed.
End fmix.

Definition unfmix32 (h : Z) : Z := unfmix 32 16 0xa5cb9243 13 0x7ed1b41d 16 h.
Definition unfmix64 (k : Z) : Z := unfmix 64 33 0x4f74430c22a54005 33 0x9cb4b2f8129337db 33 k.

Lemma fmix32_eq h : fmix32 h = fmix 32 16 0x85ebca6b 13 0xc2b2ae35 16 h.
Proof. reflexivity. Qed.
Lemma fmix64_eq k : fmix64 k = fmix 64 33 0xff51afd7ed558ccd 33 0xc4ceb9fe1a85ec53 33 k.
Proof. reflexivity. Qed.

Lemma fmix32_uint h : is_uint 32 h -> is_uint 32 (fmix32 h).
Proof. rw fmix32_eq. by apply fmix_uint. Qed.
Lemma fmix64_uint k : is_uint 64 k -> is_uint 64 (fmix64 k).
Proof. rw fmix64_eq. by apply fmix_uint. Qed.
Lemma unfmix32_fmix32 h : is_uint 32 h -> unfmix32 (fmix32 h) = h.
Proof. rw fmix32_eq. by apply unfmix_fmix. Qed.
Lemma unfmix64_fmix64 k : is_uint 64 k -> unfmix64 (fmix64 k) = k.
Proof. rw fmix64_eq. by apply unfmix_fmix. Qed.
Lemma fmix32_unfmix32 h : is_uint 32 h -> fmix32 (unfmix32 h) = h.
Proof. rw fmix32_eq. by apply fmix_unfmix. Qed.
Lemma fmix64_unfmix64 k : is_uint 64 k -> fmix64 (unfmix64 k) = k.
Proof. rw fmix64_eq. by apply fmix_unfmix. Qed.
Lemma fmix32_inj x y : is_uint 32 x -> is_uint 32 y -> fmix32 x = fmix32 y -> x = y.
Proof. intros Hx Hy E. by rw -(unfmix32_fmix32 x) // E unfmix32_fmix32. Qed.
Lemma fmix64_inj x y : is_uint 64 x -> is_uint 64 y -> fmix64 x = fmix64 y -> x = y.
Proof. intros Hx Hy E. by rw -(unfmix64_fmix64 x) // E unfmix64_fmix64. Qed.

(** ** Reading keys *)

Definition bytes (key : list Z) : Prop := Forall is_byte key.

Lemma byte_at_byte key i : bytes key -> is_byte (byte_at key i).
Proof.
  intros Hk. unfold byte_at. destruct (nth_in_or_default i key 0) as [Hin| ->]; [|unfold is_byte; lia].
  unfold bytes in Hk. rw Forall_forall in Hk. apply Hk. by apply list_elem_of_In.
Qed.

Lemma read_le_uint n key i : bytes key -> is_uint (8 * Z.of_nat n) (read_le n key i).
Proof.
  intros Hk. revert i. induction n as [|n IH]; intros i; [unfold is_uint; simpl; lia|].
  cbn [read_le]. pose proof (byte_at_byte key i Hk) as Hb. specialize (IH (S i)).
  unfold is_uint, is_byte in *. replace (8 * Z.of_nat (S n)) with (8 + 8 * Z.of_nat n) by lia.
  rewrite -> Z.pow_add_r by lia. change (2 ^ 8) with 256. lia.
Qed.

Lemma read_le_inj n k1 k2 i : bytes k1 -> bytes k2 -> read_le n k1 i = read_le n k2 i ->
  forall j, (i <= j < i + n)%nat -> byte_at k1 j = byte_at k2 j.
Proof.
  intros H1 H2. revert i. induction n as [|n IH]; intros i E j Hj; [lia|]. cbn [read_le] in E.
  pose proof (byte_at_byte k1 i H1). pose proof (byte_at_byte k2 i H2). unfold is_byte in *.
  destruct (decide (j = i)) as [->|Hne]; [lia|]. apply (IH (S i)); lia.
Qed.

Lemma read_le_ext n k1 k2 i :
  (forall j, (i <= j < i + n)%nat -> byte_at k1 j = byte_at k2 j) -> read_le n k1 i = read_le n k2 i.
Proof.
  revert i. induction n as [|n IH]; intros i E; [done|]. cbn [read_le].
  rewrite -> (E i) by lia. rewrite -> (IH (S i)); [done|]. intros j Hj. apply E. lia.
Qed.

Lemma read_le_snoc n key i :
  read_le (S n) key i = read_le n key i + 2 ^ (8 * Z.of_nat n) * byte_at key (i + n).
Proof.
  revert i. induction n as [|n IH]; intros i.
  - cbn [read_le]. rw Nat.add_0_r. lia.
  - change (read_le (S (S n)) key i) with (byte_at key i + 256 * read_le (S n) key (S i)).
    rw IH. change (read_le (S n) key i) with (byte_at key i + 256 * read_le n key (S i)).
    replace (8 * Z.of_nat (S n)) with (8 + 8 * Z.of_nat n) by lia.
    rewrite -> Z.pow_add_r by lia. change (2 ^ 8) with 256.
    replace (S i + n)%nat with (i + S n)%nat by lia. lia.
Qed.

Lemma byte_at_end key i : (length key <= i)%nat -> byte_at key i = 0.
Proof. apply nth_overflow. Qed.

(** Two keys of the same length with the same bytes. *)
Lemma byte_at_ext k1 k2 : length k1 = length k2 ->
  (forall j, (j < length k1)%nat -> byte_at k1 j = byte_at k2 j) -> k1 = k2.
Proof. intros Hl Hj. by apply (nth_ext _ _ 0 0). Qed.

(** Adding bits above is the same as [xor]-ing them. *)
Lemma lxor_high w x b : 0 <= w -> is_uint w x -> Z.lxor (Z.shiftl b w) x = x + 2 ^ w * b.
Proof.
  intros Hw Hx. rw Z.lxor_comm. rewrite <- Z.add_nocarry_lxor.
  - rewrite -> Z.shiftl_mul_pow2 by done. lia.
  - apply Z.bits_inj'. intros i Hi. rw Z.land_spec Z.testbit_0_l. destruct (decide (i < w)).
    + rw Z.shiftl_spec_low //. apply andb_false_r.
    + by rewrite -> (uint_bits w x) by (done || lia).
Qed.

(** The bytes the [switch] gathers are a little-endian read. *)
Lemma tail_word_read w key base lo n rem :
  0 <= w -> bytes key -> length key = (base + rem)%nat -> 8 * Z.of_nat n <= w ->
  tail_word w key base lo (lo + n) rem = read_le n key (base + lo).
Proof.
  intros Hw Hk Hlen Hn. unfold tail_word. replace (lo + n - lo)%nat with n by lia.
  set (f := fun (k : Z) (i : nat) => if decide (i < rem)%nat then _ else _).
  assert (forall k i, f k i = Z.lxor k (uwrap w (Z.shiftl (byte_at key (base + i)) (8 * Z.of_nat (i - lo))))) as Hf.
  { intros k i. unfold f. case_decide as Hi; [done|]. rewrite -> byte_at_end by lia.
    rw Z.shiftl_0_l. unfold uwrap. by rw Zmod_0_l Z.lxor_0_r. }
  clearbody f. enough (forall k, foldl f k (rev (seq lo n)) = Z.lxor k (read_le n key (base + lo))) as H
    by by rw H Z.lxor_0_l.
  induction n as [|n IH]; intros k; [by rw /= Z.lxor_0_r|].
  rw seq_S rev_app_distr. simpl foldl. rewrite -> IH by lia. rw Hf read_le_snoc Z.lxor_assoc. f_equal.
  replace (lo + n - lo)%nat with n by lia. rw (Nat.add_assoc base lo n).
  pose proof (byte_at_byte key (base + lo + n) Hk) as Hb.
  rewrite -> uwrap_small; [apply lxor_high; [lia|by apply read_le_uint]|].
  rewrite -> Z.shiftl_mul_pow2 by lia. unfold is_byte, is_uint in *. split; [nia|].
  apply (Z.lt_le_trans _ (256 * 2 ^ (8 * Z.of_nat n))); [nia|].
  change 256 with (2 ^ 8). rewrite <- Z.pow_add_r by lia. apply Z.pow_le_mono_r; lia.
Qed.

Lemma tail_word_ext w k1 k2 base lo hi rem :
  (forall j, (base <= j)%nat -> byte_at k1 j = byte_at k2 j) ->
  tail_word w k1 base lo hi rem = tail_word w k2 base lo hi rem.
Proof.
  intros Hj. apply foldl_pointwise. intros k i. case_decide; [|done]. by rewrite -> Hj by lia.
Qed.

(** ** Changes to one block *)

(** The keys have the same bytes outside of block [i], of [n] bytes. *)
Definition same_but (n i : nat) (k1 k2 : list Z) : Prop :=
  forall j, (j < n * i \/ n * S i <= j)%nat -> byte_at k1 j = byte_at k2 j.

Lemma kmix_inj w a r b da db x y :
  0 < r < w -> umul w a da = 1 -> umul w b db = 1 -> is_uint w x -> is_uint w y ->
  kmix w a r b x = kmix w a r b y -> x = y.
Proof.
  intros Hr Ha Hb Hx Hy E. unfold kmix in E.
  apply (umul_inj w b db) in E; [|lia|done|apply rotl_uint; lia|apply rotl_uint; lia].
  apply rotl_inj in E; [|done|apply umul_uint; lia|apply umul_uint; lia].
  by apply (umul_inj w a da) in E; [|lia|..].
Qed.

Lemma kmix_uint w a r b x : 0 <= w -> is_uint w (kmix w a r b x).
Proof. apply umul_uint. Qed.

(** A fold whose step is injective in the state keeps different states apart. *)
Lemma foldl_inj {S A : Type} (P : S -> Prop) (f g : S -> A -> S) (l : list A) s t :
  (forall s a, a ∈ l -> P s -> f s a = g s a) ->
  (forall s t a, a ∈ l -> P s -> P t -> f s a = f t a -> s = t) ->
  (forall s a, P s -> P (f s a)) ->
  P s -> P t -> foldl f s l = foldl g t l -> s = t.
Proof.
  intros Hfg Hinj HP. revert s t. induction l as [|a l IH]; intros s t Hs Ht E; [done|]. simpl in E.
  rewrite <- (Hfg t a) in E by (done || by left).
  apply IH in E; [by apply (Hinj s t a); [left|..]| | |by apply HP|by apply HP].
  - intros s' a' Ha'. apply Hfg. by right.
  - intros s' t' a' Ha'. apply Hinj. by right.
Qed.

(** A hash that mixes blocks of [n] bytes into a state, then the last bytes:
    what its parts must satisfy for a change inside one block to show. *)
Section blockwise.
Context {St : Type} (n : nat) (P : St -> Prop).
Context (body : list Z -> St -> nat -> St) (tail : list Z -> nat -> nat -> St -> St).
Context (body_P : forall k s i, P s -> P (body k s i)).
Context (body_same : forall k1 k2 s i,
  (forall j, (n * i <= j < n * (i + 1))%nat -> byte_at k1 j = byte_at k2 j) ->
  body k1 s i = body k2 s i).
Context (body_inj : forall k s t i, P s -> P t -> body k s i = body k t i -> s = t).
Context (body_block : forall k1 k2 s i, bytes k1 -> bytes k2 -> P s ->
  body k1 s i = body k2 s i ->
  forall j, (n * i <= j < n * (i + 1))%nat -> byte_at k1 j = byte_at k2 j).
Context (tail_same : forall k1 k2 s b r,
  (forall j, (n * b <= j)%nat -> byte_at k1 j = byte_at k2 j) -> tail k1 b r s = tail k2 b r s).
Context (tail_inj : forall k s t b r, P s -> P t -> tail k b r s = tail k b r t -> s = t).
Context (tail_block : forall k1 k2 s b r, bytes k1 -> bytes k2 -> P s -> (r < n)%nat ->
  length k1 = (n * b + r)%nat -> length k2 = (n * b + r)%nat ->
  tail k1 b r s = tail k2 b r s ->
  forall j, (n * b <= j < n * b + r)%nat -> byte_at k1 j = byte_at k2 j).

Lemma fold_body_P k s l : P s -> P (foldl (body k) s l).
Proof using body_P. revert s. induction l as [|i l IH]; intros s Hs; [done|]. apply IH. by apply body_P. Qed.

Lemma fold_body_same k1 k2 s l :
  (forall i j, i ∈ l -> (n * i <= j < n * (i + 1))%nat -> byte_at k1 j = byte_at k2 j) ->
  foldl (body k1) s l = foldl (body k2) s l.
Proof using body_same.
  revert s. induction l as [|i l IH]; intros s Hl; [done|]. simpl.
  rewrite -> (body_same k1 k2 s i) by (intros j; apply Hl; by left).
  apply IH. intros i' j Hi'. apply Hl. by right.
Qed.

Lemma blockwise_injective k1 k2 b r i s :
  bytes k1 -> bytes k2 -> P s -> (r < n)%nat ->
  length k1 = (n * b + r)%nat -> length k2 = (n * b + r)%nat -> same_but n i k1 k2 ->
  tail k1 b r (foldl (body k1) s (seq 0 b)) = tail k2 b r (foldl (body k2) s (seq 0 b)) ->
  k1 = k2.
Proof using All.
  intros H1 H2 Hs Hr Hl1 Hl2 Hsame E. apply byte_at_ext; [congruence|]. intros j Hj.
  destruct (decide (n * i <= j < n * S i)%nat) as [Hji|Hji]; [|apply Hsame; lia].
  destruct (decide (i < b)%nat) as [Hib|Hib].
  - replace b with (i + S (b - S i))%nat in E at 2 4 by lia.
    rw seq_app !foldl_app /= in E.
    rewrite -> (tail_same k1 k2) in E by (intros j' Hj'; apply Hsame; nia).
    rewrite -> (fold_body_same k1 k2 s (seq 0 i)) in E
      by (intros i' j' ?%elem_of_seq Hj'; apply Hsame; nia).
    set (t := foldl (body k2) s (seq 0 i)) in *. assert (P t) by by apply fold_body_P.
    apply tail_inj in E; [|by apply fold_body_P, body_P|by apply fold_body_P, body_P].
    apply (foldl_inj P (body k1) (body k2)) in E.
    + apply (body_block k1 k2 t i); [done..|nia].
    + intros s' i' ?%elem_of_seq _. apply body_same. intros j' Hj'. apply Hsame. nia.
    + intros s' t' i' _. apply body_inj.
    + intros s' i'. apply body_P.
    + by apply body_P.
    + by apply body_P.
  - rewrite -> (fold_body_same k1 k2 s (seq 0 b)) in E
      by (intros i' j' ?%elem_of_seq Hj'; apply Hsame; nia).
    apply (tail_block k1 k2 (foldl (body k2) s (seq 0 b)) b r); [done|done|by apply fold_body_P|done|done|done|done|nia].
Qed.
End blockwise.

(** ** MurmurHash3_x86_32 and MurmurHash3_x64_128 *)

Lemma uadd_uint w a b : 0 <= w -> is_uint w (uadd w a b).
Proof. apply uwrap_uint. Qed.

(** [h = ROTL (h, r) + g; h = h * 5 + c] can be undone; [d] is the inverse of 5. *)
Lemma hmix_inj w r g c d x y : 0 < r < w -> umul w 5 d = 1 -> is_uint w x -> is_uint w y ->
  uadd w (umul w (uadd w (rotl w x r) g) 5) c = uadd w (umul w (uadd w (rotl w y r) g) 5) c -> x = y.
Proof.
  intros Hr Hd Hx Hy E. apply uadd_inj in E; [|lia|apply umul_uint; lia|apply umul_uint; lia].
  apply (umul_inj w 5 d) in E; [|lia|done|apply uadd_uint; lia|apply uadd_uint; lia].
  apply uadd_inj in E; [|lia|apply rotl_uint; lia|apply rotl_uint; lia]. by apply rotl_inj in E.
Qed.

Module X86_32_facts.
Import X86_32.

Lemma mix_inj x y : is_uint 32 x -> is_uint 32 y -> kmix 32 c1 15 c2 x = kmix 32 c1 15 c2 y -> x = y.
Proof. by apply (kmix_inj 32 c1 15 c2 0xdee13bb1 0x56ed309b). Qed.

Lemma step_inj x y : is_uint 32 x -> is_uint 32 y ->
  uadd 32 (umul 32 (rotl32 x 13) 5) 0xe6546b64 = uadd 32 (umul 32 (rotl32 y 13) 5) 0xe6546b64 -> x = y.
Proof.
  intros Hx Hy E. apply uadd_inj in E; [|done|by apply umul_uint|by apply umul_uint].
  apply (umul_inj 32 5 0xcccccccd) in E; [|done|done|by apply rotl_uint|by apply rotl_uint].
  by apply rotl_inj in E.
Qed.

Lemma body_uint key h i : is_uint 32 (body key h i).
Proof. by apply uadd_uint. Qed.

Lemma body_inj k s t i : is_uint 32 s -> is_uint 32 t -> body k s i = body k t i -> s = t.
Proof.
  intros Hs Ht E. apply step_inj in E; [|apply lxor_uint; [done..|by apply kmix_uint]..].
  by apply lxor_cancel_r in E.
Qed.

Lemma body_block k1 k2 s i : bytes k1 -> bytes k2 -> is_uint 32 s -> body k1 s i = body k2 s i ->
  forall j, (4 * i <= j < 4 * (i + 1))%nat -> byte_at k1 j = byte_at k2 j.
Proof.
  intros H1 H2 Hs E j Hj. apply step_inj in E; [|apply lxor_uint; [done..|by apply kmix_uint]..].
  apply lxor_cancel_l, mix_inj in E; [|by apply (read_le_uint 4)|by apply (read_le_uint 4)].
  apply (read_le_inj 4 k1 k2 (4 * i)); [done..|lia].
Qed.

Lemma tail_block k1 k2 s b r : bytes k1 -> bytes k2 -> is_uint 32 s -> (r < 4)%nat ->
  length k1 = (4 * b + r)%nat -> length k2 = (4 * b + r)%nat ->
  tail k1 b r s = tail k2 b r s ->
  forall j, (4 * b <= j < 4 * b + r)%nat -> byte_at k1 j = byte_at k2 j.
Proof.
  intros H1 H2 Hs Hr Hl1 Hl2 E j Hj. unfold tail in E. case_decide as Hd; [|lia].
  rewrite -> !(tail_word_read 32 _ (4 * b) 0 3 r) in E by (done || lia).
  apply lxor_cancel_l, mix_inj in E.
  - apply (read_le_inj 3 k1 k2 (4 * b + 0)); [done..|lia].
  - pose proof (read_le_uint 3 k1 (4 * b + 0) H1). unfold is_uint in *. lia.
  - pose proof (read_le_uint 3 k2 (4 * b + 0) H2). unfold is_uint in *. lia.
Qed.
End X86_32_facts.

Module X64_128_facts.
Import X64_128.

Definition uints (s : state) : Prop := is_uint 64 s.1 /\ is_uint 64 s.2.

Lemma mix1_inj x y : is_uint 64 x -> is_uint 64 y -> kmix 64 c1 31 c2 x = kmix 64 c1 31 c2 y -> x = y.
Proof. by apply (kmix_inj 64 c1 31 c2 0xa98409e882ce4d7d 0xa81e14edd9de2c7f). Qed.
Lemma mix2_inj x y : is_uint 64 x -> is_uint 64 y -> kmix 64 c2 33 c1 x = kmix 64 c2 33 c1 y -> x = y.
Proof. by apply (kmix_inj 64 c2 33 c1 0xa81e14edd9de2c7f 0xa98409e882ce4d7d). Qed.

Lemma lxor_kmix_uint a r b h k : is_uint 64 h -> is_uint 64 (Z.lxor h (kmix 64 a r b k)).
Proof. intros Hh. apply lxor_uint; [done..|by apply kmix_uint]. Qed.

Lemma hmix64_inj r g c x y : 0 < r < 64 -> is_uint 64 x -> is_uint 64 y ->
  uadd 64 (umul 64 (uadd 64 (rotl64 x r) g) 5) c = uadd 64 (umul 64 (uadd 64 (rotl64 y r) g) 5) c -> x = y.
Proof. intros Hr. by apply (hmix_inj 64 r g c 0xcccccccccccccccd). Qed.

(** The added word can be recovered too. *)
Lemma hmix64_inj_r r x c g g' : is_uint 64 g -> is_uint 64 g' ->
  uadd 64 (umul 64 (uadd 64 (rotl64 x r) g) 5) c = uadd 64 (umul 64 (uadd 64 (rotl64 x r) g') 5) c -> g = g'.
Proof.
  intros Hg Hg' E. apply uadd_inj in E; [|done|by apply umul_uint|by apply umul_uint].
  apply (umul_inj 64 5 0xcccccccccccccccd) in E; [|done|done|by apply uadd_uint|by apply uadd_uint].
  unfold uadd in E. rw !(Z.add_comm (rotl64 x r)) in E. by apply (uadd_inj 64 (rotl64 x r)).
Qed.

Lemma body_uints key s i : uints (body key s i).
Proof. destruct s. split; by apply uadd_uint. Qed.

Lemma bodys_inj k s t i : uints s -> uints t -> body k s i = body k t i -> s = t.
Proof.
  destruct s as [a b], t as [a' b']. intros [Ha Hb] [Ha' Hb'] E. simpl in *.
  injection E as E1 E2. rw E1 in E2.
  apply hmix64_inj in E2; [|done|by apply lxor_kmix_uint|by apply lxor_kmix_uint].
  apply lxor_cancel_r in E2. subst b'.
  apply hmix64_inj in E1; [|done|by apply lxor_kmix_uint|by apply lxor_kmix_uint].
  apply lxor_cancel_r in E1. by subst a'.
Qed.

Lemma bodys_block k1 k2 s i : bytes k1 -> bytes k2 -> uints s -> body k1 s i = body k2 s i ->
  forall j, (16 * i <= j < 16 * (i + 1))%nat -> byte_at k1 j = byte_at k2 j.
Proof.
  destruct s as [a b]. intros H1 H2 [Ha Hb] E j Hj. simpl in *. injection E as E1 E2. rw E1 in E2.
  apply hmix64_inj in E2; [|done|by apply lxor_kmix_uint|by apply lxor_kmix_uint].
  apply lxor_cancel_l, mix2_inj in E2; [|by apply (read_le_uint 8)|by apply (read_le_uint 8)].
  apply hmix64_inj in E1; [|done|by apply lxor_kmix_uint|by apply lxor_kmix_uint].
  apply lxor_cancel_l, mix1_inj in E1; [|by apply (read_le_uint 8)|by apply (read_le_uint 8)].
  destruct (decide (j < 16 * i + 8)%nat).
  - apply (read_le_inj 8 k1 k2 (16 * i)); [done..|lia].
  - apply (read_le_inj 8 k1 k2 (16 * i + 8)); [done..|lia].
Qed.

Lemma tail_inj k s t b r : uints s -> uints t -> tail k b r s = tail k b r t -> s = t.
Proof.
  destruct s as [x y], t as [x' y']. intros _ _ E. unfold tail in E. injection E as E1 E2.
  f_equal.
  - clear E2. case_decide; [by eapply lxor_cancel_r|done].
  - case_decide; [by eapply lxor_cancel_r|done].
Qed.

Lemma uint_le w v x : w <= v -> is_uint w x -> is_uint v x.
Proof.
  intros Hwv [H0 Hlt]. split; [done|]. apply (Z.lt_le_trans _ (2 ^ w)); [done|].
  apply Z.pow_le_mono_r; lia.
Qed.

Lemma tails_block k1 k2 s b r : bytes k1 -> bytes k2 -> uints s -> (r < 16)%nat ->
  length k1 = (16 * b + r)%nat -> length k2 = (16 * b + r)%nat ->
  tail k1 b r s = tail k2 b r s ->
  forall j, (16 * b <= j < 16 * b + r)%nat -> byte_at k1 j = byte_at k2 j.
Proof.
  destruct s as [x y]. intros H1 H2 _ Hr Hl1 Hl2 E j Hj. unfold tail in E. injection E as E1 E2.
  rewrite -> decide_True in E1 by lia.
  rewrite -> decide_True in E1 by lia.
  rewrite -> !(tail_word_read 64 _ (16 * b) 0 8 r) in E1 by (done || lia).
  apply lxor_cancel_l, mix1_inj in E1; [|by apply (read_le_uint 8)|by apply (read_le_uint 8)].
  destruct (decide (j < 16 * b + 8)%nat); [apply (read_le_inj 8 k1 k2 (16 * b + 0)); [done..|lia]|].
  rewrite -> decide_True in E2 by lia.
  rewrite -> decide_True in E2 by lia.
  rewrite -> !(tail_word_read 64 _ (16 * b) 8 7 r) in E2 by (done || lia).
  apply lxor_cancel_l, mix2_inj in E2.
  - apply (read_le_inj 7 k1 k2 (16 * b + 8)); [done..|lia].
  - by apply (uint_le 56), (read_le_uint 7).
  - by apply (uint_le 56), (read_le_uint 7).
Qed.

Lemma tail_uints k b r s : uints s -> uints (tail k b r s).
Proof.
  destruct s as [x y]. intros [Hx Hy]. split; simpl; case_decide; try done; by apply lxor_kmix_uint.
Qed.

Lemma add_both_inj s t : uints s -> uints t -> add_both s = add_both t -> s = t.
Proof.
  destruct s as [a b], t as [a' b']. intros [Ha Hb] [Ha' Hb'] E. simpl in *. unfold add_both in E.
  simpl in E. injection E as E1 E2. rw E1 in E2. apply uadd_inj in E2; [|done..]. subst b'.
  apply uadd_inj in E1; [|done..]. by subst a'.
Qed.

Lemma add_both_uints s : uints (add_both s).
Proof. split; by apply uadd_uint. Qed.

Lemma finish_inj len s t : uints s -> uints t -> finish len s = finish len t -> s = t.
Proof.
  assert (is_uint 64 (uwrap 64 len)) by by apply uwrap_uint.
  intros Hs Ht E. unfold finish in E.
  pose proof (add_both_uints (Z.lxor s.1 (uwrap 64 len), Z.lxor s.2 (uwrap 64 len))) as [Hs1 Hs2].
  pose proof (add_both_uints (Z.lxor t.1 (uwrap 64 len), Z.lxor t.2 (uwrap 64 len))) as [Ht1 Ht2].
  destruct (add_both (Z.lxor s.1 _, _)) as [a b] eqn:Es. destruct (add_both (Z.lxor t.1 _, _)) as [a' b'] eqn:Et.
  simpl in *. apply add_both_inj in E; [|split; by apply fmix64_uint..].
  injection E as E1 E2. apply fmix64_inj in E1; [|done..]. apply fmix64_inj in E2; [|done..].
  subst a' b'. rw -Et in Es. destruct s as [x y], t as [x' y'], Hs, Ht. simpl in *.
  apply add_both_inj in Es; [|split; by apply lxor_uint..].
  injection Es as Ex Ey. apply lxor_cancel_r in Ex, Ey. by subst.
Qed.
End X64_128_facts.

Lemma hash_func_loop_fold key k h :
  (k <= length key)%nat ->
  hash_func_loop (length key - k) key k (length key) h = Some (foldl DCHARHASH h (drop k key)).
Proof.
  remember (length key - k)%nat as fuel eqn:Hf. revert k h Hf.
  induction fuel as [|fuel IH]; intros k h Hf Hk; simpl; case_decide as Hd; try lia.
  - subst k. by rw drop_all.
  - rewrite -> bool_decide_eq_false_2 by lia. rw andb_false_r. rewrite -> IH by lia.
    destruct (lookup_lt_is_Some_2 key k) as [c Hc]; [lia|].
    rw (drop_S key c k Hc). simpl. unfold byte_at. by rw (nth_lookup_Some _ _ _ _ Hc).
Qed.

(** ** The hash functions as a whole *)

(** C36. [__hash_func] terminates on every key and is the left fold of
    [DCHARHASH] over its bytes: the early exit on a zero byte past the end is
    never taken. *)
Theorem hash_func_fold key : hash_func key = Some (foldl DCHARHASH 0 key).
Proof.
  unfold hash_func. rw -{1}(Nat.sub_0_r (length key)). apply (hash_func_loop_fold key 0). lia.
Qed.

(** C35. The finalisers [fmix32] and [fmix64] are bijections on 32-bit and 64-bit
    words, with explicit inverses: they lose no entropy. *)
Theorem fmix_bijective h k :
  is_uint 32 h -> is_uint 64 k ->
  (is_uint 32 (fmix32 h) /\ unfmix32 (fmix32 h) = h /\ fmix32 (unfmix32 h) = h) /\
  (is_uint 64 (fmix64 k) /\ unfmix64 (fmix64 k) = k /\ fmix64 (unfmix64 k) = k).
Proof.
  intros Hh Hk. split; split_and!.
  - by apply fmix32_uint.
  - by apply unfmix32_fmix32.
  - by apply fmix32_unfmix32.
  - by apply fmix64_uint.
  - by apply unfmix64_fmix64.
  - by apply fmix64_unfmix64.
Qed.

Lemma fmix_bijective_witness :
  (is_uint 32 (fmix32 5) /\ unfmix32 (fmix32 5) = 5 /\ fmix32 (unfmix32 5) = 5) /\
  (is_uint 64 (fmix64 7) /\ unfmix64 (fmix64 7) = 7 /\ fmix64 (unfmix64 7) = 7).
Proof. by apply (fmix_bijective 5 7). Defined.

(** C28. [MurmurHash3_x86_32] detects every change inside one 4-byte block: two
    different keys of the same length that agree outside of one block, the tail
    being one, have different hashes. *)
Theorem murmur_x86_32_block k1 k2 i seed :
  bytes k1 -> bytes k2 -> length k1 = length k2 -> is_uint 32 seed -> same_but 4 i k1 k2 ->
  k1 ≠ k2 -> MurmurHash3_x86_32 k1 seed ≠ MurmurHash3_x86_32 k2 seed.
Proof.
  intros H1 H2 Hl Hs Hsame Hne E. apply Hne. clear Hne. unfold MurmurHash3_x86_32, X86_32.hash in E. rw Hl in E.
  set (b := (length k2 / 4)%nat) in *. set (r := (length k2 mod 4)%nat) in *.
  assert (length k2 = 4 * b + r)%nat as Hk2 by apply Nat.div_mod_eq.
  assert (r < 4)%nat as Hr by by apply Nat.mod_upper_bound.
  assert (forall k, is_uint 32 (foldl (X86_32.body k) seed (seq 0 b))) as Hf.
  { intros k. apply (fold_body_P (is_uint 32)); [|done]. intros. apply X86_32_facts.body_uint. }
  assert (forall k, is_uint 32 (X86_32.tail k b r (foldl (X86_32.body k) seed (seq 0 b)))) as Ht.
  { intros k. unfold X86_32.tail. case_decide; [|done]. apply lxor_uint; [done..|by apply kmix_uint]. }
  apply fmix32_inj in E; [|apply lxor_uint; [done|done|by apply uwrap_uint]..].
  apply lxor_cancel_r in E.
  apply (blockwise_injective 4 (is_uint 32) X86_32.body X86_32.tail) with b r i seed; try done.
  - intros. apply X86_32_facts.body_uint.
  - intros k k' s j Hj. unfold X86_32.body. by rewrite -> (read_le_ext 4 k k') by (intros; apply Hj; lia).
  - apply X86_32_facts.body_inj.
  - apply X86_32_facts.body_block.
  - intros k k' s b' r' Hj. unfold X86_32.tail. case_decide; [|done]. do 2 f_equal.
    by apply tail_word_ext.
  - intros k s t b' r' _ _ E'. unfold X86_32.tail in E'. case_decide; [by eapply lxor_cancel_r|done].
  - apply X86_32_facts.tail_block.
  - by rw Hl.
Qed.

(** C27. [MurmurHash3_x64_128], the hash of the bloom filter, detects every change
    inside one 16-byte block: two different keys of the same length that agree
    outside of one block, the tail being one, have different hashes. *)
Theorem murmur_x64_128_block k1 k2 i seed :
  bytes k1 -> bytes k2 -> length k1 = length k2 -> is_uint 32 seed -> same_but 16 i k1 k2 ->
  k1 ≠ k2 -> MurmurHash3_x64_128 k1 seed ≠ MurmurHash3_x64_128 k2 seed.
Proof.
  intros H1 H2 Hl Hs Hsame Hne E. apply Hne. clear Hne.
  unfold MurmurHash3_x64_128, X64_128.hash in E. rw Hl in E.
  set (b := (length k2 / 16)%nat) in *. set (r := (length k2 mod 16)%nat) in *.
  assert (length k2 = 16 * b + r)%nat as Hk2 by apply Nat.div_mod_eq.
  assert (r < 16)%nat as Hr by by apply Nat.mod_upper_bound.
  assert (X64_128_facts.uints (seed, seed)) as Hseed by by split; apply (X64_128_facts.uint_le 32).
  assert (forall k, X64_128_facts.uints (foldl (X64_128.body k) (seed, seed) (seq 0 b))) as Hf.
  { intros k. apply (fold_body_P X64_128_facts.uints); [|done]. intros. apply X64_128_facts.body_uints. }
  apply X64_128_facts.finish_inj in E; [|by apply X64_128_facts.tail_uints..].
  apply (blockwise_injective 16 X64_128_facts.uints X64_128.body X64_128.tail) with b r i (seed, seed); try done.
  - intros. apply X64_128_facts.body_uints.
  - intros k k' s j Hj. unfold X64_128.body. destruct s.
    rewrite -> (read_le_ext 8 k k' (16 * j)) by (intros; apply Hj; lia).
    by rewrite -> (read_le_ext 8 k k' (16 * j + 8)) by (intros; apply Hj; lia).
  - apply X64_128_facts.bodys_inj.
  - apply X64_128_facts.bodys_block.
  - intros k k' [h1 h2] b' r' Hj. unfold X64_128.tail.
    by rewrite -> !(tail_word_ext 64 k k') by done.
  - apply X64_128_facts.tail_inj.
  - apply X64_128_facts.tails_block.
  - by rw Hl.
Qed.

(** Two bytes changed inside one block. *)
Definition key_a : list Z := [1; 2; 3; 4; 5; 6; 7; 8; 9].
Definition key_b : list Z := [1; 2; 3; 4; 5; 0; 0; 8; 9].

Lemma key_a_b n i : (n * i <= 5)%nat -> (7 <= n * S i)%nat -> same_but n i key_a key_b.
Proof.
  intros H1 H2 j Hj.
  do 9 (destruct j as [|j]; [first [reflexivity | exfalso; lia]|]). done.
Qed.

#[export] Instance is_byte_dec b : Decision (is_byte b).
Proof. unfold is_byte. apply _. Defined.

Lemma murmur_x86_32_block_witness : MurmurHash3_x86_32 key_a 7 ≠ MurmurHash3_x86_32 key_b 7.
Proof.
  apply (murmur_x86_32_block key_a key_b 1 7).
  - by apply (bool_decide_unpack _).
  - by apply (bool_decide_unpack _).
  - reflexivity.
  - done.
  - apply key_a_b; simpl; lia.
  - discriminate.
Defined.

Lemma murmur_x64_128_block_witness : MurmurHash3_x64_128 key_a 7 ≠ MurmurHash3_x64_128 key_b 7.
Proof.
  apply (murmur_x64_128_block key_a key_b 0 7).
  - by apply (bool_decide_unpack _).
  - by apply (bool_decide_unpack _).
  - reflexivity.
  - done.
  - apply key_a_b; simpl; lia.
  - discriminate.
Defined.

(** ** Published test vectors *)

Example murmur_x86_32_hello : MurmurHash3_x86_32 [104; 101; 108; 108; 111] 0 = 0x248bfa47.
Proof. by vm_compute. Qed.

Example murmur_x64_128_hello :
  MurmurHash3_x64_128 [104; 101; 108; 108; 111] 0 = (0xcbd8a7b341bd9b02, 0x5b1e906a48ae1d19).
Proof. by vm_compute. Qed.
