(* ===== verification/Bloom.v ===== *)
(** * src/advance/hashfunc/bloom_hashfunc.h: the bit vector and the bloom filter.

    The structures are passed as values; [None] is a failed assertion or an
    access outside of a buffer.  Whether the allocator of the C library serves
    a request and the floating-point functions of libm are parameters. *)
From S2P Require Import Prelude Words Hashfunc.
#[local] Open Scope Z_scope.

(** ** The bit vector *)

Definition INT_BIT : Z := 32.

(** [field] holds the bit patterns of the [int]s. *)
Record bitvector : Set := BitVector { field : list Z; bv_size : Z }.

Definition SIZE_MAX1 : Z := 2 ^ 64.

(** [calloc_ok n]: whether [calloc] serves [n] elements; [bv_init] answers -1
    and no vector when it does not. *)
Definition bv_init (calloc_ok : Z -> bool) (k : Z) : Z * option bitvector :=
  let ints := (k + (INT_BIT - 1)) mod SIZE_MAX1 / INT_BIT in
  if calloc_ok ints then (0, Some (BitVector (replicate (Z.to_nat ints) 0) k)) else (-1, None).

Definition bv_create (calloc_ok : Z -> bool) (malloc_ok : bool) (k : Z) : option bitvector :=
  if malloc_ok then
    match bv_init calloc_ok k with
    | (0, v) => v
    | _ => None
    end
  else None.

(** [1 << (k % INT_BIT)]. *)
Definition bit_mask (k : Z) : Z := Z.shiftl 1 (k mod INT_BIT).

(** The read-modify-write of the word of bit [k]. *)
Definition bv_update (f : Z -> Z) (bv : bitvector) (k : Z) : option bitvector :=
  if k <? bv_size bv then
    let i := Z.to_nat (k / INT_BIT) in
    match field bv !! i with
    | Some w => Some (BitVector (<[i := f w]> (field bv)) (bv_size bv))
    | None => None
    end
  else None.

Definition bv_set (bv : bitvector) (k : Z) : option bitvector :=
  bv_update (fun w => Z.lor w (bit_mask k)) bv k.

Definition bv_unset (bv : bitvector) (k : Z) : option bitvector :=
  bv_update (fun w => Z.land w (uwrap 32 (Z.lnot (bit_mask k)))) bv k.

Definition bv_toggle (bv : bitvector) (k : Z) : option bitvector :=
  bv_update (fun w => Z.lxor w (bit_mask k)) bv k.

Definition bv_get (bv : bitvector) (k : Z) : option Z :=
  if k <? bv_size bv then
    match field bv !! Z.to_nat (k / INT_BIT) with
    | Some w => Some (of_bool (truthy (Z.land w (bit_mask k))))
    | None => None
    end
  else None.

(** ** The bloom filter *)

Definition SALT_CONSTANT : Z := 0x97c29b3a.

Section bloom.
Context {double : Type}.

Record bloom : Type := Bloom {
  capacity : Z;
  nhashes : Z;
  error_rate : double;
  nitems : Z;
  size : Z;
  bits : bitvector;
}.

(** [ceil_ratio bits items] stands for [(size_t) ceil ((double) bits * log (2) / items)]. *)
Definition bloom_optimal_hash_count (ceil_ratio : Z -> Z -> Z) (bits items : Z) : Z :=
  let k := ceil_ratio bits items in
  if k <? 1 then 1 else k.

(** [hashes[1]], ..., from [hashes[0]]. *)
Fixpoint hash_sequence (b max_size : Z) (n : nat) (h : Z) : list Z :=
  match n with
  | O => []
  | S n => let h := (h + b) mod SIZE_MAX1 mod max_size in h :: hash_sequence b max_size n h
  end.

(** The call [hashfunc (key, key_len, ...)] converts the length to an [int].  The hash is
    that of the first [len] bytes; a negative [len] has no blocks and a tail of
    [len & 15] bytes at [len / 16] blocks, which is before the key from -17 down. *)
Definition hash_key (key : list Z) : option (Z * Z) :=
  let len := to_int (Z.of_nat (length key)) in
  if 0 <=? len then Some (MurmurHash3_x64_128 (take (Z.to_nat len) key) SALT_CONSTANT)
  else
    let rem := Z.to_nat (Z.land len 15) in
    if (Z.quot len 16 <? 0) && (0 <? rem)%nat then None
    else Some (X64_128.finish len (X64_128.tail key 0 rem (SALT_CONSTANT, SALT_CONSTANT))).

(** [hashes[0]] is written whatever [nhashes]; a remainder by 0 traps. *)
Definition gen_hashes (key : list Z) (nhashes max_size : Z) : option (list Z) :=
  match hash_key key with
  | None => None
  | Some (h1, _) =>
      if (nhashes <? 1) || (max_size =? 0) then None
      else
        let a := uwrap 32 h1 in
        let b := uwrap 32 (Z.shiftr h1 32) in
        let h0 := a mod max_size in
        Some (h0 :: hash_sequence b max_size (Z.to_nat (nhashes - 1)) h0)
  end.

(** [bits_for_accuracy capacity error_rate] stands for the floating-point
    expression of [bloom_bits_for_accuracy]. *)
Definition bloom_init (bits_for_accuracy : Z -> double -> Z) (ceil_ratio : Z -> Z -> Z)
    (calloc_ok : Z -> bool) (malloc_ok : bool) (capacity : Z) (error_rate : double)
  : Z * option bloom :=
  let size := bits_for_accuracy capacity error_rate in
  let nhashes := bloom_optimal_hash_count ceil_ratio size capacity in
  match bv_create calloc_ok malloc_ok size with
  | Some v => (0, Some (Bloom capacity nhashes error_rate 0 size v))
  | None => (-1, None)
  end.

Definition bloom_create (bits_for_accuracy : Z -> double -> Z) (ceil_ratio : Z -> Z -> Z)
    (calloc_ok : Z -> bool) (malloc_bloom malloc_bv : bool) (capacity : Z) (error_rate : double)
  : option bloom :=
  if malloc_bloom then
    match bloom_init bits_for_accuracy ceil_ratio calloc_ok malloc_bv capacity error_rate with
    | (0, b) => b
    | _ => None
    end
  else None.

(** The loop of [bloom_attach] and [bloom_add]: the bits are tested and set one
    after the other. *)
Fixpoint add_hashes (bv : bitvector) (hashes : list Z) (seen : Z) : option (Z * bitvector) :=
  match hashes with
  | [] => Some (seen, bv)
  | h :: hashes =>
      match bv_get bv h with
      | None => None
      | Some cval =>
          let seen := Z.land seen cval in
          if cval =? 0 then
            match bv_set bv h with
            | Some bv => add_hashes bv hashes seen
            | None => None
            end
          else add_hashes bv hashes seen
      end
  end.

Definition count_item (b : bloom) (seen : Z) (bv : bitvector) : bloom :=
  Bloom (capacity b) (nhashes b) (error_rate b)
    (if seen =? 0 then (nitems b + 1) mod SIZE_MAX1 else nitems b) (size b) bv.

(** [has_hashes]: whether the caller's buffer is not null. *)
Definition bloom_attach (b : bloom) (key : list Z) (has_hashes : bool) : option (Z * bloom) :=
  if has_hashes then
    match gen_hashes key (nhashes b) (size b) with
    | Some hashes =>
        match add_hashes (bits b) hashes 1 with
        | Some (seen, bv) => Some (seen, count_item b seen bv)
        | None => None
        end
    | None => None
    end
  else Some (-1, b).

Definition bloom_add (calloc_ok : Z -> bool) (b : bloom) (key : list Z) : option (Z * bloom) :=
  if calloc_ok (nhashes b) then bloom_attach b key true else Some (-1, b).

Fixpoint test_hashes (bv : bitvector) (hashes : list Z) : option Z :=
  match hashes with
  | [] => Some 1
  | h :: hashes =>
      match bv_get bv h with
      | None => None
      | Some cval => if cval =? 0 then Some 0 else test_hashes bv hashes
      end
  end.

Definition bloom_obtain (b : bloom) (key : list Z) : option Z :=
  match gen_hashes key (nhashes b) (size b) with
  | Some hashes => test_hashes (bits b) hashes
  | None => None
  end.

(** The result of [calloc] is not tested: without the buffer, [gen_hashes]
    writes through a null pointer. *)
Definition bloom_get (calloc_ok : Z -> bool) (b : bloom) (key : list Z) : option Z :=
  if calloc_ok (nhashes b) then bloom_obtain b key else None.
End bloom.
Arguments bloom : clear implicits.

(** ** Bits *)

Definition bv_bit (bv : bitvector) (j : Z) : bool :=
  match field bv !! Z.to_nat (j / INT_BIT) with
  | Some w => Z.testbit w (j mod INT_BIT)
  | None => false
  end.

Record bv_wf (bv : bitvector) : Prop := {
  wf_size : 0 <= bv_size bv <= INT_BIT * Z.of_nat (length (field bv));
  wf_words : Forall (is_uint 32) (field bv);
}.

Lemma word_index bv k : bv_wf bv -> 0 <= k < bv_size bv ->
  exists w, field bv !! Z.to_nat (k / INT_BIT) = Some w /\ is_uint 32 w.
Proof.
  intros [Hs Hw] Hk. unfold INT_BIT in *.
  destruct (lookup_lt_is_Some_2 (field bv) (Z.to_nat (k / 32))) as [w Hlw].
  { assert (0 <= k / 32 < Z.of_nat (length (field bv))); [|lia].
    split; [apply Z.div_pos; lia|]. apply Z.div_lt_upper_bound; lia. }
  exists w. split; [done|]. rw Forall_lookup in Hw. by eapply Hw.
Qed.

Lemma bit_mask_bit k i : 0 <= i -> Z.testbit (bit_mask k) i = (k mod INT_BIT =? i).
Proof.
  intros Hi. unfold bit_mask. rw Z.shiftl_1_l.
  apply Z.pow2_bits_eqb, Z.mod_pos_bound. done.
Qed.

Lemma land_mask w k : truthy (Z.land w (bit_mask k)) = Z.testbit w (k mod INT_BIT).
Proof.
  assert (0 <= k mod INT_BIT) by by apply Z.mod_pos_bound.
  unfold truthy. destruct (Z.testbit w (k mod INT_BIT)) eqn:Hb.
  - apply negb_true_iff, Z.eqb_neq. intros E.
    apply (f_equal (fun z => Z.testbit z (k mod INT_BIT))) in E.
    rw Z.land_spec Hb bit_mask_bit // Z.eqb_refl Z.testbit_0_l in E. done.
  - apply negb_false_iff, Z.eqb_eq, Z.bits_inj'. intros i Hi.
    rw Z.land_spec bit_mask_bit // Z.testbit_0_l.
    destruct (Z.eqb_spec (k mod INT_BIT) i) as [<-|]; [by rw Hb|apply andb_false_r].
Qed.

Lemma bv_get_bit bv k : bv_wf bv -> 0 <= k < bv_size bv ->
  bv_get bv k = Some (of_bool (bv_bit bv k)).
Proof.
  intros Hwf Hk. destruct (word_index bv k Hwf Hk) as (w & Hw & _).
  unfold bv_get, bv_bit. rewrite -> (proj2 (Z.ltb_lt _ _)) by lia. by rw Hw land_mask.
Qed.

(** An update changes the bits of one word. *)
Lemma bv_update_spec f g bv k :
  bv_wf bv -> 0 <= k < bv_size bv ->
  (forall w, is_uint 32 w -> is_uint 32 (f w)) ->
  (forall w i, is_uint 32 w -> 0 <= i < INT_BIT ->
     Z.testbit (f w) i = if k mod INT_BIT =? i then g (Z.testbit w i) else Z.testbit w i) ->
  exists bv', bv_update f bv k = Some bv' /\ bv_wf bv' /\ bv_size bv' = bv_size bv /\
    forall j, 0 <= j -> bv_bit bv' j = if j =? k then g (bv_bit bv k) else bv_bit bv j.
Proof.
  intros Hwf Hk Hf Hg. destruct (word_index bv k Hwf Hk) as (w & Hw & Hu).
  unfold bv_update. rewrite -> (proj2 (Z.ltb_lt _ _)) by lia. rw Hw. eexists. split; [done|].
  destruct Hwf as [Hs Hws]. split_and!; [|done|].
  - split; simpl; [by rw length_insert|]. apply Forall_insert; [done|by apply Hf].
  - intros j Hj. unfold bv_bit at 1. simpl. rw list_lookup_insert.
    assert (0 <= j mod INT_BIT < INT_BIT) by by apply Z.mod_pos_bound.
    assert (0 <= k mod INT_BIT < INT_BIT) by by apply Z.mod_pos_bound.
    pose proof (Z.div_mod j INT_BIT). pose proof (Z.div_mod k INT_BIT). unfold INT_BIT in *.
    destruct (decide (Z.to_nat (k / 32) = Z.to_nat (j / 32))) as [E|Hne].
    + assert (k / 32 = j / 32).
      { apply Z2Nat.inj in E; [done|apply Z.div_pos; lia|apply Z.div_pos; lia]. }
      rewrite -> decide_True by (split; [done|]; by eapply lookup_lt_Some).
      rewrite -> Hg by done. unfold bv_bit, INT_BIT. rw -E Hw.
      destruct (Z.eqb_spec (k mod 32) (j mod 32)) as [E2|Hne].
      * assert (j = k) as -> by lia. by rw Z.eqb_refl.
      * rewrite -> (proj2 (Z.eqb_neq j k)) by congruence. done.
    + rewrite -> decide_False by (intros [? _]; done). rewrite -> (proj2 (Z.eqb_neq j k)) by congruence.
      unfold bv_bit, INT_BIT. done.
Qed.

Lemma mask_uint k : is_uint 32 (bit_mask k).
Proof.
  unfold bit_mask. rw Z.shiftl_1_l. assert (0 <= k mod INT_BIT < 32) by by apply Z.mod_pos_bound.
  split; [apply Z.pow_nonneg; lia|]. apply Z.pow_lt_mono_r; lia.
Qed.

Lemma bv_set_spec bv k : bv_wf bv -> 0 <= k < bv_size bv ->
  exists bv', bv_set bv k = Some bv' /\ bv_wf bv' /\ bv_size bv' = bv_size bv /\
    forall j, 0 <= j -> bv_bit bv' j = if j =? k then true else bv_bit bv j.
Proof.
  intros Hwf Hk. apply (bv_update_spec (fun w => Z.lor w (bit_mask k)) (fun _ => true)); [done..| |].
  - intros w Hw. apply lor_uint; [done..|apply mask_uint].
  - intros w i _ Hi. rewrite -> Z.lor_spec, bit_mask_bit by lia. destruct (k mod INT_BIT =? i).
    + apply orb_true_r.
    + apply orb_false_r.
Qed.

Lemma bv_unset_spec bv k : bv_wf bv -> 0 <= k < bv_size bv ->
  exists bv', bv_unset bv k = Some bv' /\ bv_wf bv' /\ bv_size bv' = bv_size bv /\
    forall j, 0 <= j -> bv_bit bv' j = if j =? k then false else bv_bit bv j.
Proof.
  intros Hwf Hk. apply (bv_update_spec (fun w => Z.land w (uwrap 32 (Z.lnot (bit_mask k)))) (fun _ => false)); [done..| |].
  - intros w Hw. apply land_uint; [done..|]. by apply (uwrap_uint 32).
  - intros w i _ Hi. unfold INT_BIT in Hi. rw Z.land_spec. rewrite -> uwrap_bit by lia.
    rewrite -> decide_True by lia. rewrite -> Z.lnot_spec, bit_mask_bit by lia.
    destruct (k mod INT_BIT =? i); [apply andb_false_r|apply andb_true_r].
Qed.

Lemma bv_toggle_spec bv k : bv_wf bv -> 0 <= k < bv_size bv ->
  exists bv', bv_toggle bv k = Some bv' /\ bv_wf bv' /\ bv_size bv' = bv_size bv /\
    forall j, 0 <= j -> bv_bit bv' j = if j =? k then negb (bv_bit bv k) else bv_bit bv j.
Proof.
  intros Hwf Hk. apply (bv_update_spec (fun w => Z.lxor w (bit_mask k)) negb); [done..| |].
  - intros w Hw. apply lxor_uint; [done..|apply mask_uint].
  - intros w i _ Hi. rewrite -> Z.lxor_spec, bit_mask_bit by lia. destruct (k mod INT_BIT =? i).
    + apply xorb_true_r.
    + apply xorb_false_r.
Qed.

(** ** The hashes of a key *)

Lemma hash_sequence_range b max_size n h : 0 < max_size ->
  Forall (fun h => 0 <= h < max_size) (hash_sequence b max_size n h).
Proof.
  intros Hm. revert h. induction n as [|n IH]; intros h; [constructor|]. simpl. constructor; [|apply IH].
  by apply Z.mod_pos_bound.
Qed.

Lemma hash_sequence_length b max_size n h : length (hash_sequence b max_size n h) = n.
Proof. revert h. induction n as [|n IH]; intros h; [done|]. simpl. by rw IH. Qed.

(** The length of the key is an [int]. *)
Definition key_ok (key : list Z) : Prop := Z.of_nat (length key) < 2 ^ 31.

Lemma hash_key_ok key : key_ok key -> hash_key key = Some (MurmurHash3_x64_128 key SALT_CONSTANT).
Proof.
  intros Hk. unfold hash_key. cbv zeta. rewrite -> to_int_small by (unfold key_ok in Hk; lia).
  rewrite -> (proj2 (Z.leb_le 0 _)) by lia. by rw Nat2Z.id firstn_all.
Qed.

Lemma gen_hashes_spec key nhashes max_size : key_ok key -> 1 <= nhashes -> 0 < max_size ->
  exists hashes, gen_hashes key nhashes max_size = Some hashes /\
    Z.of_nat (length hashes) = nhashes /\ Forall (fun h => 0 <= h < max_size) hashes.
Proof.
  intros Hk Hn Hm. unfold gen_hashes. rw hash_key_ok //. destruct (MurmurHash3_x64_128 key SALT_CONSTANT) as [h1 h2]. rewrite -> (proj2 (Z.ltb_ge _ _)) by lia.
  rewrite -> (proj2 (Z.eqb_neq _ _)) by lia. simpl.
  eexists. split; [done|]. split; [simpl; rw hash_sequence_length; lia|].
  constructor; [by apply Z.mod_pos_bound|by apply hash_sequence_range].
Qed.

(** ** Adding and testing hashes *)

(** All the bits of [hashes] are set. *)
Definition all_set (bv : bitvector) (hashes : list Z) : bool := forallb (bv_bit bv) hashes.

Lemma test_hashes_spec bv hashes :
  bv_wf bv -> Forall (fun h => 0 <= h < bv_size bv) hashes ->
  test_hashes bv hashes = Some (of_bool (all_set bv hashes)).
Proof.
  intros Hwf. induction 1 as [|h hashes Hh Hhs IH]; [done|]. simpl.
  rw bv_get_bit //. destruct (bv_bit bv h); [apply IH|done].
Qed.

(** The bits of [hashes] are added, and what is answered is whether they were
    all set before. *)
Lemma add_hashes_spec bv hashes b :
  bv_wf bv -> Forall (fun h => 0 <= h < bv_size bv) hashes ->
  exists bv', add_hashes bv hashes (of_bool b) = Some (of_bool (b && all_set bv hashes), bv') /\
    bv_wf bv' /\ bv_size bv' = bv_size bv /\
    forall j, 0 <= j -> bv_bit bv' j = bool_decide (j ∈ hashes) || bv_bit bv j.
Proof.
  revert bv b. induction hashes as [|h hashes IH]; intros bv b Hwf Hh.
  - exists bv. simpl. rw andb_true_r. done.
  - apply Forall_cons in Hh as [Hh Hhs]. simpl. rw bv_get_bit //.
    destruct (bv_bit bv h) eqn:Hb; simpl.
    + replace (Z.land (of_bool b) 1) with (of_bool b) by by destruct b.
      destruct (IH bv b) as (bv' & -> & Hwf' & Hs & Hbits); [done..|].
      exists bv'. split_and!; [done|done|done|]. intros j Hj. rw Hbits //.
      destruct (decide (j = h)) as [->|Hne].
      * rw Hb !orb_true_r. done.
      * f_equal. apply bool_decide_ext. rw elem_of_cons. tauto.
    + replace (Z.land (of_bool b) 0) with (of_bool false) by by destruct b.
      destruct (bv_set_spec bv h) as (bv1 & -> & Hwf1 & Hs1 & Hbits1); [done..|].
      destruct (IH bv1 false) as (bv' & -> & Hwf' & Hs & Hbits); [done|by rw Hs1|].
      exists bv'. rw andb_false_r. split_and!; [done|done|congruence|].
      intros j Hj. rw Hbits // Hbits1 //. destruct (Z.eqb_spec j h) as [->|Hne].
      * rw orb_true_r (bool_decide_eq_true_2 (h ∈ h :: hashes)) //. by left.
      * f_equal. apply bool_decide_ext. rw elem_of_cons. tauto.
Qed.

(** ** The filter *)

Section filter.
Context {double : Type}.
Implicit Type b : bloom double.

Record bloom_wf b : Prop := {
  wf_bits : bv_wf (bits b);
  wf_bits_size : bv_size (bits b) = size b;
  wf_positive : 0 < size b;
  wf_nhashes : 1 <= nhashes b;
}.

(** The positions of a key. *)
Definition positions b (key : list Z) : list Z := default [] (gen_hashes key (nhashes b) (size b)).

Lemma positions_spec b key : bloom_wf b -> key_ok key ->
  gen_hashes key (nhashes b) (size b) = Some (positions b key) /\
  Forall (fun h => 0 <= h < size b) (positions b key).
Proof.
  intros Hwf Hk. destruct (gen_hashes_spec key (nhashes b) (size b)) as (hs & E & _ & Hhs);
    [done|apply Hwf|apply Hwf|]. unfold positions. by rw E.
Qed.

Lemma bloom_obtain_spec b key : bloom_wf b -> key_ok key ->
  bloom_obtain b key = Some (of_bool (all_set (bits b) (positions b key))).
Proof.
  intros Hwf Hk. destruct (positions_spec b key Hwf Hk) as [E Hp]. unfold bloom_obtain. rw E.
  apply test_hashes_spec; [apply Hwf|]. by rw (wf_bits_size b Hwf).
Qed.

Lemma bloom_attach_spec b key : bloom_wf b -> key_ok key ->
  exists b', bloom_attach b key true = Some (of_bool (all_set (bits b) (positions b key)), b') /\
    bloom_wf b' /\ nhashes b' = nhashes b /\ size b' = size b /\
    (forall j, 0 <= j -> bv_bit (bits b') j = bool_decide (j ∈ positions b key) || bv_bit (bits b) j) /\
    nitems b' = if all_set (bits b) (positions b key) then nitems b else (nitems b + 1) mod SIZE_MAX1.
Proof.
  intros Hwf Hk. destruct (positions_spec b key Hwf Hk) as [E Hp]. unfold bloom_attach. rw E.
  destruct (add_hashes_spec (bits b) (positions b key) true) as (bv' & Ha & Hwf' & Hs & Hbits);
    [apply Hwf|by rw (wf_bits_size b Hwf)|].
  simpl in Ha. rw Ha. eexists. split; [done|]. destruct Hwf as [H1 H2 H3 H4].
  split_and!; [split; simpl; congruence|done|done|done|]. simpl. by destruct (all_set _ _).
Qed.

(** Keys are added one after the other. *)
Fixpoint add_all (calloc_ok : Z -> bool) b (keys : list (list Z)) : option (bloom double) :=
  match keys with
  | [] => Some b
  | key :: keys =>
      match bloom_add calloc_ok b key with
      | Some (_, b) => add_all calloc_ok b keys
      | None => None
      end
  end.

Lemma positions_same b b' key : nhashes b' = nhashes b -> size b' = size b ->
  positions b' key = positions b key.
Proof. unfold positions. by intros -> ->. Qed.

(** After any additions, exactly the positions of the keys are added. *)
Lemma add_all_spec calloc_ok b keys :
  calloc_ok (nhashes b) = true -> bloom_wf b -> Forall key_ok keys ->
  exists b', add_all calloc_ok b keys = Some b' /\ bloom_wf b' /\
    nhashes b' = nhashes b /\ size b' = size b /\
    forall j, 0 <= j ->
      bv_bit (bits b') j = bool_decide (j ∈ keys ≫= positions b) || bv_bit (bits b) j.
Proof.
  intros Hc Hwf Hks. revert b Hc Hwf. induction Hks as [|key keys Hk Hks IH]; intros b Hc Hwf.
  - exists b. done.
  - simpl. unfold bloom_add. rw Hc.
    destruct (bloom_attach_spec b key Hwf Hk) as (b1 & -> & Hwf1 & Hn1 & Hs1 & Hb1 & _).
    destruct (IH b1) as (b' & -> & Hwf' & Hn & Hs & Hb); [by rw Hn1|done|].
    exists b'. split_and!; [done|done|congruence|congruence|]. intros j Hj. rw Hb // Hb1 // orb_assoc.
    f_equal. rw -(bool_decide_or (j ∈ _)). apply bool_decide_ext. rw elem_of_app.
    rewrite -> (list_bind_ext (positions b1) (positions b) keys keys); [tauto| |done].
    intros k. by apply positions_same.
Qed.

Lemma all_set_true bv hashes : (forall h, h ∈ hashes -> bv_bit bv h = true) -> all_set bv hashes = true.
Proof. intros H. apply forallb_forall. intros h Hh. by apply H, list_elem_of_In. Qed.

(** ** Making a filter *)

Section create.
Context (bits_for_accuracy : Z -> double -> Z) (ceil_ratio : Z -> Z -> Z) (calloc_ok : Z -> bool).

Lemma bloom_create_spec capacity error_rate :
  let bits := bits_for_accuracy capacity error_rate in
  0 < bits -> bits + 31 < SIZE_MAX1 -> calloc_ok ((bits + 31) / 32) = true ->
  exists b, bloom_create bits_for_accuracy ceil_ratio calloc_ok true true capacity error_rate = Some b /\
    bloom_wf b /\ nitems b = 0 /\ size b = bits /\
    nhashes b = bloom_optimal_hash_count ceil_ratio bits capacity /\
    forall j, bv_bit (Bloom.bits b) j = false.
Proof.
  intros bs Hpos Hmax Hc. unfold bloom_create, bloom_init, bv_create, bv_init. fold bs.
  change (bs + (INT_BIT - 1)) with (bs + 31). rewrite -> (Z.mod_small (bs + 31)) by lia.
  unfold INT_BIT. rw Hc. eexists. split; [done|]. split_and!; [|done..|].
  - split; simpl; [|done|done|].
    + split; simpl; unfold INT_BIT; [|apply Forall_replicate; unfold is_uint; lia].
      rw length_replicate. pose proof (Z.div_mod (bs + 31) 32). pose proof (Z.mod_pos_bound (bs + 31) 32). lia.
    + unfold bloom_optimal_hash_count. case_ltb; lia.
  - intros j. unfold bv_bit. simpl. destruct (replicate _ _ !! _) as [w|] eqn:Hw; [|done].
    apply lookup_replicate in Hw as [-> _]. apply Z.testbit_0_l.
Qed.
End create.
End filter.

(** ** The bit vector and the filter as a whole *)

(** C33. The operations of the bit vector are those of a set of positions: within
    bounds they do not fail, setting, clearing and toggling change the bit they
    name and no other, and keep the vector well formed. *)
Theorem bitvector_operations bv k j :
  bv_wf bv -> 0 <= k < bv_size bv -> 0 <= j < bv_size bv ->
  exists s u t,
    (bv_set bv k = Some s /\ bv_wf s /\
     bv_get s j = Some (of_bool (if j =? k then true else bv_bit bv j))) /\
    (bv_unset bv k = Some u /\ bv_wf u /\
     bv_get u j = Some (of_bool (if j =? k then false else bv_bit bv j))) /\
    (bv_toggle bv k = Some t /\ bv_wf t /\
     bv_get t j = Some (of_bool (if j =? k then negb (bv_bit bv k) else bv_bit bv j))).
Proof.
  intros Hwf Hk Hj.
  destruct (bv_set_spec bv k Hwf Hk) as (s & Hs & Hsw & Hss & Hsb).
  destruct (bv_unset_spec bv k Hwf Hk) as (u & Hu & Huw & Hus & Hub).
  destruct (bv_toggle_spec bv k Hwf Hk) as (t & Ht & Htw & Hts & Htb).
  exists s, u, t. split_and!; try done; rewrite -> bv_get_bit by (done || lia).
  - by rewrite -> Hsb by lia.
  - by rewrite -> Hub by lia.
  - by rewrite -> Htb by lia.
Qed.

(** C26. A bloom filter has no false negatives: when [bloom_create] finds memory and
    the accuracy asks for at least one bit, and [calloc] serves the hashes of a key,
    the filter takes any sequence of keys shorter than 2 GB without a failed bound
    check, and answers 1 for every key that was added. *)
Theorem bloom_no_false_negatives {double : Type} (bits_for_accuracy : Z -> double -> Z)
    (ceil_ratio : Z -> Z -> Z) (calloc_ok : Z -> bool) capacity error_rate keys :
  let bits := bits_for_accuracy capacity error_rate in
  0 < bits -> bits + 31 < SIZE_MAX1 -> calloc_ok ((bits + 31) / 32) = true ->
  calloc_ok (bloom_optimal_hash_count ceil_ratio bits capacity) = true -> Forall key_ok keys ->
  exists b b',
    bloom_create bits_for_accuracy ceil_ratio calloc_ok true true capacity error_rate = Some b /\
    add_all calloc_ok b keys = Some b' /\
    forall key, key ∈ keys -> bloom_get calloc_ok b' key = Some 1.
Proof.
  intros bs Hpos Hmax Hc Hh Hks.
  destruct (bloom_create_spec bits_for_accuracy ceil_ratio calloc_ok capacity error_rate)
    as (b & Hb & Hwf & _ & _ & Hnh & _); [done..|].
  destruct (add_all_spec calloc_ok b keys) as (b' & Ha & Hwf' & Hn & Hs & Hbits); [by rw Hnh|done|done|].
  exists b, b'. split_and!; [done..|]. intros key Hkey. assert (key_ok key) as Hk by (rw Forall_forall in Hks; by apply Hks).
  unfold bloom_get. rw Hn Hnh Hh bloom_obtain_spec //. rw all_set_true //. intros h Hin.
  destruct (positions_spec b' key Hwf' Hk) as [_ Hp].
  rw Forall_forall in Hp. destruct (Hp h Hin) as [H0 _]. rw Hbits //. apply orb_true_iff. left.
  apply bool_decide_eq_true_2. apply list_elem_of_bind. exists key. split; [|done].
  by rw -(positions_same b b').
Qed.

(** C34. [bloom_add] answers whether the filter already answered 1 for a key shorter
    than 2 GB, and counts an item exactly when it did not. *)
Theorem bloom_add_answers {double : Type} (calloc_ok : Z -> bool) (b : bloom double) key :
  calloc_ok (nhashes b) = true -> bloom_wf b -> key_ok key ->
  exists seen b', bloom_get calloc_ok b key = Some seen /\ bloom_add calloc_ok b key = Some (seen, b') /\
    bloom_wf b' /\ nitems b' = (if seen =? 0 then (nitems b + 1) mod SIZE_MAX1 else nitems b).
Proof.
  intros Hc Hwf Hk. destruct (bloom_attach_spec b key Hwf Hk) as (b' & Ha & Hwf' & _ & _ & _ & Hn).
  exists (of_bool (all_set (bits b) (positions b key))), b'. unfold bloom_get, bloom_add. rw Hc.
  rw bloom_obtain_spec //. split_and!; [done..|]. rw Hn. by destruct (all_set _ _).
Qed.

(** A key of [2 ^ 31 + k] bytes is hashed from before its first byte, unless [k] is a
    multiple of 16. *)
Lemma hash_key_before key k : Z.of_nat (length key) = 2 ^ 31 + k -> 0 <= k < 2 ^ 31 - 16 -> k mod 16 <> 0 -> hash_key key = None.
Proof.
  intros El Hk Hm. unfold hash_key. rw El. assert (to_int (2 ^ 31 + k) = k - 2 ^ 31) as ->.
  { unfold to_int. cbv zeta. rewrite -> Z.mod_small by lia. rewrite -> (proj2 (Z.ltb_ge _ _)) by lia. lia. }
  cbv zeta. rewrite -> (proj2 (Z.leb_gt 0 (k - 2 ^ 31))) by lia. change 15 with (Z.ones 4). rewrite -> Z.land_ones by lia.
  assert ((k - 2 ^ 31) mod 2 ^ 4 = k mod 16) as ->.
  { change (2 ^ 31) with (2 ^ 27 * 16). change (2 ^ 4) with 16. rw -Z.add_opp_r -Z.mul_opp_l. by apply Z.mod_add. }
  pose proof (Z.mod_pos_bound k 16). rewrite -> (proj2 (Nat.ltb_lt 0 (Z.to_nat (k mod 16)))) by lia.
  assert (Z.quot (k - 2 ^ 31) 16 < 0) as Hq.
  { pose proof (Z.quot_le_mono (k - 2 ^ 31) (-16) 16 ltac:(lia) ltac:(lia)). change (Z.quot (-16) 16) with (-1) in *. lia. }
  by rewrite -> (proj2 (Z.ltb_lt _ 0) Hq).
Qed.

(** [bloom_get] does not test the buffer it allocates: when [calloc] fails it
    writes through a null pointer, where [bloom_add] answers -1. *)
Theorem bloom_get_no_memory {double : Type} (calloc_ok : Z -> bool) (b : bloom double) key :
  calloc_ok (nhashes b) = false ->
  bloom_get calloc_ok b key = None /\ bloom_add calloc_ok b key = Some (-1, b).
Proof. intros Hc. unfold bloom_get, bloom_add. by rw Hc. Qed.

(** ** Witnesses *)

Definition sample_bv : bitvector := BitVector [5; 0] 40.

Lemma sample_bv_wf : bv_wf sample_bv.
Proof. split; [by unfold INT_BIT; simpl; lia|]. repeat constructor; done. Qed.

Lemma bitvector_operations_witness : exists s u t,
  (bv_set sample_bv 33 = Some s /\ bv_wf s /\ bv_get s 33 = Some 1) /\
  (bv_unset sample_bv 33 = Some u /\ bv_wf u /\ bv_get u 33 = Some 0) /\
  (bv_toggle sample_bv 33 = Some t /\ bv_wf t /\ bv_get t 33 = Some 1).
Proof.
  apply (bitvector_operations sample_bv 33 33); [apply sample_bv_wf|split; simpl; lia..].
Defined.

Lemma bloom_no_false_negatives_witness : exists b b',
  bloom_create (fun _ _ => 100) (fun _ _ => 3) (fun n => n <=? 4) true true 10 tt = Some b /\
  add_all (fun n => n <=? 4) b [[1; 2]; [3]] = Some b' /\
  forall key, key ∈ [[1; 2]; [3]] -> bloom_get (fun n => n <=? 4) b' key = Some 1.
Proof.
  apply (bloom_no_false_negatives (fun _ _ => 100) (fun _ _ => 3) (fun n => n <=? 4) 10 tt [[1; 2]; [3]]); [done..|by repeat constructor].
Defined.

Definition sample_bloom : bloom unit := Bloom 10 3 tt 0 40 sample_bv.

Lemma sample_bloom_wf : bloom_wf sample_bloom.
Proof. split; [apply sample_bv_wf|done|done|done]. Qed.

Lemma bloom_add_answers_witness : exists seen b',
  bloom_get (fun _ => true) sample_bloom [1; 2] = Some seen /\
  bloom_add (fun _ => true) sample_bloom [1; 2] = Some (seen, b') /\ bloom_wf b' /\
  nitems b' = (if seen =? 0 then 1 else 0).
Proof. apply (bloom_add_answers (fun _ => true) sample_bloom [1; 2]); [done|apply sample_bloom_wf|done]. Defined.

Lemma bloom_get_no_memory_witness :
  bloom_get (fun _ => false) sample_bloom [1] = None /\
  bloom_add (fun _ => false) sample_bloom [1] = Some (-1, sample_bloom).
Proof. by apply (bloom_get_no_memory (fun _ => false) sample_bloom [1]). Defined.
