(* ===== verification/StateMonad.v ===== *)
(** * Programs over global variables.

    The allocator of src/memory keeps its data in global variables.  A function
    of it is a state transformer that may fail: [None] is a failed [bassert], an
    [abort] or an access outside of a table. *)
From S2P Require Import Prelude.

Definition M (S A : Type) : Type := S -> option (A * S).

#[export] Instance M_ret S : MRet (M S) := fun A a s => Some (a, s).
#[export] Instance M_bind S : MBind (M S) := fun A B k m s =>
  match m s with
  | Some (a, s) => k a s
  | None => None
  end.

Section operations.
Context {S : Type}.

Definition abort {A} : M S A := fun _ => None.
Definition gets {A} (f : S -> A) : M S A := fun s => Some (f s, s).
Definition modify (f : S -> S) : M S unit := fun s => Some (tt, f s).
Definition bassert (b : bool) : M S unit := fun s => if b then Some (tt, s) else None.

(** A value that must be there: an entry of a table, a structure behind a pointer. *)
Definition the {A} (o : option A) : M S A := fun s =>
  match o with
  | Some a => Some (a, s)
  | None => None
  end.

(** [while] with at most [fuel] turns; the body says whether to go on. *)
Fixpoint loop {A B} (fuel : nat) (body : A -> M S (A + B)) (a : A) : M S B :=
  match fuel with
  | O => abort
  | Datatypes.S fuel =>
      r ← body a;
      match r with
      | inl a => loop fuel body a
      | inr b => mret b
      end
  end.

(** The [for] loops over a list. *)
Fixpoint foreach {A} (l : list A) (body : A -> M S unit) : M S unit :=
  match l with
  | [] => mret tt
  | a :: l => body a;; foreach l body
  end.
End operations.

(** An operation on a part of the state. *)
Definition zoom {S T A} (get : T -> S) (put : S -> T -> T) (m : M S A) : M T A := fun t =>
  match m (get t) with
  | Some (a, s) => Some (a, put s t)
  | None => None
  end.

Section lemmas.
Context {S : Type}.

Lemma bind_Some {A B} (m : M S A) (k : A -> M S B) s a s' :
  m s = Some (a, s') -> (m ≫= k) s = k a s'.
Proof. intros Hm. unfold mbind, M_bind. by rw Hm. Qed.

Lemma bind_inv {A B} (m : M S A) (k : A -> M S B) s b s'' :
  (m ≫= k) s = Some (b, s'') -> exists a s', m s = Some (a, s') /\ k a s' = Some (b, s'').
Proof. unfold mbind, M_bind. destruct (m s) as [[a s']|]; [|done]. eauto. Qed.

Lemma bind_gets {A B} (f : S -> A) (k : A -> M S B) s : (gets f ≫= k) s = k (f s) s.
Proof. done. Qed.

Lemma bind_modify {B} f (k : unit -> M S B) s : (modify f ≫= k) s = k tt (f s).
Proof. done. Qed.

Lemma bind_bassert {B} (b : bool) (k : unit -> M S B) s : b = true -> (bassert b ≫= k) s = k tt s.
Proof. by intros ->. Qed.

Lemma bind_the {A B} (o : option A) a (k : A -> M S B) s : o = Some a -> (the o ≫= k) s = k a s.
Proof. by intros ->. Qed.

Lemma bind_ret {A B} (a : A) (k : A -> M S B) s : (mret a ≫= k) s = k a s.
Proof. done. Qed.

(** One more turn of a loop. *)
Lemma loop_step {A B} fuel (body : A -> M S (A + B)) a s r s' :
  body a s = Some (r, s') ->
  loop (Datatypes.S fuel) body a s =
  match r with inl a' => loop fuel body a' s' | inr b => Some (b, s') end.
Proof. intros Hb. simpl. rw (bind_Some _ _ _ _ _ Hb). by destruct r. Qed.

(** Fuel that is enough stays enough. *)
Lemma loop_mono {A B} fuel fuel' (body : A -> M S (A + B)) a s b s' :
  (fuel <= fuel')%nat -> loop fuel body a s = Some (b, s') -> loop fuel' body a s = Some (b, s').
Proof.
  revert fuel' a s. induction fuel as [|fuel IH]; intros fuel' a s Hle; [done|].
  destruct fuel' as [|fuel']; [lia|]. simpl. intros (r & s1 & Hb & Hr)%bind_inv. rw (bind_Some _ _ _ _ _ Hb).
  destruct r as [a'|b']; [|done]. apply IH; [lia|done].
Qed.
End lemmas.
