(* ===== verification/Sizeclass.v ===== *)
(** * src/memory: the size classes of the allocator.

    The arithmetic of malloc_internal.h and the tables of generated_constants.h
    and generated_constants.cpp: which bin serves a size, how the objects of a
    bin are laid out in a chunk, and how the chunk table encodes a bin. *)
From S2P Require Import Prelude Words.
#[local] Open Scope Z_scope.

(** ** malloc_internal.h *)

Definition pagesize : Z := 4096.
Definition log_chunksize : Z := 21.
Definition chunksize : Z := 2 ^ log_chunksize.
Definition cacheline_size : Z := 64.
Definition log_max_chunknumber : Z := 27.

Definition bin_from_bin_and_size (bnt : Z) : option Z :=
  if Z.land bnt 127 =? 0 then None else Some (Z.land bnt 127 - 1).

Definition ceil (a b : Z) : Z := uwrap 64 (a + b - 1) / b.

Definition hyperceil (a : Z) : Z :=
  if a <=? 1 then 1 else uwrap 64 (Z.shiftl 1 (64 - clz 64 (a - 1))).

Definition lg_of_power_of_two (a : Z) : Z := ctz a.

Definition address_2_chunknumber (a : Z) : Z := a / chunksize mod 2 ^ log_max_chunknumber.

Definition address_2_chunkaddress (a : Z) : Z := Z.land a (uwrap 64 (Z.lnot (chunksize - 1))).

Definition offset_in_chunk (a : Z) : Z := a mod chunksize.

Definition pagenum_in_chunk (a : Z) : Z := offset_in_chunk a / pagesize.

Definition offset_in_page (a : Z) : Z := a mod pagesize.

Definition is_power_of_two (x : Z) : bool := Z.land x (uwrap 64 (x - 1)) =? 0.

(** [bin_and_size_to_bin_and_size] of malloc.cpp. *)
Definition bin_and_size_to_bin_and_size (bin size : Z) : option Z :=
  if bin <? 127 then
    let n_pages := uwrap 32 (ceil size pagesize) in
    if n_pages <? 2 ^ 24 then Some (uwrap 32 (1 + bin + 2 ^ 7 + Z.shiftl n_pages 8))
    else Some (uwrap 32 (1 + bin + Z.shiftl (ceil size chunksize) 8))
  else None.

(** ** generated_constants *)

Definition Ki : Z := 1024.

Record static_bin_s : Set := Bin {
  object_size : Z;
  folio_size : Z;
  objects_per_folio : Z;
  folios_per_chunk : Z;
  overhead_pages_per_chunk : Z;
  object_division_shift_magic : Z;
  folio_division_shift_magic : Z;
  object_division_multiply_magic : Z;
  folio_division_multiply_magic : Z;
}.

Definition bin_number_limit : Z := 74.
Definition largest_small : Z := 14272.
Definition offset_of_first_object_in_large_chunk : Z := 4096.
Definition largest_large : Z := 1044480.
Definition first_large_bin_number : Z := 40.
Definition first_huge_bin_number : Z := 47.

Definition static_bin_info : list static_bin_s := [
  Bin 8 (4 * Ki) 512 472 40 3 12 1 1;
  Bin 10 (20 * Ki) 2048 100 8 36 47 6871947674 6871947674;
  Bin 12 (12 * Ki) 1024 166 14 36 46 5726623062 5726623062;
  Bin 14 (28 * Ki) 2048 72 6 36 47 4908534053 4908534053;
  Bin 16 (4 * Ki) 256 472 40 4 12 1 1;
  Bin 20 (20 * Ki) 1024 100 8 37 47 6871947674 6871947674;
  Bin 24 (12 * Ki) 512 166 14 37 46 5726623062 5726623062;
  Bin 28 (28 * Ki) 1024 72 6 37 47 4908534053 4908534053;
  Bin 32 (4 * Ki) 128 472 40 5 12 1 1;
  Bin 40 (20 * Ki) 512 100 8 38 47 6871947674 6871947674;
  Bin 48 (12 * Ki) 256 166 14 38 46 5726623062 5726623062;
  Bin 56 (28 * Ki) 512 72 6 38 47 4908534053 4908534053;
  Bin 64 (4 * Ki) 64 472 40 6 12 1 1;
  Bin 80 (20 * Ki) 256 100 8 39 47 6871947674 6871947674;
  Bin 96 (12 * Ki) 128 166 14 39 46 5726623062 5726623062;
  Bin 112 (28 * Ki) 256 72 6 39 47 4908534053 4908534053;
  Bin 128 (4 * Ki) 32 472 40 7 12 1 1;
  Bin 160 (20 * Ki) 128 100 8 40 47 6871947674 6871947674;
  Bin 192 (12 * Ki) 64 166 14 40 46 5726623062 5726623062;
  Bin 224 (28 * Ki) 128 72 6 40 47 4908534053 4908534053;
  Bin 256 (4 * Ki) 16 472 40 8 12 1 1;
  Bin 320 (20 * Ki) 64 100 8 41 47 6871947674 6871947674;
  Bin 448 (28 * Ki) 64 72 6 41 47 4908534053 4908534053;
  Bin 512 (4 * Ki) 8 472 40 9 12 1 1;
  Bin 576 (36 * Ki) 64 56 5 42 48 7635497416 7635497416;
  Bin 704 (44 * Ki) 64 46 4 42 48 6247225158 6247225158;
  Bin 960 (60 * Ki) 64 33 3 42 48 4581298450 4581298450;
  Bin 1024 (4 * Ki) 4 472 40 10 12 1 1;
  Bin 1216 (76 * Ki) 64 26 3 43 49 7233629131 7233629131;
  Bin 1472 (92 * Ki) 64 22 2 43 49 5975606673 5975606673;
  Bin 1984 (124 * Ki) 64 16 2 43 49 4433514629 4433514629;
  Bin (2 * Ki) (4 * Ki) 2 472 40 11 12 1 1;
  Bin 2752 (172 * Ki) 64 11 1 44 50 6392509464 6392509464;
  Bin 3904 (244 * Ki) 64 8 1 44 50 4506195196 4506195196;
  Bin (4 * Ki) (4 * Ki) 1 472 40 12 12 1 1;
  Bin 5312 (332 * Ki) 64 6 1 45 51 6623564023 6623564023;
  Bin 7232 (452 * Ki) 64 4 1 45 51 4865095699 4865095699;
  Bin (8 * Ki) (8 * Ki) 1 246 20 13 13 1 1;
  Bin 10048 (628 * Ki) 64 3 1 46 52 7003258776 7003258776;
  Bin 14272 (892 * Ki) 64 2 1 46 52 4930545417 4930545417;
  Bin (16 * Ki) (16 * Ki) 1 127 1 14 14 1 1;
  Bin (32 * Ki) (32 * Ki) 1 63 1 15 15 1 1;
  Bin (64 * Ki) (64 * Ki) 1 31 1 16 16 1 1;
  Bin (128 * Ki) (128 * Ki) 1 15 1 17 17 1 1;
  Bin (252 * Ki) (252 * Ki) 1 8 1 50 50 4363141381 4363141381;
  Bin (508 * Ki) (508 * Ki) 1 4 1 51 51 4328785937 4328785937;
  Bin (1020 * Ki) (1020 * Ki) 1 2 1 52 52 4311810306 4311810306;
  Bin (2 ^ 21) (2 ^ 21) 1 1 0 21 21 1 1;
  Bin (2 ^ 22) (2 ^ 22) 1 1 0 1 1 1 1;
  Bin (2 ^ 23) (2 ^ 23) 1 1 0 1 1 1 1;
  Bin (2 ^ 24) (2 ^ 24) 1 1 0 1 1 1 1;
  Bin (2 ^ 25) (2 ^ 25) 1 1 0 1 1 1 1;
  Bin (2 ^ 26) (2 ^ 26) 1 1 0 1 1 1 1;
  Bin (2 ^ 27) (2 ^ 27) 1 1 0 1 1 1 1;
  Bin (2 ^ 28) (2 ^ 28) 1 1 0 1 1 1 1;
  Bin (2 ^ 29) (2 ^ 29) 1 1 0 1 1 1 1;
  Bin (2 ^ 30) (2 ^ 30) 1 1 0 1 1 1 1;
  Bin (2 ^ 31) (2 ^ 31) 1 1 0 1 1 1 1;
  Bin (2 ^ 32) (2 ^ 32) 1 1 0 1 1 1 1;
  Bin (2 ^ 33) (2 ^ 33) 1 1 0 1 1 1 1;
  Bin (2 ^ 34) (2 ^ 34) 1 1 0 1 1 1 1;
  Bin (2 ^ 35) (2 ^ 35) 1 1 0 1 1 1 1;
  Bin (2 ^ 36) (2 ^ 36) 1 1 0 1 1 1 1;
  Bin (2 ^ 37) (2 ^ 37) 1 1 0 1 1 1 1;
  Bin (2 ^ 38) (2 ^ 38) 1 1 0 1 1 1 1;
  Bin (2 ^ 39) (2 ^ 39) 1 1 0 1 1 1 1;
  Bin (2 ^ 40) (2 ^ 40) 1 1 0 1 1 1 1;
  Bin (2 ^ 41) (2 ^ 41) 1 1 0 1 1 1 1;
  Bin (2 ^ 42) (2 ^ 42) 1 1 0 1 1 1 1;
  Bin (2 ^ 43) (2 ^ 43) 1 1 0 1 1 1 1;
  Bin (2 ^ 44) (2 ^ 44) 1 1 0 1 1 1 1;
  Bin (2 ^ 45) (2 ^ 45) 1 1 0 1 1 1 1;
  Bin (2 ^ 46) (2 ^ 46) 1 1 0 1 1 1 1;
  Bin (2 ^ 47) (2 ^ 47) 1 1 0 1 1 1 1
].

(** [static_bin_info[bin]]; nothing is read outside of the table. *)
Definition static_bin (bin : Z) : option static_bin_s :=
  if 0 <=? bin then static_bin_info !! Z.to_nat bin else None.

(** The lengths of the arrays [b0], ..., [b39], and of [b] which overlays them. *)
Definition dynamic_small_bin_info : list Z := [
  514; 2050; 1026; 2050; 258; 1026; 514; 1026; 130; 514; 258; 514; 66; 258; 130; 258; 34;
  130; 66; 130; 18; 66; 66; 10; 66; 66; 66; 6; 66; 66; 66; 4; 66; 66; 3; 66; 66; 3; 66; 66
].
Definition dynamic_small_bin_info_b : Z := 11920.

Definition offs : list Z := [
  0; 514; 2564; 3590; 5640; 5898; 6924; 7438; 8464; 8594; 9108; 9366; 9880; 9946; 10204;
  10334; 10592; 10626; 10756; 10822; 10952; 10970; 11036; 11102; 11112; 11178; 11244;
  11310; 11316; 11382; 11448; 11514; 11518; 11584; 11650; 11653; 11719; 11785; 11788; 11854
].

Definition dynamic_small_bin_offset (bin : Z) : option Z :=
  if 0 <=? bin then offs !! Z.to_nat bin else None.

(** The other implementation that the function has. *)
Definition dynamic_small_bin_switch (bin : Z) : option Z :=
  match bin with
  | 0 => Some 0 | 1 => Some 514 | 2 => Some 2564 | 3 => Some 3590
  | 4 => Some 5640 | 5 => Some 5898 | 6 => Some 6924 | 7 => Some 7438
  | 8 => Some 8464 | 9 => Some 8594 | 10 => Some 9108 | 11 => Some 9366
  | 12 => Some 9880 | 13 => Some 9946 | 14 => Some 10204 | 15 => Some 10334
  | 16 => Some 10592 | 17 => Some 10626 | 18 => Some 10756 | 19 => Some 10822
  | 20 => Some 10952 | 21 => Some 10970 | 22 => Some 11036 | 23 => Some 11102
  | 24 => Some 11112 | 25 => Some 11178 | 26 => Some 11244 | 27 => Some 11310
  | 28 => Some 11316 | 29 => Some 11382 | 30 => Some 11448 | 31 => Some 11514
  | 32 => Some 11518 | 33 => Some 11584 | 34 => Some 11650 | 35 => Some 11653
  | 36 => Some 11719 | 37 => Some 11785 | 38 => Some 11788 | 39 => Some 11854
  | _ => None
  end.

Definition size_2_bin (size : Z) : Z :=
  if size <=? 8 then 0
  else if size <=? 320 then
    let nzeros := clz 64 size in
    let roundup := uwrap 64 (size + Z.shiftl 1 (61 - nzeros) - 1) in
    let nzeros2 := clz 64 roundup in
    4 * (60 - nzeros2) + Z.land (Z.shiftr roundup (61 - nzeros2)) 3
  else if size <=? 448 then 22
  else if size <=? 512 then 23
  else if size <=? 576 then 24
  else if size <=? 704 then 25
  else if size <=? 960 then 26
  else if size <=? 1024 then 27
  else if size <=? 1216 then 28
  else if size <=? 1472 then 29
  else if size <=? 1984 then 30
  else if size <=? 2048 then 31
  else if size <=? 2752 then 32
  else if size <=? 3904 then 33
  else if size <=? 4096 then 34
  else if size <=? 5312 then 35
  else if size <=? 7232 then 36
  else if size <=? 8192 then 37
  else if size <=? 10048 then 38
  else if size <=? 14272 then 39
  else if size <=? 16384 then 40
  else if size <=? 32768 then 41
  else if size <=? 65536 then 42
  else if size <=? 131072 then 43
  else if size <=? 258048 then 44
  else if size <=? 520192 then 45
  else if size <=? 1044480 then 46
  else if size <=? 2097152 then 47
  else uwrap 32 (47 + lg_of_power_of_two (hyperceil size) - log_chunksize).

Definition bin_2_size (bin : Z) : option Z :=
  if bin <? bin_number_limit then object_size <$> static_bin bin else None.

(** A [uint32_t] offset times a 64-bit constant, shifted, kept in a [uint32_t]. *)
Definition divide_magic (offset multiply shift : Z) : Z :=
  uwrap 32 (Z.shiftr (umul 64 offset multiply) shift).

Definition divide_offset_by_objsize (offset bin : Z) : option Z :=
  info ← static_bin bin;
  Some (divide_magic offset (object_division_multiply_magic info) (object_division_shift_magic info)).

Definition divide_offset_by_foliosize (offset bin : Z) : option Z :=
  info ← static_bin bin;
  Some (divide_magic offset (folio_division_multiply_magic info) (folio_division_shift_magic info)).

(** ** Facts checked by evaluating the tables *)

Lemma forall_range (P : Z -> bool) lo n z :
  forallb P (seqZ lo n) = true -> lo <= z < lo + n -> P z = true.
Proof.
  intros Hf Hz. rw forallb_forall in Hf. apply Hf, list_elem_of_In, elem_of_seqZ. lia.
Qed.

Lemma static_bin_range bin info : static_bin bin = Some info -> 0 <= bin < bin_number_limit.
Proof.
  unfold static_bin. destruct (Z.leb_spec 0 bin) as [H0|]; [|done]. intros Hl.
  apply lookup_lt_Some in Hl. change (length static_bin_info) with 74%nat in Hl.
  unfold bin_number_limit. lia.
Qed.

Lemma static_bin_some bin : 0 <= bin < bin_number_limit -> is_Some (static_bin bin).
Proof.
  intros Hb. unfold static_bin. rewrite -> (proj2 (Z.leb_le _ _)) by lia.
  apply lookup_lt_is_Some_2. change (length static_bin_info) with 74%nat.
  unfold bin_number_limit in Hb. lia.
Qed.

(** What holds of the bins [lo], ..., [lo + n - 1] of the table. *)
Lemma static_bin_check (P : Z -> static_bin_s -> bool) lo n bin info :
  forallb (fun b => if static_bin b is Some i then P b i else true) (seqZ lo n) = true ->
  static_bin bin = Some info -> lo <= bin < lo + n -> P bin info = true.
Proof. intros Hc Hb Hr. apply (forall_range _ lo n bin) in Hc; [|done]. by rw Hb in Hc. Qed.

Ltac by_table lo n check :=
  lazymatch goal with
  | Hb : static_bin ?bin = Some ?info |- _ =>
      let H := fresh "Hcheck" in
      pose proof (static_bin_check check lo n bin info ltac:(vm_compute; reflexivity) Hb
        ltac:(unfold bin_number_limit, first_huge_bin_number, first_large_bin_number in *; lia)) as H;
      cbv beta in H; rewrite -> ?andb_true_iff, ?Z.leb_le, ?Z.ltb_lt, ?Z.eqb_eq, ?implb_true_iff in H
  end.

Lemma bin_2_size_static bin info : static_bin bin = Some info -> bin_2_size bin = Some (object_size info).
Proof.
  intros Hb. pose proof (static_bin_range _ _ Hb). unfold bin_2_size. rw Hb.
  by rewrite -> (proj2 (Z.ltb_lt _ _)) by lia.
Qed.

Lemma bin_2_size_some bin : 0 <= bin < bin_number_limit -> is_Some (bin_2_size bin).
Proof.
  intros Hb. destruct (static_bin_some bin Hb) as [info Hi]. exists (object_size info).
  by apply bin_2_size_static.
Qed.

Lemma bin_2_size_range bin s : bin_2_size bin = Some s -> 0 <= bin < bin_number_limit.
Proof.
  unfold bin_2_size. destruct (bin <? bin_number_limit); [|done]. intros Hs.
  apply fmap_Some in Hs as (info & Hi & _). by apply static_bin_range in Hi.
Qed.

(** The sizes of the table are increasing. *)
Lemma bin_static b siz : bin_2_size b = Some siz -> exists info, static_bin b = Some info /\ object_size info = siz.
Proof.
  intros Hs. destruct (static_bin_some b (bin_2_size_range b siz Hs)) as [info Hi]. exists info. split; [done|].
  rw (bin_2_size_static b info Hi) in Hs. by simplify_eq.
Qed.

Lemma bin_sizes_mono b1 b2 s1 s2 : b1 < b2 -> bin_2_size b1 = Some s1 -> bin_2_size b2 = Some s2 -> s1 < s2.
Proof.
  intros Hlt H1 H2. pose proof (bin_2_size_range _ _ H1) as R1. pose proof (bin_2_size_range _ _ H2) as R2.
  set (increasing b1 b2 := if bin_2_size b1 is Some s1 then
    if bin_2_size b2 is Some s2 then implb (b1 <? b2) (s1 <? s2) else true else true).
  assert (forallb (fun b1 => forallb (increasing b1) (seqZ 0 74)) (seqZ 0 74) = true) as Hc by by vm_compute.
  apply (forall_range _ 0 74 b1) in Hc; [|done]. apply (forall_range _ 0 74 b2) in Hc; [|done].
  unfold increasing in Hc. rw H1 H2 in Hc. rewrite -> (proj2 (Z.ltb_lt _ _)) in Hc by done.
  by apply Z.ltb_lt.
Qed.

(** ** Powers of two *)

Lemma hyperceil_spec a : 0 <= a <= 2 ^ 63 -> exists k, 0 <= k <= 63 /\ hyperceil a = 2 ^ k /\ a <= 2 ^ k /\
  (k = 0 \/ 2 ^ (k - 1) < a).
Proof.
  intros Ha. unfold hyperceil. destruct (Z.leb_spec a 1) as [Hle|Hgt].
  - exists 0. split_and!; [lia|lia|done|lia|by left].
  - unfold clz. pose proof (Z.log2_spec (a - 1)) as Hl. pose proof (Z.log2_nonneg (a - 1)).
    assert (Z.log2 (a - 1) < 63) by (apply Z.log2_lt_pow2; lia).
    exists (Z.succ (Z.log2 (a - 1))). replace (64 - (64 - 1 - Z.log2 (a - 1))) with (Z.succ (Z.log2 (a - 1))) by lia.
    rw Z.shiftl_1_l uwrap_small.
    { split; [apply Z.pow_nonneg; lia|]. apply Z.pow_lt_mono_r; lia. }
    replace (Z.succ (Z.log2 (a - 1)) - 1) with (Z.log2 (a - 1)) by lia. split_and!; lia.
Qed.

(** [hyperceil] is the least power of two that is not smaller. *)
Lemma hyperceil_least a k : 0 <= a <= 2 ^ 63 -> 0 <= k -> a <= 2 ^ k -> hyperceil a <= 2 ^ k.
Proof.
  intros Ha Hk Hle. destruct (hyperceil_spec a Ha) as (j & Hj & -> & _ & Hlt).
  destruct Hlt as [->|Hlt]; [pose proof (Z.pow_pos_nonneg 2 k); lia|].
  apply Z.pow_le_mono_r; [done|].
  assert (2 ^ (j - 1) < 2 ^ k) as Hp by lia. apply Z.pow_lt_mono_r_iff in Hp; lia.
Qed.

(** Both implementations of the offsets agree. *)
Lemma dynamic_small_bin_offset_switch bin : 0 <= bin < first_large_bin_number -> dynamic_small_bin_offset bin = dynamic_small_bin_switch bin.
Proof.
  intros Hb. pose proof (forall_range (fun b => bool_decide (dynamic_small_bin_offset b = dynamic_small_bin_switch b)) 0 40 bin) as H.
  eapply bool_decide_eq_true_1, H; [by vm_compute|]. unfold first_large_bin_number in Hb. lia.
Qed.

(** ** The bin of a size *)

(** [bin] is the first one whose objects have room for [size] bytes. *)
Definition first_fit (size bin : Z) : Prop :=
  (exists s, bin_2_size bin = Some s /\ size <= s) /\
  (bin = 0 \/ exists s, bin_2_size (bin - 1) = Some s /\ s < size).

Lemma first_fit_least size bin b s :
  first_fit size bin -> bin_2_size b = Some s -> size <= s -> bin <= b.
Proof.
  intros [_ [->|(s' & Hs' & Hlt)]] Hs Hle; [by apply bin_2_size_range in Hs as [? _]|].
  apply Z.nlt_ge. intros Hb. destruct (decide (b = bin - 1)) as [->|Hne].
  - rw Hs in Hs'. simplify_eq. lia.
  - pose proof (bin_sizes_mono b (bin - 1) s s' ltac:(lia) Hs Hs'). lia.
Qed.

Lemma first_fit_unique size b1 b2 : first_fit size b1 -> first_fit size b2 -> b1 = b2.
Proof.
  intros H1 H2. pose proof H1 as [(s1 & Hs1 & Hl1) _]. pose proof H2 as [(s2 & Hs2 & Hl2) _].
  pose proof (first_fit_least _ _ _ _ H1 Hs2 Hl2). pose proof (first_fit_least _ _ _ _ H2 Hs1 Hl1). lia.
Qed.

Definition check_small_fit (size : Z) : bool :=
  let bin := size_2_bin size in
  (if bin_2_size bin is Some s then size <=? s else false) &&
  ((bin =? 0) || (if bin_2_size (bin - 1) is Some s then s <? size else false)).

Lemma check_small_fit_ok size : check_small_fit size = true -> first_fit size (size_2_bin size).
Proof.
  unfold check_small_fit, first_fit. intros [H1 H2]%andb_true_iff. split.
  - destruct (bin_2_size _) as [s|]; [|done]. exists s. split; [done|]. by apply Z.leb_le.
  - apply orb_true_iff in H2 as [H2|H2]; [left; by apply Z.eqb_eq|right].
    destruct (bin_2_size (_ - 1)) as [s|]; [|done]. exists s. split; [done|]. by apply Z.ltb_lt.
Qed.

Lemma huge_bin_size k : 21 <= k <= 47 -> bin_2_size (26 + k) = Some (2 ^ k).
Proof.
  intros Hk. set (P k := bool_decide (bin_2_size (26 + k) = Some (2 ^ k))).
  assert (forallb P (seqZ 21 27) = true) as Hc by by vm_compute.
  apply (forall_range _ 21 27 k) in Hc; [|lia]. by apply bool_decide_eq_true in Hc.
Qed.

Lemma size_2_bin_huge size k : 2 ^ 21 < size -> hyperceil size = 2 ^ k -> 21 <= k <= 47 -> size_2_bin size = 26 + k.
Proof.
  intros Hs Hh Hk. unfold size_2_bin. repeat (rewrite -> (proj2 (Z.leb_gt _ _)) by lia).
  unfold lg_of_power_of_two. rw Hh ctz_pow2; [lia|]. unfold log_chunksize.
  rw uwrap_small; [unfold is_uint; lia|]. lia.
Qed.

Lemma size_2_bin_fits size : 0 <= size <= 2 ^ 47 -> first_fit size (size_2_bin size).
Proof.
  intros Hs. destruct (Z.le_gt_cases size 320) as [Hle|Hgt].
  { apply check_small_fit_ok. apply (forall_range _ 0 321); [by vm_compute|lia]. }
  destruct (Z.le_gt_cases size (2 ^ 21)) as [Hle|Hgt2].
  { unfold size_2_bin. rewrite -> (proj2 (Z.leb_gt size 8)) by lia. rewrite -> (proj2 (Z.leb_gt size 320)) by lia.
    repeat match goal with |- context [size <=? ?n] => destruct (Z.leb_spec size n) end; try lia;
      (split; [eexists; split; [vm_compute; reflexivity|lia]|right; eexists; split; [vm_compute; reflexivity|lia]]). }
  destruct (hyperceil_spec size) as (k & Hk & Hh & Hle & Hlt); [lia|].
  assert (21 < k) by (apply (Z.pow_lt_mono_r_iff 2); lia).
  destruct Hlt as [->|Hlt]; [lia|].
  assert (k - 1 < 47) by (apply (Z.pow_lt_mono_r_iff 2); lia).
  rw (size_2_bin_huge size k) //; [lia|]. split.
  - exists (2 ^ k). split; [by apply huge_bin_size; lia|done].
  - right. exists (2 ^ (k - 1)). split; [|done]. replace (26 + k - 1) with (26 + (k - 1)) by lia.
    apply huge_bin_size. lia.
Qed.

(** Every bin is the bin of the size of its objects. *)
Lemma size_2_bin_of_bin b s : bin_2_size b = Some s -> s <= 2 ^ 47 -> size_2_bin s = b.
Proof.
  intros Hb Hs. pose proof (bin_2_size_range _ _ Hb) as [H0 Hlim].
  assert (0 <= s) as Hs0.
  { destruct (bin_2_size_some 0) as [s0 Hb0]; [done|]. assert (0 <= s0) by (vm_compute in Hb0; simplify_eq; lia).
    destruct (decide (b = 0)) as [->|Hne]; [rw Hb in Hb0; by simplify_eq|].
    pose proof (bin_sizes_mono 0 b s0 s ltac:(lia) Hb0 Hb). lia. }
  apply (first_fit_unique s); [by apply size_2_bin_fits|]. split; [by exists s|].
  destruct (decide (b = 0)) as [|Hne]; [by left|right].
  destruct (bin_2_size_some (b - 1)) as [s' Hs']; [lia|]. exists s'. split; [done|].
  apply (bin_sizes_mono (b - 1) b); [lia|done..].
Qed.

(** ** Division by multiplication *)

Lemma magic_exact m s d x bound :
  0 < d -> 0 <= s -> 0 <= m * d - 2 ^ s -> (m * d - 2 ^ s) * bound <= 2 ^ s -> 0 <= x < bound ->
  x * m / 2 ^ s = x / d.
Proof.
  intros Hd Hs He Hb Hx. set (e := m * d - 2 ^ s) in *. assert (0 < 2 ^ s) by (apply Z.pow_pos_nonneg; lia).
  assert (e * x < 2 ^ s).
  { destruct (decide (e = 0)) as [->|Hne]; [lia|]. assert (e * x < e * bound) by (apply Z.mul_lt_mono_pos_l; lia). lia. }
  pose proof (Z.div_mod x d) as Hdm. pose proof (Z.mod_pos_bound x d Hd) as Hr.
  set (q := x / d) in *. set (r := x mod d) in *. symmetry. apply (Z.div_unique_pos _ _ _ (x * m - 2 ^ s * q)); [|lia].
  assert (d * (x * m) = x * 2 ^ s + e * x) as E by (unfold e; ring).
  assert (x = d * q + r) as Ex by lia. split.
  - apply (Z.mul_le_mono_pos_l _ _ d Hd). nia.
  - apply (Z.mul_lt_mono_pos_l d _ _ Hd). nia.
Qed.

Lemma divide_magic_exact offset m s d :
  0 < d -> 0 <= s -> 0 < m -> 0 <= m * d - 2 ^ s -> (m * d - 2 ^ s) * 2 ^ 31 <= 2 ^ s -> m * 2 ^ 31 <= 2 ^ 64 ->
  0 <= offset < 2 ^ 31 -> divide_magic offset m s = offset / d.
Proof.
  intros Hd Hs Hm He Hb Hw Ho. unfold divide_magic, umul.
  rw (uwrap_small 64); [unfold is_uint; nia|]. rw Z.shiftr_div_pow2 // (magic_exact m s d _ (2 ^ 31)) //.
  rw uwrap_small //. split; [apply Z.div_pos; lia|]. apply (Z.le_lt_trans _ offset); [|lia].
  apply Z.div_le_upper_bound; [lia|]. nia.
Qed.

Lemma divide_by_objsize offset bin info :
  static_bin bin = Some info -> bin <= first_huge_bin_number -> 0 <= offset < 2 ^ 31 ->
  divide_offset_by_objsize offset bin = Some (offset / object_size info).
Proof.
  intros Hb Hbin Ho. pose proof (static_bin_range _ _ Hb). unfold divide_offset_by_objsize. rw Hb. simpl. f_equal.
  by_table 0 48 (fun (_ : Z) (i : static_bin_s) => let m := object_division_multiply_magic i in
    let s := object_division_shift_magic i in let d := object_size i in
    (0 <? d) && (0 <=? s) && (0 <? m) && (0 <=? m * d - 2 ^ s) && ((m * d - 2 ^ s) * 2 ^ 31 <=? 2 ^ s) &&
    (m * 2 ^ 31 <=? 2 ^ 64)).
  destruct Hcheck as [[[[[? ?] ?] ?] ?] ?]. by apply divide_magic_exact.
Qed.

Lemma divide_by_foliosize offset bin info :
  static_bin bin = Some info -> bin <= first_huge_bin_number -> 0 <= offset < 2 ^ 31 ->
  divide_offset_by_foliosize offset bin = Some (offset / folio_size info).
Proof.
  intros Hb Hbin Ho. pose proof (static_bin_range _ _ Hb). unfold divide_offset_by_foliosize. rw Hb. simpl. f_equal.
  by_table 0 48 (fun (_ : Z) (i : static_bin_s) => let m := folio_division_multiply_magic i in
    let s := folio_division_shift_magic i in let d := folio_size i in
    (0 <? d) && (0 <=? s) && (0 <? m) && (0 <=? m * d - 2 ^ s) && ((m * d - 2 ^ s) * 2 ^ 31 <=? 2 ^ s) &&
    (m * 2 ^ 31 <=? 2 ^ 64)).
  destruct Hcheck as [[[[[? ?] ?] ?] ?] ?]. by apply divide_magic_exact.
Qed.

(** ** The layout of a chunk *)

Definition sizeof_per_folio : Z := 320.
Definition sizeof_large_object_list_cell : Z := 8.

(** The address of object [k] of folio [f] in the chunk at [c]. *)
Definition object_address (info : static_bin_s) (c f k : Z) : Z :=
  c + overhead_pages_per_chunk info * pagesize + f * folio_size info + k * object_size info.

Record object_ok (info : static_bin_s) (f k : Z) : Prop := {
  ok_folio : 0 <= f < folios_per_chunk info;
  ok_object : 0 <= k < objects_per_folio info;
}.

(** A chunk of the 48-bit address space; the first one is not used. *)
Definition is_chunk (c : Z) : Prop := exists cn, 0 < cn < 2 ^ log_max_chunknumber /\ c = cn * chunksize.

Record layout_ok (info : static_bin_s) : Prop := {
  lo_object : 8 <= object_size info;
  lo_overhead : 1 <= overhead_pages_per_chunk info;
  lo_objects : 0 < objects_per_folio info <= 2048;
  lo_folios : 0 < folios_per_chunk info <= 512;
  lo_folio : objects_per_folio info * object_size info <= folio_size info;
  lo_chunk : overhead_pages_per_chunk info * pagesize + folios_per_chunk info * folio_size info <= chunksize;
}.

Lemma layout bin info : static_bin bin = Some info -> bin < first_huge_bin_number -> layout_ok info.
Proof.
  intros Hb Hlt. pose proof (static_bin_range _ _ Hb).
  by_table 0 47 (fun (_ : Z) (i : static_bin_s) =>
    (8 <=? object_size i) && (1 <=? overhead_pages_per_chunk i) && (0 <? objects_per_folio i) &&
    (objects_per_folio i <=? 2048) && (0 <? folios_per_chunk i) && (folios_per_chunk i <=? 512) &&
    (objects_per_folio i * object_size i <=? folio_size i) &&
    (overhead_pages_per_chunk i * pagesize + folios_per_chunk i * folio_size i <=? chunksize)).
  destruct Hcheck as [[[[[[[? ?] ?] ?] ?] ?] ?] ?]. by split.
Qed.

(** The headers of the folios fit in the pages before the first folio. *)
Lemma small_header bin info : static_bin bin = Some info -> bin < first_large_bin_number ->
  folios_per_chunk info * sizeof_per_folio <= overhead_pages_per_chunk info * pagesize.
Proof.
  intros Hb Hlt. pose proof (static_bin_range _ _ Hb).
  by_table 0 40 (fun (_ : Z) (i : static_bin_s) =>
    folios_per_chunk i * sizeof_per_folio <=? overhead_pages_per_chunk i * pagesize).
  done.
Qed.

(** A large chunk has one page of list cells, and one object per folio. *)
Lemma large_layout bin info : static_bin bin = Some info -> first_large_bin_number <= bin < first_huge_bin_number ->
  overhead_pages_per_chunk info * pagesize = offset_of_first_object_in_large_chunk /\
  folio_size info = object_size info /\ objects_per_folio info = 1 /\
  folios_per_chunk info = (chunksize - offset_of_first_object_in_large_chunk) / object_size info /\
  folios_per_chunk info * sizeof_large_object_list_cell <= offset_of_first_object_in_large_chunk.
Proof.
  intros Hb Hlt. by_table 40 7 (fun (_ : Z) (i : static_bin_s) =>
    (overhead_pages_per_chunk i * pagesize =? offset_of_first_object_in_large_chunk) &&
    (folio_size i =? object_size i) && (objects_per_folio i =? 1) &&
    (folios_per_chunk i =? (chunksize - offset_of_first_object_in_large_chunk) / object_size i) &&
    (folios_per_chunk i * sizeof_large_object_list_cell <=? offset_of_first_object_in_large_chunk)).
  by destruct Hcheck as [[[[? ?] ?] ?] ?].
Qed.

(** ** Addresses in a chunk *)

Lemma chunk_offset c o : is_chunk c -> 0 <= o < chunksize -> offset_in_chunk (c + o) = o.
Proof.
  intros (cn & _ & ->) Ho. unfold offset_in_chunk. rw Z.add_comm Z.mod_add //. by apply Z.mod_small.
Qed.

Lemma chunk_number c o : is_chunk c -> 0 <= o < chunksize -> address_2_chunknumber (c + o) * chunksize = c.
Proof.
  intros (cn & Hcn & ->) Ho. unfold address_2_chunknumber. rw Z.div_add_l // (Z.div_small o) // Z.add_0_r.
  rw Z.mod_small //. lia.
Qed.

Lemma chunk_number_self c : is_chunk c -> address_2_chunknumber c * chunksize = c.
Proof. intros Hc. rw -{1}(Z.add_0_r c). by apply chunk_number. Qed.

Lemma chunk_number_same c o : is_chunk c -> 0 <= o < chunksize ->
  address_2_chunknumber (c + o) = address_2_chunknumber c.
Proof.
  intros Hc Ho. pose proof (chunk_number c o Hc Ho). pose proof (chunk_number_self c Hc).
  apply (Z.mul_reg_r _ _ chunksize); [done|lia].
Qed.

Lemma chunk_address c o : is_chunk c -> 0 <= o < chunksize -> address_2_chunkaddress (c + o) = c.
Proof.
  intros (cn & Hcn & ->) Ho. unfold address_2_chunkaddress, chunksize, log_chunksize, log_max_chunknumber in *.
  rw mask_down; [lia|unfold is_uint; lia|]. by rw Z.div_add_l // Z.div_small // Z.add_0_r.
Qed.

Lemma object_offset info f k x : layout_ok info -> object_ok info f k -> 0 <= x < object_size info ->
  overhead_pages_per_chunk info * pagesize <= object_address info 0 f k + x < chunksize.
Proof.
  intros [? ? ? ? Hfs Hch] [Hf Hk] Hx. unfold object_address, pagesize in *.
  assert (k * object_size info + x < folio_size info) by nia.
  assert (f * folio_size info + folio_size info <= folios_per_chunk info * folio_size info) by nia. nia.
Qed.

Lemma locate_object info f k x : layout_ok info -> object_ok info f k -> 0 <= x < object_size info ->
  let useful := f * folio_size info + k * object_size info + x in
  useful / folio_size info = f /\ (useful - f * folio_size info) / object_size info = k.
Proof.
  intros [? ? ? ? Hfs Hch] [Hf Hk] Hx useful. unfold useful.
  assert (0 <= k * object_size info + x < folio_size info) by nia. split.
  - rw -Z.add_assoc Z.div_add_l; [lia|]. rw Z.div_small //. lia.
  - replace (f * folio_size info + k * object_size info + x - f * folio_size info)
      with (k * object_size info + x) by lia.
    rw Z.div_add_l; [lia|]. rw Z.div_small //. lia.
Qed.

Lemma object_address_shift info c f k : object_address info c f k = c + object_address info 0 f k.
Proof. unfold object_address. lia. Qed.

(** The objects of a chunk do not overlap. *)
Lemma objects_disjoint info c c' f k x f' k' x' :
  layout_ok info -> is_chunk c -> is_chunk c' -> object_ok info f k -> object_ok info f' k' ->
  0 <= x < object_size info -> 0 <= x' < object_size info ->
  object_address info c f k + x = object_address info c' f' k' + x' -> c = c' /\ f = f' /\ k = k'.
Proof.
  intros HL Hc Hc' Ho Ho' Hx Hx' E. rw !(object_address_shift _ c) !(object_address_shift _ c') in E.
  pose proof (object_offset info f k x HL Ho Hx) as R. pose proof (object_offset info f' k' x' HL Ho' Hx') as R'.
  pose proof (lo_overhead _ HL). unfold pagesize in *.
  assert (c = c') as <-.
  { rw -(chunk_number c (object_address info 0 f k + x)) //; [lia|].
    rw -(chunk_number c' (object_address info 0 f' k' + x')) //; [lia|]. f_equal. f_equal. lia. }
  split; [done|]. destruct (locate_object info f k x HL Ho Hx) as [Hf Hk].
  destruct (locate_object info f' k' x' HL Ho' Hx') as [Hf' Hk'].
  assert (f * folio_size info + k * object_size info + x = f' * folio_size info + k' * object_size info + x') as E'
    by (unfold object_address in E; lia).
  assert (f = f') as <- by by rw -Hf -Hf' E'. split; [done|]. by rw -Hk -Hk' E'.
Qed.

Lemma is_chunk_pos c : is_chunk c -> 0 < c.
Proof. intros (cn & Hcn & ->). unfold chunksize, log_chunksize. lia. Qed.

Lemma chunk_number_inj c c' : is_chunk c -> is_chunk c' -> address_2_chunknumber c = address_2_chunknumber c' -> c = c'.
Proof. intros Hc Hc' E. by rw -(chunk_number_self c) // -(chunk_number_self c') // E. Qed.

Lemma object_address_inj info c c' f f' k k' : layout_ok info -> is_chunk c -> is_chunk c' -> object_ok info f k -> object_ok info f' k' ->
  object_address info c f k = object_address info c' f' k' -> c = c' /\ f = f' /\ k = k'.
Proof.
  intros HL Hc Hc' Ho Ho' E. pose proof (lo_object _ HL). apply (objects_disjoint info c c' f k 0 f' k' 0); (done || lia).
Qed.

(** ** The chunk table *)

Lemma land_127 z : Z.land z 127 = z mod 128.
Proof. change 127 with (Z.ones 7). by rewrite -> Z.land_ones by lia. Qed.

Lemma uwrap_mod_128 z : uwrap 32 z mod 128 = z mod 128.
Proof.
  unfold uwrap. change (2 ^ 32) with (128 * 2 ^ 25). rewrite -> Z.rem_mul_r by lia.
  rw (Z.mul_comm 128) Z.mod_add // Z.mod_mod //.
Qed.

Lemma bin_and_size_encode bin size : 0 <= bin < 127 ->
  exists r, bin_and_size_to_bin_and_size bin size = Some r /\ r <> 0 /\ bin_from_bin_and_size r = Some bin.
Proof.
  intros Hb. unfold bin_and_size_to_bin_and_size. rewrite -> (proj2 (Z.ltb_lt bin 127)) by lia.
  assert (forall z n, z = 1 + bin + 128 * n ->
    uwrap 32 z <> 0 /\ bin_from_bin_and_size (uwrap 32 z) = Some bin) as Hd.
  { intros z n ->. assert (uwrap 32 (1 + bin + 128 * n) mod 128 = 1 + bin) as E.
    { rw uwrap_mod_128 (Z.mul_comm 128) Z.mod_add // Z.mod_small //. lia. }
    unfold bin_from_bin_and_size. rw land_127 E. rewrite -> (proj2 (Z.eqb_neq (1 + bin) 0)) by lia.
    split; [|f_equal; lia]. intros E0. rw E0 in E. change (0 mod 128) with 0 in E. lia. }
  cbv zeta. case_ltb; (eexists; split; [done|]).
  - apply (Hd _ (1 + 2 * uwrap 32 (ceil size pagesize))). rewrite -> Z.shiftl_mul_pow2 by lia. lia.
  - apply (Hd _ (2 * ceil size chunksize)). rewrite -> Z.shiftl_mul_pow2 by lia. lia.
Qed.

(** ** The size classes as a whole *)

(** C20. [size_2_bin] finds the smallest bin: for every size that a bin can hold,
    its bit tricks and its table of limits give the first bin whose objects are
    large enough, and every bin is found by the size of its own objects. *)
Theorem size_2_bin_smallest size :
  0 <= size <= 2 ^ 47 ->
  (exists s, bin_2_size (size_2_bin size) = Some s /\ size <= s) /\
  (forall b s, bin_2_size b = Some s -> size <= s -> size_2_bin size <= b) /\
  (forall b, bin_2_size b = Some size -> size_2_bin size = b).
Proof.
  intros Hs. pose proof (size_2_bin_fits size Hs) as Hf. split_and!.
  - by destruct Hf.
  - intros b s. by apply first_fit_least.
  - intros b Hb. apply size_2_bin_of_bin; [done|lia].
Qed.

(** C21. The divisions by an object size or a folio size, done with a multiplication
    and a shift, are exact for every offset in a chunk (and beyond, below [2^31])
    and every bin up to the first huge one; the larger ones have no magic numbers. *)
Theorem magic_division bin info offset :
  static_bin bin = Some info -> bin <= first_huge_bin_number -> 0 <= offset < 2 ^ 31 ->
  divide_offset_by_objsize offset bin = Some (offset / object_size info) /\
  divide_offset_by_foliosize offset bin = Some (offset / folio_size info).
Proof. intros Hb Hh Ho. split; [by apply divide_by_objsize|by apply divide_by_foliosize]. Qed.

(** C37. The entry of a chunk in the table gives its bin back, whatever the size
    that is encoded with it, and is never the entry of an unused chunk. *)
Theorem bin_and_size_roundtrip bin size :
  0 <= bin < 127 ->
  exists r, bin_and_size_to_bin_and_size bin size = Some r /\ r <> 0 /\ bin_from_bin_and_size r = Some bin.
Proof. apply bin_and_size_encode. Qed.

(** The lists of the small bins tile the array they share: the offset of a bin
    is the sum of the lengths before it, its region has a list for each count of
    free objects and one for the folios given back to the system, and the last
    region ends the array. *)
Theorem small_bin_regions bin info off len :
  static_bin bin = Some info -> bin < first_large_bin_number ->
  dynamic_small_bin_offset bin = Some off -> dynamic_small_bin_info !! Z.to_nat bin = Some len ->
  len = objects_per_folio info + 2 /\
  off = foldr Z.add 0 (take (Z.to_nat bin) dynamic_small_bin_info) /\
  off + len <= dynamic_small_bin_info_b /\
  (forall off', dynamic_small_bin_offset (bin + 1) = Some off' -> off' = off + len).
Proof.
  intros Hb Hlt Ho Hl. pose proof (static_bin_range _ _ Hb).
  by_table 0 40 (fun (b : Z) (i : static_bin_s) => if dynamic_small_bin_offset b is Some off then
    if dynamic_small_bin_info !! Z.to_nat b is Some len then
      (len =? objects_per_folio i + 2) && (off =? foldr Z.add 0 (take (Z.to_nat b) dynamic_small_bin_info)) &&
      (off + len <=? dynamic_small_bin_info_b) &&
      (if dynamic_small_bin_offset (b + 1) is Some off' then off' =? off + len else true) else false else false).
  rw Ho Hl in Hcheck. rewrite -> !andb_true_iff, !Z.eqb_eq, Z.leb_le in Hcheck.
  destruct Hcheck as [[[? ?] ?] Hn]. split_and!; [done..|]. intros off' Ho'. rw Ho' in Hn. by apply Z.eqb_eq.
Qed.

(** ** Witnesses *)

Lemma size_2_bin_smallest_witness :
  (exists s, bin_2_size (size_2_bin 5000) = Some s /\ 5000 <= s) /\
  (forall b s, bin_2_size b = Some s -> 5000 <= s -> size_2_bin 5000 <= b) /\
  (forall b, bin_2_size b = Some 5000 -> size_2_bin 5000 = b).
Proof. apply (size_2_bin_smallest 5000). lia. Defined.

Lemma magic_division_witness :
  divide_offset_by_objsize 123456 1 = Some 12345 /\ divide_offset_by_foliosize 123456 1 = Some 6.
Proof. apply (magic_division 1 (Bin 10 (20 * Ki) 2048 100 8 36 47 6871947674 6871947674) 123456); done. Defined.

Lemma bin_and_size_roundtrip_witness :
  exists r, bin_and_size_to_bin_and_size 46 1044480 = Some r /\ r <> 0 /\ bin_from_bin_and_size r = Some 46.
Proof. apply (bin_and_size_roundtrip 46 1044480). lia. Defined.

Lemma small_bin_regions_witness :
  258 = 256 + 2 /\ 5640 = foldr Z.add 0 (take 4 dynamic_small_bin_info) /\ 5640 + 258 <= dynamic_small_bin_info_b /\
  (forall off', dynamic_small_bin_offset (4 + 1) = Some off' -> off' = 5640 + 258).
Proof. apply (small_bin_regions 4 (Bin 16 (4 * Ki) 256 472 40 4 12 1 1) 5640 258); done. Defined.
