(* ===== verification/Makechunk.v ===== *)
(** * src/memory/makechunk.cpp: chunks from the operating system.

    [mmap], [munmap] and [madvise] are the interface of a kernel: a class of
    operations on the state of the address space, with what their manual pages
    document about them. *)
From S2P Require Import Prelude Words StateMonad Sizeclass.
#[local] Open Scope Z_scope.

(** ** The kernel *)

Inductive advice : Set := MADV_DONTNEED | MADV_HUGEPAGE | MADV_NOHUGEPAGE.

Class Kernel : Type := {
  kstate : Type;
  (** [mmap (NULL, size, ...)]; [None] is [MAP_FAILED]. *)
  sys_mmap : Z -> kstate -> option Z * kstate;
  (** [munmap (addr, size)]; whether it answered 0. *)
  sys_munmap : Z -> Z -> kstate -> bool * kstate;
  (** [madvise (addr, size, advice)]; whether it answered 0. *)
  sys_madvise : Z -> Z -> advice -> kstate -> bool * kstate;
  (** Whether the byte at an address is mapped. *)
  mapped : kstate -> Z -> Prop;
}.

Definition user_space : Z := 2 ^ 47.

Class KernelOk (K : Kernel) : Prop := {
  mmap_some k size a k' : 0 < size -> sys_mmap size k = (Some a, k') ->
    a mod pagesize = 0 /\ 0 < a /\ a + size <= user_space /\
    (forall x, a <= x < a + size -> ~ mapped k x) /\
    (forall x, mapped k' x <-> mapped k x \/ a <= x < a + size);
  mmap_none k size k' : sys_mmap size k = (None, k') -> forall x, mapped k' x <-> mapped k x;
  munmap_ok k a size : 0 < size -> a mod pagesize = 0 -> size mod pagesize = 0 ->
    exists k', sys_munmap a size k = (true, k') /\
      forall x, mapped k' x <-> mapped k x /\ ~ a <= x < a + size;
  (** Advice never unmaps anything. *)
  madvise_mapped k a size adv : forall x, mapped (sys_madvise a size adv k).2 x <-> mapped k x;
  (** Pages that are all mapped can be given up. *)
  madvise_dontneed k a size : 0 < size -> a mod pagesize = 0 -> (forall x, a <= x < a + size -> mapped k x) ->
    (sys_madvise a size MADV_DONTNEED k).1 = true;
}.

Section code.
Context {K : Kernel}.

Record os : Type := Os { kern : kstate; total_mapped : Z; mismapped_so_unmapped : Z }.

Definition mmap_size (size : Z) : M os Z := fun o =>
  match sys_mmap size (kern o) with
  | (None, k) => Some (0, Os k (total_mapped o) (mismapped_so_unmapped o))
  | (Some r, k) => Some (r, Os k (uadd 64 (total_mapped o) size) (mismapped_so_unmapped o))
  end.

Definition unmap (p size : Z) : M os unit :=
  if 0 <? size then
    r ← (fun o => let '(r, k) := sys_munmap p size (kern o) in
                  Some (r, Os k (total_mapped o) (mismapped_so_unmapped o)));
    bassert r;;
    modify (fun o => Os (kern o) (total_mapped o) (uadd 64 (mismapped_so_unmapped o) size))
  else mret tt.

Definition madvise (p size : Z) (adv : advice) : M os bool := fun o =>
  let '(r, k) := sys_madvise p size adv (kern o) in
  Some (r, Os k (total_mapped o) (mismapped_so_unmapped o)).

Definition chunk_create_slow (n_chunks : Z) : M os Z :=
  let total_size := umul 64 (1 + n_chunks) chunksize in
  m ← mmap_size total_size;
  if m =? 0 then mret m
  else
    let m_offset := offset_in_chunk m in
    if m_offset =? 0 then
      unmap (m + n_chunks * chunksize) chunksize;;
      mret m
    else
      let leading_useless := chunksize - m_offset in
      unmap m leading_useless;;
      let final_m := m + leading_useless in
      unmap (final_m + n_chunks * chunksize) m_offset;;
      mret final_m.

Definition mmap_chunk_aligned_block (n_chunks : Z) : M os Z :=
  r ← mmap_size (umul 64 n_chunks chunksize);
  if r =? 0 then mret 0
  else if negb (offset_in_chunk r =? 0) then
    unmap r (umul 64 n_chunks chunksize);;
    chunk_create_slow n_chunks
  else mret r.
End code.
Arguments os : clear implicits.

(** ** What the functions do to the address space *)

Section specs.
Context {K : Kernel} {KO : KernelOk K}.
Implicit Type o : os K.

(** The bytes from [a] to [a + size] are mapped in addition, and were not. *)
Record maps (o o' : os K) (a size : Z) : Prop := {
  maps_fresh x : a <= x < a + size -> ~ mapped (kern o) x;
  maps_mapped x : mapped (kern o') x <-> mapped (kern o) x \/ a <= x < a + size;
  maps_space : 0 < a /\ a + size <= user_space;
}.

Definition same_space (o o' : os K) : Prop := forall x, mapped (kern o') x <-> mapped (kern o) x.

#[export] Instance same_space_equiv : Equivalence same_space.
Proof. split; unfold same_space; [done|intros ?? H x; by rw H|intros ??? H1 H2 x; by rw H2 H1]. Qed.

Lemma mmap_size_spec o size : 0 < size ->
  exists r o', mmap_size size o = Some (r, o') /\
    ((r = 0 /\ same_space o o') \/ (r mod pagesize = 0 /\ maps o o' r size)).
Proof.
  intros Hs. unfold mmap_size. destruct (sys_mmap size (kern o)) as [[a|] k] eqn:E.
  - destruct (mmap_some _ _ _ _ Hs E) as (Ha & Hp & Hu & Hf & Hm). eexists _, _. split; [done|].
    right. split; [done|]. by split.
  - eexists _, _. split; [done|]. left. split; [done|]. intros x. by apply (mmap_none _ _ _ E).
Qed.

Lemma unmap_spec o p size : 0 <= size -> p mod pagesize = 0 -> size mod pagesize = 0 ->
  exists o', unmap p size o = Some (tt, o') /\
    forall x, mapped (kern o') x <-> mapped (kern o) x /\ ~ p <= x < p + size.
Proof.
  intros Hs Hp Hm. unfold unmap. case_ltb.
  - destruct (munmap_ok (kern o) p size) as (k & Hk & Hx); [done..|].
    unfold mbind, M_bind. rw Hk. simpl. eexists. split; [done|]. simpl. done.
  - exists o. split; [done|]. intros x. split; [intros Hx; split; [done|lia]|by intros [? _]].
Qed.

Lemma madvise_same o p size adv : exists r o', madvise p size adv o = Some (r, o') /\ same_space o o' /\
  (adv = MADV_DONTNEED -> 0 < size -> p mod pagesize = 0 -> (forall x, p <= x < p + size -> mapped (kern o) x) -> r = true).
Proof.
  pose proof (madvise_mapped (kern o) p size adv) as Hm. unfold madvise.
  destruct (sys_madvise p size adv (kern o)) as [r k] eqn:E. eexists r, _. split_and!; [done|by intros x; apply Hm|].
  intros -> Hs Hp Hx. pose proof (madvise_dontneed (kern o) p size Hs Hp Hx) as Hr. by rw E in Hr.
Qed.

Lemma page_add a b : a mod pagesize = 0 -> b mod pagesize = 0 -> (a + b) mod pagesize = 0.
Proof. intros Ha Hb. rewrite -> Z.add_mod by done. by rw Ha Hb. Qed.

Lemma page_sub a b : a mod pagesize = 0 -> b mod pagesize = 0 -> (a - b) mod pagesize = 0.
Proof. intros Ha Hb. rewrite -> Zminus_mod by done. by rw Ha Hb. Qed.

Lemma page_chunks n : (n * chunksize) mod pagesize = 0.
Proof. change chunksize with (512 * pagesize). rw Z.mul_assoc. by apply Z.mod_mul. Qed.

Lemma page_offset a : a mod pagesize = 0 -> offset_in_chunk a mod pagesize = 0.
Proof.
  intros Ha. unfold offset_in_chunk. rewrite -> (Z.mod_eq a chunksize) by done. rw (Z.mul_comm chunksize).
  apply page_sub; [done|apply page_chunks].
Qed.

(** Unmapping the ends of a fresh range leaves the middle. *)
Lemma maps_trim o o1 o2 o3 m size a size' :
  maps o o1 m size -> m <= a -> a + size' <= m + size -> 0 <= size' ->
  (forall x, mapped (kern o2) x <-> mapped (kern o1) x /\ ~ m <= x < a) ->
  (forall x, mapped (kern o3) x <-> mapped (kern o2) x /\ ~ a + size' <= x < m + size) ->
  maps o o3 a size'.
Proof.
  intros [Hf Hm [Hp Hs]] Ha Hs' H0 H2 H3. split; [|intros x|lia].
  - intros x Hx. apply Hf. lia.
  - rw H3 H2 Hm. pose proof (Hf x) as Hfx. split.
    + intros [[[?|?] ?] ?]; [by left|right; lia].
    + intros [Hx|Hx].
      * split; [split; [by left|]|]; intros ?; apply Hfx; [lia|done|lia|done].
      * split; [split; [right; lia|lia]|lia].
Qed.

Lemma chunk_create_slow_spec o n : 1 <= n < 2 ^ log_max_chunknumber ->
  exists r o', chunk_create_slow n o = Some (r, o') /\
    ((r = 0 /\ same_space o o') \/ (r mod chunksize = 0 /\ maps o o' r (n * chunksize))).
Proof.
  intros Hn. unfold chunk_create_slow, log_max_chunknumber in *. rw /umul uwrap_small.
  { unfold is_uint, chunksize, log_chunksize. lia. }
  destruct (mmap_size_spec o ((1 + n) * chunksize)) as (m & o1 & E1 & H1); [unfold chunksize, log_chunksize; lia|].
  rw (bind_Some _ _ _ _ _ E1). destruct H1 as [[-> Hsame]|[Hpage Hmaps]]; [by eexists _, _; split; [done|left]|].
  assert (0 < m) as Hm by apply Hmaps. rewrite -> (proj2 (Z.eqb_neq m 0)) by lia.
  pose proof (Z.mod_pos_bound m chunksize ltac:(done)) as Hoff. fold (offset_in_chunk m) in Hoff.
  set (off := offset_in_chunk m) in *. cbv zeta. case_eqb.
  - destruct (unmap_spec o1 (m + n * chunksize) chunksize) as (o2 & E2 & H2);
      [done|apply page_add; [done|apply page_chunks]|done|].
    rw (bind_Some _ _ _ _ _ E2). eexists _, _. split; [done|]. right. split; [done|].
    apply (maps_trim o o1 o1 o2 m ((1 + n) * chunksize)); [done|lia|lia|lia| |].
    + intros x. split; [intros Hx; split; [done|lia]|by intros [? _]].
    + intros x. rw H2. by replace (m + (1 + n) * chunksize) with (m + n * chunksize + chunksize) by lia.
  - destruct (unmap_spec o1 m (chunksize - off)) as (o2 & E2 & H2);
      [lia|done|apply page_sub; [done|by apply page_offset]|].
    rw (bind_Some _ _ _ _ _ E2).
    destruct (unmap_spec o2 (m + (chunksize - off) + n * chunksize) off) as (o3 & E3 & H3).
    { lia. }
    { apply page_add; [|apply page_chunks]. apply page_add; [done|]. apply page_sub; [done|by apply page_offset]. }
    { by apply page_offset. }
    rw (bind_Some _ _ _ _ _ E3). eexists _, _. split; [done|]. right. split.
    + unfold off, offset_in_chunk. rewrite -> (Z.div_mod m chunksize) at 1 by done.
      replace (chunksize * (m / chunksize) + m mod chunksize + (chunksize - m mod chunksize))
        with ((m / chunksize + 1) * chunksize) by ring.
      by apply Z.mod_mul.
    + apply (maps_trim o o1 o2 o3 m ((1 + n) * chunksize)); [done|lia|lia|apply Z.mul_nonneg_nonneg; [lia|done]| |].
      * done.
      * intros x. rw H3. replace (m + (1 + n) * chunksize) with (m + (chunksize - off) + n * chunksize + off) by lia.
        done.
Qed.

Lemma mmap_chunk_spec o n : 1 <= n < 2 ^ log_max_chunknumber ->
  exists r o', mmap_chunk_aligned_block n o = Some (r, o') /\
    ((r = 0 /\ same_space o o') \/ (r mod chunksize = 0 /\ maps o o' r (n * chunksize))).
Proof.
  intros Hn. unfold mmap_chunk_aligned_block. assert (umul 64 n chunksize = n * chunksize) as ->.
  { unfold umul. rw uwrap_small //. unfold is_uint, chunksize, log_chunksize, log_max_chunknumber in *. lia. }
  destruct (mmap_size_spec o (n * chunksize)) as (m & o1 & E1 & H1); [unfold chunksize, log_chunksize; lia|].
  rw (bind_Some _ _ _ _ _ E1). destruct H1 as [[-> Hsame]|[Hpage Hmaps]]; [by eexists _, _; split; [done|left]|].
  assert (0 < m) as Hm by apply Hmaps. rewrite -> (proj2 (Z.eqb_neq m 0)) by lia.
  unfold offset_in_chunk. case_eqb; simpl.
  - eexists _, _. split; [done|]. by right.
  - destruct (unmap_spec o1 m (n * chunksize)) as (o2 & E2 & H2);
      [unfold chunksize, log_chunksize; lia|done|apply page_chunks|].
    assert (same_space o o2) as Hs.
    { intros x. destruct Hmaps as [Hf Hmm _]. rw H2 Hmm. pose proof (Hf x). tauto. }
    rw (bind_Some _ _ _ _ _ E2). destruct (chunk_create_slow_spec o2 n Hn) as (r & o3 & E3 & H3).
    exists r, o3. split; [done|]. destruct H3 as [[-> Hsame]|[Hr [Hf3 Hm3 Hsp]]]; [left|right].
    + split; [done|]. by etrans.
    + split; [done|]. split; [|intros x; by rw Hm3 (Hs x)|done]. intros x Hx. rw -(Hs x). by apply Hf3.
Qed.

(** Every chunk of a block is one of the table. *)
Lemma block_chunk o o' r n i : maps o o' r (n * chunksize) -> r mod chunksize = 0 -> 0 <= i < n ->
  is_chunk (r + i * chunksize).
Proof.
  intros [_ _ [Hp Hs]] Hr Hi. exists (r / chunksize + i).
  assert (r = r / chunksize * chunksize) as E by (rewrite -> (Z.div_mod r chunksize) at 1 by done; lia).
  unfold user_space, chunksize, log_chunksize, log_max_chunknumber in *.
  assert (0 < r / 2 ^ 21) by lia. lia.
Qed.
End specs.

(** ** An address space *)

(** A kernel that maps above everything that is mapped, [gap] pages further up.
    Its state is the list of the ranges that are mapped. *)
Definition ranges_top (k : list (Z * Z)) : Z := foldr (fun r m => Z.max (r.1 + r.2) m) pagesize k.

Definition place (gap : Z) (k : list (Z * Z)) : Z := ((ranges_top k + pagesize - 1) / pagesize + gap) * pagesize.

Definition range (lo hi : Z) : list (Z * Z) := if lo <? hi then [(lo, hi - lo)] else [].

Definition cut (a size : Z) (r : Z * Z) : list (Z * Z) :=
  range r.1 (Z.min (r.1 + r.2) a) ++ range (Z.max r.1 (a + size)) (r.1 + r.2).

Definition simple_kernel (gap : nat) : Kernel := {|
  kstate := list (Z * Z);
  sys_mmap size k :=
    let a := place (Z.of_nat gap) k in
    if a + size <=? user_space then (Some a, (a, size) :: k) else (None, k);
  sys_munmap a size k := (true, k ≫= cut a size);
  sys_madvise _ _ _ k := (true, k);
  mapped k x := exists r, r ∈ k /\ r.1 <= x < r.1 + r.2;
|}.

Lemma elem_of_range lo hi r : r ∈ range lo hi <-> lo < hi /\ r = (lo, hi - lo).
Proof.
  unfold range. case_ltb; [rw list_elem_of_singleton; tauto|]. split; [by intros ?%elem_of_nil|lia].
Qed.

Lemma ranges_top_page k : pagesize <= ranges_top k.
Proof. induction k as [|r k IH]; simpl; lia. Qed.

Lemma ranges_top_above k r : r ∈ k -> r.1 + r.2 <= ranges_top k.
Proof. induction 1 as [r k|r r' k Hr IH]; simpl; lia. Qed.

Lemma place_above gap k : 0 <= gap -> ranges_top k <= place gap k.
Proof.
  intros Hg. unfold place, pagesize. pose proof (Z.div_mod (ranges_top k + 4096 - 1) 4096).
  pose proof (Z.mod_pos_bound (ranges_top k + 4096 - 1) 4096). lia.
Qed.

Lemma simple_kernel_ok gap : KernelOk (simple_kernel gap).
Proof.
  split; simpl.
  - intros k size a k' Hs. destruct (Z.leb_spec (place (Z.of_nat gap) k + size) user_space); [|done].
    intros [= <- <-]. pose proof (place_above (Z.of_nat gap) k ltac:(lia)) as Ha.
    pose proof (ranges_top_page k). split_and!; [by apply Z.mod_mul|unfold pagesize in *; lia|done| |].
    + intros x Hx (r & Hr & Hrx). pose proof (ranges_top_above k r Hr). lia.
    + intros x. split.
      * intros (r & [->|Hr]%elem_of_cons & Hx); [by right|left; eauto].
      * intros [(r & Hr & Hx)|Hx]; [exists r; by split; [right|]|].
        exists (place (Z.of_nat gap) k, size). by split; [left|].
  - intros k size k'. destruct (_ <=? _); [done|]. by intros [= <-].
  - intros k a size Hs _ _. eexists. split; [done|]. intros x. setoid_rewrite list_elem_of_bind. split.
    + intros (r & (r0 & [[Hlt ->]%elem_of_range|[Hlt ->]%elem_of_range]%elem_of_app & Hr0) & Hx); simpl in Hx;
        (split; [exists r0; split; [done|lia]|lia]).
    + intros [(r & Hr & Hx) Hn]. destruct (Z.lt_ge_cases x a).
      * eexists. split; [exists r; split; [apply elem_of_app; left; apply elem_of_range; split; [|done]; lia|done]|]. simpl. lia.
      * eexists. split; [exists r; split; [apply elem_of_app; right; apply elem_of_range; split; [|done]; lia|done]|]. simpl. lia.
  - done.
  - done.
Qed.

(** ** Chunks *)

(** C23. [mmap_chunk_aligned_block] gives chunks: it never fails an assertion; it
    answers a null pointer and leaves the address space as it was, or it answers
    a block of [n] chunks, aligned to a chunk, that was not mapped before and is
    all that is mapped in addition, whichever way the kernel aligns its mappings. *)
Theorem mmap_chunk_aligned (K : Kernel) (KO : KernelOk K) (o : os K) n :
  1 <= n < 2 ^ log_max_chunknumber ->
  exists r o', mmap_chunk_aligned_block n o = Some (r, o') /\
    ((r = 0 /\ forall x, mapped (kern o') x <-> mapped (kern o) x) \/
     ((forall i, 0 <= i < n -> is_chunk (r + i * chunksize)) /\
      (forall x, r <= x < r + n * chunksize -> ~ mapped (kern o) x) /\
      (forall x, mapped (kern o') x <-> mapped (kern o) x \/ r <= x < r + n * chunksize))).
Proof.
  intros Hn. destruct (mmap_chunk_spec o n Hn) as (r & o' & E & H). exists r, o'. split; [done|].
  destruct H as [[-> Hs]|[Hr Hm]]; [by left|right]. split; [|by destruct Hm].
  intros i. by apply (block_chunk o o' r n).
Qed.

Definition simple_os (gap : nat) : os (simple_kernel gap) := Os ([] : @kstate (simple_kernel gap)) 0 0.

Lemma mmap_chunk_aligned_witness : exists r o',
  mmap_chunk_aligned_block 3 (simple_os 1) = Some (r, o') /\
    ((r = 0 /\ forall x, mapped (kern o') x <-> mapped (kern (simple_os 1)) x) \/
     ((forall i, 0 <= i < 3 -> is_chunk (r + i * chunksize)) /\
      (forall x, r <= x < r + 3 * chunksize -> ~ mapped (kern (simple_os 1)) x) /\
      (forall x, mapped (kern o') x <-> mapped (kern (simple_os 1)) x \/ r <= x < r + 3 * chunksize))).
Proof. apply (mmap_chunk_aligned (simple_kernel 1) (simple_kernel_ok 1) (simple_os 1) 3). unfold log_max_chunknumber. lia. Defined.

(** The kernel of the witness does not align to chunks: the slow way is taken. *)
Example mmap_chunk_aligned_slow :
  (fun r => r.1) <$> mmap_chunk_aligned_block 3 (simple_os 1) = Some chunksize.
Proof. by vm_compute. Qed.
