(* ===== verification/FutexMutex.v ===== *)
(** * src/memory/futex_mutex.cpp: the lock of the allocator, for any number of threads.

    Every access to the fields of the lock and every call of the kernel is one step.
    A step of a function is a function of the point that the thread has reached and of the
    fields; the points are named after what the thread does next.  The kernel's
    futex is an interface; a thread that sleeps may also wake up for no reason.  The
    variables that only serve to observe the lock ([threadid], [last_errno] and the
    like) are left out. *)
From S2P Require Import Prelude Words.
#[local] Open Scope Z_scope.

Definition lock_spin_count : Z := 20.

(** ** The kernel

    [futex_blocks c value expected]: FUTEX_WAIT puts the caller to sleep; the test and the
    sleep are one step.  [futex_wakes c n l]: the threads that FUTEX_WAKE wakes when it
    may wake [n] of the sleepers [l].  [c] stands for what the kernel's choice depends on. *)
Class Futex : Type := {
  futex_blocks : nat -> Z -> Z -> bool;
  futex_wakes : nat -> Z -> list nat -> list nat
}.

(** FUTEX_WAIT fails when the value is another one; FUTEX_WAKE wakes a sleeper if there is one. *)
Class FutexOk `{Futex} : Prop := {
  futex_blocks_same c value expected : futex_blocks c value expected -> value = expected;
  futex_wakes_one c n l : 1 <= n -> l ≠ [] -> exists k, k ∈ l /\ k ∈ futex_wakes c n l
}.

Definition INT_MAX : Z := 2147483647.

(** ** The functions *)

Inductive lock_pc : Set :=
| LSpin (count : Z)
| LTry (count old_c : Z)
| LAnnounce
| LLoad (did_futex : Z)
| LWait (old_c : Z)
| LSleep
| LSwap (did_futex old_c : Z).

Inductive unlock_pc : Set := UAdd | UWake | UHold | UWakeAll.

Inductive hold_pc : Set :=
| HSpin (i : Z)
| HAnnounce
| HLoad (did_futex : Z)
| HLeave (did_futex : Z)
| HWait
| HSleep.

(** What a step asks the kernel to wake: one thread that waits for the lock, or all
    that wait for [hold]. *)
Inductive wake : Set := NoWake | Wake1 | WakeN.

(** The test of the loop that spins. *)
Definition lock_spin (count : Z) : lock_pc := if count <? lock_spin_count then LSpin count else LAnnounce.

(** The next point, or the return value, and the new value of [lock]; [c] is for the
    kernel.  A thread that
    sleeps takes no step of its own. *)
Definition futex_mutex_lock `{Futex} (c : nat) (p : lock_pc) (lock : Z) : option ((lock_pc + Z) * Z) :=
  match p with
  | LSpin count =>
      let old_c := lock in
      if Z.land old_c 1 =? 1 then Some (inl (lock_spin (count + 1)), lock) else Some (inl (LTry count old_c), lock)
  | LTry count old_c =>
      if lock =? old_c then Some (inr 0, to_int (old_c + 1)) else Some (inl (lock_spin count), lock)
  | LAnnounce => Some (inl (LLoad 0), to_int (lock + 2))
  | LLoad did_futex =>
      let old_c := lock in
      if Z.land old_c 1 =? 1 then Some (inl (LWait old_c), lock) else Some (inl (LSwap did_futex old_c), lock)
  | LWait old_c => if futex_blocks c lock old_c then Some (inl LSleep, lock) else Some (inl (LLoad 1), lock)
  | LSleep => None
  | LSwap did_futex old_c =>
      if lock =? old_c then Some (inr did_futex, to_int (old_c - 1)) else Some (inl (LLoad did_futex), lock)
  end.

(** The next point, or [None] when the function returns, the new value of [lock], and
    what is woken. *)
Definition futex_mutex_unlock (p : unlock_pc) (lock hold : Z) : option unlock_pc * Z * wake :=
  match p with
  | UAdd =>
      let old_c := lock in
      if 1 <? old_c then (Some UWake, to_int (lock - 1), NoWake) else (Some UHold, to_int (lock - 1), NoWake)
  | UWake => (None, lock, Wake1)
  | UHold => if hold =? 0 then (None, lock, NoWake) else (Some UWakeAll, lock, NoWake)
  | UWakeAll => (Some UHold, lock, WakeN)
  end.

Definition futex_mutex_subscribe (lock : Z) : Z := Z.land lock 1.

Definition hold_spin (i : Z) : hold_pc := if i <? lock_spin_count then HSpin i else HAnnounce.

(** The next point, or the return value, and the new value of [hold]. *)
Definition futex_mutex_hold `{Futex} (c : nat) (p : hold_pc) (lock hold : Z) : option ((hold_pc + Z) * Z) :=
  match p with
  | HSpin i => if lock =? 0 then Some (inr 0, hold) else Some (inl (hold_spin (i + 1)), hold)
  | HAnnounce => Some (inl (HLoad 0), to_int (hold + 1))
  | HLoad did_futex =>
      let was_locked := lock in
      if was_locked =? 0 then Some (inl (HLeave did_futex), hold) else Some (inl HWait, hold)
  | HLeave did_futex => Some (inr did_futex, to_int (hold - 1))
  | HWait => if futex_blocks c hold 1 then Some (inl HSleep, hold) else Some (inl (HLoad 1), hold)
  | HSleep => None
  end.

(** ** Threads *)

(** [Owner rv]: [futex_mutex_lock] returned [rv]. *)
Inductive thread : Set :=
| Idle
| Locking (p : lock_pc)
| Owner (rv : Z)
| Unlocking (p : unlock_pc)
| Holding (p : hold_pc).

Record mutex : Set := Mutex { lock : Z; hold : Z; threads : list thread }.

(** [FUTEX_MUTEX_INITIALIZER], and [n] threads. *)
Definition new_mutex (n : nat) : mutex := Mutex 0 0 (replicate n Idle).

(** A call of a function, a step of a thread with what the kernel's choice depends on,
    and a thread that wakes up for no reason. *)
Inductive event : Set :=
| CallLock (i : nat)
| CallUnlock (i : nat)
| CallHold (i : nat)
| Go (i c : nat)
| Spurious (i : nat).

(** Where a thread goes on when it is woken. *)
Definition wake_lock (t : thread) : thread := match t with Locking LSleep => Locking (LLoad 1) | t => t end.
Definition wake_hold (t : thread) : thread := match t with Holding HSleep => Holding (HLoad 1) | t => t end.

Definition lock_sleeper (t : thread) : bool := match t with Locking LSleep => true | _ => false end.
Definition hold_sleeper (t : thread) : bool := match t with Holding HSleep => true | _ => false end.

(** The threads from number [k] on that satisfy [f], and those with numbers in [l] changed by [g]. *)
Fixpoint numbers (f : thread -> bool) (k : nat) (ts : list thread) : list nat :=
  match ts with
  | [] => []
  | t :: ts => if f t then k :: numbers f (S k) ts else numbers f (S k) ts
  end.

Fixpoint change (g : thread -> thread) (l : list nat) (k : nat) (ts : list thread) : list thread :=
  match ts with
  | [] => []
  | t :: ts => (if bool_decide (k ∈ l) then g t else t) :: change g l (S k) ts
  end.

(** [futex_wake1] on [lock] and [futex_wakeN] on [hold]. *)
Definition futex_wake `{Futex} (w : wake) (c : nat) (ts : list thread) : list thread :=
  match w with
  | NoWake => ts
  | Wake1 => change wake_lock (futex_wakes c 1 (numbers lock_sleeper 0 ts)) 0 ts
  | WakeN => change wake_hold (futex_wakes c INT_MAX (numbers hold_sleeper 0 ts)) 0 ts
  end.

(** A step of thread [i]. *)
Definition go `{Futex} (i c : nat) (s : mutex) : option mutex :=
  match threads s !! i with
  | Some (Locking p) =>
      match futex_mutex_lock c p (lock s) with
      | Some (inl p', l) => Some (Mutex l (hold s) (<[i := Locking p']> (threads s)))
      | Some (inr rv, l) => Some (Mutex l (hold s) (<[i := Owner rv]> (threads s)))
      | None => None
      end
  | Some (Unlocking p) =>
      let '(p', l, w) := futex_mutex_unlock p (lock s) (hold s) in
      Some (Mutex l (hold s) (<[i := if p' is Some p' then Unlocking p' else Idle]> (futex_wake w c (threads s))))
  | Some (Holding p) =>
      match futex_mutex_hold c p (lock s) (hold s) with
      | Some (inl p', h) => Some (Mutex (lock s) h (<[i := Holding p']> (threads s)))
      | Some (inr rv, h) => Some (Mutex (lock s) h (<[i := Idle]> (threads s)))
      | None => None
      end
  | _ => None
  end.

Definition perform `{Futex} (e : event) (s : mutex) : option mutex :=
  match e with
  | CallLock i => if threads s !! i is Some Idle then Some (Mutex (lock s) (hold s) (<[i := Locking (LSpin 0)]> (threads s))) else None
  | CallUnlock i => if threads s !! i is Some (Owner _) then Some (Mutex (lock s) (hold s) (<[i := Unlocking UAdd]> (threads s))) else None
  | CallHold i => if threads s !! i is Some Idle then Some (Mutex (lock s) (hold s) (<[i := Holding (HSpin 0)]> (threads s))) else None
  | Go i c => go i c s
  | Spurious i =>
      match threads s !! i with
      | Some (Locking LSleep) => Some (Mutex (lock s) (hold s) (<[i := Locking (LLoad 1)]> (threads s)))
      | Some (Holding HSleep) => Some (Mutex (lock s) (hold s) (<[i := Holding (HLoad 1)]> (threads s)))
      | _ => None
      end
  end.

Fixpoint play `{Futex} (es : list event) (s : mutex) : option mutex :=
  match es with
  | [] => Some s
  | e :: es => if perform e s is Some s' then play es s' else None
  end.

(** ** Counting threads *)

Fixpoint tally (f : thread -> nat) (ts : list thread) : nat :=
  match ts with [] => 0 | t :: ts => f t + tally f ts end.

Lemma tally_insert f ts i t t' : ts !! i = Some t -> (tally f (<[i := t']> ts) + f t = tally f ts + f t')%nat.
Proof.
  revert i. induction ts as [|u ts IH]; intros [|i] H; simplify_eq/=; [lia|]. specialize (IH _ H). lia.
Qed.

Lemma tally_ge f ts i t : ts !! i = Some t -> (f t <= tally f ts)%nat.
Proof. revert i. induction ts as [|u ts IH]; intros [|i] H; simplify_eq/=; [lia|]. specialize (IH _ H). lia. Qed.

Lemma tally_pos f ts : (0 < tally f ts)%nat -> exists i t, ts !! i = Some t /\ (0 < f t)%nat.
Proof.
  induction ts as [|u ts IH]; simpl; intros H; [lia|]. destruct (f u) eqn:E.
  - destruct IH as (i & t & Ht); [lia|]. by exists (S i), t.
  - exists 0%nat, u. split; [done|lia].
Qed.

Lemma tally_le f g ts : (forall t, (f t <= g t)%nat) -> (tally f ts <= tally g ts)%nat.
Proof. intros H. induction ts as [|u ts IH]; simpl; [done|]. specialize (H u). lia. Qed.

Lemma tally_length f ts : (forall t, (f t <= 1)%nat) -> (tally f ts <= length ts)%nat.
Proof. intros H. induction ts as [|u ts IH]; simpl; [done|]. specialize (H u). lia. Qed.

Lemma tally_unique f ts i j ti tj : (tally f ts <= 1)%nat -> ts !! i = Some ti -> ts !! j = Some tj -> (0 < f ti)%nat -> (0 < f tj)%nat -> i = j.
Proof.
  revert i j. induction ts as [|u ts IH]; intros [|i] [|j] H Hi Hj Fi Fj; simplify_eq/=; [done| | |f_equal; apply IH; [lia|done..]].
  - pose proof (tally_ge f ts j tj Hj) as G. lia.
  - pose proof (tally_ge f ts i ti Hi) as G. lia.
Qed.

(** The thread that has the lock. *)
Definition owns (t : thread) : nat := match t with Owner _ | Unlocking UAdd => 1%nat | _ => 0%nat end.

(** Threads that are counted in [lock]; those of them that are asleep, and the threads
    that are awake and look after those: other waiters, and an unlock about to wake one. *)
Definition waits (t : thread) : nat := match t with Locking (LLoad _ | LWait _ | LSleep | LSwap _ _) => 1%nat | _ => 0%nat end.
Definition sleeps (t : thread) : nat := if lock_sleeper t then 1%nat else 0%nat.
Definition tends (t : thread) : nat :=
  match t with Locking (LLoad _ | LWait _ | LSwap _ _) | Unlocking UWake => 1%nat | _ => 0%nat end.

(** Threads that are counted in [hold]; those that are about to sleep or asleep, and the
    unlocks that look after those. *)
Definition holds_on (t : thread) : nat := match t with Holding (HLoad _ | HLeave _ | HWait | HSleep) => 1%nat | _ => 0%nat end.
Definition dozes (t : thread) : nat := match t with Holding (HWait | HSleep) => 1%nat | _ => 0%nat end.
Definition rouses (t : thread) : nat := match t with Unlocking (UHold | UWakeAll) => 1%nat | _ => 0%nat end.

(** What a thread remembers of [lock]: a value without or with the lock bit. *)
Definition remembers (t : thread) : Prop :=
  match t with
  | Locking (LTry _ old_c) | Locking (LSwap _ old_c) => exists k, old_c = 2 * k
  | Locking (LWait old_c) => exists k, old_c = 2 * k + 1
  | _ => True
  end.

(** The invariant of [n] threads. *)
Record mutex_inv (n : nat) (s : mutex) : Prop := {
  inv_length : length (threads s) = n;
  inv_remembers : Forall remembers (threads s);
  inv_lock : lock s = 2 * Z.of_nat (tally waits (threads s)) + Z.of_nat (tally owns (threads s));
  inv_owner : (tally owns (threads s) <= 1)%nat;
  inv_hold : hold s = Z.of_nat (tally holds_on (threads s));
  inv_tended : (0 < tally sleeps (threads s))%nat -> tally owns (threads s) = 0%nat -> (0 < tally tends (threads s))%nat;
  inv_roused : (0 < tally dozes (threads s))%nat -> lock s = 0 -> (0 < tally rouses (threads s))%nat
}.

(** Enough threads for any machine, and few enough for the counters not to overflow. *)
Definition max_threads : Z := 2 ^ 29.

(** The lock bit. *)
Lemma lock_bit w o : (o <= 1)%nat -> Z.land (2 * Z.of_nat w + Z.of_nat o) 1 = Z.of_nat o.
Proof.
  intros Ho. change 1 with (Z.ones 1). rw Z.land_ones //. change (2 ^ 1) with 2.
  rw Z.add_comm Z.mul_comm Z_mod_plus_full. apply Z.mod_small. lia.
Qed.

(** The effect of a change of one thread on every count. *)
Lemma tallies_insert ts i t t' : ts !! i = Some t ->
  (tally owns (<[i := t']> ts) + owns t = tally owns ts + owns t')%nat /\
  (tally waits (<[i := t']> ts) + waits t = tally waits ts + waits t')%nat /\
  (tally sleeps (<[i := t']> ts) + sleeps t = tally sleeps ts + sleeps t')%nat /\
  (tally tends (<[i := t']> ts) + tends t = tally tends ts + tends t')%nat /\
  (tally holds_on (<[i := t']> ts) + holds_on t = tally holds_on ts + holds_on t')%nat /\
  (tally dozes (<[i := t']> ts) + dozes t = tally dozes ts + dozes t')%nat /\
  (tally rouses (<[i := t']> ts) + rouses t = tally rouses ts + rouses t')%nat.
Proof. intros H. split_and!; by apply tally_insert. Qed.

(** A change of one thread that keeps the counts in order. *)
Lemma inv_change n s i t t' l h : mutex_inv n s -> threads s !! i = Some t -> remembers t' ->
  l - lock s = 2 * (Z.of_nat (waits t') - Z.of_nat (waits t)) + (Z.of_nat (owns t') - Z.of_nat (owns t)) ->
  h - hold s = Z.of_nat (holds_on t') - Z.of_nat (holds_on t) ->
  (tally owns (threads s) + owns t' <= 1 + owns t)%nat ->
  ((tends t <= tends t')%nat \/ (tally owns (threads s) + owns t' = 1 + owns t)%nat \/
   (tends t < tally tends (threads s) + tends t')%nat \/ tally sleeps (threads s) = 0%nat) ->
  ((sleeps t' <= sleeps t)%nat \/ (tally owns (threads s) + owns t' = 1 + owns t)%nat) ->
  ((owns t <= owns t')%nat \/ l = 0 \/ (0 < tends t')%nat) ->
  ((rouses t <= rouses t')%nat \/ tally dozes (threads s) = 0%nat) ->
  ((dozes t' <= dozes t)%nat \/ l ≠ 0) -> (l = lock s \/ l ≠ 0 \/ (0 < rouses t')%nat) ->
  mutex_inv n (Mutex l h (<[i := t']> (threads s))).
Proof.
  intros [Hn Hr Hl Ho Hh Ht Hd] Hi Hr' L1 H1 O1 T1 S1 W1 R1 D1 L2.
  destruct (tallies_insert _ _ _ t' Hi) as (E1 & E2 & E3 & E4 & E5 & E6 & E7).
  pose proof (tally_ge sleeps _ _ _ Hi) as G1. pose proof (tally_ge dozes _ _ _ Hi) as G2. pose proof (tally_ge tends _ _ _ Hi) as G3.
  pose proof (tally_ge rouses _ _ _ Hi) as G4. pose proof (tally_ge owns _ _ _ Hi) as G5.
  assert (tally sleeps (<[i:=t']> (threads s)) <= tally waits (<[i:=t']> (threads s)))%nat as G6.
  { apply tally_le. intros [|[]| | |]; unfold sleeps, waits; simpl; lia. }
  assert (l = 2 * Z.of_nat (tally waits (<[i:=t']> (threads s))) + Z.of_nat (tally owns (<[i:=t']> (threads s)))) as L by (clear -E1 E2 L1 Hl; lia).
  split; cbn [lock hold threads]; [by rw length_insert|by apply Forall_insert|done|clear -E1 O1; lia|clear -E5 H1 Hh; lia| |].
  - intros Hs Hw. destruct S1 as [S1|S1]; [|clear -S1 E1 Hw; lia].
    destruct T1 as [T1|[T1|[T1|T1]]]; [|clear -T1 E1 Hw; lia|clear -T1 E4 G3; lia|clear -T1 S1 E3 Hs; lia].
    destruct W1 as [W1|[W1|W1]]; [|clear -W1 L G6 Hs; lia|clear -W1 E4 G3; lia]. assert (0 < tally tends (threads s))%nat as Hx; [apply Ht; [clear -Hs S1 E3 G1; lia|clear -W1 E1 Hw; lia]|clear -Hx T1 E4 G3; lia].
  - intros Hs Hw. destruct D1 as [D1|D1]; [|done]. destruct L2 as [L2|[L2|L2]]; [|done|clear -L2 E7 G4; lia].
    assert (0 < tally rouses (threads s))%nat as Hx; [apply Hd; [clear -Hs D1 E6 G2; lia|congruence]|].
    destruct R1 as [R1|R1]; [clear -R1 Hx E7 G4; lia|clear -R1 D1 E6 G2 Hs; lia].
Qed.

Lemma inv_bounds n s : mutex_inv n s -> Z.of_nat n <= max_threads -> 0 <= lock s < 2147483640 /\ 0 <= hold s < 2147483640.
Proof.
  intros [Hn _ Hl Ho Hh _ _] Hm. change max_threads with 536870912 in Hm.
  assert (tally waits (threads s) <= n)%nat as H1 by (rw -Hn; apply tally_length; intros [|[]| | |]; simpl; lia).
  assert (tally holds_on (threads s) <= n)%nat as H2 by (rw -Hn; apply tally_length; intros [| | | |[]]; simpl; lia). lia.
Qed.

(** ** Threads that wake up *)

Lemma change_length g l k ts : length (change g l k ts) = length ts.
Proof. revert k. induction ts as [|t ts IH]; intros k; simpl; [done|]. by rw IH. Qed.

Lemma change_lookup g l k ts i : change g l k ts !! i = (fun t => if bool_decide (k + i ∈ l)%nat then g t else t) <$> ts !! i.
Proof.
  revert k i. induction ts as [|t ts IH]; intros k [|i]; simpl; [done|done|by rw Nat.add_0_r|]. rw IH. by replace (S k + i)%nat with (k + S i)%nat by lia.
Qed.

Lemma change_tally f g l k ts : (forall t, f (g t) = f t) -> tally f (change g l k ts) = tally f ts.
Proof. intros Hf. revert k. induction ts as [|t ts IH]; intros k; simpl; [done|]. rw IH. case_match; [by rw Hf|done]. Qed.

Lemma change_tally_le f g l k ts : (forall t, (f t <= f (g t))%nat) -> (tally f ts <= tally f (change g l k ts))%nat.
Proof. intros Hf. revert k. induction ts as [|t ts IH]; intros k; simpl; [done|]. specialize (IH (S k)). specialize (Hf t). case_match; lia. Qed.

Lemma change_tally_ge f g l k ts : (forall t, (f (g t) <= f t)%nat) -> (tally f (change g l k ts) <= tally f ts)%nat.
Proof. intros Hf. revert k. induction ts as [|t ts IH]; intros k; simpl; [done|]. specialize (IH (S k)). specialize (Hf t). case_match; lia. Qed.

Lemma change_remembers g l k ts : (forall t, remembers t -> remembers (g t)) -> Forall remembers ts -> Forall remembers (change g l k ts).
Proof. intros Hg Hf. revert k. induction Hf; intros k; simpl; constructor; [case_match; auto|auto]. Qed.

Lemma elem_of_numbers f k ts i : i ∈ numbers f k ts <-> exists j t, i = (k + j)%nat /\ ts !! j = Some t /\ f t = true.
Proof.
  revert k. induction ts as [|u ts IH]; intros k; simpl.
  - split; [by intros ?%elem_of_nil|by intros (j & t & _ & ? & _)].
  - assert (i ∈ numbers f (S k) ts <-> exists j t, i = (k + S j)%nat /\ ts !! j = Some t /\ f t = true) as E.
    { rw IH. split; intros (j & t & -> & Ht); exists j, t; (split; [lia|done]). }
    assert (i ∈ (if f u then k :: numbers f (S k) ts else numbers f (S k) ts) <-> (i = k /\ f u = true) \/ i ∈ numbers f (S k) ts) as ->.
    { destruct (f u); [rw elem_of_cons; clear; intuition|clear; intuition congruence]. }
    rw E. split.
    + intros [[-> Hu]|(j & t & -> & Ht)]; [exists 0%nat, u; split; [lia|done]|by exists (S j), t].
    + intros ([|j] & t & -> & Hj & Ht); simplify_eq/=; [left; split; [lia|done]|right; by exists j, t].
Qed.

(** Threads that sleep in [futex_mutex_hold] wake up while an unlock looks after them. *)
Lemma inv_wake_hold n s l : mutex_inv n s -> mutex_inv n (Mutex (lock s) (hold s) (change wake_hold l 0 (threads s))).
Proof.
  intros [Hn Hr Hl Ho Hh Ht Hd]. split; cbn [lock hold threads]; [by rw change_length|apply change_remembers; [by intros [| | | |[]]|done]|..].
  - rw !change_tally //; by intros [| | | |[]].
  - rw change_tally //. by intros [| | | |[]].
  - rw change_tally //. by intros [| | | |[]].
  - rw !change_tally //; by intros [| | | |[]].
  - intros Hs Hz. rw change_tally; [by intros [| | | |[]]|]. apply Hd; [|done]. eapply Nat.lt_le_trans; [exact Hs|]. apply change_tally_ge. intros [| | | |[]]; simpl; lia.
Qed.

(** Threads that sleep in [futex_mutex_lock] wake up. *)
Lemma inv_wake_lock n s l : mutex_inv n s -> mutex_inv n (Mutex (lock s) (hold s) (change wake_lock l 0 (threads s))).
Proof.
  intros [Hn Hr Hl Ho Hh Ht Hd]. split; cbn [lock hold threads]; [by rw change_length|apply change_remembers; [by intros [|[]| | |]|done]|..].
  - rw !change_tally //; by intros [|[]| | |].
  - rw change_tally //. by intros [|[]| | |].
  - rw change_tally //. by intros [|[]| | |].
  - rw (change_tally owns); [by intros [|[]| | |]|]. intros Hs Hz. eapply Nat.lt_le_trans; [apply Ht; [|done]|apply change_tally_le; intros [|[]| | |]; simpl; lia].
    eapply Nat.lt_le_trans; [exact Hs|]. apply change_tally_ge. intros [|[]| | |]; unfold sleeps; simpl; lia.
  - rw !change_tally //; by intros [|[]| | |].
Qed.

(** ** Every event keeps the invariant *)

Lemma spin_remembers count : remembers (Locking (lock_spin count)).
Proof. unfold lock_spin. by case_match. Qed.

Lemma lock_spin_counts count : waits (Locking (lock_spin count)) = 0%nat /\ sleeps (Locking (lock_spin count)) = 0%nat /\ tends (Locking (lock_spin count)) = 0%nat.
Proof. unfold lock_spin. by case_match. Qed.

Lemma hold_spin_counts i : holds_on (Holding (hold_spin i)) = 0%nat /\ dozes (Holding (hold_spin i)) = 0%nat.
Proof. unfold hold_spin. by case_match. Qed.

(** Compare the counts of a thread before and after. *)
Ltac counts :=
  cbn [lock hold threads owns waits sleeps lock_sleeper tends holds_on dozes rouses] in *;
  first [done | exact I | lia | by left | by right; left | by right; right; left | solve [eauto]].

Section steps.
Context {FX : Futex} {FO : FutexOk} (n : nat) (s : mutex).
Hypothesis Hinv : mutex_inv n s.
Hypothesis Hmax : Z.of_nat n <= max_threads.

Lemma remembered i t : threads s !! i = Some t -> remembers t.
Proof. intros Hi. eapply Forall_lookup_1; [apply (inv_remembers _ _ Hinv)|done]. Qed.

Lemma bit_owned : (Z.land (lock s) 1 =? 1) = (tally owns (threads s) =? 1)%nat.
Proof.
  rw (inv_lock _ _ Hinv) (lock_bit _ _ (inv_owner _ _ Hinv)). destruct (Nat.eqb_spec (tally owns (threads s)) 1) as [->|Hn]; [done|]. apply Z.eqb_neq. lia.
Qed.

Lemma lock_inv i c p r l : threads s !! i = Some (Locking p) -> futex_mutex_lock c p (lock s) = Some (r, l) ->
  mutex_inv n (Mutex l (hold s) (<[i := match r with inl p' => Locking p' | inr rv => Owner rv end]> (threads s))).
Proof.
  intros Hi Hp. pose proof (remembered _ _ Hi) as Hr. pose proof (inv_lock _ _ Hinv) as Hl. pose proof (inv_owner _ _ Hinv) as Ho.
  destruct (inv_bounds _ _ Hinv Hmax) as [Hb _]. pose proof (tally_ge waits _ _ _ Hi) as Hw.
  destruct p as [count|count old| |did|old| |did old]; cbn [futex_mutex_lock] in Hp.
  - rw bit_owned in Hp. destruct (Nat.eqb_spec (tally owns (threads s)) 1) as [E|E]; simplify_eq.
    + destruct (lock_spin_counts (count + 1)) as (C1 & C2 & C3). eapply inv_change; [done|done|apply spin_remembers|rw C1; counts|counts|counts|rw C3; counts|rw C2; counts|counts..].
    + eapply inv_change; [done|done|exists (Z.of_nat (tally waits (threads s))); lia|counts..].
  - destruct Hr as [k Hk]. destruct (Z.eqb_spec (lock s) old) as [E|E]; simplify_eq.
    + rw to_int_small; [lia|]. eapply inv_change; [done|done|done|counts..].
    + destruct (lock_spin_counts count) as (C1 & C2 & C3). eapply inv_change; [done|done|apply spin_remembers|rw C1; counts|counts|counts|rw C3; counts|rw C2; counts|counts..].
  - simplify_eq. rw to_int_small; [lia|]. eapply inv_change; [done|done|done|counts..].
  - rw bit_owned in Hp. destruct (Nat.eqb_spec (tally owns (threads s)) 1) as [E|E]; simplify_eq.
    + eapply inv_change; [done|done|exists (Z.of_nat (tally waits (threads s))); lia|counts..].
    + eapply inv_change; [done|done|exists (Z.of_nat (tally waits (threads s))); lia|counts..].
  - destruct Hr as [k Hk]. destruct (futex_blocks c (lock s) old) eqn:E; simplify_eq; [|by eapply inv_change; [done|done|done|counts..]].
    assert (lock s = 2 * k + 1) by (apply (futex_blocks_same c); by rw E). eapply inv_change; [done|done|done|counts..].
  - done.
  - destruct Hr as [k Hk]. destruct (Z.eqb_spec (lock s) old) as [E|E]; simplify_eq.
    + rw to_int_small; [cbn [waits] in Hw; lia|]. eapply inv_change; [done|done|done|counts..].
    + eapply inv_change; [done|done|done|counts..].
Qed.

Lemma hold_inv i c p r h : threads s !! i = Some (Holding p) -> futex_mutex_hold c p (lock s) (hold s) = Some (r, h) ->
  mutex_inv n (Mutex (lock s) h (<[i := match r with inl p' => Holding p' | inr _ => Idle end]> (threads s))).
Proof.
  intros Hi Hp. pose proof (inv_hold _ _ Hinv) as Hh. pose proof (inv_owner _ _ Hinv) as Ho.
  destruct (inv_bounds _ _ Hinv Hmax) as [_ Hb]. pose proof (tally_ge holds_on _ _ _ Hi) as Hg.
  destruct p as [k| |did|did| |]; cbn [futex_mutex_hold] in Hp.
  - destruct (lock s =? 0); simplify_eq; [eapply inv_change; [done|done|done|counts..]|].
    destruct (hold_spin_counts (k + 1)) as (C1 & C2). eapply inv_change; [done|done|done|counts|rw C1; counts|counts|counts|counts|counts|counts|rw C2; counts|counts].
  - simplify_eq. rw to_int_small; [lia|]. eapply inv_change; [done|done|done|counts..].
  - destruct (Z.eqb_spec (lock s) 0) as [E|E]; simplify_eq; (eapply inv_change; [done|done|done|counts..]).
  - simplify_eq. rw to_int_small; [cbn [holds_on] in Hg; lia|]. eapply inv_change; [done|done|done|counts..].
  - destruct (futex_blocks c (hold s) 1); simplify_eq; (eapply inv_change; [done|done|done|counts..]).
  - done.
Qed.

(** The kernel wakes a thread that waits for the lock, and the unlock returns. *)
Lemma wake1_inv i c : threads s !! i = Some (Unlocking UWake) -> mutex_inv n (Mutex (lock s) (hold s) (<[i := Idle]> (futex_wake Wake1 c (threads s)))).
Proof.
  intros Hi. cbn [futex_wake]. set (l := futex_wakes c 1 (numbers lock_sleeper 0 (threads s))).
  pose proof (inv_wake_lock n s l Hinv) as Hinv'. pose proof (inv_owner _ _ Hinv') as Ho.
  assert (change wake_lock l 0 (threads s) !! i = Some (Unlocking UWake)) as Hi' by (rw change_lookup Hi /=; by case_match).
  assert (tally sleeps (change wake_lock l 0 (threads s)) = 0 \/ 1 < tally tends (change wake_lock l 0 (threads s)))%nat as Hc.
  { destruct (decide (numbers lock_sleeper 0 (threads s) = [])) as [E|E].
    - left. destruct (decide (0 < tally sleeps (threads s))%nat) as [Hp|Hp].
      + destruct (tally_pos _ _ Hp) as (k & t & Hk & Pk). assert (k ∈ numbers lock_sleeper 0 (threads s)) as Hin; [|rw E in Hin; by apply elem_of_nil in Hin].
        apply elem_of_numbers. exists k, t. split_and!; [done|done|]. unfold sleeps in Pk. by destruct (lock_sleeper t); [|lia].
      + assert (tally sleeps (change wake_lock l 0 (threads s)) <= tally sleeps (threads s))%nat; [apply change_tally_ge; intros [|[]| | |]; unfold sleeps; simpl; lia|lia].
    - right. destruct (futex_wakes_one c 1 _ ltac:(lia) E) as (k & Hk & Hw). apply elem_of_numbers in Hk as (j & t & -> & Hj & Ht).
      assert (change wake_lock l 0 (threads s) !! j = Some (Locking (LLoad 1))) as Hj'.
      { rw change_lookup Hj /=. rw bool_decide_true //. by destruct t as [|[]| | |]. }
      destruct (decide (tally tends (change wake_lock l 0 (threads s)) <= 1)%nat) as [Hle|]; [|lia].
      assert (i = j) as -> by (eapply (tally_unique tends); [done|exact Hi'|exact Hj'|simpl; lia|simpl; lia]). by rw Hi' in Hj'. }
  generalize dependent (change wake_lock l 0 (threads s)). intros ts Hinv' Ho Hi' Hc.
  eapply (inv_change n (Mutex (lock s) (hold s) ts) i); [exact Hinv'|exact Hi'|done|counts..].
Qed.

Lemma unlock_inv i c p p' l w : threads s !! i = Some (Unlocking p) -> futex_mutex_unlock p (lock s) (hold s) = (p', l, w) ->
  mutex_inv n (Mutex l (hold s) (<[i := if p' is Some p' then Unlocking p' else Idle]> (futex_wake w c (threads s)))).
Proof.
  intros Hi Hp. pose proof (inv_lock _ _ Hinv) as Hl. pose proof (inv_hold _ _ Hinv) as Hh. pose proof (inv_owner _ _ Hinv) as Ho.
  destruct (inv_bounds _ _ Hinv Hmax) as [Hb _]. pose proof (tally_ge owns _ _ _ Hi) as Hg.
  destruct p; cbn [futex_mutex_unlock] in Hp.
  - destruct (Z.ltb_spec 1 (lock s)); simplify_eq; cbn [futex_wake]; (rw to_int_small; [cbn [owns] in Hg; lia|]); (eapply inv_change; [done|done|done|counts..]).
  - simplify_eq. by apply wake1_inv.
  - assert (tally dozes (threads s) <= tally holds_on (threads s))%nat by (apply tally_le; intros [| | | |[]]; simpl; lia).
    destruct (Z.eqb_spec (hold s) 0); simplify_eq; cbn [futex_wake]; (eapply inv_change; [done|done|done|counts..]).
  - simplify_eq. cbn [futex_wake]. set (k := futex_wakes _ _ _). pose proof (inv_wake_hold n s k Hinv) as Hinv'. pose proof (inv_owner _ _ Hinv') as Ho'.
    assert (change wake_hold k 0 (threads s) !! i = Some (Unlocking UWakeAll)) as Hi' by (rw change_lookup Hi /=; by case_match).
    generalize dependent (change wake_hold k 0 (threads s)). intros ts Hinv' Ho' Hi'.
    eapply (inv_change n (Mutex (lock s) (hold s) ts) i); [exact Hinv'|exact Hi'|done|counts..].
Qed.

Lemma perform_inv e s' : perform e s = Some s' -> mutex_inv n s'.
Proof.
  intros Hp. pose proof (inv_owner _ _ Hinv) as Ho. destruct e as [i|i|i|i c|i]; cbn [perform] in Hp.
  - destruct (threads s !! i) as [[]|] eqn:Hi; simplify_eq. eapply inv_change; [done|done|done|counts..].
  - destruct (threads s !! i) as [[]|] eqn:Hi; simplify_eq. eapply inv_change; [done|done|done|counts..].
  - destruct (threads s !! i) as [[]|] eqn:Hi; simplify_eq. eapply inv_change; [done|done|done|counts..].
  - unfold go in Hp. destruct (threads s !! i) as [[|p| |p|p]|] eqn:Hi; [done| |done| | |done].
    + destruct (futex_mutex_lock c p (lock s)) as [[[p'|rv] l]|] eqn:E; [| |done]; simplify_eq; exact (lock_inv _ _ _ _ _ Hi E).
    + destruct (futex_mutex_unlock p (lock s) (hold s)) as [[p' l] w] eqn:E. simplify_eq. by eapply unlock_inv.
    + destruct (futex_mutex_hold c p (lock s) (hold s)) as [[[p'|rv] h]|] eqn:E; [| |done]; simplify_eq; exact (hold_inv _ _ _ _ _ Hi E).
  - destruct (threads s !! i) as [[|[]| | |[]]|] eqn:Hi; simplify_eq; (eapply inv_change; [done|done|done|counts..]).
Qed.
End steps.

Lemma tally_idle f n : f Idle = 0%nat -> tally f (replicate n Idle) = 0%nat.
Proof. intros H. induction n as [|n IH]; simpl; [done|]. by rw H IH. Qed.

Lemma new_mutex_inv n : mutex_inv n (new_mutex n).
Proof.
  split; cbn [new_mutex lock hold threads]; rw ?tally_idle //; try lia; [apply length_replicate|by apply Forall_replicate].
Qed.

Lemma play_inv `{FutexOk} n es s s' : Z.of_nat n <= max_threads -> mutex_inv n s -> play es s = Some s' -> mutex_inv n s'.
Proof.
  intros Hm. revert s. induction es as [|e es IH]; intros s Hs Hp; simplify_eq/=; [done|].
  destruct (perform e s) as [s1|] eqn:E; [|done]. by eapply IH, Hp; eapply perform_inv.
Qed.

(** ** What the lock promises *)

(** A thread that a count finds. *)
Lemma tally_find f ts : (forall t, (f t <= 1)%nat) -> (0 < tally f ts)%nat -> exists i t, ts !! i = Some t /\ f t = 1%nat.
Proof. intros Hf Hp. destruct (tally_pos _ _ Hp) as (i & t & Ht & Pt). exists i, t. split; [done|]. specialize (Hf t). lia. Qed.

(** What looks after a thread that sleeps in [futex_mutex_lock], and in [futex_mutex_hold]. *)
Lemma lock_sleeper_tended n s i : mutex_inv n s -> threads s !! i = Some (Locking LSleep) ->
  exists j tj, threads s !! j = Some tj /\ (owns tj = 1%nat \/ tends tj = 1%nat).
Proof.
  intros Hs Hi. pose proof (tally_ge sleeps _ _ _ Hi) as G. destruct (decide (tally owns (threads s) = 0%nat)) as [E|E].
  - destruct (tally_find tends (threads s)) as (j & tj & Hj & Pj); [by intros [|[]| |[]|]; simpl; lia|by apply (inv_tended _ _ Hs)|]. by eauto.
  - destruct (tally_find owns (threads s)) as (j & tj & Hj & Pj); [by intros [|[]| |[]|]; simpl; lia|lia|]. by eauto.
Qed.

Lemma hold_sleeper_roused n s i : mutex_inv n s -> threads s !! i = Some (Holding HSleep) ->
  exists j tj, threads s !! j = Some tj /\ (owns tj = 1%nat \/ waits tj = 1%nat \/ rouses tj = 1%nat).
Proof.
  intros Hs Hi. pose proof (inv_lock _ _ Hs) as Hl. pose proof (tally_ge dozes _ _ _ Hi) as G. destruct (decide (lock s = 0)) as [E|E].
  - destruct (tally_find rouses (threads s)) as (j & tj & Hj & Pj); [by intros [|[]| |[]|]; simpl; lia|by apply (inv_roused _ _ Hs)|]. by eauto 7.
  - destruct (decide (tally owns (threads s) = 0%nat)).
    + destruct (tally_find waits (threads s)) as (j & tj & Hj & Pj); [by intros [|[]| |[]|]; simpl; lia|lia|]. by eauto 7.
    + destruct (tally_find owns (threads s)) as (j & tj & Hj & Pj); [by intros [|[]| |[]|]; simpl; lia|lia|]. by eauto 7.
Qed.

Section claims.
Context {FX : Futex} {FO : FutexOk}.

(** C11. Mutual exclusion: whatever [n] threads do with the lock, and whenever the kernel
    wakes them, at most one of them is between the return of [futex_mutex_lock] and the
    step of [futex_mutex_unlock] that gives the lock up. *)
Theorem futex_mutual_exclusion n es s i j ti tj : Z.of_nat n <= max_threads -> play es (new_mutex n) = Some s ->
  threads s !! i = Some ti -> threads s !! j = Some tj -> owns ti = 1%nat -> owns tj = 1%nat -> i = j.
Proof.
  intros Hn Hp Hi Hj Oi Oj. pose proof (play_inv n es _ _ Hn (new_mutex_inv n) Hp) as Hs.
  eapply (tally_unique owns); [apply (inv_owner _ _ Hs)|done|done|lia|lia].
Qed.

(** [futex_mutex_subscribe] answers 1 when a thread has the lock, and 0 otherwise. *)
Theorem futex_subscribe_owned n es s : Z.of_nat n <= max_threads -> play es (new_mutex n) = Some s ->
  (futex_mutex_subscribe (lock s) = 1 /\ exists i t, threads s !! i = Some t /\ owns t = 1%nat) \/
  (futex_mutex_subscribe (lock s) = 0 /\ forall i t, threads s !! i = Some t -> owns t = 0%nat).
Proof.
  intros Hn Hp. pose proof (play_inv n es _ _ Hn (new_mutex_inv n) Hp) as Hs. pose proof (inv_owner _ _ Hs) as Ho.
  unfold futex_mutex_subscribe. rw (inv_lock _ _ Hs) (lock_bit _ _ Ho). destruct (decide (tally owns (threads s) = 0%nat)) as [E|E].
  - right. split; [by rw E|]. intros i t Hi. pose proof (tally_ge owns _ _ _ Hi). lia.
  - left. split; [lia|]. apply tally_find; [by intros [|[]| |[]|]; simpl; lia|lia].
Qed.

(** Threads that are in a function of the lock and awake can take a step. *)
Lemma awake_step s j t c : threads s !! j = Some t -> (tends t = 1%nat \/ rouses t = 1%nat \/ t = Unlocking UAdd) -> is_Some (perform (Go j c) s).
Proof.
  intros Hj Ht. cbn [perform]. unfold go. rw Hj. destruct t as [|p| |p|p]; [by destruct Ht as [|[|]]| |by destruct Ht as [|[|]]| |by destruct Ht as [|[|]]].
  - destruct (futex_mutex_lock c p (lock s)) as [[[p'|rv] l]|] eqn:E; [by eexists|by eexists|].
    assert (p = LSleep) as -> by (destruct p; cbn [futex_mutex_lock] in E; try case_match; done). by destruct Ht as [|[|]].
  - destruct (futex_mutex_unlock p (lock s) (hold s)) as [[p' l] w]. by eexists.
Qed.

(** C12. No wake-up is lost and no deadlock arises: while a thread sleeps in
    [futex_mutex_lock] or in [futex_mutex_hold], some thread has the lock and can unlock
    it, or is in one of the functions and can take a step. *)
Theorem futex_no_deadlock n es s i t : Z.of_nat n <= max_threads -> play es (new_mutex n) = Some s ->
  threads s !! i = Some t -> lock_sleeper t || hold_sleeper t ->
  exists j, is_Some (perform (CallUnlock j) s) \/ forall c, is_Some (perform (Go j c) s).
Proof.
  intros Hn Hp Hi Ht. pose proof (play_inv n es _ _ Hn (new_mutex_inv n) Hp) as Hs.
  assert (exists j tj, threads s !! j = Some tj /\ (owns tj = 1%nat \/ tends tj = 1%nat \/ rouses tj = 1%nat)) as (j & tj & Hj & Pj).
  { destruct t as [|[]| | |[]]; try done; [destruct (lock_sleeper_tended _ _ _ Hs Hi) as (j & tj & Hj & [P|P]); by eauto 7|].
    destruct (hold_sleeper_roused _ _ _ Hs Hi) as (j & tj & Hj & [P|[P|P]]); [by eauto 7| |by eauto 7].
    assert (tj = Locking LSleep \/ tends tj = 1%nat) as [->|Q] by (destruct tj as [|[]| |[]|]; by auto); [destruct (lock_sleeper_tended _ _ _ Hs Hj) as (k & tk & Hk & [Q|Q]); by eauto 7|by eauto 7]. }
  assert ((exists rv, tj = Owner rv) \/ tends tj = 1%nat \/ rouses tj = 1%nat \/ tj = Unlocking UAdd) as [[rv ->]|Pj'].
  { destruct Pj as [P|[P|P]]; [|by auto|by auto]. destruct tj as [| |rv|[]|]; try done; by eauto. }
  - exists j. left. cbn [perform]. rw Hj. by eexists.
  - exists j. right. intros c. by apply (awake_step s j tj).
Qed.
End claims.

(** ** Witnesses *)

(** A kernel that always blocks when it may, and wakes the first sleepers. *)
#[local] Instance fifo_futex : Futex := {|
  futex_blocks _ value expected := value =? expected;
  futex_wakes _ n l := take (Z.to_nat n) l
|}.

Lemma fifo_futex_ok : FutexOk.
Proof.
  split; [intros c v e H; by apply Is_true_eq_true, Z.eqb_eq in H|]. intros c n [|k l] Hn Hl; [done|]. exists k. split; [by left|].
  cbn [futex_wakes fifo_futex]. destruct (Z.to_nat n) as [|m] eqn:E; [lia|]. by left.
Qed.

(** Thread 0 takes the lock; thread 1 finds it taken until it goes to sleep, and so does
    thread 2, which waits for the lock to be free. *)
Definition two_sleepers : list event :=
  [CallLock 0; Go 0 0; Go 0 0; CallLock 1] ++ replicate 23 (Go 1 0) ++ CallHold 2 :: replicate 23 (Go 2 0).

Lemma futex_no_deadlock_witness : exists s, play two_sleepers (new_mutex 3) = Some s /\ threads s !! 1%nat = Some (Locking LSleep) /\
  exists j, is_Some (perform (CallUnlock j) s) \/ forall c, is_Some (perform (Go j c) s).
Proof.
  eexists. split; [vm_compute; reflexivity|]. split; [reflexivity|].
  apply (@futex_no_deadlock fifo_futex fifo_futex_ok 3 two_sleepers _ 1 (Locking LSleep)); [by vm_compute|vm_compute; reflexivity|reflexivity|exact I].
Defined.

Lemma futex_mutual_exclusion_witness : exists s, play two_sleepers (new_mutex 3) = Some s /\ threads s !! 0%nat = Some (Owner 0) /\ 0%nat = 0%nat.
Proof.
  eexists. split; [vm_compute; reflexivity|]. split; [reflexivity|].
  eapply (@futex_mutual_exclusion fifo_futex fifo_futex_ok 3 two_sleepers _ 0 0); [by vm_compute|vm_compute; reflexivity|reflexivity..].
Defined.

Lemma futex_subscribe_owned_witness : exists s, play two_sleepers (new_mutex 3) = Some s /\
  ((futex_mutex_subscribe (lock s) = 1 /\ exists i t, threads s !! i = Some t /\ owns t = 1%nat) \/
   (futex_mutex_subscribe (lock s) = 0 /\ forall i t, threads s !! i = Some t -> owns t = 0%nat)).
Proof.
  eexists. split; [vm_compute; reflexivity|]. apply (@futex_subscribe_owned fifo_futex fifo_futex_ok 3 two_sleepers); [by vm_compute|vm_compute; reflexivity].
Defined.
