(* ===== verification/Huge.v ===== *)
(** * src/memory/huge_malloc.cpp: blocks of whole chunks.

    The chunks that are not in use are kept in one list per power of two,
    threaded through the table of the chunks. *)
From S2P Require Import Prelude Words StateMonad Sizeclass Makechunk.
#[local] Open Scope Z_scope.

(** The entry of a table that is zero where it was not written. *)
Definition entry (t : gmap Z Z) (i : Z) : Z := default 0 (t !! i).

Section code.
Context {K : Kernel}.

(** [chunk_infos] is indexed by chunk numbers; an entry is the union of
    [bin_and_size] and [next]. *)
Record chunks : Type := Chunks {
  c_os : os K;
  chunk_infos : gmap Z Z;
  free_chunks : list Z;
}.

Definition on_os {A} (m : M (os K) A) : M chunks A :=
  zoom c_os (fun o s => Chunks o (chunk_infos s) (free_chunks s)) m.

Definition get_info (cn : Z) : M chunks Z := gets (fun s => entry (chunk_infos s) cn).
Definition set_info (cn v : Z) : M chunks unit :=
  modify (fun s => Chunks (c_os s) (<[cn := v]> (chunk_infos s)) (free_chunks s)).

Definition get_free_chunks (f : Z) : M chunks Z := fun s => the (free_chunks s !! Z.to_nat f) s.
Definition set_free_chunks (f v : Z) : M chunks unit := fun s =>
  if (Z.to_nat f <? length (free_chunks s))%nat then
    Some (tt, Chunks (c_os s) (chunk_infos s) (<[Z.to_nat f := v]> (free_chunks s)))
  else None.

Definition do_get_from_free_chunks (f : Z) : M chunks Z :=
  r ← get_free_chunks f;
  if r =? 0 then mret 0
  else
    next ← get_info r;
    set_free_chunks f next;;
    mret (r * chunksize).

Definition get_cached_power_of_two_chunks (list_number : Z) : M chunks Z :=
  h ← get_free_chunks list_number;
  if h =? 0 then mret 0 else do_get_from_free_chunks list_number.

(** Without interference the compare-and-swap finds the head that was read. *)
Definition put_cached_power_of_two_chunks (cn list_number : Z) : M chunks unit :=
  hd ← get_free_chunks list_number;
  set_info cn hd;;
  set_free_chunks list_number cn.

(** [while (c + (1 << bit) > end) bit--]; shifting by -1 is not defined. *)
Fixpoint fit_bit (c last : Z) (bit : nat) : option Z :=
  if last <? uadd 32 c (2 ^ Z.of_nat bit) then
    match bit with
    | O => None
    | S bit => fit_bit c last bit
    end
  else Some (Z.of_nat bit).

(** The piece that starts at [c], put in the list of its size; where the next one starts. *)
Definition put_piece (c last : Z) : M chunks Z :=
  bassert (negb (c =? 0));;
  bit ← the (fit_bit c last (Z.to_nat (ctz c)));
  put_cached_power_of_two_chunks c bit;;
  mret (uadd 32 c (2 ^ bit)).

Definition find_aligned_body (n_chunks last c : Z) : M chunks (Z + Z * Z) :=
  if c <? last then
    if Z.land c (n_chunks - 1) =? 0 then mret (inr (c * chunksize, uadd 32 c n_chunks))
    else c ← put_piece c last; mret (inl c)
  else mret (inr (0, c)).

Definition put_tail_body (last c : Z) : M chunks (Z + unit) :=
  if c <? last then c ← put_piece c last; mret (inl c) else mret (inr tt).

(** The loops split a block into at most one piece per power of two and side. *)
Definition pieces_fuel : nat := 64.

Definition get_power_of_two_n_chunks (n_chunks : Z) : M chunks Z :=
  r ← get_cached_power_of_two_chunks (lg_of_power_of_two n_chunks);
  if negb (r =? 0) then mret r
  else
    p ← on_os (mmap_chunk_aligned_block (uwrap 32 (2 * n_chunks)));
    if p =? 0 then mret 0
    else
      let c := address_2_chunknumber p in
      let last := uadd 32 c (2 * n_chunks) in
      '(result, c) ← loop pieces_fuel (find_aligned_body n_chunks last) c;
      loop pieces_fuel (put_tail_body last) c;;
      bassert (negb (result =? 0));;
      mret result.

(** The advice about the pages of a new block; an error is ignored. *)
Definition advise_block (c n_chunks size : Z) : M chunks unit :=
  on_os (madvise c (umul 64 n_chunks chunksize) MADV_DONTNEED);;
  let n_whole_chunks := size / chunksize in
  let n_bytes_at_end := size - n_whole_chunks * chunksize in
  (if (n_bytes_at_end =? 0) || (chunksize - n_bytes_at_end <? chunksize / 8) then
     on_os (madvise c (umul 64 n_chunks chunksize) MADV_HUGEPAGE)
   else
     (if 0 <? n_whole_chunks then on_os (madvise c (n_whole_chunks * chunksize) MADV_HUGEPAGE) else mret true);;
     on_os (madvise (c + n_whole_chunks * chunksize) n_bytes_at_end MADV_NOHUGEPAGE));;
  mret tt.

Definition huge_malloc (size : Z) : M chunks Z :=
  let n_chunks := uwrap 32 (Z.max 1 (hyperceil size / chunksize)) in
  c ← get_power_of_two_n_chunks n_chunks;
  if c =? 0 then mret 0
  else
    advise_block c n_chunks size;;
    let chunknum := address_2_chunknumber c in
    let bin := size_2_bin (umul 64 n_chunks chunksize) in
    b_and_s ← the (bin_and_size_to_bin_and_size bin size);
    bassert (negb (b_and_s =? 0));;
    set_info chunknum b_and_s;;
    mret c.

Definition huge_free (m : Z) : M chunks unit :=
  let m := Z.land m (uwrap 64 (Z.lnot 4095)) in
  bassert (Z.land m (chunksize - 1) =? 0);;
  let cn := address_2_chunknumber m in
  bassert (negb (cn =? 0));;
  bnt ← get_info cn;
  bassert (negb (bnt =? 0));;
  bin ← the (bin_from_bin_and_size bnt);
  siz ← the (bin_2_size bin);
  let csiz := uwrap 32 (ceil siz chunksize) in
  let hceil := hyperceil csiz in
  let hlog := lg_of_power_of_two hceil in
  bassert (hlog <? log_max_chunknumber);;
  r ← on_os (madvise m siz MADV_DONTNEED);
  bassert r;;
  put_cached_power_of_two_chunks cn hlog.
End code.
Arguments chunks : clear implicits.

(** ** Lists threaded through a table *)

Fixpoint threaded (t : gmap Z Z) (hd : Z) (l : list Z) : Prop :=
  match l with
  | [] => hd = 0
  | x :: l => hd = x /\ 0 < x /\ threaded t (entry t x) l
  end.

Lemma entry_insert t i v : entry (<[i := v]> t) i = v.
Proof. unfold entry. by rw lookup_insert_eq. Qed.

Lemma entry_insert_ne t i j v : i <> j -> entry (<[i := v]> t) j = entry t j.
Proof. intros Hne. unfold entry. by rw lookup_insert_ne. Qed.

Lemma threaded_insert t x v hd l : x ∉ l -> threaded t hd l -> threaded (<[x := v]> t) hd l.
Proof.
  revert hd. induction l as [|y l IH]; intros hd; [done|]. simpl.
  intros [Hxy Hx]%not_elem_of_cons (-> & Hy & Hl). split_and!; [done..|].
  rw entry_insert_ne //. by apply IH.
Qed.

Lemma threaded_head t hd l : threaded t hd l -> (hd = 0 /\ l = []) \/ (0 < hd /\ exists l', l = hd :: l').
Proof. destruct l as [|x l]; [by left|]. intros (-> & Hx & _). right. eauto. Qed.

(** ** Blocks of chunks *)

(** The chunks of the block of [2 ^ k] chunks that starts at [cn]. *)
Definition chunks_of (b : Z * Z) : list Z := seqZ b.1 (2 ^ b.2).

(** The blocks in the lists for [2 ^ n], [2 ^ (n + 1)], ... chunks. *)
Fixpoint free_blocks (n : Z) (fl : list (list Z)) : list (Z * Z) :=
  match fl with
  | [] => []
  | l :: fl => ((fun cn => (cn, n)) <$> l) ++ free_blocks (n + 1) fl
  end.

Lemma free_blocks_insert n fl i l cn : fl !! i = Some l ->
  free_blocks n (<[i := cn :: l]> fl) ≡ₚ (cn, n + Z.of_nat i) :: free_blocks n fl.
Proof.
  revert n i. induction fl as [|l0 fl IH]; intros n i Hl; [done|]. destruct i as [|i]; simpl in *.
  - simplify_eq. by rw Z.add_0_r.
  - rw (IH (n + 1)) // -Permutation_middle. by replace (n + 1 + Z.of_nat i) with (n + Z.of_nat (S i)) by lia.
Qed.

Lemma free_blocks_remove n fl i l cn : fl !! i = Some (cn :: l) ->
  free_blocks n fl ≡ₚ (cn, n + Z.of_nat i) :: free_blocks n (<[i := l]> fl).
Proof.
  intros Hl. pose proof (lookup_lt_Some _ _ _ Hl) as Hi.
  rewrite <- (free_blocks_insert n (<[i := l]> fl) i l cn) by by apply list_lookup_insert_eq.
  by rw list_insert_insert_eq list_insert_id.
Qed.

Lemma elem_of_free_blocks n fl b : b ∈ free_blocks n fl <->
  exists i l, fl !! i = Some l /\ b.1 ∈ l /\ b.2 = n + Z.of_nat i.
Proof.
  revert n. induction fl as [|l0 fl IH]; intros n; simpl.
  - split; [by intros ?%elem_of_nil|by intros (? & ? & ? & _)].
  - rw elem_of_app IH list_elem_of_fmap. split.
    + intros [(cn & -> & Hcn)|(i & l & Hl & Hb & Hn)].
      * exists 0%nat, l0. simpl. split_and!; [done..|lia].
      * exists (S i), l. split_and!; [done..|lia].
    + intros ([|i] & l & Hl & Hb & Hn); simpl in Hl.
      * simplify_eq. left. exists b.1. split; [|done]. rw Z.add_0_r in Hn. by destruct b; simpl in *; subst.
      * right. exists i, l. split_and!; [done..|lia].
Qed.

Lemma elem_of_chunks_of b x : x ∈ chunks_of b <-> b.1 <= x < b.1 + 2 ^ b.2.
Proof. unfold chunks_of. by rw elem_of_seqZ. Qed.

Lemma chunks_of_start b : 0 <= b.2 -> b.1 ∈ chunks_of b.
Proof. intros Hb. rw elem_of_chunks_of. pose proof (Z.pow_pos_nonneg 2 b.2). lia. Qed.

Definition chunk_limit : Z := user_space / chunksize.

(** ** The invariant

    [fl] has the lists of free blocks, [own] the chunks that were handed out. *)

Section invariant.
Context {K : Kernel}.
Implicit Type s : chunks K.

Definition all_chunks (fl : list (list Z)) (own : list Z) : list Z := (free_blocks 0 fl ≫= chunks_of) ++ own.

(** The bin that the table has for a chunk. *)
Definition chunk_bin (ch : chunks K) (c : Z) : option Z :=
  bin_from_bin_and_size (entry (chunk_infos ch) (address_2_chunknumber c)).

Record huge_inv s (fl : list (list Z)) (own : list Z) : Prop := {
  hi_lists : Forall2 (threaded (chunk_infos s)) (free_chunks s) fl;
  hi_length : length fl = Z.to_nat log_max_chunknumber;
  hi_disjoint : NoDup (all_chunks fl own);
  hi_aligned b : b ∈ free_blocks 0 fl -> (2 ^ b.2 | b.1);
  hi_range cn : cn ∈ all_chunks fl own -> 0 < cn < chunk_limit;
  hi_mapped cn x : cn ∈ all_chunks fl own -> cn * chunksize <= x < (cn + 1) * chunksize ->
    mapped (kern (c_os s)) x;
  hi_zero : entry (chunk_infos s) 0 = 0;
}.

Lemma huge_inv_perm s fl own own' : own ≡ₚ own' -> huge_inv s fl own -> huge_inv s fl own'.
Proof.
  intros Hp [H1 H2 H3 H4 H5 H6 H7]. assert (all_chunks fl own ≡ₚ all_chunks fl own') as Ha.
  { unfold all_chunks. by rw Hp. }
  split; [done|done|by rw -Ha|done| | |done].
  - intros cn Hcn. apply H5. by rw Ha.
  - intros cn x Hcn. apply H6. by rw Ha.
Qed.

Lemma free_lookup s fl own i l : huge_inv s fl own -> fl !! i = Some l ->
  exists hd, free_chunks s !! i = Some hd /\ threaded (chunk_infos s) hd l.
Proof. intros HI Hl. pose proof (hi_lists _ _ _ HI) as HF. by apply (Forall2_lookup_r _ _ _ _ _ HF). Qed.

(** A chunk that was handed out is not in a list. *)
Lemma own_not_free s fl own i l cn : huge_inv s fl own -> fl !! i = Some l -> cn ∈ own -> cn ∉ l.
Proof.
  intros HI Hl Hown Hcn. pose proof (hi_disjoint _ _ _ HI) as Hnd. unfold all_chunks in Hnd.
  apply NoDup_app in Hnd as (_ & Hd & _). apply (Hd cn); [|done]. apply list_elem_of_bind.
  exists (cn, Z.of_nat i). split; [apply (chunks_of_start (cn, Z.of_nat i)); simpl; lia|].
  apply elem_of_free_blocks. exists i, l. split_and!; [done..|]. simpl. lia.
Qed.

Lemma threads_insert s fl own cn v : huge_inv s fl own -> cn ∈ own ->
  Forall2 (threaded (<[cn := v]> (chunk_infos s))) (free_chunks s) fl.
Proof.
  intros HI Hcn. apply Forall2_same_length_lookup_2; [apply (Forall2_length _ _ _ (hi_lists _ _ _ HI))|].
  intros i hd l Hhd Hl. destruct (free_lookup _ _ _ _ _ HI Hl) as (hd' & Hhd' & Hth). simplify_eq.
  apply threaded_insert; [|done]. by apply (own_not_free _ _ _ _ _ _ HI Hl).
Qed.

Lemma put_chunks_spec s fl own cn k : 
  huge_inv s fl (chunks_of (cn, k) ++ own) -> 0 <= k < log_max_chunknumber -> (2 ^ k | cn) ->
  exists s' fl', put_cached_power_of_two_chunks cn k s = Some (tt, s') /\ huge_inv s' fl' own /\
    c_os s' = c_os s /\ forall x, x <> cn -> entry (chunk_infos s') x = entry (chunk_infos s) x.
Proof.
  intros HI Hk Hal. pose proof (hi_length _ _ _ HI) as Hlen. unfold log_max_chunknumber in *.
  destruct (lookup_lt_is_Some_2 fl (Z.to_nat k)) as [l Hl]; [lia|].
  destruct (free_lookup _ _ _ _ _ HI Hl) as (hd & Hhd & Hth).
  unfold put_cached_power_of_two_chunks, get_free_chunks.
  rw (bind_Some _ _ s hd s); [by rw Hhd|]. unfold set_info. rw bind_modify. unfold set_free_chunks. simpl.
  pose proof (lookup_lt_Some _ _ _ Hhd) as Hlt. rewrite -> (proj2 (Nat.ltb_lt _ _)) by done.
  assert (cn ∈ chunks_of (cn, k) ++ own) as Hown.
  { apply elem_of_app. left. apply (chunks_of_start (cn, k)). simpl. lia. }
  assert (free_blocks 0 (<[Z.to_nat k := cn :: l]> fl) ≡ₚ (cn, k) :: free_blocks 0 fl) as Hfb.
  { rw free_blocks_insert //. rewrite -> Z2Nat.id by lia. by rw Z.add_0_l. }
  assert (all_chunks (<[Z.to_nat k := cn :: l]> fl) own ≡ₚ all_chunks fl (chunks_of (cn, k) ++ own)) as Hall.
  { unfold all_chunks. rw Hfb. simpl. rw (app_assoc (_ ≫= _)). f_equiv. apply Permutation_app_comm. }
  exists (Chunks (c_os s) (<[cn := hd]> (chunk_infos s)) (<[Z.to_nat k := cn]> (free_chunks s))),
    (<[Z.to_nat k := cn :: l]> fl).
  split; [done|]. split_and!; [|done|]; [|intros x Hx; simpl; by apply entry_insert_ne].
  split; simpl.
  - apply Forall2_insert.
    + apply (threads_insert _ _ _ _ _ HI Hown).
    + simpl. split_and!; [done| |].
      * apply (hi_range _ _ _ HI). unfold all_chunks. apply elem_of_app. by right.
      * rw entry_insert. apply threaded_insert; [|done]. by apply (own_not_free _ _ _ _ _ _ HI Hl).
  - by rw length_insert.
  - rw Hall. apply HI.
  - intros b. rw Hfb. intros [->|Hb]%elem_of_cons; [done|by apply (hi_aligned _ _ _ HI)].
  - intros c Hc. rw Hall in Hc. by apply (hi_range _ _ _ HI).
  - intros c x Hc. rw Hall in Hc. by apply (hi_mapped _ _ _ HI).
  - rewrite -> entry_insert_ne; [apply HI|]. intros ->. pose proof (hi_range _ _ _ HI 0) as H0. destruct H0; [|lia]. apply elem_of_app. by right.
Qed.

Lemma get_chunks_spec s fl own k : huge_inv s fl own -> 0 <= k < log_max_chunknumber ->
  exists r s' fl' own', get_cached_power_of_two_chunks k s = Some (r, s') /\ huge_inv s' fl' own' /\
    c_os s' = c_os s /\ chunk_infos s' = chunk_infos s /\
    ((r = 0 /\ own' = own) \/ exists cn, r = cn * chunksize /\ own' = chunks_of (cn, k) ++ own /\ (2 ^ k | cn)).
Proof.
  intros HI Hk. pose proof (hi_length _ _ _ HI) as Hlen. unfold log_max_chunknumber in *.
  destruct (lookup_lt_is_Some_2 fl (Z.to_nat k)) as [l Hl]; [lia|].
  destruct (free_lookup _ _ _ _ _ HI Hl) as (hd & Hhd & Hth).
  unfold get_cached_power_of_two_chunks, do_get_from_free_chunks, get_free_chunks.
  rw (bind_Some _ _ s hd s); [by rw Hhd|].
  destruct (threaded_head _ _ _ Hth) as [[-> ->]|[Hpos [l' ->]]].
  { exists 0, s, fl, own. split; [done|]. split_and!; [done..|]. by left. }
  rewrite -> (proj2 (Z.eqb_neq hd 0)) by lia. rw (bind_Some _ _ s hd s); [by rw Hhd|].
  rewrite -> (proj2 (Z.eqb_neq hd 0)) by lia. unfold get_info. rw bind_gets.
  unfold set_free_chunks. pose proof (lookup_lt_Some _ _ _ Hhd) as Hlt.
  destruct Hth as (_ & _ & Hth). set (s' := Chunks (c_os s) (chunk_infos s)
    (<[Z.to_nat k := entry (chunk_infos s) hd]> (free_chunks s))).
  rw (bind_Some _ _ s tt s'); [by rewrite -> (proj2 (Nat.ltb_lt _ _)) by done|].
  assert (free_blocks 0 fl ≡ₚ (hd, k) :: free_blocks 0 (<[Z.to_nat k := l']> fl)) as Hfb.
  { rewrite -> (free_blocks_remove 0 fl (Z.to_nat k) l' hd) by done. by replace (0 + Z.of_nat (Z.to_nat k)) with k by lia. }
  assert (all_chunks (<[Z.to_nat k := l']> fl) (chunks_of (hd, k) ++ own) ≡ₚ all_chunks fl own) as Hall.
  { unfold all_chunks. rw Hfb. simpl. rw (app_assoc (_ ≫= _)). f_equiv. apply Permutation_app_comm. }
  exists (hd * chunksize), s', (<[Z.to_nat k := l']> fl), (chunks_of (hd, k) ++ own).
  split; [done|]. split_and!; [|done|done|right; exists hd; split_and!; [done..|]]; [split; simpl|].
  - apply Forall2_insert; [apply HI|done].
  - by rw length_insert.
  - rw Hall. apply HI.
  - intros b Hb. apply (hi_aligned _ _ _ HI). rw Hfb. by right.
  - intros cn Hc. rw Hall in Hc. by apply (hi_range _ _ _ HI).
  - intros cn x Hc. rw Hall in Hc. by apply (hi_mapped _ _ _ HI).
  - apply HI.
  - apply (hi_aligned _ _ _ HI (hd, k)). rw Hfb. by left.
Qed.

(** ** Splitting a block *)

Lemma uadd_small a b : 0 <= a -> 0 <= b -> a + b < 2 ^ 32 -> uadd 32 a b = a + b.
Proof. intros Ha Hb Hs. unfold uadd. rw uwrap_small //. unfold is_uint. lia. Qed.

Lemma fit_bit_spec c last bit : 0 <= c < last -> c + 2 ^ Z.of_nat bit < 2 ^ 32 ->
  exists b, fit_bit c last bit = Some b /\ 0 <= b <= Z.of_nat bit /\ c + 2 ^ b <= last /\
    (b = Z.of_nat bit \/ last < c + 2 ^ (b + 1)).
Proof.
  intros Hc. induction bit as [|bit IH]; intros Hw; cbn [fit_bit];
    rewrite -> uadd_small by (try apply Z.pow_nonneg; lia); case_ltb.
  - simpl in *. lia.
  - exists 0. split_and!; [done|lia|lia|done|by left].
  - destruct IH as (b & Hb & Hle & Hfit & Hmax).
    { assert (2 ^ Z.of_nat bit <= 2 ^ Z.of_nat (S bit)) by (apply Z.pow_le_mono_r; lia). lia. }
    exists b. split_and!; [done|lia|lia|done|]. right. destruct Hmax as [->|Hmax]; [|done].
    by replace (Z.of_nat bit + 1) with (Z.of_nat (S bit)) by lia.
  - exists (Z.of_nat (S bit)). split_and!; [done|lia|lia|done|by left].
Qed.

Lemma seqZ_split c n m : 0 <= n <= m -> seqZ c m = seqZ c n ++ seqZ (c + n) (m - n).
Proof. intros Hn. replace m with (n + (m - n)) at 1 by lia. apply seqZ_app; lia. Qed.

Lemma divide_le_ctz c k : 0 < c -> 0 <= k -> (2 ^ k | c) -> k <= ctz c.
Proof.
  intros Hc Hk [q Hq]. apply Z.nlt_ge. intros Hlt. pose proof (ctz_testbit c Hc) as Hb. rw Hq in Hb.
  rewrite -> Z.mul_pow2_bits_low in Hb by (rw -Hq; done). done.
Qed.

Lemma pow_divide_mono a b c : 0 <= a <= b -> (2 ^ b | c) -> (2 ^ a | c).
Proof. intros Hab Hd. etrans; [|done]. exists (2 ^ (b - a)). rewrite <- Z.pow_add_r by lia. f_equal. lia. Qed.

Lemma ctz_divide c : 0 < c -> (2 ^ ctz c | c).
Proof. intros Hc. destruct (ctz_spec c Hc) as [_ [q Hq]]. by exists (2 * q + 1). Qed.

Lemma ctz_next c : 0 < c -> (2 ^ (ctz c + 1) | c + 2 ^ ctz c).
Proof.
  intros Hc. destruct (ctz_spec c Hc) as [H0 [q Hq]]. exists (q + 1). rewrite -> Z.pow_add_r by lia.
  set (p := 2 ^ ctz c) in *. lia.
Qed.

(** One piece: a block at [c] as large as its alignment and the end allow. *)
Lemma put_piece_spec s fl own c last : 
  huge_inv s fl (seqZ c (last - c) ++ own) -> 0 < c < last -> last <= chunk_limit ->
  exists b s' fl', put_piece c last s = Some (c + 2 ^ b, s') /\
    huge_inv s' fl' (seqZ (c + 2 ^ b) (last - (c + 2 ^ b)) ++ own) /\
    c_os s' = c_os s /\ (forall x, x < c \/ last <= x -> entry (chunk_infos s') x = entry (chunk_infos s) x) /\
    0 <= b <= ctz c /\ c + 2 ^ b <= last /\ (b = ctz c \/ last < c + 2 ^ (b + 1)).
Proof.
  intros HI Hc Hlast. change chunk_limit with (2 ^ 26) in Hlast. unfold put_piece.
  rw bind_bassert; [apply negb_true_iff, Z.eqb_neq; lia|].
  destruct (ctz_spec c) as [H0 _]; [lia|]. pose proof (ctz_divide c ltac:(lia)) as Hdiv.
  assert (2 ^ ctz c <= c) by (apply Z.divide_pos_le; [lia|done]).
  destruct (fit_bit_spec c last (Z.to_nat (ctz c))) as (b & Hb & Hle & Hfit & Hmax); [lia|rewrite -> Z2Nat.id by lia; lia|].
  rewrite -> Z2Nat.id in Hle, Hmax by lia. rw (bind_the _ _ _ _ Hb).
  assert (2 ^ b <= 2 ^ 26) by lia. assert (b <= 26) by (apply (Z.pow_le_mono_r_iff 2); lia).
  assert (0 < 2 ^ b) by (apply Z.pow_pos_nonneg; lia).
  destruct (put_chunks_spec s fl (seqZ (c + 2 ^ b) (last - (c + 2 ^ b)) ++ own) c b) as (s' & fl' & E & HI' & Hos & Ht).
  { apply (huge_inv_perm _ _ (seqZ c (last - c) ++ own)); [|done].
    rewrite -> (seqZ_split c (2 ^ b) (last - c)) by lia. rw -app_assoc. unfold chunks_of. simpl.
    by replace (last - c - 2 ^ b) with (last - (c + 2 ^ b)) by lia. }
  { unfold log_max_chunknumber. lia. }
  { by apply (pow_divide_mono b (ctz c)). }
  rw (bind_Some _ _ _ _ _ E). rewrite -> uadd_small by lia.
  exists b, s', fl'. split_and!; try done; try lia. intros x Hx. apply Ht. lia.
Qed.

Lemma land_pow2 c k : 0 <= k -> Z.land c (2 ^ k - 1) = c mod 2 ^ k.
Proof. intros Hk. replace (2 ^ k - 1) with (Z.ones k) by (rw Z.ones_equiv; lia). by apply Z.land_ones. Qed.

(** The chunks from [c] on are split off the list of chunks. *)
Lemma own_split s fl own c n last : 0 <= n <= last - c ->
  huge_inv s fl (seqZ c (last - c) ++ own) ->
  huge_inv s fl (seqZ c n ++ seqZ (c + n) (last - (c + n)) ++ own).
Proof.
  intros Hn. apply huge_inv_perm. rewrite -> (seqZ_split c n (last - c)) by lia. rw -app_assoc.
  by replace (last - c - n) with (last - (c + n)) by lia.
Qed.

(** A turn of the first loop that does not stop uses the lowest bit of [c]. *)
Lemma find_aligned_turn s fl own k t last c :
  huge_inv s fl (seqZ c (last - c) ++ own) -> 0 < c -> last <= chunk_limit -> 0 <= k ->
  (2 ^ k | t) -> c <= t -> t + 2 ^ k <= last -> c mod 2 ^ k <> 0 ->
  exists s' fl', find_aligned_body (2 ^ k) last c s = Some (inl (c + 2 ^ ctz c), s') /\
    huge_inv s' fl' (seqZ (c + 2 ^ ctz c) (last - (c + 2 ^ ctz c)) ++ own) /\
    c_os s' = c_os s /\ (forall x, x < c \/ last <= x -> entry (chunk_infos s') x = entry (chunk_infos s) x) /\
    c + 2 ^ ctz c <= t.
Proof.
  intros HI Hc Hlast Hk Ht Hct Htl D. assert (0 < 2 ^ k) by (apply Z.pow_pos_nonneg; lia).
  destruct (ctz_spec c Hc) as [Hz _]. assert (0 < 2 ^ ctz c) by (apply Z.pow_pos_nonneg; lia).
  assert (~ (2 ^ k | c)) as D' by (intros ?; apply D, Z.mod_divide; [lia|done]).
  assert (ctz c < k).
  { apply Z.nle_gt. intros Hle. apply D', (pow_divide_mono k (ctz c)); [lia|]. by apply ctz_divide. }
  assert (c + 2 ^ ctz c <= t) as Hstep.
  { assert (c <> t) by (intros ->; done). assert (2 ^ ctz c <= t - c); [|lia]. apply Z.divide_pos_le; [lia|].
    apply Z.divide_sub_r; [by apply (pow_divide_mono (ctz c) k); [lia|]|by apply ctz_divide]. }
  destruct (put_piece_spec s fl own c last HI) as (b & s1 & fl1 & E & HI1 & Hos & Htab & Hb & Hfit & Hmax); [lia|done|].
  assert (b = ctz c) as ->.
  { destruct Hmax as [|Hmax]; [done|]. destruct (decide (b = ctz c)) as [|Hne]; [done|].
    assert (2 ^ (b + 1) <= 2 ^ ctz c) by (apply Z.pow_le_mono_r; lia). lia. }
  exists s1, fl1. split_and!; [|done..]. unfold find_aligned_body. rewrite -> (proj2 (Z.ltb_lt c last)) by lia.
  rw land_pow2 //. rewrite -> (proj2 (Z.eqb_neq _ 0)) by done. by rw (bind_Some _ _ _ _ _ E).
Qed.

(** The first loop: pieces until [c] is a multiple of [2 ^ k]. *)
Lemma find_aligned_spec k t last own j : forall s fl c,
  huge_inv s fl (seqZ c (last - c) ++ own) -> 0 < c -> last <= chunk_limit -> 0 <= k ->
  (2 ^ k | t) -> c <= t -> t + 2 ^ k <= last -> Z.of_nat j <= k -> (2 ^ (k - Z.of_nat j) | c) ->
  exists c' s' fl', loop (S j) (find_aligned_body (2 ^ k) last) c s = Some ((c' * chunksize, c' + 2 ^ k), s') /\
    huge_inv s' fl' (seqZ c' (2 ^ k) ++ seqZ (c' + 2 ^ k) (last - (c' + 2 ^ k)) ++ own) /\
    c_os s' = c_os s /\ (forall x, x < c \/ last <= x -> entry (chunk_infos s') x = entry (chunk_infos s) x) /\
    c <= c' /\ c' + 2 ^ k <= last /\ (2 ^ k | c').
Proof.
  induction j as [|j IH]; intros s fl c HI Hc Hlast Hk Ht Hct Htl Hj Hdiv.
  all: assert (0 < 2 ^ k) by (apply Z.pow_pos_nonneg; lia).
  all: destruct (decide (c mod 2 ^ k = 0)) as [D|D].
  1, 3: assert (find_aligned_body (2 ^ k) last c s = Some (inr (c * chunksize, c + 2 ^ k), s)) as Hbody
    by (unfold find_aligned_body; rewrite -> (proj2 (Z.ltb_lt c last)) by lia; rw land_pow2 // D;
        change chunk_limit with (2 ^ 26) in Hlast; by rewrite -> uadd_small by lia).
  1, 2: rewrite -> (loop_step _ _ _ _ _ _ Hbody); exists c, s, fl; split_and!; try done; try lia;
    [apply own_split; [lia|done]|apply Z.mod_divide; [lia|done]].
  - exfalso. apply D, Z.mod_divide; [lia|]. by rw Z.sub_0_r in Hdiv.
  - destruct (find_aligned_turn s fl own k t last c) as (s1 & fl1 & Hbody & HI1 & Hos & Htab & Hstep); [done..|].
    destruct (ctz_spec c Hc) as [Hz _]. assert (0 < 2 ^ ctz c) by (apply Z.pow_pos_nonneg; lia).
    assert (k - Z.of_nat (S j) <= ctz c) by (apply divide_le_ctz; [lia|lia|done]).
    rewrite -> (loop_step _ _ _ _ _ _ Hbody).
    destruct (IH s1 fl1 (c + 2 ^ ctz c)) as (c' & s' & fl' & E' & HI' & Hos' & Htab' & Hc' & Hl' & Hd');
      [done|lia|done|done|done|lia|done|lia| |].
    { apply (pow_divide_mono _ (ctz c + 1)); [lia|by apply ctz_next]. }
    exists c', s', fl'. split_and!; [done|done|congruence| |lia|done|done].
    intros x Hx. rewrite -> Htab' by lia. apply Htab. lia.
Qed.

(** The second loop: pieces until the end. *)
Lemma put_tail_spec last own j : forall s fl c,
  huge_inv s fl (seqZ c (last - c) ++ own) -> 0 < c <= last -> last <= chunk_limit ->
  (2 ^ Z.of_nat j | c) -> last - c <= 2 ^ Z.of_nat j ->
  exists s' fl', loop (S (S j)) (put_tail_body last) c s = Some (tt, s') /\ huge_inv s' fl' own /\
    c_os s' = c_os s /\ (forall x, x < c \/ last <= x -> entry (chunk_infos s') x = entry (chunk_infos s) x).
Proof.
  assert (forall s fl n, huge_inv s fl (seqZ last (last - last) ++ own) ->
    exists s' fl', loop (S n) (put_tail_body last) last s = Some (tt, s') /\ huge_inv s' fl' own /\
      c_os s' = c_os s /\ forall x, x < last \/ last <= x -> entry (chunk_infos s') x = entry (chunk_infos s) x) as Hend.
  { intros s fl n HI. assert (put_tail_body last last s = Some (inr tt, s)) as Hb
      by (unfold put_tail_body; by rw Z.ltb_irrefl).
    rewrite -> (loop_step _ _ _ _ _ _ Hb). exists s, fl. split_and!; try done.
    by rw Z.sub_diag in HI. }
  induction j as [j IH] using lt_wf_ind. intros s fl c HI Hc Hlast Hdiv Hr.
  destruct (decide (c = last)) as [->|Hne].
  { by apply (Hend s fl). }
  destruct (put_piece_spec s fl own c last HI) as (b & s1 & fl1 & E & HI1 & Hos & Htab & Hb & Hfit & Hmax); [lia|done|].
  assert (put_tail_body last c s = Some (inl (c + 2 ^ b), s1)) as Hbody.
  { unfold put_tail_body. rewrite -> (proj2 (Z.ltb_lt c last)) by lia. by rw (bind_Some _ _ _ _ _ E). }
  assert (0 < 2 ^ b) by (apply Z.pow_pos_nonneg; lia).
  assert (Z.of_nat j <= ctz c) by (apply divide_le_ctz; [lia|lia|done]).
  rewrite -> (loop_step _ _ _ _ _ _ Hbody).
  destruct (decide (c + 2 ^ b = last)) as [E1|Hne1].
  - rw E1 in HI1 |- *. destruct (Hend s1 fl1 j HI1) as (s' & fl' & E' & HI' & Hos' & Htab').
    exists s', fl'. split_and!; [done|done|congruence|]. intros x Hx. rewrite -> Htab' by lia. apply Htab. lia.
  - assert (b < Z.of_nat j) as Hbj by (apply (Z.pow_lt_mono_r_iff 2); lia).
    assert (last < c + 2 ^ (b + 1)) as Hm by (destruct Hmax as [->|]; [lia|done]).
    rewrite -> Z.pow_add_r in Hm by lia. change (2 ^ 1) with 2 in Hm.
    destruct (IH (Z.to_nat b) ltac:(lia) s1 fl1 (c + 2 ^ b)) as (s' & fl' & E' & HI' & Hos' & Htab').
    { done. }
    { lia. }
    { done. }
    { rewrite -> Z2Nat.id by lia. apply Z.divide_add_r; [|done]. by apply (pow_divide_mono b (Z.of_nat j)); [lia|]. }
    { rewrite -> Z2Nat.id by lia. lia. }
    exists s', fl'. split_and!; [|done|congruence|].
    + apply (loop_mono (S (S (Z.to_nat b)))); [lia|done].
    + intros x Hx. rewrite -> Htab' by lia. apply Htab. lia.
Qed.

(** ** Allocating blocks *)

(** Freshly mapped chunks are chunks that are owned in addition. *)
Lemma huge_inv_grow s fl own o' c n : huge_inv s fl own -> 0 <= n ->
  maps (c_os s) o' (c * chunksize) (n * chunksize) ->
  huge_inv (Chunks o' (chunk_infos s) (free_chunks s)) fl (seqZ c n ++ own).
Proof.
  intros HI Hn [Hf Hm [Hp Hs]].
  assert (all_chunks fl (seqZ c n ++ own) ≡ₚ seqZ c n ++ all_chunks fl own) as Hall.
  { unfold all_chunks. rw !app_assoc. f_equiv. apply Permutation_app_comm. }
  assert (forall cn, cn ∈ seqZ c n -> 0 < cn < chunk_limit /\ c * chunksize <= cn * chunksize /\
    (cn + 1) * chunksize <= c * chunksize + n * chunksize) as Hnew.
  { intros cn Hcn%elem_of_seqZ. change chunk_limit with (2 ^ 26). unfold user_space, chunksize, log_chunksize in *. lia. }
  split; simpl; [apply HI|apply HI| |apply HI| | |apply HI].
  - rw Hall. apply NoDup_app. split_and!; [apply NoDup_seqZ| |apply HI]. intros cn Hcn Hold.
    destruct (Hnew cn Hcn) as (_ & H1 & H2). apply (Hf (cn * chunksize)); [unfold chunksize, log_chunksize in *; lia|].
    apply (hi_mapped _ _ _ HI cn); [done|]. unfold chunksize, log_chunksize. lia.
  - intros cn. rw Hall. intros [Hcn|Hcn]%elem_of_app; [by apply Hnew|by apply (hi_range _ _ _ HI)].
  - intros cn x. rw Hall Hm. intros [Hcn|Hcn]%elem_of_app Hx; [right|left; by apply (hi_mapped _ _ _ HI cn)].
    destruct (Hnew cn Hcn) as (_ & H1 & H2). lia.
Qed.

Lemma huge_inv_same s fl own o' : huge_inv s fl own -> same_space (c_os s) o' ->
  huge_inv (Chunks o' (chunk_infos s) (free_chunks s)) fl own.
Proof.
  intros [? ? ? ? ? Hm ?] Hsame. split; try done. intros cn x Hcn Hx. apply Hsame. by apply (Hm cn).
Qed.

Lemma own_not_fresh s fl own o' c n x : huge_inv s fl own ->
  maps (c_os s) o' (c * chunksize) (n * chunksize) -> x ∈ own -> x < c \/ c + n <= x.
Proof.
  intros HI [Hf _ _] Hx. destruct (decide (c <= x < c + n)) as [Hr|]; [|lia]. exfalso.
  apply (Hf (x * chunksize)); [unfold chunksize, log_chunksize; lia|].
  apply (hi_mapped _ _ _ HI x); [apply elem_of_app; by right|]. unfold chunksize, log_chunksize. lia.
Qed.

Context {KO : KernelOk K}.

(** A fresh block of [2 * 2 ^ k] chunks is cut into a block of [2 ^ k] chunks,
    aligned to its size, and pieces that are put in the lists. *)
Lemma cut_block_spec s fl own k c : 0 <= k <= 25 -> 0 < c -> c + 2 * 2 ^ k <= chunk_limit ->
  huge_inv s fl (seqZ c (2 * 2 ^ k) ++ own) ->
  exists cn c1 s' fl', loop pieces_fuel (find_aligned_body (2 ^ k) (c + 2 * 2 ^ k)) c s = Some ((cn * chunksize, c1), s') /\
    0 < cn /\ (2 ^ k | cn) /\ exists s'',
    loop pieces_fuel (put_tail_body (c + 2 * 2 ^ k)) c1 s' = Some (tt, s'') /\
    huge_inv s'' fl' (chunks_of (cn, k) ++ own) /\ c_os s'' = c_os s /\
    forall x, x < c \/ c + 2 * 2 ^ k <= x -> entry (chunk_infos s'') x = entry (chunk_infos s) x.
Proof.
  intros Hk Hc Hlim HI. assert (0 < 2 ^ k) by (apply Z.pow_pos_nonneg; lia).
  set (last := c + 2 * 2 ^ k) in *. set (t := (c + 2 ^ k - 1) / 2 ^ k * 2 ^ k).
  assert (c <= t < c + 2 ^ k) as Ht.
  { unfold t. pose proof (Z.div_mod (c + 2 ^ k - 1) (2 ^ k)). pose proof (Z.mod_pos_bound (c + 2 ^ k - 1) (2 ^ k)). lia. }
  destruct (find_aligned_spec k t last own (Z.to_nat k) s fl c) as (cn & s1 & fl1 & E1 & HI1 & Hos1 & Ht1 & Hc1 & Hl1 & Hd1).
  { by replace (last - c) with (2 * 2 ^ k) by (unfold last; lia). }
  { done. }
  { done. }
  { lia. }
  { by exists ((c + 2 ^ k - 1) / 2 ^ k). }
  { lia. }
  { unfold last. lia. }
  { lia. }
  { replace (k - Z.of_nat (Z.to_nat k)) with 0 by lia. apply Z.divide_1_l. }
  destruct (put_tail_spec last (seqZ cn (2 ^ k) ++ own) (Z.to_nat k) s1 fl1 (cn + 2 ^ k)) as (s2 & fl2 & E2 & HI2 & Hos2 & Ht2).
  { eapply huge_inv_perm; [|exact HI1]. rw !app_assoc. f_equiv. apply Permutation_app_comm. }
  { lia. }
  { done. }
  { rewrite -> Z2Nat.id by lia. apply Z.divide_add_r; [done|apply Z.divide_refl]. }
  { rewrite -> Z2Nat.id by lia. unfold last. lia. }
  exists cn, (cn + 2 ^ k), s1, fl2. split_and!; [|lia|done|].
  { apply (loop_mono (S (Z.to_nat k))); [unfold pieces_fuel; lia|done]. }
  exists s2. split_and!; [|done|congruence|].
  - apply (loop_mono (S (S (Z.to_nat k)))); [unfold pieces_fuel; lia|done].
  - intros x Hx. rewrite -> Ht2 by lia. apply Ht1. lia.
Qed.

(** The kernel does not map [n] chunks in this state. *)
Definition refuses (n : Z) s : Prop := exists o', mmap_chunk_aligned_block n (c_os s) = Some (0, o').

(** The chunks that a huge block of [size] bytes needs when there is none in the lists:
    twice its own, so that an aligned one can be cut out. *)
Definition huge_request (size : Z) : Z := 2 * Z.max 1 (hyperceil size / chunksize).

Lemma get_power_of_two_spec s fl own k : huge_inv s fl own -> 0 <= k <= 25 ->
  exists r s' fl', get_power_of_two_n_chunks (2 ^ k) s = Some (r, s') /\
    (forall x, x ∈ own -> entry (chunk_infos s') x = entry (chunk_infos s) x) /\
    ((r = 0 /\ huge_inv s' fl' own /\ refuses (2 * 2 ^ k) s) \/
     exists cn, r = cn * chunksize /\ 0 < cn /\ huge_inv s' fl' (chunks_of (cn, k) ++ own) /\ (2 ^ k | cn)).
Proof.
  intros HI Hk. unfold get_power_of_two_n_chunks, lg_of_power_of_two. rewrite -> ctz_pow2 by lia.
  assert (0 < 2 ^ k <= 2 ^ 25) as Hpk by (split; [apply Z.pow_pos_nonneg; lia|apply Z.pow_le_mono_r; lia]).
  destruct (get_chunks_spec s fl own k HI) as (r & s1 & fl1 & own1 & E1 & HI1 & Hos1 & Ht1 & Hr);
    [unfold log_max_chunknumber; lia|].
  rw (bind_Some _ _ _ _ _ E1). destruct Hr as [[-> ->]|(cn & -> & -> & Hd)].
  - cbn [negb Z.eqb]. rw uwrap_small; [unfold is_uint; lia|].
    destruct (mmap_chunk_spec (c_os s1) (2 * 2 ^ k)) as (p & o' & Em & Hm); [unfold log_max_chunknumber; lia|].
    set (s2 := Chunks o' (chunk_infos s1) (free_chunks s1)).
    assert (on_os (mmap_chunk_aligned_block (2 * 2 ^ k)) s1 = Some (p, s2)) as Eo by (unfold on_os, zoom; by rw Em).
    rw (bind_Some _ _ _ _ _ Eo). destruct Hm as [[-> Hsame]|[Hal Hm]].
    { exists 0, s2, fl1. split_and!; [done|by intros; simpl; rw Ht1|]. left. split_and!; [done|by apply huge_inv_same|].
      exists o'. by rw -Hos1. }
    assert (0 < p) as Hp by apply Hm. rewrite -> (proj2 (Z.eqb_neq p 0)) by lia.
    pose proof (block_chunk _ _ _ _ 0 Hm Hal ltac:(lia)) as Hch. rw Z.add_0_r in Hch.
    pose proof (chunk_number_self p Hch) as Hcn. set (c := address_2_chunknumber p) in *.
    assert (0 < c /\ c + 2 * 2 ^ k <= chunk_limit) as [Hc0 Hclim].
    { destruct Hm as [_ _ [_ Hs]]. change chunk_limit with (2 ^ 26). unfold user_space, chunksize, log_chunksize in *. lia. }
    cbv zeta. change chunk_limit with (2 ^ 26) in Hclim. rewrite -> uadd_small by lia.
    rw -Hcn in Hm. pose proof (huge_inv_grow s1 fl1 own o' c (2 * 2 ^ k) HI1 ltac:(lia) Hm) as HI2.
    destruct (cut_block_spec s2 fl1 own k c Hk Hc0 Hclim HI2) as (cn & c1 & s3 & fl3 & E3 & Hcn0 & Hd & s4 & E4 & HI4 & _ & Ht4).
    rw (bind_Some _ _ _ _ _ E3) (bind_Some _ _ _ _ _ E4).
    rw bind_bassert; [apply negb_true_iff, Z.eqb_neq; unfold chunksize, log_chunksize; lia|].
    exists (cn * chunksize), s4, fl3. split_and!; [done| |right; by exists cn].
    intros x Hx. rewrite -> Ht4 by (by apply (own_not_fresh s1 fl1 own o')). simpl. by rw Ht1.
  - assert (0 < cn) as Hcn.
    { apply (hi_range _ _ _ HI1). apply elem_of_app. right. apply elem_of_app. left. apply (chunks_of_start (cn, k)). simpl. lia. }
    rewrite -> (proj2 (Z.eqb_neq (cn * chunksize) 0)) by (unfold chunksize, log_chunksize; lia). simpl.
    exists (cn * chunksize), s1, fl1. split_and!; [done|by intros; rw Ht1|]. right. by exists cn.
Qed.

Lemma set_info_spec s fl own cn v : huge_inv s fl own -> cn ∈ own ->
  huge_inv (Chunks (c_os s) (<[cn := v]> (chunk_infos s)) (free_chunks s)) fl own.
Proof.
  intros HI Hcn. pose proof (threads_insert _ _ _ _ v HI Hcn). pose proof (hi_range _ _ _ HI cn ltac:(apply elem_of_app; by right)).
  destruct HI. split; try done. simpl. by rewrite -> entry_insert_ne by lia.
Qed.

(** A single chunk from the system. *)
Lemma new_chunk_spec s fl own : huge_inv s fl own ->
  exists r s', on_os (mmap_chunk_aligned_block 1) s = Some (r, s') /\ chunk_infos s' = chunk_infos s /\
    ((r = 0 /\ huge_inv s' fl own /\ refuses 1 s) \/ (is_chunk r /\ huge_inv s' fl (address_2_chunknumber r :: own))).
Proof.
  intros HI. destruct (mmap_chunk_spec (c_os s) 1) as (r & o' & E & H); [unfold log_max_chunknumber; lia|].
  exists r, (Chunks o' (chunk_infos s) (free_chunks s)). split; [unfold on_os, zoom; by rw E|]. split; [done|].
  destruct H as [[-> Hsame]|[Hal Hm]]; [left|right].
  { split_and!; [done|by apply huge_inv_same|]. by exists o'. }
  pose proof (block_chunk _ _ _ _ 0 Hm Hal ltac:(lia)) as Hc. rw Z.add_0_r in Hc. split; [done|].
  rewrite <- (chunk_number_self r Hc) in Hm. by apply (huge_inv_grow s fl own o' (address_2_chunknumber r) 1).
Qed.

(** What the table says of a block that was handed out for [size] bytes at [a]. *)
Record huge_live s (a size cn k : Z) : Prop := {
  hl_address : a = cn * chunksize;
  hl_number : 0 < cn < chunk_limit;
  hl_size : size <= 2 ^ k * chunksize;
  hl_log : 0 <= k <= 25;
  hl_aligned : (2 ^ k | cn);
  hl_hyperceil : (hyperceil size | 2 ^ k * chunksize);
  hl_entry : entry (chunk_infos s) cn <> 0;
  hl_bin : bin_from_bin_and_size (entry (chunk_infos s) cn) = Some (first_huge_bin_number + k);
  hl_request : huge_request size = 2 * 2 ^ k;
}.

Lemma huge_chunks size : 0 <= size <= 2 ^ 46 -> exists k, 0 <= k <= 25 /\
  uwrap 32 (Z.max 1 (hyperceil size / chunksize)) = 2 ^ k /\ huge_request size = 2 * 2 ^ k /\ size <= 2 ^ k * chunksize /\
  (hyperceil size | 2 ^ k * chunksize).
Proof.
  intros Hs. unfold huge_request. destruct (hyperceil_spec size) as (j & Hj & -> & Hle & Hlt); [lia|].
  assert (j <= 46).
  { destruct Hlt as [->|Hlt]; [lia|]. assert (j - 1 < 46); [|lia]. apply (Z.pow_lt_mono_r_iff 2); lia. }
  change chunksize with (2 ^ 21). destruct (Z.le_gt_cases j 21) as [H21|H21].
  - assert (2 ^ j <= 2 ^ 21) by (apply Z.pow_le_mono_r; lia).
    exists 0. assert (2 ^ j / 2 ^ 21 <= 1) by (apply Z.div_le_upper_bound; lia). rewrite -> Z.max_l by lia. split_and!; [lia..|done|done| |].
    + lia.
    + apply (pow_divide_mono j 21); [lia|]. by exists 1.
  - exists (j - 21). replace (2 ^ j / 2 ^ 21) with (2 ^ (j - 21)).
    + assert (0 < 2 ^ (j - 21) <= 2 ^ 25) by (split; [apply Z.pow_pos_nonneg; lia|apply Z.pow_le_mono_r; lia]).
      rewrite -> Z.max_r by lia. rw uwrap_small; [unfold is_uint; lia|].
      rewrite <- Z.pow_add_r by lia. rw Z.sub_add. split_and!; [lia..|done|done|lia|apply Z.divide_refl].
    + rewrite -> Z.pow_sub_r by lia. done.
Qed.

Lemma own_start cn k own : 0 <= k -> cn ∈ chunks_of (cn, k) ++ own.
Proof. intros Hk. apply elem_of_app. left. by apply (chunks_of_start (cn, k)). Qed.

Lemma madvise_spec s p size adv : exists r o', on_os (madvise p size adv) s = Some (r, Chunks o' (chunk_infos s) (free_chunks s)) /\
  same_space (c_os s) o' /\
  (adv = MADV_DONTNEED -> 0 < size -> p mod pagesize = 0 -> (forall x, p <= x < p + size -> mapped (kern (c_os s)) x) -> r = true).
Proof.
  destruct (madvise_same (c_os s) p size adv) as (r & o' & E & H). exists r, o'. split; [|done]. unfold on_os, zoom. by rw E.
Qed.

Lemma advise_block_spec s c n size : exists o',
  advise_block c n size s = Some (tt, Chunks o' (chunk_infos s) (free_chunks s)) /\ same_space (c_os s) o'.
Proof.
  unfold advise_block. cbv zeta. destruct (madvise_spec s c (umul 64 n chunksize) MADV_DONTNEED) as (r1 & o1 & E1 & H1 & _).
  rw (bind_Some _ _ _ _ _ E1). destruct ((_ =? 0) || _).
  - destruct (madvise_spec (Chunks o1 (chunk_infos s) (free_chunks s)) c (umul 64 n chunksize) MADV_HUGEPAGE) as (r2 & o2 & E2 & H2 & _).
    rw (bind_Some _ _ _ _ _ E2). exists o2. split; [done|by etrans].
  - set (s1 := Chunks o1 (chunk_infos s) (free_chunks s)).
    assert (exists r2 o2, (if 0 <? size / chunksize then on_os (madvise c (size / chunksize * chunksize) MADV_HUGEPAGE) else mret true) s1 =
      Some (r2, Chunks o2 (chunk_infos s) (free_chunks s)) /\ same_space o1 o2) as (r2 & o2 & E2 & H2).
    { case_ltb; [|by exists true, o1]. destruct (madvise_spec s1 c (size / chunksize * chunksize) MADV_HUGEPAGE) as (r & o2 & E & Hs & _). by exists r, o2. }
    destruct (madvise_spec (Chunks o2 (chunk_infos s) (free_chunks s)) (c + size / chunksize * chunksize) (size - size / chunksize * chunksize)
      MADV_NOHUGEPAGE) as (r3 & o3 & E3 & H3 & _). exists o3. unfold mbind in *. unfold M_bind in *. rw E2 E3. split; [done|]. etrans; [exact H1|by etrans].
Qed.

(** All bytes of a block that was handed out are mapped. *)
Lemma block_bytes_mapped s fl own cn k x : huge_inv s fl own -> chunks_of (cn, k) ⊆ own -> 
  cn * chunksize <= x < cn * chunksize + 2 ^ k * chunksize -> mapped (kern (c_os s)) x.
Proof.
  intros HI Hsub Hx. assert (0 < chunksize) by done. pose proof (Z.div_mod x chunksize ltac:(lia)). pose proof (Z.mod_pos_bound x chunksize ltac:(lia)).
  apply (hi_mapped _ _ _ HI (x / chunksize)); [|lia]. apply elem_of_app. right. apply Hsub, elem_of_chunks_of. cbn [fst snd].
  split; [apply Z.div_le_lower_bound; lia|apply Z.div_lt_upper_bound; lia].
Qed.

Lemma huge_malloc_spec s fl own size : huge_inv s fl own -> 0 <= size <= 2 ^ 46 ->
  exists r s' fl', huge_malloc size s = Some (r, s') /\
    (forall x, x ∈ own -> entry (chunk_infos s') x = entry (chunk_infos s) x) /\
    ((r = 0 /\ huge_inv s' fl' own /\ refuses (huge_request size) s) \/
     exists cn k, huge_live s' r size cn k /\ huge_inv s' fl' (chunks_of (cn, k) ++ own)).
Proof.
  intros HI Hs. destruct (huge_chunks size Hs) as (k & Hk & En & Eq & Hle & Hd). unfold huge_malloc. rw En Eq.
  destruct (get_power_of_two_spec s fl own k HI Hk) as (r & s0 & fl1 & E1 & Ht0 & Hr).
  rw (bind_Some _ _ _ _ _ E1). destruct Hr as [[-> HI1]|(cn & -> & Hcn & HI0 & Hal)].
  { exists 0, s0, fl1. split_and!; [done..|]. by left. }
  destruct (advise_block_spec s0 (cn * chunksize) (2 ^ k) size) as (o1 & E2 & Hsame).
  pose proof (huge_inv_same _ _ _ _ HI0 Hsame) as HI1. set (s1 := Chunks o1 (chunk_infos s0) (free_chunks s0)) in *.
  assert (forall x, x ∈ own -> entry (chunk_infos s1) x = entry (chunk_infos s) x) as Ht1 by done.
  assert (cn < 2 ^ 26) by (apply (hi_range _ _ _ HI1 cn), elem_of_app; right; apply own_start; lia).
  rewrite -> (proj2 (Z.eqb_neq (cn * chunksize) 0)) by (unfold chunksize, log_chunksize; lia). rw (bind_Some _ _ _ _ _ E2).
  assert (address_2_chunknumber (cn * chunksize) = cn) as ->.
  { unfold address_2_chunknumber, log_max_chunknumber. rw Z.div_mul // Z.mod_small //. lia. }
  assert (0 < 2 ^ k <= 2 ^ 25) by (split; [apply Z.pow_pos_nonneg; lia|apply Z.pow_le_mono_r; lia]).
  assert (size_2_bin (umul 64 (2 ^ k) chunksize) = first_huge_bin_number + k) as ->.
  { unfold umul. rw uwrap_small; [unfold is_uint, chunksize, log_chunksize; lia|].
    change chunksize with (2 ^ 21). rewrite <- Z.pow_add_r by lia.
    apply size_2_bin_of_bin; [|apply Z.pow_le_mono_r; lia].
    replace (first_huge_bin_number + k) with (26 + (k + 21)) by (unfold first_huge_bin_number; lia).
    apply huge_bin_size. lia. }
  destruct (bin_and_size_encode (first_huge_bin_number + k) size) as (e & Ee & He0 & Heb);
    [unfold first_huge_bin_number; lia|].
  cbv zeta. rw (bind_the _ _ _ _ Ee). rw bind_bassert; [by apply negb_true_iff, Z.eqb_neq|].
  unfold set_info. rw bind_modify.
  exists (cn * chunksize), (Chunks (c_os s1) (<[cn := e]> (chunk_infos s1)) (free_chunks s1)), fl1.
  split_and!; [done| |].
  - intros x Hx. simpl. rewrite -> entry_insert_ne; [by apply Ht1|]. intros ->.
    pose proof (hi_disjoint _ _ _ HI1) as Hnd. unfold all_chunks in Hnd. apply NoDup_app in Hnd as (_ & _ & Hnd).
    apply NoDup_app in Hnd as (_ & Hnd & _). apply (Hnd x); [|done]. by apply (chunks_of_start (x, k)); simpl; lia.
  - right. exists cn, k. split.
    + split; simpl; [done|by split|done..|by rw entry_insert|by rw entry_insert|done].
    + apply set_info_spec; [done|]. apply own_start. lia.
Qed.

Lemma huge_free_spec s fl own a size cn k : huge_inv s fl (chunks_of (cn, k) ++ own) -> huge_live s a size cn k ->
  exists s' fl', huge_free a s = Some (tt, s') /\ huge_inv s' fl' own /\
    forall x, x <> cn -> entry (chunk_infos s') x = entry (chunk_infos s) x.
Proof.
  intros HI [-> Hcn _ Hk Hal _ He Hb]. unfold huge_free. change chunk_limit with (2 ^ 26) in Hcn.
  assert (0 < 2 ^ k <= 2 ^ 25) by (split; [apply Z.pow_pos_nonneg; lia|apply Z.pow_le_mono_r; lia]).
  assert (Z.land (cn * chunksize) (uwrap 64 (Z.lnot 4095)) = cn * chunksize) as ->.
  { change 4095 with (2 ^ 12 - 1). unfold chunksize, log_chunksize.
    rw mask_down; [lia|unfold is_uint; lia|]. change (2 ^ 21) with (2 ^ 9 * 2 ^ 12). rw Z.mul_assoc Z.div_mul //. }
  rw bind_bassert.
  { apply Z.eqb_eq. unfold chunksize, log_chunksize. rewrite -> land_pow2 by lia. by apply Z.mod_mul. }
  assert (address_2_chunknumber (cn * chunksize) = cn) as ->.
  { unfold address_2_chunknumber, log_max_chunknumber. rw Z.div_mul // Z.mod_small //. lia. }
  cbv zeta. rw bind_bassert; [apply negb_true_iff, Z.eqb_neq; lia|]. unfold get_info. rw bind_gets.
  rw bind_bassert; [by apply negb_true_iff, Z.eqb_neq|]. rw (bind_the _ _ _ _ Hb).
  assert (bin_2_size (first_huge_bin_number + k) = Some (2 ^ (21 + k))) as Hsz.
  { replace (first_huge_bin_number + k) with (26 + (21 + k)) by (unfold first_huge_bin_number; lia).
    apply huge_bin_size. lia. }
  rw (bind_the _ _ _ _ Hsz).
  assert (uwrap 32 (ceil (2 ^ (21 + k)) chunksize) = 2 ^ k) as ->.
  { unfold ceil, chunksize, log_chunksize. rewrite -> Z.pow_add_r by lia.
    rw (uwrap_small 64); [unfold is_uint; lia|]. replace (2 ^ 21 * 2 ^ k + 2 ^ 21 - 1) with (2 ^ k * 2 ^ 21 + (2 ^ 21 - 1)) by lia.
    rw Z.div_add_l // Z.div_small // Z.add_0_r uwrap_small //. unfold is_uint. lia. }
  assert (hyperceil (2 ^ k) = 2 ^ k) as ->.
  { destruct (hyperceil_spec (2 ^ k)) as (j & Hj & -> & Hle & Hlt); [lia|]. f_equal.
    apply (Z.pow_le_mono_r_iff 2) in Hle; [|lia..].
    destruct Hlt as [->|Hlt]; [lia|]. assert (j - 1 < k); [|lia]. apply (Z.pow_lt_mono_r_iff 2); lia. }
  unfold lg_of_power_of_two. rewrite -> ctz_pow2 by lia. rw bind_bassert; [apply Z.ltb_lt; unfold log_max_chunknumber; lia|].
  destruct (madvise_spec s (cn * chunksize) (2 ^ (21 + k)) MADV_DONTNEED) as (r & o1 & E1 & Hsame & Hok).
  rw (bind_Some _ _ _ _ _ E1). rw bind_bassert.
  { apply Hok; [done|by apply Z.pow_pos_nonneg; lia|apply page_chunks|]. intros x Hx.
    apply (block_bytes_mapped s fl (chunks_of (cn, k) ++ own) cn k x HI); [by intros y Hy; apply elem_of_app; left|].
    rewrite -> Z.pow_add_r in Hx by lia. unfold chunksize, log_chunksize in *. lia. }
  destruct (put_chunks_spec _ fl own cn k (huge_inv_same _ _ _ _ HI Hsame)) as (s' & fl' & E & HI' & _ & Ht); [unfold log_max_chunknumber; lia|done|].
  exists s', fl'. split_and!; [by rw E|done|done].
Qed.
End invariant.

(** ** A client *)

Inductive huge_op : Set := HMalloc (size : Z) | HFree (i : nat).

Definition huge_op_ok (op : huge_op) : Prop :=
  match op with
  | HMalloc size => 0 <= size <= 2 ^ 46
  | HFree _ => True
  end.

Section client.
Context {K : Kernel}.

(** The client holds the addresses and the sizes of its blocks. *)
Definition huge_exec (op : huge_op) (held : list (Z * Z)) : M (chunks K) (list (Z * Z)) :=
  match op with
  | HMalloc size => r ← huge_malloc size; mret (if r =? 0 then held else (r, size) :: held)
  | HFree i =>
      match held !! i with
      | Some (a, _) => huge_free a;; mret (delete i held)
      | None => mret held
      end
  end.

Fixpoint huge_script (ops : list huge_op) (held : list (Z * Z)) : M (chunks K) (list (Z * Z)) :=
  match ops with
  | [] => mret held
  | op :: ops => held ← huge_exec op held; huge_script ops held
  end.

Definition no_chunks (o : os K) : chunks K := Chunks o ∅ (replicate (Z.to_nat log_max_chunknumber) 0).
End client.

Section client_specs.
Context {K : Kernel} {KO : KernelOk K}.
Implicit Type s : chunks K.

Record huge_rep s (held live : list (Z * Z)) : Prop := {
  hr_inv : exists fl, huge_inv s fl (live ≫= chunks_of);
  hr_live : Forall2 (fun h b => huge_live s h.1 h.2 b.1 b.2) held live;
}.

Lemma no_chunks_inv (o : os K) : huge_inv (no_chunks o) (replicate (Z.to_nat log_max_chunknumber) []) [].
Proof.
  split; [by apply Forall2_replicate|by rw length_replicate|..]; unfold all_chunks; simpl;
    [constructor|by intros ? ?%elem_of_nil..|by intros ? ? ?%elem_of_nil|done].
Qed.

Lemma huge_rep_init o : huge_rep (no_chunks o) [] [].
Proof. split; [|constructor]. eexists. apply no_chunks_inv. Qed.

Lemma huge_live_frame s s' a size cn k :
  entry (chunk_infos s') cn = entry (chunk_infos s) cn -> huge_live s a size cn k -> huge_live s' a size cn k.
Proof. intros E []. split; try done; by rw E. Qed.

Lemma live_own s held live cn k :
  Forall2 (fun h b => huge_live s h.1 h.2 b.1 b.2) held live -> (cn, k) ∈ live -> cn ∈ live ≫= chunks_of.
Proof.
  intros HF Hb. apply list_elem_of_bind. exists (cn, k). split; [|done]. apply (chunks_of_start (cn, k)).
  apply list_elem_of_lookup in Hb as [i Hi]. destruct (Forall2_lookup_r _ _ _ _ _ HF Hi) as (h & _ & Hl).
  by destruct (hl_log _ _ _ _ _ Hl).
Qed.

Lemma huge_exec_spec s held live op : huge_rep s held live -> huge_op_ok op ->
  exists held' s' live', huge_exec op held s = Some (held', s') /\ huge_rep s' held' live'.
Proof.
  intros [[fl HI] HF] Hop. destruct op as [size|i]; simpl in *.
  - destruct (huge_malloc_spec s fl _ size HI Hop) as (r & s' & fl' & E & Ht & Hr). rw (bind_Some _ _ _ _ _ E).
    assert (Forall2 (fun h b => huge_live s' h.1 h.2 b.1 b.2) held live) as HF'.
    { apply (Forall2_impl_lookup _ _ _ _ HF). intros j h b _ Hb. apply huge_live_frame, Ht.
      by apply (live_own s held live b.1 b.2 HF); rw -surjective_pairing; eapply list_elem_of_lookup_2. }
    destruct Hr as [(-> & HI' & _)|(cn & k & Hl & HI')].
    + exists held, s', live. split; [done|]. split; [by exists fl'|done].
    + rewrite -> (proj2 (Z.eqb_neq r 0)).
      * exists ((r, size) :: held), s', ((cn, k) :: live). split; [done|]. split; [by exists fl'|by constructor].
      * destruct Hl as [-> Hcn]. unfold chunksize, log_chunksize. lia.
  - destruct (held !! i) as [[a size]|] eqn:Hi.
    + destruct (Forall2_lookup_l _ _ _ _ _ HF Hi) as ([cn k] & Hb & Hl). simpl in Hl.
      assert (live ≫= chunks_of ≡ₚ chunks_of (cn, k) ++ (delete i live ≫= chunks_of)) as Hp.
      { by rewrite -> (delete_Permutation live i (cn, k)) at 1. }
      destruct (huge_free_spec s fl (delete i live ≫= chunks_of) a size cn k) as (s' & fl' & E & HI' & Ht);
        [by apply (huge_inv_perm _ _ _ _ Hp)|done|].
      rw (bind_Some _ _ _ _ _ E). exists (delete i held), s', (delete i live). split; [done|]. split; [by exists fl'|].
      apply (Forall2_impl_lookup _ _ _ _ (Forall2_delete _ _ _ i HF)). intros j h [cn' k'] _ Hj. apply huge_live_frame, Ht. simpl.
      intros ->. pose proof (hi_disjoint _ _ _ HI) as Hnd. unfold all_chunks in Hnd. rw Hp in Hnd.
      apply NoDup_app in Hnd as (_ & _ & (_ & Hnd & _)%NoDup_app). apply (Hnd cn).
      * apply (chunks_of_start (cn, k)). simpl. by destruct (hl_log _ _ _ _ _ Hl).
      * apply (live_own s (delete i held) _ _ k' (Forall2_delete _ _ _ i HF)). by eapply list_elem_of_lookup_2.
    + exists held, s, live. split; [done|]. split; [by exists fl|done].
Qed.

Lemma huge_script_spec ops : forall s held live, huge_rep s held live -> Forall huge_op_ok ops ->
  exists held' s' live', huge_script ops held s = Some (held', s') /\ huge_rep s' held' live'.
Proof.
  induction ops as [|op ops IH]; intros s held live HR Hops; simpl.
  - by exists held, s, live.
  - apply Forall_cons in Hops as [Hop Hops].
    destruct (huge_exec_spec s held live op HR Hop) as (held1 & s1 & live1 & E & HR1).
    rw (bind_Some _ _ _ _ _ E). by apply (IH s1 held1 live1).
Qed.

(** Blocks with no chunk in common do not overlap. *)
Lemma blocks_apart a b : 0 <= a.2 -> 0 <= b.2 -> (forall x, x ∈ chunks_of a -> x ∉ chunks_of b) ->
  a.1 + 2 ^ a.2 <= b.1 \/ b.1 + 2 ^ b.2 <= a.1.
Proof.
  intros Ha Hb Hd. pose proof (Z.pow_pos_nonneg 2 a.2). pose proof (Z.pow_pos_nonneg 2 b.2).
  specialize (Hd (Z.max a.1 b.1)). rw !elem_of_chunks_of in Hd. lia.
Qed.

(** The bytes of the chunks of a block of [n] bytes. *)
Definition huge_extent (n : Z) : Z := huge_request n / 2 * chunksize.

Lemma live_extent s a n cn k : huge_live s a n cn k -> huge_extent n = 2 ^ k * chunksize.
Proof. intros Hl. unfold huge_extent. rw (hl_request _ _ _ _ _ Hl) (Z.mul_comm 2) Z.div_mul //. Qed.

Lemma huge_rep_apart s held live i j a n b m : huge_rep s held live ->
  i <> j -> held !! i = Some (a, n) -> held !! j = Some (b, m) -> a + huge_extent n <= b \/ b + huge_extent m <= a.
Proof.
  intros [[fl HI] HF] Hij Hi Hj. destruct (Forall2_lookup_l _ _ _ _ _ HF Hi) as (x & Hx & Hlx).
  destruct (Forall2_lookup_l _ _ _ _ _ HF Hj) as (y & Hy & Hly). simpl in *.
  pose proof (hi_disjoint _ _ _ HI) as Hnd. unfold all_chunks in Hnd. apply NoDup_app in Hnd as (_ & _ & Hnd).
  rw (live_extent _ _ _ _ _ Hlx) (live_extent _ _ _ _ _ Hly).
  destruct Hlx as [-> _ _ Hkx _ _ _ _]. destruct Hly as [-> _ _ Hky _ _ _ _].
  destruct (blocks_apart x y) as [H|H]; [lia|lia| | |].
  - intros z Hzx Hzy. apply Hij. by apply (NoDup_bind_disjoint chunks_of live i j x y z).
  - left. unfold chunksize, log_chunksize in *. lia.
  - right. unfold chunksize, log_chunksize in *. lia.
Qed.

Lemma huge_rep_block s held live i a n : huge_rep s held live -> held !! i = Some (a, n) ->
  0 < a /\ n <= huge_extent n /\ (huge_extent n | a) /\ (hyperceil n | a) /\
  forall x, a <= x < a + huge_extent n -> mapped (kern (c_os s)) x.
Proof.
  intros [[fl HI] HF] Hi. destruct (Forall2_lookup_l _ _ _ _ _ HF Hi) as ([cn k] & Hb & Hl). simpl in *.
  rw (live_extent _ _ _ _ _ Hl). destruct Hl as [-> Hcn Hs Hk [q Hq] Hd _ _ _].
  assert (2 ^ k * chunksize | cn * chunksize) as Hdiv by (exists q; rw Hq; lia).
  split_and!; [unfold chunksize, log_chunksize; lia|done|done|by etrans|].
  intros x. apply (block_bytes_mapped s fl (live ≫= chunks_of) cn k x HI). intros y Hy. apply list_elem_of_bind.
  exists (cn, k). split; [done|]. by eapply list_elem_of_lookup_2.
Qed.

(** A request adds a block unless the kernel refuses. *)
Lemma huge_rep_malloc s held live size : huge_rep s held live -> 0 <= size <= 2 ^ 46 ->
  exists s', (exists a, huge_exec (HMalloc size) held s = Some ((a, size) :: held, s')) \/
    (huge_exec (HMalloc size) held s = Some (held, s') /\ refuses (huge_request size) s).
Proof.
  intros [[fl HI] _] Hs. destruct (huge_malloc_spec s fl _ size HI Hs) as (r & s' & fl' & E & _ & Hr). exists s'. cbn [huge_exec].
  rw (bind_Some _ _ _ _ _ E). destruct Hr as [(-> & _ & Hno)|(cn & k & Hl & _)]; [by right|left].
  exists r. rewrite -> (proj2 (Z.eqb_neq r 0)); [done|]. destruct Hl as [-> Hcn]. unfold chunksize, log_chunksize. lia.
Qed.
End client_specs.

(** ** Huge blocks as a whole *)

(** C13. Huge blocks never overlap: whatever sequence of [huge_malloc] and
    [huge_free] a client makes, on whatever kernel, no assertion fails, not even
    that of the answer of [madvise]; a block of the client is a run of whole
    chunks, as many as the power of two above its size takes, aligned to the
    length of the run and all mapped; the runs of two blocks are apart; and one
    more [huge_malloc] gives a block unless the kernel refuses to map twice its run. *)
Theorem huge_blocks_apart (K : Kernel) (KO : KernelOk K) (o : os K) ops :
  Forall huge_op_ok ops ->
  exists held s, huge_script ops [] (no_chunks o) = Some (held, s) /\
    (forall i a n, held !! i = Some (a, n) ->
       0 < a /\ n <= huge_extent n /\ (huge_extent n | a) /\ (hyperceil n | a) /\
       forall x, a <= x < a + huge_extent n -> mapped (kern (c_os s)) x) /\
    (forall i j a n b m, i <> j -> held !! i = Some (a, n) -> held !! j = Some (b, m) ->
       a + huge_extent n <= b \/ b + huge_extent m <= a) /\
    (forall size, 0 <= size <= 2 ^ 46 -> exists s',
       (exists a, huge_exec (HMalloc size) held s = Some ((a, size) :: held, s')) \/
       (huge_exec (HMalloc size) held s = Some (held, s') /\ refuses (huge_request size) s)).
Proof.
  intros Hops. destruct (huge_script_spec ops (no_chunks o) [] [] (huge_rep_init o) Hops) as (held & s & live & E & HR).
  exists held, s. split_and!; [done|by intros i a n; apply (huge_rep_block s held live)| |by intros size; apply (huge_rep_malloc s held live)].
  intros i j a n b m. by apply (huge_rep_apart s held live).
Qed.

Definition sample_huge_script : list huge_op :=
  [HMalloc (5 * chunksize); HMalloc 3000000; HFree 1; HMalloc (8 * chunksize); HMalloc 1; HFree 0].

Lemma huge_blocks_apart_witness : exists held s,
  huge_script sample_huge_script [] (no_chunks (simple_os 1)) = Some (held, s) /\
    (forall i a n, held !! i = Some (a, n) ->
       0 < a /\ n <= huge_extent n /\ (huge_extent n | a) /\ (hyperceil n | a) /\
       forall x, a <= x < a + huge_extent n -> mapped (kern (c_os s)) x) /\
    (forall i j a n b m, i <> j -> held !! i = Some (a, n) -> held !! j = Some (b, m) ->
       a + huge_extent n <= b \/ b + huge_extent m <= a) /\
    (forall size, 0 <= size <= 2 ^ 46 -> exists s',
       (exists a, huge_exec (HMalloc size) held s = Some ((a, size) :: held, s')) \/
       (huge_exec (HMalloc size) held s = Some (held, s') /\ refuses (huge_request size) s)).
Proof.
  apply (huge_blocks_apart (simple_kernel 1) (simple_kernel_ok 1) (simple_os 1)).
  repeat constructor; done.
Defined.

(** The freed block of eight chunks is used again. *)
Example huge_reuse :
  (fun r => r.1) <$> huge_script (take 1 sample_huge_script) [] (no_chunks (simple_os 1)) =
    Some [(8 * chunksize, 5 * chunksize)] /\
  (fun r => r.1) <$> huge_script sample_huge_script [] (no_chunks (simple_os 1)) =
    Some [(8 * chunksize, 8 * chunksize); (2 * chunksize, 3000000)].
Proof. by vm_compute. Qed.
