(* ===== verification/Small.v ===== *)
(** * src/memory/small_malloc.cpp: objects that share a folio.

    A chunk of small objects starts with the headers of its folios.  A header has
    the bitmap of the objects that are in use, and links the folio in the list of
    the folios of its bin with the same number of free objects. *)
From S2P Require Import Prelude Words StateMonad Sizeclass Makechunk Huge.
#[local] Open Scope Z_scope.

Definition folio_bitmap_n_words : nat := 32.

Record per_folio : Set := PerFolio { next : Z; prev : Z; inuse_bitmap : list Z }.

Definition zero_folio : per_folio := PerFolio 0 0 (replicate folio_bitmap_n_words 0).

Section code.
Context {K : Kernel}.

(** The global variable [dsbi] is [lists] and [fullest_offset]; [folios] has the
    headers, by their addresses. *)
Record small : Type := Small {
  s_chunks : chunks K;
  lists : gmap Z Z;
  fullest_offset : gmap Z Z;
  folios : gmap Z per_folio;
}.

Definition on_chunks {A} (m : M (chunks K) A) : M small A :=
  zoom s_chunks (fun c s => Small c (lists s) (fullest_offset s) (folios s)) m.

(** [dsbi.lists.b[i]] *)
Definition get_list (i : Z) : M small Z := fun s =>
  if (0 <=? i) && (i <? dynamic_small_bin_info_b) then Some (entry (lists s) i, s) else None.
Definition set_list (i v : Z) : M small unit := fun s =>
  if (0 <=? i) && (i <? dynamic_small_bin_info_b) then
    Some (tt, Small (s_chunks s) (<[i := v]> (lists s)) (fullest_offset s) (folios s))
  else None.

Definition get_fullest (bin : Z) : M small Z := gets (fun s => entry (fullest_offset s) bin).
Definition set_fullest (bin v : Z) : M small unit :=
  modify (fun s => Small (s_chunks s) (lists s) (<[bin := uwrap 16 v]> (fullest_offset s)) (folios s)).

(** The fields behind a pointer to a header. *)
Definition get_folio (p : Z) : M small per_folio := fun s => the (folios s !! p) s.
Definition update_folio (f : per_folio -> per_folio) (p : Z) : M small unit := fun s =>
  match folios s !! p with
  | Some pf => Some (tt, Small (s_chunks s) (lists s) (fullest_offset s) (<[p := f pf]> (folios s)))
  | None => None
  end.
Definition with_next (v : Z) (pf : per_folio) : per_folio := PerFolio v (prev pf) (inuse_bitmap pf).
Definition with_prev (v : Z) (pf : per_folio) : per_folio := PerFolio (next pf) v (inuse_bitmap pf).
Definition with_bitmap (bm : list Z) (pf : per_folio) : per_folio := PerFolio (next pf) (prev pf) bm.

(** [if (p) p->prev = v;] *)
Definition set_prev_of (p v : Z) : M small unit :=
  if p =? 0 then mret tt else update_folio (with_prev v) p.

(** The address of [sch->ll[i]]. *)
Definition ll (sch i : Z) : Z := sch + sizeof_per_folio * i.

Definition do_small_malloc_add_pages_from_new_chunk (bin dsbi_offset sch : Z) : M small unit :=
  info ← the (static_bin bin);
  let o_per_folio := objects_per_folio info in
  old_h ← get_list (dsbi_offset + o_per_folio + 1);
  set_list (dsbi_offset + o_per_folio + 1) (ll sch 0);;
  update_folio (with_next old_h) (ll sch (folios_per_chunk info - 1));;
  fullest ← get_fullest bin;
  if fullest =? 0 then set_fullest bin o_per_folio else mret tt.

(** The first non-empty list from [new_fullest] on, among [n] of them; the last
    one counts as the one before. *)
Fixpoint find_fullest (dsbi_offset o_per_folio : Z) (n : nat) (new_fullest : Z) : M small Z :=
  match n with
  | O => mret 0
  | S n =>
      h ← get_list (dsbi_offset + new_fullest);
      if h =? 0 then find_fullest dsbi_offset o_per_folio n (new_fullest + 1)
      else mret (if new_fullest =? o_per_folio + 1 then o_per_folio else new_fullest)
  end.

(** The word and the bit of a free object, among [n] words from [w] on. *)
Fixpoint find_free_bit (bitmap : list Z) (n w : nat) : option (nat * Z) :=
  match n with
  | O => None
  | S n =>
      match bitmap !! w with
      | None => None
      | Some bw =>
          if bw =? 2 ^ 64 - 1 then find_free_bit bitmap n (S w)
          else Some (w, ctz (uwrap 64 (Z.lnot bw)))
      end
  end.

Definition set_bit (bitmap : list Z) (w : nat) (bit : Z) : list Z :=
  <[w := Z.lor (default 0 (bitmap !! w)) (Z.shiftl 1 bit)]> bitmap.

(** The list that [do_small_malloc] takes a folio from, and its first folio. *)
Definition fullest_folio (o_per_folio dsbi_offset fullest : Z) : M small (Z * Z) :=
  result_pp ← get_list (dsbi_offset + fullest);
  if (fullest =? o_per_folio) && (result_pp =? 0) then
    result_pp ← get_list (dsbi_offset + (fullest + 1));
    mret (fullest + 1, result_pp)
  else mret (fullest, result_pp).

(** The first folio of one list becomes the first of another. *)
Definition move_folio (result_pp from to : Z) : M small unit :=
  pf ← get_folio result_pp;
  set_list from (next pf);;
  set_prev_of (next pf) 0;;
  old_h_below ← get_list to;
  update_folio (with_next old_h_below) result_pp;;
  set_prev_of old_h_below result_pp;;
  set_list to result_pp.

(** The object of a free bit is taken; the bitmap is known to have one. *)
Definition take_object (info : static_bin_s) (result_pp o_size : Z) : M small Z :=
  pf ← get_folio result_pp;
  '(w, bit_to_set) ← the (find_free_bit (inuse_bitmap pf) (Z.to_nat (ceil (objects_per_folio info) 64)) 0);
  update_folio (with_bitmap (set_bit (inuse_bitmap pf) w bit_to_set)) result_pp;;
  let chunk_address := address_2_chunkaddress result_pp in
  let wasted_off := overhead_pages_per_chunk info * pagesize in
  let folio_num := offset_in_chunk result_pp / sizeof_per_folio in
  let folio_off := umul 64 folio_num (folio_size info) in
  let obj_off := umul 32 (uadd 32 (Z.of_nat w * 64) bit_to_set) o_size in
  mret (uwrap 64 (chunk_address + wasted_off + folio_off + obj_off)).

Definition do_small_malloc (bin dsbi_offset o_size : Z) : M small Z :=
  fullest ← get_fullest bin;
  if fullest =? 0 then mret 0
  else
    info ← the (static_bin bin);
    let o_per_folio := objects_per_folio info in
    '(fetch_offset, result_pp) ← fullest_folio o_per_folio dsbi_offset fullest;
    bassert (negb (result_pp =? 0));;
    move_folio result_pp (dsbi_offset + fetch_offset) (dsbi_offset + (fullest - 1));;
    (if 1 <? fullest then set_fullest bin (fullest - 1)
     else
       use_new_fullest ← find_fullest dsbi_offset o_per_folio (Z.to_nat (o_per_folio + 1)) 1;
       set_fullest bin use_new_fullest);;
    take_object info result_pp o_size.

(** The header of folio [i] of a new chunk. *)
Definition init_folio (sch folios_per_chunk : Z) (n_words : nat) (i : Z) : M small unit :=
  modify (fun s =>
    let old := default zero_folio (folios s !! ll sch i) in
    let pf := PerFolio (if i + 1 =? folios_per_chunk then 0 else ll sch (i + 1))
                (if i =? 0 then 0 else ll sch (i - 1))
                (replicate n_words 0 ++ drop n_words (inuse_bitmap old)) in
    Small (s_chunks s) (lists s) (fullest_offset s) (<[ll sch i := pf]> (folios s))).

(** A chunk whose folios are all free; [false] when there is none to be had. *)
Definition new_small_chunk (bin dsbi_offset : Z) : M small bool :=
  info ← the (static_bin bin);
  chunk ← on_chunks (on_os (mmap_chunk_aligned_block 1));
  if chunk =? 0 then mret false
  else
    b_and_s ← the (bin_and_size_to_bin_and_size bin 0);
    bassert (negb (b_and_s =? 0));;
    on_chunks (set_info (address_2_chunknumber chunk) b_and_s);;
    foreach (seqZ 0 (folios_per_chunk info))
      (init_folio chunk (folios_per_chunk info) (Z.to_nat (ceil (objects_per_folio info) 64)));;
    do_small_malloc_add_pages_from_new_chunk bin dsbi_offset chunk;;
    mret true.

Definition small_malloc_body (bin dsbi_offset o_size : Z) (_ : unit) : M small (unit + Z) :=
  fullest ← get_fullest bin;
  go ← (if fullest =? 0 then new_small_chunk bin dsbi_offset else mret true);
  if negb go then mret (inr 0)
  else
    result ← do_small_malloc bin dsbi_offset o_size;
    if result =? 0 then mret (inl tt)
    else
      b_and_s ← on_chunks (get_info (address_2_chunknumber result));
      b ← the (bin_from_bin_and_size b_and_s);
      bassert (b =? bin);;
      mret (inr result).

(** Without interference the first turn finds an object. *)
Definition small_malloc (bin : Z) : M small Z :=
  bassert (bin <? first_large_bin_number);;
  dsbi_offset ← the (dynamic_small_bin_offset bin);
  info ← the (static_bin bin);
  loop 1 (small_malloc_body bin dsbi_offset (uwrap 32 (object_size info))) tt.

Definition count_used (bitmap : list Z) (n : nat) : Z :=
  foldl (fun count w => uadd 32 count (popcount w)) 0 (take n bitmap).

(** Unlinking a folio from the list at [old_offset_dsbi]. *)
Definition unlink_folio (pp : Z) (pf : per_folio) (old_offset_dsbi : Z) : M small unit :=
  (if prev pf =? 0 then
     h ← get_list old_offset_dsbi;
     bassert (h =? pp);;
     set_list old_offset_dsbi (next pf)
   else update_folio (with_next (next pf)) (prev pf));;
  set_prev_of (next pf) (prev pf).

(** Putting a folio at the front of a list. *)
Definition link_folio (pp to : Z) : M small unit :=
  new_next ← get_list to;
  update_folio (fun pf => with_next new_next (with_prev 0 pf)) pp;;
  set_prev_of new_next pp;;
  set_list to pp.

Definition clear_bit (bitmap : list Z) (objnum : Z) : M small (list Z) :=
  old_bits ← the (bitmap !! Z.to_nat (objnum / 64));
  bassert (negb (Z.land old_bits (Z.shiftl 1 (objnum mod 64)) =? 0));;
  mret (<[Z.to_nat (objnum / 64) :=
    Z.land old_bits (uwrap 64 (Z.lnot (Z.shiftl 1 (objnum mod 64))))]> bitmap).

Definition do_small_free (bin pp objnum dsbi_offset : Z) : M small Z :=
  info ← the (static_bin bin);
  let o_per_folio := objects_per_folio info in
  pf ← get_folio pp;
  let old_count := count_used (inuse_bitmap pf) (Z.to_nat (ceil o_per_folio 64)) in
  bm ← clear_bit (inuse_bitmap pf) objnum;
  update_folio (with_bitmap bm) pp;;
  let old_offset_within := uwrap 32 (o_per_folio - old_count) in
  let new_offset_within := uadd 32 old_offset_within 1 in
  let old_offset_dsbi := uadd 32 dsbi_offset old_offset_within in
  let new_offset := uadd 32 old_offset_dsbi 1 in
  unlink_folio pp pf old_offset_dsbi;;
  fullest ← get_fullest bin;
  (if old_offset_within =? 0 then set_fullest bin new_offset_within
   else if (next pf =? 0) && (fullest =? old_offset_within) then set_fullest bin new_offset_within
   else mret tt);;
  bassert (new_offset <? dsbi_offset + o_per_folio + 1);;
  h ← get_list new_offset;
  if negb (new_offset =? dsbi_offset + o_per_folio) || (h =? 0) then
    link_folio pp new_offset;;
    mret 0
  else mret pp.

Definition small_free_post_madvise (pp total_dsbi_offset : Z) : M small unit :=
  link_folio pp total_dsbi_offset.

(** The answer of [madvise] is ignored. *)
Definition small_free (p : Z) : M small unit :=
  let chunk := address_2_chunkaddress p in
  let chunk_num := address_2_chunknumber p in
  b_and_s ← on_chunks (get_info chunk_num);
  bassert (negb (b_and_s =? 0));;
  bin ← the (bin_from_bin_and_size b_and_s);
  info ← the (static_bin bin);
  let wasted_offset := overhead_pages_per_chunk info * pagesize in
  let useful_offset := uwrap 64 (offset_in_chunk p - wasted_offset) in
  bassert (wasted_offset <=? p);;
  folio_num ← the (divide_offset_by_foliosize (uwrap 32 useful_offset) bin);
  let pp := ll chunk folio_num in
  let offset_in_folio := uwrap 32 (useful_offset - folio_num * uwrap 32 (folio_size info)) in
  objnum ← the (divide_offset_by_objsize offset_in_folio bin);
  dsbi_offset ← the (dynamic_small_bin_offset bin);
  madvise_me ← do_small_free bin pp objnum dsbi_offset;
  if madvise_me =? 0 then mret tt
  else
    bassert (madvise_me =? pp);;
    let madvise_address := uwrap 64 (chunk_num * chunksize + wasted_offset + uwrap 32 (folio_num * uwrap 32 (folio_size info))) in
    on_chunks (on_os (madvise madvise_address (uwrap 32 (folio_size info)) MADV_DONTNEED));;
    small_free_post_madvise pp (dsbi_offset + objects_per_folio info + 1).
End code.
Arguments small : clear implicits.

(** ** Bitmaps *)

Definition n_words (opf : Z) : nat := Z.to_nat (ceil opf 64).

Definition bit_at (bm : list Z) (k : Z) : bool := Z.testbit (default 0 (bm !! Z.to_nat (k / 64))) (k mod 64).

(** The number of objects in use. *)
Definition used (bm : list Z) (n : nat) : Z := foldr (fun w acc => popcount w + acc) 0 (take n bm).

Record bitmap_ok (opf : Z) (bm : list Z) : Prop := {
  bm_length : length bm = folio_bitmap_n_words;
  bm_words : Forall (is_uint 64) bm;
  bm_high k : opf <= k < 2048 -> bit_at bm k = false;
}.

(** A folio fills whole words of its bitmap, or has less than one. *)
Record per_folio_ok (opf : Z) : Prop := {
  opf_range : 1 <= opf <= 2048;
  opf_words : opf mod 64 = 0 \/ opf <= 64;
}.

Lemma small_per_folio bin info : static_bin bin = Some info -> bin < first_large_bin_number ->
  per_folio_ok (objects_per_folio info).
Proof.
  intros Hb Hlt. pose proof (static_bin_range _ _ Hb).
  by_table 0 40 (fun (_ : Z) (i : static_bin_s) => (1 <=? objects_per_folio i) && (objects_per_folio i <=? 2048) &&
    ((objects_per_folio i mod 64 =? 0) || (objects_per_folio i <=? 64))).
  destruct Hcheck as [[? ?] Hw]. split; [done|]. apply orb_true_iff in Hw as [Hw|Hw]; [left|right].
  - by apply Z.eqb_eq.
  - by apply Z.leb_le.
Qed.

Lemma n_words_eq opf : per_folio_ok opf -> Z.of_nat (n_words opf) = (opf + 63) / 64.
Proof.
  intros [Hr _]. unfold n_words, ceil. rw uwrap_small; [unfold is_uint; lia|].
  replace (opf + 64 - 1) with (opf + 63) by lia. rewrite -> Z2Nat.id; [done|]. apply Z.div_pos; lia.
Qed.

Lemma n_words_bound opf : per_folio_ok opf -> (1 <= n_words opf <= folio_bitmap_n_words)%nat /\ opf <= 64 * Z.of_nat (n_words opf).
Proof.
  intros Hok. pose proof (n_words_eq opf Hok). destruct Hok as [Hr _]. unfold folio_bitmap_n_words.
  pose proof (Z.div_mod (opf + 63) 64). pose proof (Z.mod_pos_bound (opf + 63) 64). lia.
Qed.

Lemma bitmap_word opf bm w : bitmap_ok opf bm -> (w < folio_bitmap_n_words)%nat ->
  exists bw, bm !! w = Some bw /\ is_uint 64 bw.
Proof.
  intros [Hl Hw _] Hlt. destruct (lookup_lt_is_Some_2 bm w) as [bw Hbw]; [by rw Hl|]. exists bw. split; [done|].
  rw Forall_lookup in Hw. by eapply Hw.
Qed.

Lemma popcount_ones w : 0 <= w -> popcount (2 ^ w - 1) = w.
Proof.
  intros Hw. pattern w. apply natlike_ind; [done| |done]. clear w Hw. intros w Hw IH.
  assert (0 < 2 ^ w) by (apply Z.pow_pos_nonneg; lia). rw Z.pow_succ_r // popcount_half; [lia|].
  replace (2 * 2 ^ w - 1) with (1 + (2 ^ w - 1) * 2) by lia.
  rw Z.mod_add // Z.div_add //. change (1 mod 2) with 1. change (1 / 2) with 0. rw Z.add_0_l IH. lia.
Qed.

Lemma used_insert bm n w x y : bm !! w = Some x -> (w < n)%nat ->
  used (<[w := y]> bm) n = used bm n - popcount x + popcount y.
Proof.
  unfold used. revert n w. induction bm as [|b bm IH]; intros n w Hw Hlt; [done|].
  destruct n as [|n]; [lia|]. destruct w as [|w]; simpl in *.
  - simplify_eq. lia.
  - rewrite -> (IH n w) by (done || lia). lia.
Qed.

Lemma used_bound bm n : Forall (is_uint 64) bm -> 0 <= used bm n <= 64 * Z.of_nat n.
Proof.
  unfold used. intros Hw. revert n. induction Hw as [|b bm Hb Hw IH]; intros n.
  - rw take_nil. simpl. lia.
  - destruct n as [|n]; [simpl; lia|]. simpl. specialize (IH n). pose proof (popcount_nonneg b).
    pose proof (popcount_le 64 b ltac:(lia) Hb). lia.
Qed.

Lemma count_used_used bm n : Forall (is_uint 64) bm -> (n <= folio_bitmap_n_words)%nat -> count_used bm n = used bm n.
Proof.
  intros Hw Hn. unfold count_used, folio_bitmap_n_words in *.
  assert (forall acc, 0 <= acc -> acc + 64 * Z.of_nat n < 2 ^ 32 ->
    foldl (fun count w => uadd 32 count (popcount w)) acc (take n bm) = acc + used bm n) as H; [|rewrite -> H by lia; lia].
  unfold used. clear Hn. revert n. induction Hw as [|b bm Hb Hw IH]; intros n acc H0 Hlt.
  - rw take_nil. simpl. lia.
  - destruct n as [|n]; [simpl; lia|]. simpl. pose proof (popcount_nonneg b).
    pose proof (popcount_le 64 b ltac:(lia) Hb). rewrite -> uadd_small by lia. rewrite -> IH by lia. lia.
Qed.

Lemma used_full bm n : (forall i, (i < n)%nat -> bm !! i = Some (2 ^ 64 - 1)) -> used bm n = 64 * Z.of_nat n.
Proof.
  intros Hf. unfold used. assert (take n bm = replicate n (2 ^ 64 - 1)) as ->.
  { apply list_eq. intros i. destruct (decide (i < n)%nat).
    - rewrite -> lookup_take_lt by done. rewrite -> lookup_replicate_2 by done. by apply Hf.
    - rewrite -> lookup_take_ge by lia. symmetry. apply lookup_ge_None_2. rw length_replicate. lia. }
  clear Hf. induction n as [|n IH]; [done|]. cbn [replicate foldr]. rw IH.
  change (popcount (2 ^ 64 - 1)) with 64. lia.
Qed.

Lemma find_free_cases bm n : forall w, (forall i, (w <= i < w + n)%nat -> is_Some (bm !! i)) ->
  (exists w' bw, find_free_bit bm n w = Some (w', ctz (uwrap 64 (Z.lnot bw))) /\ (w <= w' < w + n)%nat /\
    bm !! w' = Some bw /\ bw <> 2 ^ 64 - 1) \/
  (forall i, (w <= i < w + n)%nat -> bm !! i = Some (2 ^ 64 - 1)).
Proof.
  induction n as [|n IH]; intros w Hs; [right; intros i Hi; lia|]. simpl.
  destruct (Hs w) as [bw Hbw]; [lia|]. rw Hbw. case_eqb.
  - destruct (IH (S w)) as [(w' & bw & E & Hw & Hb & Hne)|Hall]; [intros i Hi; apply Hs; lia| |].
    + left. exists w', bw. split_and!; [done|lia|lia|done..].
    + right. intros i Hi. destruct (decide (i = w)) as [->|Hne]; [done|]. apply Hall. lia.
  - left. exists w, bw. split_and!; [done|lia|lia|done..].
Qed.

Lemma lnot_bit bw i : is_uint 64 bw -> 0 <= i < 64 -> Z.testbit (uwrap 64 (Z.lnot bw)) i = negb (Z.testbit bw i).
Proof. intros Hu Hi. rewrite -> uwrap_bit by lia. rewrite -> decide_True by lia. apply Z.lnot_spec; lia. Qed.

(** The lowest clear bit of a word that has one. *)
Lemma free_bit_spec bw : is_uint 64 bw -> bw <> 2 ^ 64 - 1 ->
  let bit := ctz (uwrap 64 (Z.lnot bw)) in
  0 <= bit < 64 /\ Z.testbit bw bit = false /\ forall i, 0 <= i < bit -> Z.testbit bw i = true.
Proof.
  intros Hu Hne bit. assert (0 < uwrap 64 (Z.lnot bw)) as Hp.
  { unfold uwrap. pose proof (Z.mod_pos_bound (Z.lnot bw) (2 ^ 64) ltac:(lia)).
    assert (Z.lnot bw mod 2 ^ 64 <> 0); [|lia]. unfold Z.lnot, is_uint in *. intros E.
    replace (Z.pred (- bw)) with (2 ^ 64 - 1 - bw + (-1) * 2 ^ 64) in E by lia.
    rw Z.mod_add // Z.mod_small in E; lia. }
  assert (0 <= bit < 64) as Hbit by (apply ctz_lt; [lia|done|apply uwrap_uint; lia]).
  split_and!; [lia..| |].
  - apply negb_true_iff. rw -lnot_bit //. by apply ctz_testbit.
  - intros i Hi. apply negb_false_iff. rewrite <- lnot_bit by (done || lia). by apply ctz_below.
Qed.

Lemma bit_at_word bm w bw i : bm !! w = Some bw -> 0 <= i < 64 -> bit_at bm (64 * Z.of_nat w + i) = Z.testbit bw i.
Proof.
  intros Hw Hi. unfold bit_at. replace ((64 * Z.of_nat w + i) / 64) with (Z.of_nat w).
  - rw Nat2Z.id Hw. simpl. f_equal. rw Z.add_comm Z.mul_comm Z.mod_add // Z.mod_small //.
  - symmetry. rw Z.mul_comm Z.div_add_l // Z.div_small //. lia.
Qed.

(** A folio that is not full has a free object, and the search finds it. *)
Lemma find_free_spec opf bm : per_folio_ok opf -> bitmap_ok opf bm -> used bm (n_words opf) < opf ->
  exists w bit, find_free_bit bm (n_words opf) 0 = Some (w, bit) /\ 0 <= bit < 64 /\ (w < n_words opf)%nat /\
    64 * Z.of_nat w + bit < opf /\ bit_at bm (64 * Z.of_nat w + bit) = false.
Proof.
  intros Hok Hbm Hu. destruct (n_words_bound opf Hok) as [Hn Hle]. pose proof (n_words_eq opf Hok) as Hnw.
  destruct (find_free_cases bm (n_words opf) 0) as [(w & bw & E & Hw & Hbw & Hne)|Hall].
  { intros i Hi. destruct (bitmap_word opf bm i) as (bw & Hb & _); [done|lia|]. by exists bw. }
  2:{ rw used_full in Hu; [|lia]. intros i Hi. apply Hall. lia. }
  destruct (bitmap_word opf bm w) as (bw_ & Hbw_ & Hub); [done|lia|]. assert (bw_ = bw) as -> by congruence.
  destruct (free_bit_spec bw Hub Hne) as (Hbit & Hfree & Hlow). set (bit := ctz (uwrap 64 (Z.lnot bw))) in *.
  exists w, bit. split; [done|]. split_and!; [lia..| |by rewrite -> (bit_at_word bm w bw) by done].
  destruct Hok as [Hr [Hm|Hsmall]].
  { pose proof (Z.div_mod opf 64). pose proof (Z.div_mod (opf + 63) 64). pose proof (Z.mod_pos_bound (opf + 63) 64). lia. }
  assert (n_words opf = 1)%nat as Hn1.
  { pose proof (Z.div_mod (opf + 63) 64). pose proof (Z.mod_pos_bound (opf + 63) 64). lia. }
  assert (w = 0)%nat as -> by lia. apply Z.nle_gt. intros Hge.
  assert (bw = 2 ^ opf - 1) as Heq.
  { replace (2 ^ opf - 1) with (Z.ones opf) by (rw Z.ones_equiv; lia). apply Z.bits_inj'. intros i Hi.
    destruct (Z.lt_ge_cases i opf).
    - rewrite -> Z.ones_spec_low by lia. apply Hlow. lia.
    - rewrite -> Z.ones_spec_high by lia. destruct (Z.lt_ge_cases i 64).
      + rewrite <- (bit_at_word bm 0 bw) by (done || lia). apply (bm_high _ _ Hbm). lia.
      + apply (uint_bits 64); [done|lia]. }
  rw Hn1 in Hu. unfold used in Hu. destruct bm as [|b bm]; [done|]. simpl in Hbw, Hu. simplify_eq.
  rewrite -> popcount_ones in Hu by lia. lia.
Qed.

Lemma bit_at_insert bm w bw y k : bm !! w = Some bw -> 0 <= k ->
  bit_at (<[w := y]> bm) k = if decide (k / 64 = Z.of_nat w) then Z.testbit y (k mod 64) else bit_at bm k.
Proof.
  intros Hw Hk. unfold bit_at. assert (0 <= k / 64) by (apply Z.div_pos; lia). case_decide as Hd.
  - rw Hd Nat2Z.id list_lookup_insert_eq //. by eapply lookup_lt_Some.
  - rw list_lookup_insert_ne //. lia.
Qed.

(** Changing one bit of a word changes the object of the bit. *)
Lemma bitmap_flip opf bm w bw y bit (b : bool) :
  per_folio_ok opf -> bitmap_ok opf bm -> bm !! w = Some bw -> is_uint 64 y -> (w < n_words opf)%nat ->
  0 <= bit < 64 -> 64 * Z.of_nat w + bit < opf -> Z.testbit bw bit = negb b ->
  (forall i, 0 <= i < 64 -> Z.testbit y i = if i =? bit then b else Z.testbit bw i) ->
  bitmap_ok opf (<[w := y]> bm) /\
  used (<[w := y]> bm) (n_words opf) = used bm (n_words opf) + (if b then 1 else -1) /\
  forall k, 0 <= k -> bit_at (<[w := y]> bm) k = if k =? 64 * Z.of_nat w + bit then b else bit_at bm k.
Proof.
  intros Hok Hbm Hw Hy Hn Hbit Hlt Hb Hbits.
  assert (forall k, 0 <= k -> bit_at (<[w := y]> bm) k = if k =? 64 * Z.of_nat w + bit then b else bit_at bm k) as Hat.
  { intros k Hk. rw (bit_at_insert bm w bw) //. pose proof (Z.div_mod k 64) as Hdm.
    pose proof (Z.mod_pos_bound k 64 ltac:(lia)) as Hm. case_decide as Hd.
    - rw Hbits //. case_eqb.
      + by rewrite -> (proj2 (Z.eqb_eq k _)) by lia.
      + rewrite -> (proj2 (Z.eqb_neq k _)) by lia. rewrite <- (bit_at_word bm w bw) by done. f_equal. lia.
    - rewrite -> (proj2 (Z.eqb_neq k _)); [done|]. intros ->. apply Hd.
      rw Z.mul_comm Z.div_add_l // Z.div_small //. lia. }
  destruct (bitmap_word opf bm w) as (bw_ & Hbw_ & Hub); [done|destruct (n_words_bound opf Hok); lia|].
  assert (bw_ = bw) as -> by congruence. split_and!; [| |by apply Hat].
  - destruct Hbm as [Hl Hwd Hh]. split; [by rw length_insert|by apply Forall_insert|]. intros k Hk.
    destruct Hok as [Hr _]. rewrite -> Hat by lia. rewrite -> (proj2 (Z.eqb_neq k _)) by lia. by apply Hh.
  - rw (used_insert bm _ w bw) //.
    assert (forall i, 0 <= i -> i <> bit -> Z.testbit y i = Z.testbit bw i) as Hsame.
    { intros i Hi Hne. destruct (Z.lt_ge_cases i 64) as [H64|H64].
      - rw Hbits //. by rewrite -> (proj2 (Z.eqb_neq i bit)).
      - by rewrite -> !(uint_bits 64) by done. }
    assert (Z.testbit y bit = b) as Hyb by (by rw Hbits // Z.eqb_refl).
    destruct Hub as [? _]. destruct Hy as [? _]. destruct b; simpl in Hb.
    + rewrite -> (popcount_flip bw y bit) by (done || lia). lia.
    + rewrite -> (popcount_flip y bw bit); [lia|done|done|lia|done|done|]. intros i Hi Hne. by rw Hsame.
Qed.

Lemma set_bit_spec opf bm w bit :
  per_folio_ok opf -> bitmap_ok opf bm -> (w < n_words opf)%nat -> 0 <= bit < 64 -> 64 * Z.of_nat w + bit < opf ->
  bit_at bm (64 * Z.of_nat w + bit) = false ->
  bitmap_ok opf (set_bit bm w bit) /\
  used (set_bit bm w bit) (n_words opf) = used bm (n_words opf) + 1 /\
  forall k, 0 <= k -> bit_at (set_bit bm w bit) k = if k =? 64 * Z.of_nat w + bit then true else bit_at bm k.
Proof.
  intros Hok Hbm Hw Hbit Hlt Hfree.
  destruct (bitmap_word opf bm w) as (bw & Hbw & Hu); [done|destruct (n_words_bound opf Hok); lia|].
  unfold set_bit. rw Hbw. simpl. apply (bitmap_flip opf bm w bw _ bit true); try done.
  - apply lor_uint; [lia|done|]. rw Z.shiftl_1_l. split; [apply Z.pow_nonneg; lia|apply Z.pow_lt_mono_r; lia].
  - by rewrite <- (bit_at_word bm w bw).
  - intros i Hi. rw Z.lor_spec Z.shiftl_1_l. rewrite -> Z.pow2_bits_eqb by lia. rw Z.eqb_sym.
    case_eqb; [apply orb_true_r|apply orb_false_r].
Qed.

Lemma clear_bit_spec {K} (s : small K) opf bm k :
  per_folio_ok opf -> bitmap_ok opf bm -> 0 <= k < opf -> bit_at bm k = true ->
  exists bm', clear_bit bm k s = Some (bm', s) /\ bitmap_ok opf bm' /\
    used bm' (n_words opf) = used bm (n_words opf) - 1 /\
    forall j, 0 <= j -> bit_at bm' j = if j =? k then false else bit_at bm j.
Proof.
  intros Hok Hbm Hk Hset. destruct (n_words_bound opf Hok) as [Hn Hle].
  pose proof (Z.div_mod k 64) as Hdm. pose proof (Z.mod_pos_bound k 64 ltac:(lia)) as Hm.
  assert (0 <= k / 64) by (apply Z.div_pos; lia). set (w := Z.to_nat (k / 64)).
  assert (64 * Z.of_nat w + k mod 64 = k) as Ek by lia. assert (w < n_words opf)%nat as Hw.
  { pose proof (n_words_eq opf Hok). pose proof (Z.div_mod (opf + 63) 64). pose proof (Z.mod_pos_bound (opf + 63) 64). lia. }
  destruct (bitmap_word opf bm w) as (bw & Hbw & Hu); [done|lia|].
  assert (Z.testbit bw (k mod 64) = true) as Hbit by (rewrite <- (bit_at_word bm w bw) by done; by rw Ek).
  unfold clear_bit. fold w. rw (bind_the _ _ _ _ Hbw). rw bind_bassert.
  { apply negb_true_iff, Z.eqb_neq. intros E. apply (f_equal (fun z => Z.testbit z (k mod 64))) in E.
    rw Z.land_spec Hbit Z.shiftl_1_l Z.testbit_0_l in E. rewrite -> Z.pow2_bits_true in E by lia. done. }
  eexists. split; [done|].
  destruct (bitmap_flip opf bm w bw (Z.land bw (uwrap 64 (Z.lnot (Z.shiftl 1 (k mod 64))))) (k mod 64) false)
    as (Hb & Hus & Hat); [done..| |done|lia|lia|done| |].
  - apply land_uint; [lia|done|]. apply (uwrap_uint 64). lia.
  - intros i Hi. rw Z.land_spec. rewrite -> uwrap_bit by lia. rewrite -> decide_True by lia.
    rewrite -> Z.lnot_spec by lia. rw Z.shiftl_1_l. rewrite -> Z.pow2_bits_eqb by lia. rw Z.eqb_sym.
    case_eqb; [apply andb_false_r|apply andb_true_r].
  - split_and!; [done|lia|]. intros j Hj. rw Hat // Ek. done.
Qed.
