(* ===== verification/SmallSpec.v ===== *)
(** * src/memory/small_malloc.cpp: the invariant of the small objects.

    The lists of a bin are doubly linked and hold each folio of its chunks once;
    an object is handed out once until it is freed. *)
From stdpp Require Import functions.
From S2P Require Import Prelude Words StateMonad Sizeclass Makechunk Huge Small.
#[local] Open Scope Z_scope.

(** ** Doubly linked lists of folios *)

(** The list of the folios [l] from [hd], where [q] is before the first. *)
Fixpoint dll (F : gmap Z per_folio) (q hd : Z) (l : list Z) : Prop :=
  match l with
  | [] => hd = 0
  | p :: l => hd = p /\ 0 < p /\ exists pf, F !! p = Some pf /\ prev pf = q /\ dll F p (next pf) l
  end.

(** A part of a list, up to the folio [m]. *)
Fixpoint seg (F : gmap Z per_folio) (q hd : Z) (l : list Z) (m : Z) : Prop :=
  match l with
  | [] => hd = m
  | p :: l => hd = p /\ 0 < p /\ exists pf, F !! p = Some pf /\ prev pf = q /\ seg F p (next pf) l m
  end.

Definition last_or (q : Z) (l : list Z) : Z := default q (last l).

Lemma last_or_cons q x l : last_or q (x :: l) = last_or x l.
Proof. unfold last_or. rw last_cons. by destruct (last l). Qed.

Lemma last_or_snoc q x l : last_or q (l ++ [x]) = x.
Proof. unfold last_or. by rw last_snoc. Qed.

Lemma dll_app F q hd l1 l2 :
  dll F q hd (l1 ++ l2) <-> exists m, seg F q hd l1 m /\ dll F (last_or q l1) m l2.
Proof.
  revert q hd. induction l1 as [|x l1 IH]; intros q hd; simpl.
  - split; [by exists hd|by intros (m & <- & ?)].
  - setoid_rewrite last_or_cons. split.
    + intros (-> & Hx & pf & Hpf & Hq & (m & Hs & Hd)%IH). exists m. split; [|done]. split_and!; [done..|]. by exists pf.
    + intros (m & (-> & Hx & pf & Hpf & Hq & Hs) & Hd). split_and!; [done..|]. exists pf. split_and!; [done..|].
      apply IH. by exists m.
Qed.

Lemma seg_snoc F q hd l a m :
  seg F q hd (l ++ [a]) m <->
  seg F q hd l a /\ 0 < a /\ exists pf, F !! a = Some pf /\ prev pf = last_or q l /\ next pf = m.
Proof.
  revert q hd. induction l as [|x l IH]; intros q hd; simpl.
  - naive_solver.
  - rw last_or_cons. split.
    + intros (-> & Hx & pf & Hpf & Hq & (Hs & Ha)%IH). split; [|done]. split_and!; [done..|]. by exists pf.
    + intros ((-> & Hx & pf & Hpf & Hq & Hs) & Ha). split_and!; [done..|]. exists pf. split_and!; [done..|]. by apply IH.
Qed.

Lemma dll_ext F F' q hd l : (forall x, x ∈ l -> F' !! x = F !! x) -> dll F q hd l -> dll F' q hd l.
Proof.
  revert q hd. induction l as [|x l IH]; intros q hd HF; [done|]. simpl. intros (-> & Hx & pf & Hpf & Hq & Hl).
  split_and!; [done..|]. exists pf. split_and!; [by rw HF //; left|done|]. apply IH; [|done].
  intros y Hy. apply HF. by right.
Qed.

Lemma seg_ext F F' q hd l m : (forall x, x ∈ l -> F' !! x = F !! x) -> seg F q hd l m -> seg F' q hd l m.
Proof.
  revert q hd. induction l as [|x l IH]; intros q hd HF; [done|]. simpl. intros (-> & Hx & pf & Hpf & Hq & Hl).
  split_and!; [done..|]. exists pf. split_and!; [by rw HF //; left|done|]. apply IH; [|done].
  intros y Hy. apply HF. by right.
Qed.

Lemma dll_insert F q hd l x pf : x ∉ l -> dll F q hd l -> dll (<[x := pf]> F) q hd l.
Proof. intros Hx. apply dll_ext. intros y Hy. rw lookup_insert_ne //. by intros ->. Qed.

Lemma seg_insert F q hd l m x pf : x ∉ l -> seg F q hd l m -> seg (<[x := pf]> F) q hd l m.
Proof. intros Hx. apply seg_ext. intros y Hy. rw lookup_insert_ne //. by intros ->. Qed.

(** Only the links matter. *)
Lemma dll_with_bitmap F q hd l x pf bm : F !! x = Some pf -> dll F q hd l -> dll (<[x := with_bitmap bm pf]> F) q hd l.
Proof.
  intros Hx. revert q hd. induction l as [|y l IH]; intros q hd; [done|]. simpl.
  intros (-> & Hy & pf' & Hpf' & Hq & Hl). split_and!; [done..|]. destruct (decide (x = y)) as [->|Hne].
  - assert (pf' = pf) as -> by congruence. exists (with_bitmap bm pf). rw lookup_insert_eq. split_and!; [done..|]. by apply IH.
  - exists pf'. rw lookup_insert_ne //. split_and!; [done..|]. by apply IH.
Qed.

Lemma dll_head_zero F q l : dll F q 0 l -> l = [].
Proof. destruct l as [|p l]; [done|]. simpl. intros (<- & ? & _). lia. Qed.

Lemma dll_elem F q hd l x : dll F q hd l -> x ∈ l -> 0 < x /\ is_Some (F !! x).
Proof.
  revert q hd. induction l as [|y l IH]; intros q hd; [by intros _ ?%elem_of_nil|]. simpl.
  intros (-> & Hy & pf & Hpf & _ & Hl) [->|Hx]%elem_of_cons; [by split; [|exists pf]|by eapply IH].
Qed.

(** ** The lists of a bin *)

Section lists.
Context {K : Kernel}.
Implicit Type s : small K.

Definition with_folios (F : gmap Z per_folio) s : small K := Small (s_chunks s) (lists s) (fullest_offset s) F.

(** [slots i] is the list of the folios at [off + i], for [i] below [n]. *)
Record lists_ok s (off n : Z) (slots : Z -> list Z) : Prop := {
  sl_region : 0 <= off /\ off + n <= dynamic_small_bin_info_b;
  sl_none i : ~ 0 <= i < n -> slots i = [];
  sl_dll i : 0 <= i < n -> dll (folios s) 0 (entry (lists s) (off + i)) (slots i);
  sl_nodup i : NoDup (slots i);
  sl_disjoint i j x : x ∈ slots i -> x ∈ slots j -> i = j;
}.

(** A change of the links of the folios [own] and of the lists of the region. *)
Record links (off n : Z) (own : list Z) s s' : Prop := {
  lk_chunks : s_chunks s' = s_chunks s;
  lk_fullest : fullest_offset s' = fullest_offset s;
  lk_lists x : ~ off <= x < off + n -> entry (lists s') x = entry (lists s) x;
  lk_folios x : x ∉ own -> folios s' !! x = folios s !! x;
  lk_bitmaps x : inuse_bitmap <$> folios s' !! x = inuse_bitmap <$> folios s !! x;
}.

#[export] Instance links_preorder off n own : PreOrder (links off n own).
Proof.
  split; [done|]. intros s1 s2 s3 [A1 A2 A3 A4 A5] [B1 B2 B3 B4 B5]. split; [congruence|congruence|..].
  - intros x Hx. by rw B3 // A3.
  - intros x Hx. by rw B4 // A4.
  - intros x. by rw B5 A5.
Qed.

Lemma get_list_in s x : 0 <= x < dynamic_small_bin_info_b -> get_list x s = Some (entry (lists s) x, s).
Proof. intros Hx. unfold get_list. rewrite -> (proj2 (Z.leb_le 0 _)) by lia. by rewrite -> (proj2 (Z.ltb_lt _ _)) by lia. Qed.

Lemma set_list_in s x v : 0 <= x < dynamic_small_bin_info_b ->
  set_list x v s = Some (tt, Small (s_chunks s) (<[x := v]> (lists s)) (fullest_offset s) (folios s)).
Proof. intros Hx. unfold set_list. rewrite -> (proj2 (Z.leb_le 0 _)) by lia. by rewrite -> (proj2 (Z.ltb_lt _ _)) by lia. Qed.

Lemma get_list_ok s off n slots i : lists_ok s off n slots -> 0 <= i < n ->
  get_list (off + i) s = Some (entry (lists s) (off + i), s).
Proof. intros [Hr _ _ _ _] Hi. apply get_list_in. lia. Qed.

Lemma set_list_ok s off n slots i v : lists_ok s off n slots -> 0 <= i < n ->
  set_list (off + i) v s = Some (tt, Small (s_chunks s) (<[off + i := v]> (lists s)) (fullest_offset s) (folios s)).
Proof. intros [Hr _ _ _ _] Hi. apply set_list_in. lia. Qed.

Lemma update_folio_ok s f p pf : folios s !! p = Some pf ->
  update_folio f p s = Some (tt, with_folios (<[p := f pf]> (folios s)) s).
Proof. intros Hp. unfold update_folio. by rw Hp. Qed.

Lemma get_folio_ok s p pf : folios s !! p = Some pf -> get_folio p s = Some (pf, s).
Proof. intros Hp. unfold get_folio. by rw Hp. Qed.

(** The link back of the first folio. *)
Lemma set_prev_of_spec s q hd l v : dll (folios s) q hd l -> NoDup l ->
  exists F', set_prev_of hd v s = Some (tt, with_folios F' s) /\ dll F' v hd l /\
    (forall x, x ∉ l -> F' !! x = folios s !! x) /\
    (forall x, inuse_bitmap <$> F' !! x = inuse_bitmap <$> folios s !! x).
Proof.
  intros Hd Hnd. unfold set_prev_of. destruct l as [|p l]; simpl in Hd.
  - subst hd. exists (folios s). by destruct s.
  - destruct Hd as (-> & Hp & pf & Hpf & _ & Hl). rewrite -> (proj2 (Z.eqb_neq p 0)) by lia.
    rw (update_folio_ok s _ p pf Hpf). eexists. split; [done|]. apply NoDup_cons in Hnd as [Hpl Hnd]. split_and!.
    + simpl. split_and!; [done..|]. exists (with_prev v pf). rw lookup_insert_eq. split_and!; [done..|]. by apply dll_insert.
    + intros x [Hx _]%not_elem_of_cons. by rw lookup_insert_ne.
    + intros x. destruct (decide (x = p)) as [->|Hne]; [by rw lookup_insert_eq Hpf|by rw lookup_insert_ne].
Qed.

(** Putting a folio that is in no list in front of one. *)
Lemma link_folio_spec s off n slots own p pf j :
  lists_ok s off n slots -> (forall i x, x ∈ slots i -> x ∈ own) -> p ∈ own -> (forall i, p ∉ slots i) ->
  0 < p -> folios s !! p = Some pf -> 0 <= j < n ->
  exists s', link_folio p (off + j) s = Some (tt, s') /\ links off n own s s' /\
    lists_ok s' off n (<[j := p :: slots j]> slots).
Proof.
  intros HL Hown Hpo Hp0 Hpos Hpf Hj. unfold link_folio.
  rw (bind_Some _ _ _ _ _ (get_list_ok s off n slots j HL Hj)).
  set (h := entry (lists s) (off + j)). set (F1 := <[p := with_next h (with_prev 0 pf)]> (folios s)).
  set (s1 := with_folios F1 s). assert (update_folio (fun pf => with_next h (with_prev 0 pf)) p s = Some (tt, s1)) as E1
    by by rw (update_folio_ok s _ p pf Hpf).
  rw (bind_Some _ _ _ _ _ E1).
  assert (dll F1 0 h (slots j)) as Hd1 by (apply dll_insert; [apply Hp0|by apply HL]).
  destruct (set_prev_of_spec s1 0 h (slots j) p Hd1 (sl_nodup _ _ _ _ HL j)) as (F2 & E2 & Hd2 & Ho2 & Hb2).
  rw (bind_Some _ _ _ _ _ E2). simpl in E2 |- *.
  set (s2 := with_folios F2 s1) in *. assert (set_list (off + j) p s2 =
    Some (tt, Small (s_chunks s) (<[off + j := p]> (lists s)) (fullest_offset s) F2)) as E3.
  { destruct HL as [Hr _ _ _ _]. apply set_list_in. lia. }
  eexists. split; [exact E3|].
  assert (forall x, x ∉ p :: slots j -> F2 !! x = folios s !! x) as Hout.
  { intros x [Hx Hxj]%not_elem_of_cons. rw Ho2 //. unfold s1, F1. simpl. by rw lookup_insert_ne. }
  split; split; simpl; try done.
  - intros x Hx. apply entry_insert_ne. lia.
  - intros x Hx. apply Hout. intros [->|Hxj]%elem_of_cons; [done|]. apply Hx. by apply (Hown j).
  - intros x. rw Hb2. unfold s1, F1. simpl. destruct (decide (x = p)) as [->|Hne]; [by rw lookup_insert_eq Hpf|by rw lookup_insert_ne].
  - apply HL.
  - intros i Hi. rw fn_lookup_insert_ne; [lia|]. by apply (sl_none _ _ _ _ HL).
  - intros i Hi. destruct (decide (i = j)) as [->|Hne].
    + rw fn_lookup_insert entry_insert. simpl. split_and!; [done..|]. exists (with_next h (with_prev 0 pf)).
      split_and!; [|done|done]. rw Ho2; [apply Hp0|]. unfold s1, F1. simpl. by rw lookup_insert_eq.
    + rw fn_lookup_insert_ne // entry_insert_ne; [lia|]. apply (dll_ext (folios s)); [|by apply HL].
      intros x Hx. apply Hout. intros [->|Hxj]%elem_of_cons; [by apply (Hp0 i)|]. apply Hne. by apply (sl_disjoint _ _ _ _ HL i j x).
  - intros i. destruct (decide (i = j)) as [->|Hne]; [rw fn_lookup_insert|rw fn_lookup_insert_ne //; apply HL].
    constructor; [apply Hp0|apply HL].
  - intros i i' x. destruct (decide (i = j)) as [->|Hne], (decide (i' = j)) as [->|Hne']; rw ?fn_lookup_insert // ?fn_lookup_insert_ne //.
    + intros [->|Hx]%elem_of_cons Hx'; [by destruct (Hp0 i')|]. by apply (sl_disjoint _ _ _ _ HL j i' x).
    + intros Hx [->|Hx']%elem_of_cons; [by destruct (Hp0 i)|]. by apply (sl_disjoint _ _ _ _ HL i j x).
    + apply (sl_disjoint _ _ _ _ HL).
Qed.

(** The neighbour before the folio, or the head of the list, skips it. *)
Lemma skip_folio_spec s off n slots i l1 l2 p pf :
  lists_ok s off n slots -> slots i = l1 ++ p :: l2 -> 0 <= i < n -> folios s !! p = Some pf ->
  exists s1 F1,
    (if prev pf =? 0 then h ← get_list (off + i); bassert (h =? p);; set_list (off + i) (next pf)
     else update_folio (with_next (next pf)) (prev pf)) s = Some (tt, s1) /\
    s1 = Small (s_chunks s) (lists s1) (fullest_offset s) F1 /\
    (forall x, x <> off + i -> entry (lists s1) x = entry (lists s) x) /\
    (forall x, x ∉ l1 -> F1 !! x = folios s !! x) /\
    (forall x, inuse_bitmap <$> F1 !! x = inuse_bitmap <$> folios s !! x) /\
    prev pf = last_or 0 l1 /\ dll (folios s) p (next pf) l2 /\
    seg F1 0 (entry (lists s1) (off + i)) l1 (next pf).
Proof.
  intros HL Hs Hi Hpf. pose proof (sl_dll _ _ _ _ HL i Hi) as Hd. pose proof (sl_nodup _ _ _ _ HL i) as Hnd.
  rw Hs in Hd Hnd. apply dll_app in Hd as (m & Hseg & Hd). simpl in Hd. destruct Hd as (-> & Hp & pf' & Hpf' & Hq & Hd).
  assert (pf' = pf) as -> by congruence. apply NoDup_app in Hnd as (Hnd1 & Hdj & _).
  destruct l1 as [|a l1 _] using rev_ind.
  - change (last_or 0 []) with 0 in *. simpl in Hseg. rw Hq. cbn [Z.eqb].
    rw (bind_Some _ _ _ _ _ (get_list_ok s off n slots i HL Hi)).
    rw bind_bassert; [by apply Z.eqb_eq|]. rw (set_list_ok s off n slots i _ HL Hi). eexists _, (folios s).
    split_and!; [done|done| |done..|]; simpl; [|by rw entry_insert]. intros x Hx. by apply entry_insert_ne.
  - apply seg_snoc in Hseg as (Hseg & Ha & pa & Hpa & Hqa & Hna). rw last_or_snoc in Hq |- *. rw Hq.
    rewrite -> (proj2 (Z.eqb_neq a 0)) by lia. rw (update_folio_ok s _ a pa Hpa). eexists _, _.
    split_and!; [done|done|done| | |done|done|].
    + intros x [_ Hx%not_elem_of_cons]%not_elem_of_app. by rw lookup_insert_ne; [by intros ->; destruct Hx|].
    + intros x. destruct (decide (x = a)) as [->|Hne]; [by rw lookup_insert_eq Hpa|by rw lookup_insert_ne].
    + simpl. apply seg_snoc. split_and!; [|done|].
      * apply seg_insert; [|done]. apply NoDup_app in Hnd1 as (_ & Hx & _). intros Hin. by apply (Hx a Hin); left.
      * exists (with_next (next pf) pa). by rw lookup_insert_eq.
Qed.

Lemma unlink_folio_spec s off n slots own i l1 l2 p pf pf0 :
  lists_ok s off n slots -> (forall i x, x ∈ slots i -> x ∈ own) -> slots i = l1 ++ p :: l2 -> 0 <= i < n ->
  folios s !! p = Some pf -> next pf0 = next pf -> prev pf0 = prev pf ->
  exists s', unlink_folio p pf0 (off + i) s = Some (tt, s') /\ links off n own s s' /\
    lists_ok s' off n (<[i := l1 ++ l2]> slots) /\ folios s' !! p = Some pf.
Proof.
  intros HL Hown Hs Hi Hpf En Ep. unfold unlink_folio. rw En Ep.
  destruct (skip_folio_spec s off n slots i l1 l2 p pf HL Hs Hi Hpf) as (s1 & F1 & E1 & Hs1 & Hl1 & Ho1 & Hb1 & Hq & Hd & Hseg).
  rw (bind_Some _ _ _ _ _ E1). pose proof (sl_nodup _ _ _ _ HL i) as Hnd. rw Hs in Hnd.
  apply NoDup_app in Hnd as (Hnd1 & Hdj & [Hp2 Hnd2]%NoDup_cons).
  assert (p ∉ l1) as Hp1 by (intros Hx; by apply (Hdj p Hx); left).
  assert (folios s1 = F1) as EF by by rw Hs1. assert (forall x, x ∈ l2 -> x ∉ l1) as Hd21.
  { intros x Hx Hx1. apply (Hdj x Hx1). by right. }
  destruct (set_prev_of_spec s1 p (next pf) l2 (prev pf)) as (F2 & E2 & Hd2 & Ho2 & Hb2); [|done|].
  { rw EF. apply (dll_ext (folios s)); [|done]. intros x Hx. apply Ho1. by apply Hd21. }
  exists (with_folios F2 s1). split; [done|].
  assert (forall x, x ∉ l1 ++ l2 -> F2 !! x = folios s !! x) as Hout.
  { intros x [Hx1 Hx2]%not_elem_of_app. by rw Ho2 // EF Ho1. }
  assert (forall x, x ∈ l1 ++ l2 -> x ∈ slots i) as Hsub.
  { intros x. rw Hs !elem_of_app elem_of_cons. tauto. }
  split_and!; [split|split|]; simpl.
  - by rw Hs1.
  - by rw Hs1.
  - intros x Hx. apply Hl1. lia.
  - intros x Hx. apply Hout. intros Hin. apply Hx. by apply (Hown i), Hsub.
  - intros x. by rw Hb2 EF Hb1.
  - apply HL.
  - intros j Hj. rw fn_lookup_insert_ne; [lia|]. by apply (sl_none _ _ _ _ HL).
  - intros j Hj. destruct (decide (j = i)) as [->|Hne].
    + rw fn_lookup_insert. apply dll_app. exists (next pf). split; [|by rw -Hq].
      apply (seg_ext F1); [|done]. intros x Hx. rw -EF. apply Ho2. intros Hx2. by apply (Hd21 x).
    + rw fn_lookup_insert_ne // Hl1; [lia|]. apply (dll_ext (folios s)); [|by apply HL].
      intros x Hx. apply Hout. intros Hin%Hsub. apply Hne. by apply (sl_disjoint _ _ _ _ HL j i x).
  - intros j. destruct (decide (j = i)) as [->|Hne]; [rw fn_lookup_insert|rw fn_lookup_insert_ne //; apply HL].
    apply NoDup_app. split_and!; [done| |done]. intros x Hx1 Hx2. by apply (Hd21 x).
  - intros j j' x. destruct (decide (j = i)) as [->|Hne], (decide (j' = i)) as [->|Hne'];
      rw ?fn_lookup_insert // ?fn_lookup_insert_ne //.
    + intros Hx%Hsub Hx'. by apply (sl_disjoint _ _ _ _ HL i j' x).
    + intros Hx Hx'%Hsub. by apply (sl_disjoint _ _ _ _ HL j i x).
    + apply (sl_disjoint _ _ _ _ HL).
  - rw Hout //. by intros [?|?]%elem_of_app.
Qed.

(** Taking a folio out of a list, after which it can be put in front of another one. *)
Lemma move_slot_spec s off n slots own i l1 l2 p pf pf0 :
  lists_ok s off n slots -> (forall i x, x ∈ slots i -> x ∈ own) -> slots i = l1 ++ p :: l2 ->
  0 <= i < n -> folios s !! p = Some pf -> next pf0 = next pf -> prev pf0 = prev pf ->
  let slots1 := <[i := l1 ++ l2]> slots in
  exists s1, unlink_folio p pf0 (off + i) s = Some (tt, s1) /\ links off n own s s1 /\ lists_ok s1 off n slots1 /\
    folios s1 !! p = Some pf /\
    forall s2 j, lists s2 = lists s1 -> folios s2 = folios s1 -> 0 <= j < n ->
    exists s', link_folio p (off + j) s2 = Some (tt, s') /\ links off n own s2 s' /\
      lists_ok s' off n (<[j := p :: slots1 j]> slots1).
Proof.
  intros HL Hown Hs Hi Hpf En Ep slots1.
  destruct (unlink_folio_spec s off n slots own i l1 l2 p pf pf0) as (s1 & E1 & Hk1 & HL1 & Hp1); [done..|].
  assert (forall x, x ∈ l1 ++ l2 -> x ∈ slots i) as Hsub by (intros x; rw Hs !elem_of_app elem_of_cons; tauto).
  assert (p ∈ slots i) as Hpi by (rw Hs elem_of_app elem_of_cons; tauto).
  assert (forall k x, x ∈ slots1 k -> x ∈ slots k) as Hsub1.
  { intros k x. unfold slots1. destruct (decide (k = i)) as [->|Hne]; [by rw fn_lookup_insert; apply Hsub|by rw fn_lookup_insert_ne]. }
  destruct (dll_elem _ _ _ _ p (sl_dll _ _ _ _ HL i Hi) Hpi) as [Hp0 _].
  exists s1. split_and!; [done..|]. intros s2 j El Ef Hj. apply (link_folio_spec s2 off n slots1 own p pf j); [| |by apply (Hown i)| |done| |done].
  - destruct HL1 as [H1 H2 H3 H4 H5]. split; [done..| |done|done]. by rw El Ef.
  - intros k x Hx. by apply (Hown k), Hsub1.
  - intros k Hx. assert (k = i) as -> by (apply (sl_disjoint _ _ _ _ HL k i p); [by apply Hsub1|done]).
    unfold slots1 in Hx. rw fn_lookup_insert in Hx. pose proof (sl_nodup _ _ _ _ HL i) as Hnd. rw Hs in Hnd.
    apply NoDup_app in Hnd as (_ & Hdj & [Hp2 _]%NoDup_cons).
    apply elem_of_app in Hx as [Hx|Hx]; [by apply (Hdj p Hx); left|done].
  - by rw Ef.
Qed.

Lemma move_folio_spec s off n slots own i j l p :
  lists_ok s off n slots -> (forall i x, x ∈ slots i -> x ∈ own) -> slots i = p :: l -> 0 <= i < n -> 0 <= j < n ->
  let slots1 := <[i := l]> slots in
  exists s', move_folio p (off + i) (off + j) s = Some (tt, s') /\ links off n own s s' /\
    lists_ok s' off n (<[j := p :: slots1 j]> slots1).
Proof.
  intros HL Hown Hs Hi Hj slots1. pose proof (sl_dll _ _ _ _ HL i Hi) as Hd. rw Hs in Hd.
  destruct Hd as (Ehd & Hp & pf & Hpf & Hq & Hd).
  destruct (move_slot_spec s off n slots own i [] l p pf pf) as (s1 & E1 & Hk1 & HL1 & Hp1 & Hlink); [done..|].
  destruct (Hlink s1 j eq_refl eq_refl Hj) as (s' & E2 & Hk & HL'). exists s'. split; [|split; [by etrans|done]]. unfold move_folio. rw (bind_Some _ _ _ _ _ (get_folio_ok s p pf Hpf)).
  unfold unlink_folio in E1. rw Hq in E1. cbn [Z.eqb] in E1.
  apply bind_inv in E1 as ([] & sa & Ea & Eb). apply bind_inv in Ea as (h & sb & Eh & Ea).
  assert (sb = s) as -> by (rw (get_list_ok s off n slots i HL Hi) in Eh; by simplify_eq).
  apply bind_inv in Ea as ([] & sc & Ec & Ea). assert (sc = s) as -> by (unfold bassert in Ec; destruct (h =? p); congruence).
  rw (bind_Some _ _ _ _ _ Ea) (bind_Some _ _ _ _ _ Eb). unfold link_folio in E2.
  rw (bind_Some _ _ _ _ _ (get_list_ok s1 off n _ j HL1 Hj)).
  rw (bind_Some _ _ _ _ _ (get_list_ok s1 off n _ j HL1 Hj)) in E2.
  rewrite -> (bind_Some _ _ _ _ _ (update_folio_ok s1 _ p pf Hp1)) in E2.
  rewrite -> (bind_Some _ _ _ _ _ (update_folio_ok s1 _ p pf Hp1)). rw -E2.
  replace (with_prev 0 pf) with pf; [done|]. destruct pf. simpl in Hq. by rw Hq.
Qed.
End lists.

(** ** A bin *)

Section bins.
Context {K : Kernel}.
Implicit Type s : small K.

(** The headers of the folios of the chunks [cs]. *)
Definition bin_folios (info : static_bin_s) (cs : list Z) : list Z :=
  cs ≫= fun c => ll c <$> seqZ 0 (folios_per_chunk info).

Lemma elem_of_bin_folios info cs p :
  p ∈ bin_folios info cs <-> exists c f, c ∈ cs /\ 0 <= f < folios_per_chunk info /\ p = ll c f.
Proof.
  unfold bin_folios. rw list_elem_of_bind. split.
  - intros (c & (f & -> & Hf%elem_of_seqZ)%list_elem_of_fmap & Hc). exists c, f. by split_and!; [|lia..|].
  - intros (c & f & Hc & Hf & ->). exists c. split; [|done]. apply list_elem_of_fmap. exists f. split; [done|].
    apply elem_of_seqZ. lia.
Qed.

Definition bitmap_of (F : gmap Z per_folio) (p : Z) : option (list Z) := inuse_bitmap <$> F !! p.

(** A folio in the list [i] has [i] free objects, all of them in the last list. *)
Definition folio_used (F : gmap Z per_folio) (opf p i : Z) : Prop :=
  exists bm, bitmap_of F p = Some bm /\ bitmap_ok opf bm /\ used bm (n_words opf) = opf - Z.min i opf.

(** What [fullest_offset] has to say about the lists for [do_small_malloc] to
    find a folio. *)
Definition fullest_ok (opf : Z) (slots : Z -> list Z) (f : Z) : Prop :=
  0 <= f <= opf /\ (f = 0 -> forall i, 1 <= i -> slots i = []) /\
  (0 < f -> slots f <> [] \/ f = opf /\ slots (opf + 1) <> []).

Record bin_inv s (bin : Z) (info : static_bin_s) (off : Z) (cs : list Z) (slots : Z -> list Z) : Prop := {
  bi_lists : lists_ok s off (objects_per_folio info + 2) slots;
  bi_folios i p : p ∈ slots i -> p ∈ bin_folios info cs;
  bi_all p : p ∈ bin_folios info cs -> exists i, p ∈ slots i;
  bi_used i p : p ∈ slots i -> folio_used (folios s) (objects_per_folio info) p i;
  bi_fullest : fullest_ok (objects_per_folio info) slots (entry (fullest_offset s) bin);
}.

(** Whether object [k] of folio [f] is in use. *)
Definition object_used s (c f k : Z) : bool :=
  match bitmap_of (folios s) (ll c f) with
  | Some bm => bit_at bm k
  | None => false
  end.

(** A change of one bin. *)
Record bin_step (bin off n : Z) (own : list Z) s s' : Prop := {
  bs_fullest b : b <> bin -> entry (fullest_offset s') b = entry (fullest_offset s) b;
  bs_lists x : ~ off <= x < off + n -> entry (lists s') x = entry (lists s) x;
  bs_folios x : x ∉ own -> folios s' !! x = folios s !! x;
}.

#[export] Instance bin_step_preorder bin off n own : PreOrder (bin_step bin off n own).
Proof.
  split; [done|]. intros s1 s2 s3 [A2 A3 A4] [B2 B3 B4]. split.
  - intros b Hb. by rw B2 // A2.
  - intros x Hx. by rw B3 // A3.
  - intros x Hx. by rw B4 // A4.
Qed.

Lemma links_step bin off n own s s' : links off n own s s' -> bin_step bin off n own s s'.
Proof. intros [_ E2 E3 E4 _]. split; [by rw E2|done..]. Qed.

(** A bin does not depend on what others change. *)
Lemma lists_ok_frame s s' off n slots :
  lists_ok s off n slots -> (forall x, off <= x < off + n -> entry (lists s') x = entry (lists s) x) ->
  (forall i x, x ∈ slots i -> folios s' !! x = folios s !! x) -> lists_ok s' off n slots.
Proof.
  intros [H1 H2 H3 H4 H5] Hl HF. split; [done..| |done|done]. intros i Hi. rw Hl; [lia|].
  apply (dll_ext (folios s)); [|by apply H3]. intros x. apply HF.
Qed.

Lemma bin_inv_frame s s' bin info off cs slots :
  bin_inv s bin info off cs slots ->
  (forall x, off <= x < off + (objects_per_folio info + 2) -> entry (lists s') x = entry (lists s) x) ->
  (forall x, x ∈ bin_folios info cs -> folios s' !! x = folios s !! x) ->
  entry (fullest_offset s') bin = entry (fullest_offset s) bin -> bin_inv s' bin info off cs slots.
Proof.
  intros [H1 H2 H3 H4 H5] Hl HF Hf. split; [|done|done| |by rw Hf].
  - apply (lists_ok_frame s); [done..|]. intros i x Hx. apply HF. by apply (H2 i).
  - intros i p Hp. destruct (H4 i p Hp) as (bm & Hb & Hok). exists bm. split; [|done]. unfold bitmap_of.
    rw HF //. by apply (H2 i).
Qed.

(** The first folio of the list that is looked at. *)
Lemma fullest_folio_spec s off opf slots f :
  lists_ok s off (opf + 2) slots -> fullest_ok opf slots f -> 0 < f ->
  exists i p l, fullest_folio opf off f s = Some ((i, p), s) /\ slots i = p :: l /\ 0 < p /\
    f <= i < opf + 2 /\ Z.min i opf = f.
Proof.
  intros HL (Hr & _ & Hne) Hf. specialize (Hne Hf). unfold fullest_folio.
  rw (bind_Some _ _ _ _ _ (get_list_ok s off (opf + 2) slots f HL ltac:(lia))).
  pose proof (sl_dll _ _ _ _ HL f ltac:(lia)) as Hd. destruct (slots f) as [|p l] eqn:Es.
  - destruct Hne as [?|[-> Hne]]; [done|]. simpl in Hd. rw Hd Z.eqb_refl. cbn [Z.eqb andb].
    rw (bind_Some _ _ _ _ _ (get_list_ok s off (opf + 2) slots (opf + 1) HL ltac:(lia))).
    pose proof (sl_dll _ _ _ _ HL (opf + 1) ltac:(lia)) as Hd1. destruct (slots (opf + 1)) as [|p l] eqn:Es1; [done|].
    destruct Hd1 as (-> & Hp & _). exists (opf + 1), p, l. split_and!; [done..|lia|lia|lia].
  - destruct Hd as (-> & Hp & _). rewrite -> (proj2 (Z.eqb_neq p 0)) by lia. rw andb_false_r.
    exists f, p, l. split_and!; [done..|lia|lia|lia].
Qed.

Lemma find_fullest_spec s off opf slots n : lists_ok s off (opf + 2) slots -> 1 <= opf -> forall i,
  1 <= i -> i + Z.of_nat n = opf + 2 ->
  exists r, find_fullest off opf n i s = Some (r, s) /\ 0 <= r <= opf /\
    (r = 0 -> forall j, i <= j -> slots j = []) /\
    (0 < r -> slots r <> [] \/ r = opf /\ slots (opf + 1) <> []).
Proof.
  intros HL Hopf. induction n as [|n IH]; intros i Hi En; simpl.
  - exists 0. split_and!; [done|lia|lia| |lia]. intros _ j Hj. apply (sl_none _ _ _ _ HL). lia.
  - rw (bind_Some _ _ _ _ _ (get_list_ok s off (opf + 2) slots i HL ltac:(lia))).
    pose proof (sl_dll _ _ _ _ HL i ltac:(lia)) as Hd. destruct (slots i) as [|p l] eqn:Es; simpl in Hd.
    + rw Hd. cbn [Z.eqb]. destruct (IH (i + 1)) as (r & E & Hr & H0 & H1); [lia|lia|]. exists r. split_and!; [done|lia|lia| |done].
      intros Hz j Hj. destruct (decide (j = i)) as [->|]; [done|]. apply H0; [done|lia].
    + destruct Hd as (-> & Hp & _). rewrite -> (proj2 (Z.eqb_neq p 0)) by lia. eexists. split; [done|]. case_eqb.
      * split_and!; [lia|lia|lia|]. intros _. right. by rw Es.
      * split_and!; [lia|lia|lia|]. intros _. left. by rw Es.
Qed.

Lemma fullest_uint opf : per_folio_ok opf -> forall f, 0 <= f <= opf -> uwrap 16 f = f.
Proof. intros [Hr _] f Hf. apply uwrap_small. unfold is_uint. lia. Qed.

(** The new value of [fullest_offset] after a folio went to the list before. *)
Lemma next_fullest_spec s bin off opf slots f p l :
  lists_ok s off (opf + 2) slots -> per_folio_ok opf -> 0 < f <= opf -> slots (f - 1) = p :: l ->
  exists f', (if 1 <? f then set_fullest bin (f - 1)
     else
       use_new_fullest ← find_fullest off opf (Z.to_nat (opf + 1)) 1;
       set_fullest bin use_new_fullest) s =
    Some (tt, Small (s_chunks s) (lists s) (<[bin := f']> (fullest_offset s)) (folios s)) /\ fullest_ok opf slots f'.
Proof.
  intros HL Hok Hf Hs. pose proof (opf_range _ Hok) as Hr. case_ltb.
  - exists (f - 1). unfold set_fullest, modify. rewrite -> (fullest_uint opf Hok) by lia. split; [done|].
    split_and!; [lia|lia|lia|]. intros _. left. by rw Hs.
  - destruct (find_fullest_spec s off opf slots (Z.to_nat (opf + 1)) HL ltac:(lia) 1) as (r & E & Hrr & H0 & H1); [lia|lia|].
    rw (bind_Some _ _ _ _ _ E). exists r. unfold set_fullest, modify. rewrite -> (fullest_uint opf Hok) by lia.
    split; [done|]. by split_and!; [lia|lia|..].
Qed.

(** The header of a folio lies in its chunk. *)
Lemma ll_offset bin info f : static_bin bin = Some info -> bin < first_large_bin_number ->
  0 <= f < folios_per_chunk info -> 0 <= sizeof_per_folio * f < chunksize.
Proof.
  intros Hb Hlt Hf. pose proof (small_header bin info Hb Hlt). pose proof (layout bin info Hb) as HL.
  destruct HL as [? ? ? ? ? ?]; [unfold first_large_bin_number, first_huge_bin_number in *; lia|].
  unfold sizeof_per_folio in *. assert (0 <= folios_per_chunk info * folio_size info) by (apply Z.mul_nonneg_nonneg; nia). nia.
Qed.

Lemma ll_inj bin info c c' f f' : static_bin bin = Some info -> bin < first_large_bin_number ->
  is_chunk c -> is_chunk c' -> 0 <= f < folios_per_chunk info -> 0 <= f' < folios_per_chunk info ->
  ll c f = ll c' f' -> c = c' /\ f = f'.
Proof.
  intros Hb Hlt Hc Hc' Hf Hf' E. unfold ll in E.
  pose proof (ll_offset bin info f Hb Hlt Hf) as R. pose proof (ll_offset bin info f' Hb Hlt Hf') as R'.
  assert (c = c') as <- by (rw -(chunk_address c (sizeof_per_folio * f)) // E; by apply chunk_address).
  split; [done|]. unfold sizeof_per_folio in *. lia.
Qed.

(** The address that is computed from the header and the bit. *)
Lemma take_address bin info c f w bit : static_bin bin = Some info -> bin < first_large_bin_number -> is_chunk c ->
  object_ok info f (64 * Z.of_nat w + bit) -> 0 <= bit ->
  let p := ll c f in
  let folio_off := umul 64 (offset_in_chunk p / sizeof_per_folio) (folio_size info) in
  let obj_off := umul 32 (uadd 32 (Z.of_nat w * 64) bit) (uwrap 32 (object_size info)) in
  uwrap 64 (address_2_chunkaddress p + overhead_pages_per_chunk info * pagesize + folio_off + obj_off) =
  object_address info c f (64 * Z.of_nat w + bit).
Proof.
  intros Hb Hlt Hc Hok Hbit p folio_off obj_off. set (k := 64 * Z.of_nat w + bit) in *.
  pose proof (layout bin info Hb ltac:(unfold first_large_bin_number, first_huge_bin_number in *; lia)) as HL.
  pose proof (ll_offset bin info f Hb Hlt (ok_folio _ _ _ Hok)) as R.
  pose proof (object_offset info f k 0 HL Hok ltac:(pose proof (lo_object _ HL); lia)) as Ro.
  destruct HL as [Ho Hov Hopf Hfpc Hfs Hch]. destruct Hok as [Hf Hk].
  assert (0 <= f * folio_size info) by (apply Z.mul_nonneg_nonneg; nia).
  assert (0 <= k * object_size info) by (apply Z.mul_nonneg_nonneg; lia).
  unfold object_address in Ro |- *. unfold pagesize, chunksize, log_chunksize in *.
  assert (0 <= folios_per_chunk info * folio_size info) by (apply Z.mul_nonneg_nonneg; nia).
  assert (object_size info < 2 ^ 32) by nia.
  assert (obj_off = k * object_size info) as ->.
  { unfold obj_off, uadd, umul. rewrite -> (uwrap_small 32 (object_size info)) by (unfold is_uint; lia).
    rewrite -> (uwrap_small 32 (_ + bit)) by (unfold is_uint; lia). rewrite -> uwrap_small; [unfold k; lia|].
    replace (Z.of_nat w * 64 + bit) with k by (unfold k; lia). unfold is_uint. lia. }
  assert (folio_off = f * folio_size info) as ->.
  { unfold folio_off, umul, p, ll. rewrite -> chunk_offset by done. unfold sizeof_per_folio.
    rewrite -> (Z.mul_comm 320), Z.div_mul by done. rewrite -> uwrap_small; [done|]. unfold is_uint. lia. }
  unfold p, ll. rewrite -> chunk_address by done. rewrite -> uwrap_small; [done|].
  destruct Hc as (cn & Hcn & ->). unfold is_uint, chunksize, log_chunksize, log_max_chunknumber in *. lia.
Qed.

Lemma take_object_spec s bin info c f : static_bin bin = Some info -> bin < first_large_bin_number -> is_chunk c ->
  0 <= f < folios_per_chunk info -> forall bm, bitmap_of (folios s) (ll c f) = Some bm ->
  bitmap_ok (objects_per_folio info) bm -> used bm (n_words (objects_per_folio info)) < objects_per_folio info ->
  exists k pf bm', take_object info (ll c f) (uwrap 32 (object_size info)) s =
      Some (object_address info c f k, with_folios (<[ll c f := with_bitmap bm' pf]> (folios s)) s) /\
    folios s !! ll c f = Some pf /\ object_ok info f k /\ bit_at bm k = false /\
    bitmap_ok (objects_per_folio info) bm' /\
    used bm' (n_words (objects_per_folio info)) = used bm (n_words (objects_per_folio info)) + 1 /\
    (forall j, 0 <= j -> bit_at bm' j = if j =? k then true else bit_at bm j).
Proof.
  intros Hb Hlt Hc Hf bm Hbm Hok Hu. unfold bitmap_of in Hbm. apply fmap_Some in Hbm as (pf & Hpf & ->).
  pose proof (small_per_folio bin info Hb Hlt) as Hopf.
  destruct (find_free_spec _ _ Hopf Hok Hu) as (w & bit & Ef & Hbit & Hw & Hk & Hfree).
  destruct (set_bit_spec _ _ w bit Hopf Hok Hw Hbit Hk Hfree) as (Hok' & Hu' & Hat).
  set (k := 64 * Z.of_nat w + bit) in *. exists k, pf, (set_bit (inuse_bitmap pf) w bit). unfold take_object.
  assert (object_ok info f k) as Hobj by (split; [done|unfold k; lia]).
  rw (bind_Some _ _ _ _ _ (get_folio_ok s _ pf Hpf)). rw (bind_the _ _ _ _ Ef).
  rw (bind_Some _ _ _ _ _ (update_folio_ok s _ _ pf Hpf)).
  split_and!; [|done..].
  pose proof (take_address bin info c f w bit Hb Hlt Hc Hobj ltac:(lia)) as Ea. fold k in Ea. by rw -Ea.
Qed.

(** Changing the bitmap of one folio keeps the lists. *)
Lemma lists_ok_bitmap s off n slots p pf bm : lists_ok s off n slots -> folios s !! p = Some pf ->
  lists_ok (with_folios (<[p := with_bitmap bm pf]> (folios s)) s) off n slots.
Proof. intros [H1 H2 H3 H4 H5] Hp. split; [done..| |done|done]. intros i Hi. simpl. apply dll_with_bitmap; [done|]. by apply H3. Qed.

(** One object is taken or given back, and nothing else changes. *)
Definition flips (info : static_bin_s) (cs : list Z) (c f k : Z) (b : bool) s s' : Prop :=
  forall c' f' k', c' ∈ cs -> object_ok info f' k' ->
    object_used s' c' f' k' = if decide (c' = c /\ f' = f /\ k' = k) then b else object_used s c' f' k'.

Lemma bitmap_flips bin info cs c f k b s s' bm bm' :
  static_bin bin = Some info -> bin < first_large_bin_number -> (forall c, c ∈ cs -> is_chunk c) -> c ∈ cs ->
  0 <= f < folios_per_chunk info ->
  bitmap_of (folios s) (ll c f) = Some bm -> bitmap_of (folios s') (ll c f) = Some bm' ->
  (forall p, p <> ll c f -> bitmap_of (folios s') p = bitmap_of (folios s) p) ->
  (forall j, 0 <= j -> bit_at bm' j = if j =? k then b else bit_at bm j) -> flips info cs c f k b s s'.
Proof.
  intros Hb Hlt Hcs Hc Hf E E' Ho Hat c' f' k' Hc' Hok. unfold object_used.
  destruct (decide (ll c' f' = ll c f)) as [El|Hne].
  - destruct (ll_inj bin info c' c f' f) as [-> ->]; [done|done|by apply Hcs|by apply Hcs|by apply Hok|done|done|].
    rw E E' Hat; [by apply Hok|]. case_eqb; [by rewrite -> decide_True|by rewrite -> decide_False by tauto].
  - rw Ho // decide_False //. by intros (-> & -> & _).
Qed.

(** Where the folios are after one of them was moved. *)
Lemma moved_slots s off n slots i j l1 l2 p :
  lists_ok s off n slots -> slots i = l1 ++ p :: l2 ->
  let slots1 := <[i := l1 ++ l2]> slots in
  forall m x, x ∈ (<[j := p :: slots1 j]> slots1) m <-> (x <> p /\ x ∈ slots m) \/ (x = p /\ m = j).
Proof.
  intros HL Hs slots1. assert (forall m x, x ∈ slots1 m <-> x <> p /\ x ∈ slots m) as H1.
  { intros m x. unfold slots1. pose proof (sl_nodup _ _ _ _ HL i) as Hnd. rw Hs in Hnd.
    apply NoDup_app in Hnd as (_ & Hdj & [Hp2 _]%NoDup_cons).
    assert (p ∉ l1) as Hp1 by (intros Hx; apply (Hdj p Hx); left).
    destruct (decide (m = i)) as [->|Hne].
    - rw fn_lookup_insert Hs !elem_of_app elem_of_cons. split; [|tauto]. intros Hx. split; [by intros ->; destruct Hx|tauto].
    - rw fn_lookup_insert_ne //. split; [|tauto]. intros Hx. split; [|done]. intros ->. apply Hne.
      apply (sl_disjoint _ _ _ _ HL m i p); [done|]. rw Hs elem_of_app elem_of_cons. tauto. }
  intros m x. destruct (decide (m = j)) as [->|Hne].
  - rw fn_lookup_insert elem_of_cons H1. tauto.
  - rw fn_lookup_insert_ne // H1. tauto.
Qed.

Lemma bin_inv_move s s' bin info off cs slots slots' i j p bm :
  bin_inv s bin info off cs slots -> p ∈ slots i -> lists_ok s' off (objects_per_folio info + 2) slots' ->
  (forall m x, x ∈ slots' m <-> (x <> p /\ x ∈ slots m) \/ (x = p /\ m = j)) ->
  bitmap_of (folios s') p = Some bm -> bitmap_ok (objects_per_folio info) bm ->
  used bm (n_words (objects_per_folio info)) = objects_per_folio info - Z.min j (objects_per_folio info) ->
  (forall x, x <> p -> bitmap_of (folios s') x = bitmap_of (folios s) x) ->
  fullest_ok (objects_per_folio info) slots' (entry (fullest_offset s') bin) -> bin_inv s' bin info off cs slots'.
Proof.
  intros [HL Hfo Hall Hus Hfu] Hp HL' Hm Hbm Hok Hu Ho Hf. split; [done| | | |done].
  - intros m x [[_ Hx]|[-> _]]%Hm; by eapply Hfo.
  - intros x (m & Hx)%Hall. destruct (decide (x = p)) as [->|Hne]; [exists j|exists m]; apply Hm; tauto.
  - intros m x [[Hne Hx]|[-> ->]]%Hm; [|by exists bm]. destruct (Hus m x Hx) as (bx & Hbx & Hrest). exists bx. by rw Ho.
Qed.

Lemma do_small_malloc_spec s bin info off cs slots :
  static_bin bin = Some info -> bin < first_large_bin_number -> (forall c, c ∈ cs -> is_chunk c) ->
  bin_inv s bin info off cs slots -> entry (fullest_offset s) bin <> 0 ->
  exists s' slots' c f k, do_small_malloc bin off (uwrap 32 (object_size info)) s = Some (object_address info c f k, s') /\
    s_chunks s' = s_chunks s /\ bin_inv s' bin info off cs slots' /\
    bin_step bin off (objects_per_folio info + 2) (bin_folios info cs) s s' /\
    c ∈ cs /\ object_ok info f k /\ object_used s c f k = false /\ flips info cs c f k true s s'.
Proof.
  intros Hb Hlt Hcs HI Hne. pose proof (small_per_folio bin info Hb Hlt) as Hopf. pose proof HI as [HL Hfo _ Hus Hfu].
  unfold do_small_malloc, get_fullest. rw bind_gets. set (fu := entry (fullest_offset s) bin) in *.
  rewrite -> (proj2 (Z.eqb_neq fu 0)) by done. rw (bind_the _ _ _ _ Hb). cbv zeta. set (opf := objects_per_folio info) in *.
  assert (0 < fu <= opf) as Hf by (destruct Hfu; lia).
  destruct (fullest_folio_spec s off opf slots fu HL Hfu ltac:(lia)) as (i & p & l & E0 & Hs & Hp & Hi & Hmin).
  rw (bind_Some _ _ _ _ _ E0). cbv beta iota. rw bind_bassert; [by apply negb_true_iff, Z.eqb_neq; lia|].
  assert (p ∈ slots i) as Hpi by (rw Hs; left). pose proof (Hfo i p Hpi) as Hpo.
  apply elem_of_bin_folios in Hpo as (c & f & Hc & Hfr & ->). destruct (Hus i _ Hpi) as (bm & Hbm & Hok & Hub).
  destruct (move_folio_spec s off (opf + 2) slots (bin_folios info cs) i (fu - 1) l (ll c f) HL Hfo Hs)
    as (s1 & E1 & Hk1 & HL1); [lia|lia|]. rw (bind_Some _ _ _ _ _ E1).
  pose proof (moved_slots s off (opf + 2) slots i (fu - 1) [] l (ll c f) HL Hs) as Hmv. simpl in Hmv.
  set (slots1 := <[i := l]> slots) in *. set (slots' := <[fu - 1 := ll c f :: slots1 (fu - 1)]> slots1) in *.
  destruct (next_fullest_spec s1 bin off opf slots' fu (ll c f) (slots1 (fu - 1)) HL1 Hopf Hf) as (fu' & E2 & Hfu');
    [unfold slots'; by rw fn_lookup_insert|].
  rw (bind_Some _ _ _ _ _ E2). set (s2 := Small _ _ (<[bin := fu']> _) _).
  assert (forall x, bitmap_of (folios s2) x = bitmap_of (folios s) x) as Hbms by apply (lk_bitmaps _ _ _ _ _ Hk1).
  destruct (take_object_spec s2 bin info c f Hb Hlt (Hcs _ Hc) Hfr bm) as (k & pf & bm' & E3 & Hpf & Hobj & Hfree & Hok' & Hub' & Hat);
    [by rw Hbms|done|fold opf; lia|]. set (s3 := with_folios _ _) in E3. exists s3, slots', c, f, k. split; [exact E3|].
  assert (forall x, x <> ll c f -> bitmap_of (folios s3) x = bitmap_of (folios s) x) as Hbo.
  { intros x Hx. rw -Hbms. unfold s3, bitmap_of. simpl. by rw lookup_insert_ne. }
  assert (bitmap_of (folios s3) (ll c f) = Some bm') as Hbn by (unfold s3, bitmap_of; simpl; by rw lookup_insert_eq).
  split_and!; [apply Hk1| | |done|done|unfold object_used; by rw Hbm|by apply (bitmap_flips bin info cs c f k true s s3 bm bm')].
  - apply (bin_inv_move s s3 bin info off cs slots slots' i (fu - 1) (ll c f) bm'); try done.
    + apply (lists_ok_bitmap s2); [|done]. by destruct HL1.
    + fold opf. fold opf in Hub'. lia.
    + unfold s3. simpl. by rw entry_insert.
  - etrans; [by apply links_step|]. split; simpl; [|done|].
    + intros b Hbb. by rw entry_insert_ne.
    + intros x Hx. rw lookup_insert_ne //. intros <-. apply Hx. by apply (Hfo i).
Qed.

(** The end of [small_free]: a folio without objects in use goes to the last list
    when there is another one. *)
Definition free_object (bin p k off opf : Z) : M (small K) unit :=
  madvise_me ← do_small_free bin p k off;
  if madvise_me =? 0 then mret tt
  else
    bassert (madvise_me =? p);;
    small_free_post_madvise p (off + opf + 1).

(** The new value of [fullest_offset] after a folio left the list [i]. *)
Lemma free_fullest_step s bin opf i (is_last : bool) :
  per_folio_ok opf -> 0 <= i < opf -> let f := entry (fullest_offset s) bin in
  exists fo, (if i =? 0 then set_fullest bin (i + 1)
     else if is_last && (f =? i) then set_fullest bin (i + 1) else mret tt) s =
    Some (tt, Small (s_chunks s) (lists s) fo (folios s)) /\
    (forall b, b <> bin -> entry fo b = entry (fullest_offset s) b) /\
    (entry fo bin = i + 1 \/ entry fo bin = f /\ i <> 0 /\ (f <> i \/ is_last = false)).
Proof.
  intros Hok Hi f. pose proof (fullest_uint opf Hok (i + 1) ltac:(lia)) as Ew.
  assert (forall b, b <> bin -> entry (<[bin := i + 1]> (fullest_offset s)) b = entry (fullest_offset s) b) as Hins
    by (intros b Hb; by apply entry_insert_ne).
  unfold set_fullest, modify. rw Ew. case_eqb.
  - eexists. split; [done|]. split; [done|]. left. apply entry_insert.
  - destruct (is_last && (f =? i)) eqn:El.
    + eexists. split; [done|]. split; [done|]. left. apply entry_insert.
    + exists (fullest_offset s). split; [by destruct s|]. split; [done|]. right. split_and!; [done..|].
      apply andb_false_iff in El as [El|El%Z.eqb_neq]; tauto.
Qed.

Lemma free_fullest_ok opf slots slots' f f' i j p :
  1 <= opf -> fullest_ok opf slots f -> 0 <= i < opf -> p ∈ slots i -> (forall m, p ∈ slots m -> m = i) ->
  i + 1 <= j -> Z.min j opf = i + 1 -> j < opf + 2 ->
  (forall m x, x ∈ slots' m <-> (x <> p /\ x ∈ slots m) \/ (x = p /\ m = j)) ->
  (f' = i + 1 \/ f' = f /\ i <> 0 /\ (f <> i \/ exists x, x ∈ slots i /\ x <> p)) -> fullest_ok opf slots' f'.
Proof.
  intros Hopf (Hf & Hf0 & Hf1) Hi Hp Hd Hj Hmin Hj2 Hm Hcase.
  assert (forall m x, x ∈ slots' m -> slots' m <> []) as Hne by (intros m x Hx E; rw E in Hx; by apply elem_of_nil in Hx).
  destruct Hcase as [->|(-> & Hi0 & Hcase)].
  - split_and!; [lia|lia|lia|]. intros _. assert (p ∈ slots' j) as Hpj by (apply Hm; tauto).
    destruct (decide (j = i + 1)) as [->|Hji]; [left; by eapply Hne|right]. split; [lia|].
    assert (j = opf + 1) as -> by lia. by eapply Hne.
  - assert (f <> 0) as Hz.
    { intros ->. rewrite -> (Hf0 eq_refl i) in Hp by lia. by apply elem_of_nil in Hp. }
    assert (forall m, m <> i -> slots m <> [] -> slots' m <> []) as Hkeep.
    { intros m Hmi Hs. destruct (slots m) as [|x l] eqn:Es; [done|]. assert (x ∈ slots m) as Hx by (rw Es; left).
      apply (Hne m x), Hm. left. split; [|done]. intros ->. by apply Hmi, Hd. }
    split_and!; [lia|lia|lia|]. intros _. destruct (Hf1 ltac:(lia)) as [Hs|[-> Hs]].
    + left. destruct (decide (f = i)) as [->|Hfi]; [|by apply Hkeep].
      destruct Hcase as [?|(x & Hx & Hxp)]; [done|]. apply (Hne i x), Hm. tauto.
    + right. split; [done|]. apply Hkeep; [lia|done].
Qed.

(** The object is marked free and its folio is out of the lists. *)
Record freeing s s2 (bin : Z) (info : static_bin_s) (off : Z) (cs : list Z) (slots slots1 : Z -> list Z)
    (c f k i : Z) : Prop := {
  fr_slot : 0 <= i < objects_per_folio info /\ ll c f ∈ slots i;
  fr_chunks : s_chunks s2 = s_chunks s;
  fr_step : bin_step bin off (objects_per_folio info + 2) (bin_folios info cs) s s2;
  fr_link j : 0 <= j < objects_per_folio info + 2 ->
    exists s', link_folio (ll c f) (off + j) s2 = Some (tt, s') /\
      links off (objects_per_folio info + 2) (bin_folios info cs) s2 s' /\
      lists_ok s' off (objects_per_folio info + 2) (<[j := ll c f :: slots1 j]> slots1);
  fr_moved j m x : x ∈ (<[j := ll c f :: slots1 j]> slots1) m <-> (x <> ll c f /\ x ∈ slots m) \/ (x = ll c f /\ m = j);
  fr_bitmap : exists bm, bitmap_of (folios s2) (ll c f) = Some bm /\ bitmap_ok (objects_per_folio info) bm /\
    used bm (n_words (objects_per_folio info)) = objects_per_folio info - (i + 1);
  fr_others x : x <> ll c f -> bitmap_of (folios s2) x = bitmap_of (folios s) x;
  fr_flips : flips info cs c f k false s s2;
  fr_fullest : let fu := entry (fullest_offset s) bin in
    entry (fullest_offset s2) bin = i + 1 \/ entry (fullest_offset s2) bin = fu /\ i <> 0 /\
      (fu <> i \/ exists x, x ∈ slots i /\ x <> ll c f);
}.

(** Whichever list the folio goes to, the bin is in order again. *)
Lemma freeing_done s s2 bin info off cs slots slots1 c f k i j :
  bin_inv s bin info off cs slots -> per_folio_ok (objects_per_folio info) ->
  freeing s s2 bin info off cs slots slots1 c f k i -> 
  i + 1 <= j < objects_per_folio info + 2 -> Z.min j (objects_per_folio info) = i + 1 ->
  exists s' slots', link_folio (ll c f) (off + j) s2 = Some (tt, s') /\
    s_chunks s' = s_chunks s /\ bin_inv s' bin info off cs slots' /\
    bin_step bin off (objects_per_folio info + 2) (bin_folios info cs) s s' /\ flips info cs c f k false s s'.
Proof.
  intros HI Hopf [[Hi Hpi] Hch Hst Hlink Hmv (bm & Hbm & Hok & Hub) Hot Hfl Hfu] Hj Hmin.
  destruct (Hlink j ltac:(lia)) as (s' & E & Hk & HL'). eexists s', _. split; [done|].
  pose proof (lk_bitmaps _ _ _ _ _ Hk) as Hbms.
  assert (forall x, bitmap_of (folios s') x = bitmap_of (folios s2) x) as Hb2 by apply Hbms.
  split_and!; [by rw (lk_chunks _ _ _ _ _ Hk)| |etrans; [done|by apply links_step]|].
  - eapply (bin_inv_move s s' bin info off cs slots _ i j (ll c f) bm); [done..|by rw Hb2|done|by rw Hub Hmin| |].
    + intros x Hx. rw Hb2. by apply Hot.
    + rw (lk_fullest _ _ _ _ _ Hk). eapply (free_fullest_ok _ slots); [apply Hopf|apply HI|done|done| |by apply Hj|done|lia|by apply Hmv|done].
      intros m Hm. by apply (sl_disjoint _ _ _ _ (bi_lists _ _ _ _ _ _ HI) m i (ll c f)).
  - intros c' f' k' Hc' Ho. rw -Hfl //. unfold object_used. by rw Hb2.
Qed.

Lemma do_small_free_start s bin info off cs slots c f k :
  static_bin bin = Some info -> bin < first_large_bin_number -> (forall c, c ∈ cs -> is_chunk c) ->
  bin_inv s bin info off cs slots -> c ∈ cs -> object_ok info f k -> object_used s c f k = true ->
  let opf := objects_per_folio info in
  exists s2 slots1 i, freeing s s2 bin info off cs slots slots1 c f k i /\
    do_small_free bin (ll c f) k off s =
    (bassert (off + (i + 1) <? off + opf + 1);;
     h ← get_list (off + (i + 1));
     if negb (off + (i + 1) =? off + opf) || (h =? 0) then link_folio (ll c f) (off + (i + 1));; mret 0
     else mret (ll c f)) s2.
Proof.
  intros Hb Hlt Hcs HI Hc Hobj Hset opf. pose proof (small_per_folio bin info Hb Hlt) as Hopf. fold opf in Hopf.
  pose proof HI as [HL Hfo Hall Hus Hfu]. fold opf in HL, Hus, Hfu. destruct (n_words_bound _ Hopf) as [Hnw _].
  destruct (Hall (ll c f)) as (i & Hpi); [apply elem_of_bin_folios; exists c, f; by destruct Hobj|].
  destruct (Hus i _ Hpi) as (bm & Hbm & Hok & Hub). unfold object_used in Hset. rw Hbm in Hset.
  pose proof Hbm as Hpf. unfold bitmap_of in Hpf. apply fmap_Some in Hpf as (pf & Hpf & ->).
  destruct (clear_bit_spec s opf _ k Hopf Hok (ok_object _ _ _ Hobj) Hset) as (bm' & E1 & Hok' & Hub' & Hat).
  pose proof (used_bound bm' (n_words opf) (bm_words _ _ Hok')) as Hge.
  assert (0 <= i) as Hi0.
  { destruct (decide (0 <= i < opf + 2)); [lia|]. rewrite -> (sl_none _ _ _ _ HL) in Hpi by done. by apply elem_of_nil in Hpi. }
  assert (i < opf) as Hi by lia. rewrite -> Z.min_l in Hub by lia.
  unfold do_small_free. rw (bind_the _ _ _ _ Hb). fold opf. cbv zeta. rw (bind_Some _ _ _ _ _ (get_folio_ok s _ pf Hpf)).
  fold (n_words opf). rewrite -> (count_used_used _ _ (bm_words _ _ Hok)) by lia. rw Hub (bind_Some _ _ _ _ _ E1).
  rw (bind_Some _ _ _ _ _ (update_folio_ok s _ _ pf Hpf)). set (s1 := with_folios _ _).
  pose proof (sl_region _ _ _ _ HL) as Hreg. pose proof (opf_range _ Hopf) as Hr. unfold dynamic_small_bin_info_b in Hreg.
  replace (uwrap 32 (opf - (opf - i))) with i by (symmetry; rewrite -> uwrap_small; [lia|unfold is_uint; lia]).
  rewrite -> (uadd_small off i), (uadd_small i 1), (uadd_small (off + i) 1) by lia.
  pose proof (lists_ok_bitmap s off (opf + 2) slots (ll c f) pf bm' HL Hpf) as HL1. fold s1 in HL1.
  apply list_elem_of_split in Hpi as Hsplit. destruct Hsplit as (l1 & l2 & Hs).
  destruct (move_slot_spec s1 off (opf + 2) slots (bin_folios info cs) i l1 l2 (ll c f) (with_bitmap bm' pf) pf)
    as (su & Eu & Hku & HLu & Hpu & Hlink); [done|done|done|lia|unfold s1; simpl; by rw lookup_insert_eq|done|done|].
  rw (bind_Some _ _ _ _ _ Eu). unfold get_fullest. rw bind_gets.
  destruct (free_fullest_step su bin opf i (next pf =? 0) Hopf ltac:(lia)) as (fo & E2 & Hfo2 & Hcase).
  rw (bind_Some _ _ _ _ _ E2). eexists _, (<[i := l1 ++ l2]> slots), i.
  rewrite <- Z.add_assoc. split; [|done].
  assert (forall x, x <> ll c f -> bitmap_of (folios su) x = bitmap_of (folios s) x) as Hbo.
  { intros x Hx. unfold bitmap_of. rw (lk_bitmaps _ _ _ _ _ Hku). unfold s1. simpl. by rw lookup_insert_ne. }
  assert (bitmap_of (folios su) (ll c f) = Some bm') as Hbn by (unfold bitmap_of; by rw Hpu).
  pose proof (lk_fullest _ _ _ _ _ Hku) as Efu. simpl in Efu.
  split; simpl; fold opf.
  - split; [lia|done].
  - apply Hku.
  - destruct Hku as [_ _ Hls Hfs _]. split; simpl; [by rw -Efu|done|]. intros x Hx. rw Hfs // /s1 /= lookup_insert_ne //.
    intros <-. apply Hx. by apply (Hfo i).
  - intros j Hj. by apply Hlink.
  - intros j. by apply (moved_slots s off (opf + 2)).
  - exists bm'. split_and!; [done..|]. lia.
  - done.
  - apply (bitmap_flips bin info cs c f k false s _ (inuse_bitmap pf) bm'); try done. apply Hobj.
  - rw Efu in Hcase. destruct Hcase as [?|(? & ? & Hcase)]; [by left|right]. split_and!; [done..|].
    destruct Hcase as [?|Hl]; [by left|right]. apply Z.eqb_neq in Hl.
    pose proof (sl_dll _ _ _ _ HL i ltac:(lia)) as Hd. rw Hs in Hd. apply dll_app in Hd as (m & _ & _ & _ & pf' & Hpf' & _ & Hd).
    assert (pf' = pf) as -> by congruence. destruct l2 as [|x l2]; [done|]. exists x. rw Hs. split; [rw elem_of_app !elem_of_cons; tauto|].
    pose proof (sl_nodup _ _ _ _ HL i) as Hnd. rw Hs in Hnd. apply NoDup_app in Hnd as (_ & _ & [Hn _]%NoDup_cons).
    apply not_elem_of_cons in Hn as [Hn _]. done.
Qed.

Lemma free_object_spec s bin info off cs slots c f k :
  static_bin bin = Some info -> bin < first_large_bin_number -> (forall c, c ∈ cs -> is_chunk c) ->
  bin_inv s bin info off cs slots -> c ∈ cs -> object_ok info f k -> object_used s c f k = true ->
  exists s' slots', free_object bin (ll c f) k off (objects_per_folio info) s = Some (tt, s') /\
    s_chunks s' = s_chunks s /\ bin_inv s' bin info off cs slots' /\
    bin_step bin off (objects_per_folio info + 2) (bin_folios info cs) s s' /\ flips info cs c f k false s s'.
Proof.
  intros Hb Hlt Hcs HI Hc Hobj Hset. pose proof (small_per_folio bin info Hb Hlt) as Hopf.
  destruct (do_small_free_start s bin info off cs slots c f k) as (s2 & slots1 & i & Hfr & E); [done..|]. cbv zeta in E.
  set (opf := objects_per_folio info) in *. destruct (fr_slot _ _ _ _ _ _ _ _ _ _ _ _ Hfr) as [Hi Hpi]. fold opf in Hi.
  pose proof (sl_region _ _ _ _ (bi_lists _ _ _ _ _ _ HI)) as Hreg. fold opf in Hreg.
  rw bind_bassert in E; [apply Z.ltb_lt; lia|].
  rewrite -> (bind_Some _ _ _ _ _ (get_list_in s2 (off + (i + 1)) ltac:(lia))) in E.
  set (h := entry (lists s2) _) in E. unfold free_object.
  destruct (negb (off + (i + 1) =? off + opf) || (h =? 0)) eqn:Eb.
  - destruct (freeing_done s s2 bin info off cs slots slots1 c f k i (i + 1)) as (s' & slots' & El & Hrest);
      [done..|fold opf; lia|fold opf; lia|].
    rw (bind_Some _ _ _ _ _ El) in E. rw (bind_Some _ _ _ _ _ E). by exists s', slots'.
  - apply orb_false_iff in Eb as [Eb%negb_false_iff%Z.eqb_eq _].
    destruct (freeing_done s s2 bin info off cs slots slots1 c f k i (opf + 1)) as (s' & slots' & El & Hrest);
      [done..|fold opf; lia|fold opf; lia|].
    rw (bind_Some _ _ _ _ _ E). assert (0 < ll c f) as Hpos.
    { by apply (dll_elem _ _ _ _ _ (sl_dll _ _ _ _ (bi_lists _ _ _ _ _ _ HI) i ltac:(fold opf; lia)) Hpi). }
    rewrite -> (proj2 (Z.eqb_neq (ll c f) 0)) by lia. rw bind_bassert; [apply Z.eqb_refl|].
    exists s', slots'. split; [|done]. unfold small_free_post_madvise. by rw -El Z.add_assoc.
Qed.
End bins.
