(* ===== verification/SmallAlloc.v ===== *)
(** * src/memory/small_malloc.cpp: [small_malloc] and [small_free].

    All small bins together, with the chunks they own. *)
From stdpp Require Import functions.
From S2P Require Import Prelude Words StateMonad Sizeclass Makechunk Huge Small SmallSpec.
#[local] Open Scope Z_scope.

(** ** A new chunk *)

Section fresh.
Context {K : Kernel}.
Implicit Type s : small K.

(** The header that [init_folio] writes, over [old]. *)
Definition fresh_folio (c fpc : Z) (nw : nat) (i : Z) (old : per_folio) : per_folio :=
  PerFolio (if i + 1 =? fpc then 0 else ll c (i + 1)) (if i =? 0 then 0 else ll c (i - 1))
    (replicate nw 0 ++ drop nw (inuse_bitmap old)).

Lemma ll_injective c i j : ll c i = ll c j -> i = j.
Proof. unfold ll, sizeof_per_folio. lia. Qed.

Lemma init_folios_spec c fpc nw l : NoDup l -> forall s,
  exists F, foreach l (init_folio c fpc nw) s = Some (tt, with_folios F s) /\
    (forall i, i ∈ l -> F !! ll c i = Some (fresh_folio c fpc nw i (default zero_folio (folios s !! ll c i)))) /\
    (forall x, (forall i, i ∈ l -> x <> ll c i) -> F !! x = folios s !! x).
Proof.
  induction 1 as [|i l Hi Hnd IH]; intros s; simpl.
  - exists (folios s). split_and!; [by destruct s|by intros i ?%elem_of_nil|done].
  - unfold init_folio at 1. rw bind_modify. fold (fresh_folio c fpc nw i (default zero_folio (folios s !! ll c i))).
    set (s1 := Small _ _ _ _). destruct (IH s1) as (F & E & Hin & Hout). exists F. split_and!; [done| |].
    + intros j [->|Hj]%elem_of_cons.
      * rw Hout; [intros j Hj E'%ll_injective; by subst|]. simpl. by rw lookup_insert_eq.
      * rw Hin //. simpl. rw lookup_insert_ne //. intros E'%ll_injective. by subst.
    + intros x Hx. rw Hout; [intros j Hj; apply Hx; by right|]. simpl. rw lookup_insert_ne //.
      intros <-. by apply (Hx i); [left|].
Qed.

(** The headers of a new chunk are a list. *)
Lemma fresh_dll F c fpc m : 0 < c -> forall j, 0 <= j -> j + Z.of_nat m = fpc ->
  (forall i, j <= i < fpc -> exists pf, F !! ll c i = Some pf /\
    next pf = (if i + 1 =? fpc then 0 else ll c (i + 1)) /\ prev pf = (if i =? 0 then 0 else ll c (i - 1))) ->
  dll F (if j =? 0 then 0 else ll c (j - 1)) (if j =? fpc then 0 else ll c j) (ll c <$> seqZ j (Z.of_nat m)).
Proof.
  intros Hc. induction m as [|m IH]; intros j Hj Em HF.
  - simpl. by rewrite -> (proj2 (Z.eqb_eq j fpc)) by lia.
  - rewrite -> (proj2 (Z.eqb_neq j fpc)) by lia. rw seqZ_cons; [lia|]. simpl. split; [done|].
    split; [unfold ll, sizeof_per_folio; lia|]. destruct (HF j) as (pf & Hpf & Hn & Hp); [lia|]. exists pf. split_and!; [done..|].
    rw Hn. replace (Z.pred (Z.of_nat (S m))) with (Z.of_nat m) by lia. rw -Z.add_1_r.
    specialize (IH (j + 1) ltac:(lia) ltac:(lia)). rewrite -> (proj2 (Z.eqb_neq (j + 1) 0)) in IH by lia.
    replace (j + 1 - 1) with j in IH by lia. apply IH. intros i Hi. apply HF. lia.
Qed.

Lemma zero_bitmap_ok opf : per_folio_ok opf ->
  let bm := replicate (n_words opf) 0 ++ drop (n_words opf) (inuse_bitmap zero_folio) in
  bitmap_ok opf bm /\ used bm (n_words opf) = 0 /\ forall k, bit_at bm k = false.
Proof.
  intros Hok bm. destruct (n_words_bound _ Hok) as [Hn _]. assert (bm = replicate folio_bitmap_n_words 0) as ->.
  { unfold bm, zero_folio. cbn [inuse_bitmap]. rw drop_replicate -replicate_add. f_equal. unfold folio_bitmap_n_words in *. lia. }
  assert (forall k, bit_at (replicate folio_bitmap_n_words 0) k = false) as Hbit.
  { intros k. unfold bit_at. destruct (replicate _ _ !! _) as [b|] eqn:E; [|apply Z.testbit_0_l].
    apply lookup_replicate in E as [-> _]. apply Z.testbit_0_l. }
  split_and!; [split|..].
  - apply length_replicate.
  - apply Forall_replicate. unfold is_uint. lia.
  - done.
  - unfold used. rw take_replicate. by induction (n_words opf `min` folio_bitmap_n_words)%nat.
  - done.
Qed.

(** The lists of a bin after the folios of a new chunk were put in the last one. *)
Definition grown_slots (info : static_bin_s) (c : Z) (slots : Z -> list Z) : Z -> list Z :=
  <[objects_per_folio info + 1 := ll c <$> seqZ 0 (folios_per_chunk info)]> slots.

Lemma elem_of_folios_of info c x :
  x ∈ ll c <$> seqZ 0 (folios_per_chunk info) <-> exists f, 0 <= f < folios_per_chunk info /\ x = ll c f.
Proof.
  rw list_elem_of_fmap. setoid_rewrite elem_of_seqZ. split; intros (f & ? & ?); exists f; split; (done || lia).
Qed.

Lemma grown_lists s s' info off slots c F :
  let opf := objects_per_folio info in
  lists_ok s off (opf + 2) slots -> 1 <= opf -> 0 < folios_per_chunk info -> is_chunk c ->
  (forall i, 1 <= i -> slots i = []) -> (forall f i, 0 <= f < folios_per_chunk info -> ll c f ∉ slots i) ->
  lists s' = <[off + (opf + 1) := ll c 0]> (lists s) -> folios s' = F ->
  dll F 0 (ll c 0) (ll c <$> seqZ 0 (folios_per_chunk info)) ->
  (forall i x, x ∈ slots i -> F !! x = folios s !! x) ->
  lists_ok s' off (opf + 2) (grown_slots info c slots).
Proof.
  intros opf HL Hopf Hfpc Hc Hemp Hfresh El EF Hd Hsame. pose proof HL as [H1 H2 H3 H4 H5]. unfold grown_slots. fold opf. split.
  - done.
  - intros i Hi. rw fn_lookup_insert_ne; [lia|]. by apply H2.
  - intros i Hi. rw El EF. destruct (decide (i = opf + 1)) as [->|Hne].
    + by rw fn_lookup_insert entry_insert.
    + rw fn_lookup_insert_ne // entry_insert_ne; [lia|]. apply (dll_ext (folios s)); [apply Hsame|by apply H3].
  - intros i. destruct (decide (i = opf + 1)) as [->|Hne]; [|rw fn_lookup_insert_ne //].
    rw fn_lookup_insert. apply NoDup_fmap_2_strong; [|apply NoDup_seqZ]. intros x y _ _. apply ll_injective.
  - intros i j x. destruct (decide (i = opf + 1)) as [->|Hi], (decide (j = opf + 1)) as [->|Hj];
      rw ?fn_lookup_insert // ?fn_lookup_insert_ne //.
    + intros (f & Hf & ->)%elem_of_folios_of Hx. by destruct (Hfresh f j Hf).
    + intros Hx (f & Hf & ->)%elem_of_folios_of. by destruct (Hfresh f i Hf).
    + apply H5.
Qed.

Lemma add_pages_spec s bin info off c pf :
  static_bin bin = Some info -> bin < first_large_bin_number -> let opf := objects_per_folio info in
  0 <= off /\ off + (opf + 2) <= dynamic_small_bin_info_b -> entry (lists s) (off + (opf + 1)) = 0 ->
  folios s !! ll c (folios_per_chunk info - 1) = Some pf -> next pf = 0 -> entry (fullest_offset s) bin = 0 ->
  do_small_malloc_add_pages_from_new_chunk bin off c s =
  Some (tt, Small (s_chunks s) (<[off + (opf + 1) := ll c 0]> (lists s)) (<[bin := opf]> (fullest_offset s)) (folios s)).
Proof.
  intros Hb Hlt opf Hreg Hl Hpf Hn Hz. pose proof (small_per_folio bin info Hb Hlt) as Hopf. pose proof (opf_range _ Hopf) as Hr.
  fold opf in Hopf, Hr. unfold do_small_malloc_add_pages_from_new_chunk. rw (bind_the _ _ _ _ Hb). cbv zeta. fold opf.
  rewrite <- Z.add_assoc. rewrite -> (bind_Some _ _ _ _ _ (get_list_in s (off + (opf + 1)) ltac:(lia))). rw Hl.
  rewrite -> (bind_Some _ _ _ _ _ (set_list_in s (off + (opf + 1)) (ll c 0) ltac:(lia))).
  set (s2 := Small _ _ _ _). rw (bind_Some _ _ _ _ _ (update_folio_ok s2 _ _ pf Hpf)).
  unfold get_fullest. rw bind_gets. simpl fullest_offset. rw Hz. cbn [Z.eqb].
  unfold set_fullest, modify, with_folios. rewrite -> (fullest_uint opf Hopf) by lia. simpl.
  assert (with_next 0 pf = pf) as -> by (destruct pf; simpl in Hn; by rw Hn). by rewrite -> (insert_id (folios s)) by done.
Qed.

Lemma fill_chunk_spec s bin info off cs slots c :
  static_bin bin = Some info -> bin < first_large_bin_number ->
  bin_inv s bin info off cs slots -> entry (fullest_offset s) bin = 0 -> is_chunk c ->
  (forall f, 0 <= f < folios_per_chunk info -> folios s !! ll c f = None) ->
  let opf := objects_per_folio info in
  exists s1 s', foreach (seqZ 0 (folios_per_chunk info)) (init_folio c (folios_per_chunk info) (n_words opf)) s = Some (tt, s1) /\
    do_small_malloc_add_pages_from_new_chunk bin off c s1 = Some (tt, s') /\
    s_chunks s' = s_chunks s /\ bin_inv s' bin info off (c :: cs) (grown_slots info c slots) /\
    bin_step bin off (opf + 2) (bin_folios info [c]) s s' /\ entry (fullest_offset s') bin <> 0 /\
    (forall f k, 0 <= f < folios_per_chunk info -> object_used s' c f k = false).
Proof.
  intros Hb Hlt [HL Hfo Hall Hus Hfu] Hz Hc Hnew opf. pose proof (small_per_folio bin info Hb Hlt) as Hopf. fold opf in Hopf, HL, Hus, Hfu.
  pose proof (opf_range _ Hopf) as Hr. assert (0 < folios_per_chunk info) as Hfpc.
  { apply (layout bin info Hb). unfold first_large_bin_number, first_huge_bin_number in *. lia. }
  rw Hz in Hfu. destruct Hfu as (_ & Hemp & _). specialize (Hemp eq_refl). set (fpc := folios_per_chunk info) in *.
  destruct (init_folios_spec c fpc (n_words opf) (seqZ 0 fpc) (NoDup_seqZ _ _) s) as (F & E1 & Hin & Hout).
  assert (forall f, 0 <= f < fpc -> F !! ll c f = Some (fresh_folio c fpc (n_words opf) f zero_folio)) as HF.
  { intros f Hf. rw Hin; [apply elem_of_seqZ; lia|]. by rw Hnew. }
  assert (forall x, x ∉ bin_folios info [c] -> F !! x = folios s !! x) as Hout'.
  { intros x Hx. apply Hout. intros i Hi%elem_of_seqZ ->. apply Hx, elem_of_bin_folios. exists c, i. split_and!; [left|lia|fold fpc; lia|done]. }
  assert (forall f i, 0 <= f < fpc -> ll c f ∉ slots i) as Hfresh.
  { intros f i Hf Hx. destruct (Hus i _ Hx) as (bm & Hbm & _). unfold bitmap_of in Hbm. by rw Hnew in Hbm. }
  assert (forall i x, x ∈ slots i -> F !! x = folios s !! x) as Hsame.
  { intros i x Hx. apply Hout'. intros (c' & f & ->%list_elem_of_singleton & Hf & ->)%elem_of_bin_folios. by apply (Hfresh f i). }
  pose proof (sl_dll _ _ _ _ HL (opf + 1) ltac:(lia)) as Hd. rewrite -> Hemp in Hd by lia. simpl in Hd.
  eexists (with_folios F s), _. split; [done|]. split.
  { apply (add_pages_spec _ bin info off c (fresh_folio c fpc (n_words opf) (fpc - 1) zero_folio)); [done|done|apply HL|done|apply HF; lia| |done].
    simpl. by rewrite -> (proj2 (Z.eqb_eq (fpc - 1 + 1) fpc)) by lia. }
  fold opf. destruct (zero_bitmap_ok opf Hopf) as (Hbok & Hbu & Hbit). split_and!; [done|split; fold opf|split|..]; cbn [lists fullest_offset folios with_folios].
  - eapply (grown_lists s _ info off slots c F); try done; [lia|].
    pose proof (fresh_dll F c fpc (Z.to_nat fpc) (is_chunk_pos c Hc) 0 ltac:(lia) ltac:(lia)) as Hd0.
    rewrite -> Z2Nat.id in Hd0 by lia. rewrite -> (proj2 (Z.eqb_neq 0 fpc)) in Hd0 by lia. apply Hd0.
    intros i Hi. eexists. split; [by apply HF|done].
  - intros i p. unfold grown_slots. fold opf fpc. destruct (decide (i = opf + 1)) as [->|Hne].
    + rw fn_lookup_insert. intros (f & Hf & ->)%elem_of_folios_of. apply elem_of_bin_folios. exists c, f. split; [left|done].
    + rw fn_lookup_insert_ne //. intros (c' & f & Hc' & Hf)%Hfo%elem_of_bin_folios. apply elem_of_bin_folios.
      exists c', f. split; [by right|done].
  - intros p (c' & f & Hc' & Hf & ->)%elem_of_bin_folios. apply elem_of_cons in Hc' as [->|Hc'].
    + exists (opf + 1). unfold grown_slots. rw fn_lookup_insert. apply elem_of_folios_of. by exists f.
    + destruct (Hall (ll c' f)) as (i & Hi); [apply elem_of_bin_folios; by exists c', f|]. exists i.
      unfold grown_slots. fold opf. rw fn_lookup_insert_ne //. intros <-. rewrite -> Hemp in Hi by lia. by apply elem_of_nil in Hi.
  - intros i p. unfold grown_slots. fold opf fpc. destruct (decide (i = opf + 1)) as [->|Hne].
    + rw fn_lookup_insert. intros (f & Hf & ->)%elem_of_folios_of. eexists. unfold bitmap_of. rw HF //. split_and!; [done..|]. rw Hbu. lia.
    + rw fn_lookup_insert_ne //. intros Hp. destruct (Hus i p Hp) as (bm & Hbm & Hrest). exists bm. unfold bitmap_of. by rw (Hsame i p Hp).
  - rw entry_insert. split_and!; [lia|lia|lia|]. intros _. right. split; [done|]. unfold grown_slots. fold opf fpc. rw fn_lookup_insert.
    rw seqZ_cons; [lia|]. done.
  - intros b Hbb. by rw entry_insert_ne.
  - intros x Hx. rw entry_insert_ne //. lia.
  - done.
  - rw entry_insert. lia.
  - intros f k Hf. unfold object_used, bitmap_of. cbn [folios]. rewrite -> HF by done. apply Hbit.
Qed.
End fresh.

(** ** The regions of the bins *)

Lemma regions_disjoint b b' i i' o o' : static_bin b = Some i -> static_bin b' = Some i' ->
  b < first_large_bin_number -> b' < first_large_bin_number ->
  dynamic_small_bin_offset b = Some o -> dynamic_small_bin_offset b' = Some o' -> b <> b' ->
  o + (objects_per_folio i + 2) <= o' \/ o' + (objects_per_folio i' + 2) <= o.
Proof.
  intros Hb Hb' Hlt Hlt' Ho Ho' Hne. pose proof (static_bin_range _ _ Hb). pose proof (static_bin_range _ _ Hb').
  set (apart b b' := if static_bin b is Some i then if static_bin b' is Some i' then
    if dynamic_small_bin_offset b is Some o then if dynamic_small_bin_offset b' is Some o' then
      (b =? b') || (o + (objects_per_folio i + 2) <=? o') || (o' + (objects_per_folio i' + 2) <=? o)
    else true else true else true else true).
  assert (forallb (fun b => forallb (apart b) (seqZ 0 40)) (seqZ 0 40) = true) as Hc by by vm_compute.
  unfold first_large_bin_number in *.
  apply (forall_range _ 0 40 b) in Hc; [|lia]. apply (forall_range _ 0 40 b') in Hc; [|lia].
  unfold apart in Hc. rw Hb Hb' Ho Ho' in Hc. rewrite -> (proj2 (Z.eqb_neq _ _)) in Hc by done. simpl in Hc.
  apply orb_true_iff in Hc as [?%Z.leb_le|?%Z.leb_le]; [by left|by right].
Qed.

Lemma small_bin_some b : 0 <= b < first_large_bin_number ->
  exists info off, static_bin b = Some info /\ dynamic_small_bin_offset b = Some off.
Proof.
  intros Hb. destruct (static_bin_some b) as [info Hi]; [unfold first_large_bin_number, bin_number_limit in *; lia|].
  exists info. by_table 0 40 (fun (b : Z) (_ : static_bin_s) => if dynamic_small_bin_offset b is Some _ then true else false).
  destruct (dynamic_small_bin_offset b) as [off|]; [by exists off|done].
Qed.

(** ** All small bins *)

Section invariant.
Context {K : Kernel}.
Implicit Type s : small K.

(** [css b] are the chunks of bin [b], [sc] the numbers of all of them, and [own]
    the chunks that others hold. *)
Record small_inv s (fl : list (list Z)) (own sc : list Z) (css : Z -> list Z) : Prop := {
  si_huge : huge_inv (s_chunks s) fl (sc ++ own);
  si_chunks x : x ∈ sc <-> exists b c, 0 <= b < first_large_bin_number /\ c ∈ css b /\ x = address_2_chunknumber c;
  si_chunk b c : 0 <= b < first_large_bin_number -> c ∈ css b ->
    is_chunk c /\ entry (chunk_infos (s_chunks s)) (address_2_chunknumber c) <> 0 /\ chunk_bin (s_chunks s) c = Some b;
  si_bins b info off : 0 <= b < first_large_bin_number -> static_bin b = Some info -> dynamic_small_bin_offset b = Some off ->
    exists slots, bin_inv s b info off (css b) slots;
  si_dom p : is_Some (folios s !! p) -> address_2_chunknumber p ∈ sc;
}.

Lemma folio_chunk bin info c f : static_bin bin = Some info -> bin < first_large_bin_number -> is_chunk c ->
  0 <= f < folios_per_chunk info -> address_2_chunknumber (ll c f) = address_2_chunknumber c.
Proof. intros Hb Hlt Hc Hf. apply chunk_number_same; [done|]. by apply (ll_offset bin info). Qed.

(** A chunk belongs to one bin. *)
Lemma one_bin s fl own sc css b b' c c' : small_inv s fl own sc css -> 0 <= b < first_large_bin_number ->
  0 <= b' < first_large_bin_number -> c ∈ css b -> c' ∈ css b' -> address_2_chunknumber c = address_2_chunknumber c' ->
  b = b' /\ c = c'.
Proof.
  intros HI Hb Hb' Hc Hc' E. destruct (si_chunk _ _ _ _ _ HI b c Hb Hc) as (H1 & _ & H2).
  destruct (si_chunk _ _ _ _ _ HI b' c' Hb' Hc') as (H1' & _ & H2').
  split; [|by apply chunk_number_inj]. unfold chunk_bin in *. rw E in H2. congruence.
Qed.

(** The folios of two bins are different. *)
Lemma folios_apart s fl own sc css b b' i i' p : small_inv s fl own sc css -> 0 <= b < first_large_bin_number ->
  0 <= b' < first_large_bin_number -> static_bin b = Some i -> static_bin b' = Some i' ->
  p ∈ bin_folios i (css b) -> p ∈ bin_folios i' (css b') -> b = b'.
Proof.
  intros HI Hb Hb' Hi Hi' (c & f & Hc & Hf & ->)%elem_of_bin_folios (c' & f' & Hc' & Hf' & E)%elem_of_bin_folios.
  destruct (si_chunk _ _ _ _ _ HI b c Hb Hc) as (H1 & _). destruct (si_chunk _ _ _ _ _ HI b' c' Hb' Hc') as (H1' & _).
  apply (one_bin s fl own sc css b b' c c'); [done..|].
  rewrite <- (folio_chunk b i c f), <- (folio_chunk b' i' c' f') by (done || lia). by rw E.
Qed.

(** A change of one bin leaves the others in order. *)
Lemma small_inv_step s s' fl own sc css b info off slots :
  small_inv s fl own sc css -> 0 <= b < first_large_bin_number -> static_bin b = Some info ->
  dynamic_small_bin_offset b = Some off -> s_chunks s' = s_chunks s ->
  bin_step b off (objects_per_folio info + 2) (bin_folios info (css b)) s s' -> bin_inv s' b info off (css b) slots ->
  small_inv s' fl own sc css.
Proof.
  intros HI Hb Hi Ho Ech [Hfu Hli Hfo] Hbin. split; [rw Ech; apply HI|apply HI|rw Ech; apply HI| |].
  - intros b' i' o' Hb' Hi' Ho'. destruct (decide (b' = b)) as [->|Hne].
    { exists slots. assert (i' = info) as -> by congruence. by assert (o' = off) as -> by congruence. }
    destruct (si_bins _ _ _ _ _ HI b' i' o' Hb' Hi' Ho') as (slots' & HB). exists slots'. apply (bin_inv_frame s); [done| | |by apply Hfu].
    + intros x Hx. apply Hli. destruct (regions_disjoint b b' info i' off o' Hi Hi'); [lia|lia|done|done|congruence|lia|lia].
    + intros x Hx. apply Hfo. intros Hx'. apply Hne. by apply (folios_apart s fl own sc css b' b i' info x).
  - intros p Hp. destruct (decide (p ∈ bin_folios info (css b))) as [Hin|Hout].
    + apply elem_of_bin_folios in Hin as (c & f & Hc & Hf & ->). destruct (si_chunk _ _ _ _ _ HI b c Hb Hc) as [Hch _].
      rewrite -> (folio_chunk b info c f) by (done || lia). apply (si_chunks _ _ _ _ _ HI). by exists b, c.
    + apply (si_dom _ _ _ _ _ HI). by rw -Hfo.
Qed.

(** The small objects do not depend on chunks of others. *)
Lemma small_inv_chunks s fl own sc css ch fl' own' :
  small_inv s fl own sc css -> huge_inv ch fl' (sc ++ own') ->
  (forall x, x ∈ sc -> entry (chunk_infos ch) x = entry (chunk_infos (s_chunks s)) x) ->
  small_inv (Small ch (lists s) (fullest_offset s) (folios s)) fl' own' sc css.
Proof.
  intros [H1 H2 H3 H4 H5] Hch Hsame. split; simpl; [done|done| | |done].
  - intros b c Hb Hc. assert (address_2_chunknumber c ∈ sc) as Hin by (apply H2; by exists b, c).
    unfold chunk_bin. rewrite -> Hsame by done. by apply H3.
  - intros b info off Hb Hi Ho. destruct (H4 b info off Hb Hi Ho) as (slots & HB). exists slots. by apply (bin_inv_frame s).
Qed.

(** ** The objects in use *)

(** The object of bin [b] at [a] was handed out. *)
Definition in_use s (css : Z -> list Z) (b a : Z) : Prop :=
  0 <= b < first_large_bin_number /\ exists info c f k, static_bin b = Some info /\ c ∈ css b /\ object_ok info f k /\
    a = object_address info c f k /\ object_used s c f k = true.

Lemma small_layout b info : static_bin b = Some info -> b < first_large_bin_number -> layout_ok info.
Proof. intros Hi Hb. apply (layout b); [done|]. unfold first_large_bin_number, first_huge_bin_number in *. lia. Qed.

Lemma object_used_frame s s' b info cs c f k : static_bin b = Some info -> ll c f ∉ bin_folios info cs ->
  (forall x, x ∉ bin_folios info cs -> folios s' !! x = folios s !! x) -> object_used s' c f k = object_used s c f k.
Proof. intros Hi Hn Ho. unfold object_used, bitmap_of. by rw Ho. Qed.

Lemma step_in_use s s' fl own sc css b info off c f k v :
  small_inv s fl own sc css -> 0 <= b < first_large_bin_number -> static_bin b = Some info ->
  bin_step b off (objects_per_folio info + 2) (bin_folios info (css b)) s s' ->
  flips info (css b) c f k v s s' -> c ∈ css b -> object_ok info f k ->
  forall b' a, in_use s' css b' a <->
    (in_use s css b' a /\ ~ (b' = b /\ a = object_address info c f k)) \/ (v = true /\ b' = b /\ a = object_address info c f k).
Proof.
  intros HI Hb Hi Hst Hfl Hc Hok b' a. pose proof (small_layout b info Hi ltac:(lia)) as HL. split.
  - intros (Hb' & i' & c' & f' & k' & Hi' & Hc' & Hok' & -> & Hu). destruct (decide (b' = b)) as [->|Hne].
    + assert (i' = info) as -> by congruence. rw Hfl // in Hu. case_decide as Hd.
      * destruct Hd as (-> & -> & ->). by right.
      * left. split; [split; [done|]; by exists info, c', f', k'|]. intros [_ E]. apply Hd.
        apply (object_address_inj info c' c f' f k' k); (done || by eapply si_chunk).
    + left. split; [|tauto]. split; [done|]. exists i', c', f', k'. split_and!; [done..|].
      rewrite <- (object_used_frame s s' b info (css b)); [done|done| |apply Hst]. intros Hin. apply Hne.
      apply (folios_apart s fl own sc css b' b i' info (ll c' f')); try done. apply elem_of_bin_folios. exists c', f'. by destruct Hok'.
  - intros [[(Hb' & i' & c' & f' & k' & Hi' & Hc' & Hok' & -> & Hu) Hn]|(-> & -> & ->)].
    + split; [done|]. exists i', c', f', k'. split_and!; [done..|]. destruct (decide (b' = b)) as [->|Hne].
      * assert (i' = info) as -> by congruence. rewrite -> Hfl by done. rewrite -> decide_False; [done|].
        intros (-> & -> & ->). by apply Hn.
      * rewrite -> (object_used_frame s s' b info (css b)); [done|done| |apply Hst]. intros Hin. apply Hne.
        apply (folios_apart s fl own sc css b' b i' info (ll c' f')); try done. apply elem_of_bin_folios. exists c', f'. by destruct Hok'.
    + split; [done|]. exists info, c, f, k. split_and!; [done..|]. rewrite -> Hfl by done. by rewrite -> decide_True.
Qed.
End invariant.

(** ** Allocating and freeing *)

Section operations.
Context {K : Kernel} {KO : KernelOk K}.
Implicit Type s : small K.

Lemma on_chunks_Some {A} (m : M (chunks K) A) s r ch : m (s_chunks s) = Some (r, ch) ->
  on_chunks m s = Some (r, Small ch (lists s) (fullest_offset s) (folios s)).
Proof. intros E. unfold on_chunks, zoom. by rw E. Qed.

(** What a new chunk for a bin changes. *)
Record grown s s' (fl : list (list Z)) (own sc : list Z) (css : Z -> list Z) (bin c : Z) : Prop := {
  gr_inv : small_inv s' fl own (address_2_chunknumber c :: sc) (<[bin := c :: css bin]> css);
  gr_fullest : entry (fullest_offset s') bin <> 0;
  gr_in_use b a : in_use s' (<[bin := c :: css bin]> css) b a <-> in_use s css b a;
}.

Lemma grown_in_use s s' fl own sc css bin info off c :
  small_inv s fl own sc css -> static_bin bin = Some info -> bin < first_large_bin_number -> is_chunk c -> address_2_chunknumber c ∉ sc ->
  bin_step bin off (objects_per_folio info + 2) (bin_folios info [c]) s s' ->
  (forall f k, 0 <= f < folios_per_chunk info -> object_used s' c f k = false) ->
  forall b a, in_use s' (<[bin := c :: css bin]> css) b a <-> in_use s css b a.
Proof.
  intros HI Hi Hlt Hc Hn Hst Hz b a.
  assert (forall b' c' f i, 0 <= b' < first_large_bin_number -> static_bin b' = Some i -> c' ∈ css b' ->
    0 <= f < folios_per_chunk i -> ll c' f ∉ bin_folios info [c]) as Hout.
  { intros b' c' f i Hb' Hi' Hc' Hf (c0 & f0 & ->%list_elem_of_singleton & Hf0 & E)%elem_of_bin_folios. apply Hn.
    destruct (si_chunk _ _ _ _ _ HI b' c' Hb' Hc') as [Hch _]. apply (si_chunks _ _ _ _ _ HI). exists b', c'.
    split_and!; [lia|lia|done|]. rewrite <- (folio_chunk bin info c f0), <- (folio_chunk b' i c' f) by (done || lia). by rw E. }
  split; intros (Hb & i & c' & f & k & Hi' & Hc' & Hok & -> & Hu); (split; [done|]); exists i, c', f, k.
  - assert (c' ∈ css b) as Hin.
    { destruct (decide (b = bin)) as [->|Hne]; [|by rw fn_lookup_insert_ne in Hc'].
      rw fn_lookup_insert in Hc'. apply elem_of_cons in Hc' as [->|]; [|done].
      assert (i = info) as -> by congruence. rewrite -> Hz in Hu; [done|by apply Hok]. }
    split_and!; [done..|]. rewrite <- (object_used_frame s s' bin info [c]); [done|done| |apply Hst].
    apply (Hout b c' f i); (done || by apply Hok).
  - split_and!; [done| |done|done|].
    + destruct (decide (b = bin)) as [->|Hne]; [rw fn_lookup_insert; by right|by rw fn_lookup_insert_ne].
    + rewrite -> (object_used_frame s s' bin info [c]); [done|done| |apply Hst]. apply (Hout b c' f i); (done || by apply Hok).
Qed.

Lemma grown_inv s s' ch fl own sc css bin info off c slots v :
  small_inv s fl own sc css -> static_bin bin = Some info -> 0 <= bin < first_large_bin_number ->
  dynamic_small_bin_offset bin = Some off -> is_chunk c -> address_2_chunknumber c ∉ sc ->
  huge_inv ch fl (address_2_chunknumber c :: sc ++ own) ->
  chunk_infos ch = <[address_2_chunknumber c := v]> (chunk_infos (s_chunks s)) -> v <> 0 -> bin_from_bin_and_size v = Some bin ->
  s_chunks s' = ch -> bin_inv s' bin info off (c :: css bin) slots ->
  bin_step bin off (objects_per_folio info + 2) (bin_folios info [c]) s s' ->
  small_inv s' fl own (address_2_chunknumber c :: sc) (<[bin := c :: css bin]> css).
Proof.
  intros HI Hi Hbin Ho Hc Hn Hch Ein Hv Hd <- HB Hst.
  assert (forall b c', 0 <= b < first_large_bin_number -> c' ∈ css b -> address_2_chunknumber c <> address_2_chunknumber c') as Hother.
  { intros b c' Hb Hc' E. apply Hn. rw E. apply (si_chunks _ _ _ _ _ HI). by exists b, c'. }
  assert (forall b c', c' ∈ (<[bin := c :: css bin]> css) b <-> c' ∈ css b \/ (b = bin /\ c' = c)) as Hcss.
  { intros b c'. destruct (decide (b = bin)) as [->|Hne]; [rw fn_lookup_insert elem_of_cons; tauto|rw fn_lookup_insert_ne //; tauto]. }
  split; [done| | | |].
  - intros x. rw elem_of_cons (si_chunks _ _ _ _ _ HI). setoid_rewrite Hcss. split.
    + intros [->|(b & c' & Hb & Hc' & ->)]; [exists bin, c|exists b, c']; split_and!; (lia || tauto).
    + intros (b & c' & Hb & [Hc'|[-> ->]] & ->); [right; by exists b, c'|by left].
  - intros b c' Hb. rw Hcss. unfold chunk_bin. rw Ein. intros [Hc'|[-> ->]].
    + rewrite -> entry_insert_ne by (by apply (Hother b)). by apply (si_chunk _ _ _ _ _ HI).
    + by rw entry_insert.
  - intros b i o Hb Hib Hob. destruct (decide (b = bin)) as [->|Hne].
    { exists slots. rw fn_lookup_insert. assert (i = info) as -> by congruence. by assert (o = off) as -> by congruence. }
    destruct (si_bins _ _ _ _ _ HI b i o Hb Hib Hob) as (sl & HBb). exists sl. rw fn_lookup_insert_ne //.
    destruct Hst as [Hfu Hli Hfo]. apply (bin_inv_frame s); [done| | |by apply Hfu].
    + intros x Hx. apply Hli. destruct (regions_disjoint bin b info i off o Hi Hib); [lia|lia|done|done|congruence|lia|lia].
    + intros x (c' & f & Hc' & Hf & ->)%elem_of_bin_folios. apply Hfo.
      intros (c0 & f0 & ->%list_elem_of_singleton & Hf0 & E)%elem_of_bin_folios. apply (Hother b c' Hb Hc').
      destruct (si_chunk _ _ _ _ _ HI b c' Hb Hc') as [Hch' _].
      rewrite <- (folio_chunk bin info c f0), <- (folio_chunk b i c' f) by (done || lia). by rw E.
  - intros p Hp. destruct (decide (p ∈ bin_folios info [c])) as [Hin|Hout].
    + apply elem_of_bin_folios in Hin as (c0 & f0 & ->%list_elem_of_singleton & Hf0 & ->).
      rewrite -> (folio_chunk bin info c f0) by (done || lia). left.
    + right. apply (si_dom _ _ _ _ _ HI). by rw -(bs_folios _ _ _ _ _ _ Hst).
Qed.

Lemma new_small_chunk_spec s fl own sc css bin info off :
  small_inv s fl own sc css -> static_bin bin = Some info -> 0 <= bin < first_large_bin_number ->
  dynamic_small_bin_offset bin = Some off -> entry (fullest_offset s) bin = 0 ->
  exists b s', new_small_chunk bin off s = Some (b, s') /\
    (forall x, x ∈ own -> entry (chunk_infos (s_chunks s')) x = entry (chunk_infos (s_chunks s)) x) /\
    (if b then exists c, grown s s' fl own sc css bin c
     else refuses 1 (s_chunks s) /\ small_inv s' fl own sc css /\ forall b a, in_use s' css b a <-> in_use s css b a).
Proof.
  intros HI Hi Hbin Ho Hz. unfold new_small_chunk. rw (bind_the _ _ _ _ Hi).
  destruct (new_chunk_spec (s_chunks s) fl (sc ++ own) (si_huge _ _ _ _ _ HI)) as (c & ch1 & E1 & Ein1 & Hc).
  rw (bind_Some _ _ _ _ _ (on_chunks_Some _ s _ _ E1)). set (s1 := Small ch1 _ _ _).
  destruct Hc as [(-> & Hch & Hno)|[Hc Hch]].
  { exists false, s1. split_and!; [done|intros x _; simpl; by rw Ein1|done| |done].
    apply (small_inv_chunks s fl own sc css ch1 fl own HI Hch). intros x _. by rw Ein1. }
  rewrite -> (proj2 (Z.eqb_neq c 0)) by (pose proof (is_chunk_pos c Hc); lia).
  destruct (bin_and_size_encode bin 0) as (v & Ev & Hv & Hd); [unfold first_large_bin_number in *; lia|].
  rw (bind_the _ _ _ _ Ev) bind_bassert; [by apply negb_true_iff, Z.eqb_neq|].
  set (cn := address_2_chunknumber c) in *. set (ch2 := Chunks (c_os ch1) (<[cn := v]> (chunk_infos ch1)) (free_chunks ch1)).
  assert (set_info cn v ch1 = Some (tt, ch2)) as E2 by done.
  rw (bind_Some _ _ _ _ _ (on_chunks_Some _ s1 _ _ E2)). set (s2 := Small ch2 _ _ _).
  pose proof (set_info_spec ch1 fl _ cn v Hch ltac:(left)) as Hch2. fold ch2 in Hch2.
  assert ((cn ∉ sc) /\ cn ∉ own) as [Hn Hn'].
  { pose proof (hi_disjoint _ _ _ Hch) as Hnd. unfold all_chunks in Hnd. apply NoDup_app in Hnd as (_ & _ & [Hx _]%NoDup_cons).
    by apply not_elem_of_app in Hx. }
  destruct (si_bins _ _ _ _ _ HI bin info off Hbin Hi Ho) as (slots & HB).
  destruct (fill_chunk_spec s2 bin info off (css bin) slots c) as (s3 & s4 & E3 & E4 & Ech & HB' & Hst & Hfu & Hfree);
    [done|lia|by apply (bin_inv_frame s)|done|done| |].
  { intros f Hf. destruct (folios s2 !! ll c f) eqn:E; [|done]. exfalso. apply Hn.
    unfold cn. rewrite <- (folio_chunk bin info c f) by (done || lia). apply (si_dom _ _ _ _ _ HI). by exists p. }
  unfold n_words in E3. rw (bind_Some _ _ _ _ _ E3) (bind_Some _ _ _ _ _ E4).
  assert (bin_step bin off (objects_per_folio info + 2) (bin_folios info [c]) s s4) as Hst' by by destruct Hst.
  exists true, s4. split_and!; [done| |exists c; split].
  - intros x Hx. rw Ech. simpl. rw Ein1. apply entry_insert_ne. by intros <-.
  - apply (grown_inv s s4 ch2 fl own sc css bin info off c (grown_slots info c slots) v); try done. simpl. by rw Ein1.
  - done.
  - apply (grown_in_use s s4 fl own sc css bin info off c); (done || lia).
Qed.

(** The address of an object is the address of a bin. *)
Lemma object_of_chunk s fl own sc css bin info c f k :
  small_inv s fl own sc css -> static_bin bin = Some info -> 0 <= bin < first_large_bin_number -> c ∈ css bin -> object_ok info f k ->
  let a := object_address info c f k in
  0 < a /\ address_2_chunknumber a = address_2_chunknumber c /\ address_2_chunkaddress a = c /\
  offset_in_chunk a = object_address info 0 f k.
Proof.
  intros HI Hi Hbin Hc Hok a. destruct (si_chunk _ _ _ _ _ HI bin c Hbin Hc) as [Hch _].
  pose proof (small_layout bin info Hi ltac:(lia)) as HL. pose proof (is_chunk_pos c Hch).
  pose proof (object_offset info f k 0 HL Hok ltac:(pose proof (lo_object _ HL); lia)) as Hr. rw Z.add_0_r in Hr.
  pose proof (lo_overhead _ HL). unfold a, pagesize in *. rw object_address_shift.
  split_and!; [lia|apply chunk_number_same; [done|lia]|apply chunk_address; [done|lia]|apply chunk_offset; [done|lia]].
Qed.

Lemma small_malloc_body_spec s fl own sc css bin info off :
  small_inv s fl own sc css -> static_bin bin = Some info -> 0 <= bin < first_large_bin_number ->
  dynamic_small_bin_offset bin = Some off -> 
  exists r s', small_malloc_body bin off (uwrap 32 (object_size info)) tt s = Some (inr r, s') /\
    (forall x, x ∈ own -> entry (chunk_infos (s_chunks s')) x = entry (chunk_infos (s_chunks s)) x) /\
    exists sc' css', small_inv s' fl own sc' css' /\
    ((r = 0 /\ refuses 1 (s_chunks s) /\ forall b a, in_use s' css' b a <-> in_use s css b a) \/
     (0 < r /\ ~ in_use s css bin r /\ forall b a, in_use s' css' b a <-> in_use s css b a \/ b = bin /\ a = r)).
Proof.
  intros HI Hi Hbin Ho. unfold small_malloc_body, get_fullest. rw bind_gets.
  assert (exists go s1 sc1 css1, (if entry (fullest_offset s) bin =? 0 then new_small_chunk bin off else mret true) s = Some (go, s1) /\
    (forall x, x ∈ own -> entry (chunk_infos (s_chunks s1)) x = entry (chunk_infos (s_chunks s)) x) /\
    small_inv s1 fl own sc1 css1 /\ (forall b a, in_use s1 css1 b a <-> in_use s css b a) /\
    (if go : bool then entry (fullest_offset s1) bin <> 0 else refuses 1 (s_chunks s))) as (go & s1 & sc1 & css1 & E1 & Hown1 & HI1 & Hu1 & Hgo).
  { case_eqb.
    - destruct (new_small_chunk_spec s fl own sc css bin info off) as (b & s1 & E & Hown & Hb); [done..|]. destruct b.
      + destruct Hb as (c & [Hinv Hfu Huse]). by eexists true, s1, _, _.
      + destruct Hb as (Hno & Hinv & Huse). by exists false, s1, sc, css.
    - by exists true, s, sc, css. }
  rw (bind_Some _ _ _ _ _ E1). destruct go; cbn [negb].
  2:{ exists 0, s1. split_and!; [done|done|]. exists sc1, css1. split; [done|left; by split_and!]. }
  destruct (si_bins _ _ _ _ _ HI1 bin info off Hbin Hi Ho) as (slots & HB).
  destruct (do_small_malloc_spec s1 bin info off (css1 bin) slots) as (s2 & slots2 & c & f & k & E2 & Ech & HB2 & Hst & Hc & Hok & Hfree & Hfl);
    [done|lia|by intros c Hc; eapply si_chunk|done..|].
  rw (bind_Some _ _ _ _ _ E2). pose proof (small_inv_step s1 s2 fl own sc1 css1 bin info off slots2 HI1 Hbin Hi Ho Ech Hst HB2) as HI2.
  destruct (object_of_chunk s1 fl own sc1 css1 bin info c f k) as (Hpos & Ecn & _); [done..|].
  pose proof (step_in_use s1 s2 fl own sc1 css1 bin info off c f k true HI1 Hbin Hi Hst Hfl Hc Hok) as Hu2.
  set (r := object_address info c f k) in *. rewrite -> (proj2 (Z.eqb_neq r 0)) by lia.
  destruct (si_chunk _ _ _ _ _ HI2 bin c Hbin Hc) as (Hch & _ & Hd). unfold chunk_bin in Hd.
  assert (get_info (address_2_chunknumber r) (s_chunks s2) = Some (entry (chunk_infos (s_chunks s2)) (address_2_chunknumber c), s_chunks s2)) as E3
    by by rw Ecn.
  rw (bind_Some _ _ _ _ _ (on_chunks_Some _ s2 _ _ E3)) (bind_the _ _ _ _ Hd) bind_bassert; [apply Z.eqb_refl|].
  exists r, s2. split_and!; [by destruct s2|by intros x Hx; rw Ech; apply Hown1|]. exists sc1, css1. split; [done|]. right.
  assert (~ in_use s1 css1 bin r) as Hnot.
  { intros (_ & i' & c' & f' & k' & Hi' & Hc' & Hok' & E & Hu). assert (i' = info) as -> by congruence.
    destruct (object_address_inj info c c' f f' k k') as (-> & -> & ->); try done; [by apply (small_layout bin); [|lia]|by eapply si_chunk|].
    congruence. }
  split_and!; [done|by rw -Hu1|]. intros b a. rw Hu2 -Hu1. split; [tauto|]. intros [Hu|?]; [|tauto]. left.
  split; [done|]. intros [-> ->]. by apply Hnot.
Qed.

Lemma small_malloc_spec s fl own sc css bin :
  small_inv s fl own sc css -> 0 <= bin < first_large_bin_number ->
  exists r s', small_malloc bin s = Some (r, s') /\
    (forall x, x ∈ own -> entry (chunk_infos (s_chunks s')) x = entry (chunk_infos (s_chunks s)) x) /\
    exists sc' css', small_inv s' fl own sc' css' /\
    ((r = 0 /\ refuses 1 (s_chunks s) /\ forall b a, in_use s' css' b a <-> in_use s css b a) \/
     (0 < r /\ ~ in_use s css bin r /\ forall b a, in_use s' css' b a <-> in_use s css b a \/ b = bin /\ a = r)).
Proof.
  intros HI Hbin. destruct (small_bin_some bin Hbin) as (info & off & Hi & Ho).
  destruct (small_malloc_body_spec s fl own sc css bin info off) as (r & s' & E & Hrest); [done..|].
  exists r, s'. split; [|done]. unfold small_malloc. rw bind_bassert; [apply Z.ltb_lt; lia|].
  rw (bind_the _ _ _ _ Ho) (bind_the _ _ _ _ Hi). by rw (loop_step _ _ _ _ _ _ E).
Qed.

(** A folio is put in a list whatever the kernel does meanwhile. *)
Lemma link_folio_chunks pp off ch s s' : link_folio pp off s = Some (tt, s') ->
  link_folio pp off (Small ch (lists s) (fullest_offset s) (folios s)) = Some (tt, Small ch (lists s') (fullest_offset s') (folios s')) /\ s_chunks s' = s_chunks s.
Proof.
  unfold link_folio. intros (n & s1 & E1 & ([] & s2 & E2 & ([] & s3 & E3 & E4)%bind_inv)%bind_inv)%bind_inv.
  unfold get_list, set_list in *. destruct ((0 <=? off) && (off <? dynamic_small_bin_info_b)) eqn:Eo; [|done]. injection E1 as <- <-.
  unfold update_folio in E2. destruct (folios s !! pp) eqn:Ep; [|done]. injection E2 as <-.
  unfold mbind, M_bind. cbn [lists]. unfold update_folio at 1. cbn [folios]. rw Ep. cbn [s_chunks lists fullest_offset folios].
  unfold set_prev_of, update_folio in *. destruct (entry (lists s) off =? 0); cbn [folios] in *; [|case_match; [|done]].
  all: injection E3 as <-; injection E4 as <-; done.
Qed.

(** The end of [small_free], with the call of [madvise]. *)
Lemma advised_free s s' bin p k off opf a n : free_object bin p k off opf s = Some (tt, s') ->
  exists o', same_space (c_os (s_chunks s')) o' /\
    (madvise_me ← do_small_free bin p k off;
     if madvise_me =? 0 then mret tt
     else bassert (madvise_me =? p);; on_chunks (on_os (madvise a n MADV_DONTNEED));; small_free_post_madvise p (off + opf + 1)) s =
    Some (tt, Small (Chunks o' (chunk_infos (s_chunks s')) (free_chunks (s_chunks s'))) (lists s') (fullest_offset s') (folios s')).
Proof.
  unfold free_object. intros (m & s2 & E1 & E2)%bind_inv. rw (bind_Some _ _ _ _ _ E1). destruct (m =? 0).
  { injection E2 as <-. exists (c_os (s_chunks s2)). split; [done|]. by destruct s2 as [[] ? ? ?]. }
  apply bind_inv in E2 as ([] & s3 & E3 & E4). assert (s3 = s2) as -> by (unfold bassert in E3; by destruct (m =? p); simplify_eq).
  rw (bind_Some _ _ _ _ _ E3). destruct (madvise_spec (s_chunks s2) a n MADV_DONTNEED) as (r & o' & Ea & Hs & _).
  rw (bind_Some _ _ _ _ _ (on_chunks_Some _ s2 _ _ Ea)). unfold small_free_post_madvise in *.
  destruct (link_folio_chunks p (off + opf + 1) (Chunks o' (chunk_infos (s_chunks s2)) (free_chunks (s_chunks s2))) s2 s' E4) as [El Ec].
  exists o'. rw Ec. split; [done|exact El].
Qed.

Lemma small_free_spec s fl own sc css bin p :
  small_inv s fl own sc css -> in_use s css bin p ->
  exists s', small_free p s = Some (tt, s') /\ chunk_infos (s_chunks s') = chunk_infos (s_chunks s) /\ small_inv s' fl own sc css /\
    forall b a, in_use s' css b a <-> in_use s css b a /\ ~ (b = bin /\ a = p).
Proof.
  intros HI (Hbin & info & c & f & k & Hi & Hc & Hok & -> & Hu).
  destruct (small_bin_some bin Hbin) as (info' & off & Hi' & Ho). assert (info' = info) as -> by congruence.
  destruct (si_chunk _ _ _ _ _ HI bin c Hbin Hc) as (Hch & Hnz & Hd). unfold chunk_bin in Hd.
  destruct (object_of_chunk s fl own sc css bin info c f k) as (Hpos & Ecn & Eca & Eoff); [done..|].
  pose proof (small_layout bin info Hi ltac:(lia)) as HL. pose proof (lo_object _ HL).
  pose proof (object_offset info f k 0 HL Hok ltac:(lia)) as Hr. rw Z.add_0_r in Hr.
  set (p := object_address info c f k) in *. unfold small_free. cbv zeta. rw Ecn Eca Eoff.
  assert (get_info (address_2_chunknumber c) (s_chunks s) = Some (entry (chunk_infos (s_chunks s)) (address_2_chunknumber c), s_chunks s)) as E1
    by done.
  rw (bind_Some _ _ _ _ _ (on_chunks_Some _ s _ _ E1)) bind_bassert; [by apply negb_true_iff, Z.eqb_neq|].
  replace (Small (s_chunks s) (lists s) (fullest_offset s) (folios s)) with s by by destruct s.
  rw (bind_the _ _ _ _ Hd) (bind_the _ _ _ _ Hi).
  set (wasted := overhead_pages_per_chunk info * pagesize) in *. set (useful := f * folio_size info + k * object_size info).
  assert (object_address info 0 f k - wasted = useful) as Eu by (unfold object_address, useful, wasted; lia).
  assert (0 <= useful < chunksize) as Hus by (unfold wasted, pagesize in *; pose proof (lo_overhead _ HL); lia).
  unfold chunksize, log_chunksize in Hus, Hr. rw Eu. rewrite -> !(uwrap_small _ useful) by (unfold is_uint; lia).
  rw bind_bassert; [apply Z.leb_le; unfold p; rw object_address_shift; pose proof (is_chunk_pos c Hch); lia|].
  destruct (locate_object info f k 0 HL Hok ltac:(lia)) as [Ef Ek]. cbv zeta in Ef, Ek. rw !Z.add_0_r in Ef Ek. fold useful in Ef, Ek.
  assert (bin <= first_huge_bin_number) as Hle by (unfold first_huge_bin_number, first_large_bin_number in *; lia).
  rewrite -> (bind_the _ _ _ _ (divide_by_foliosize useful bin info Hi Hle ltac:(lia))). rw Ef.
  assert (0 <= useful - f * folio_size info < 2 ^ 31) as Hof.
  { destruct Hok as [Hf Hk]. destruct HL as [? ? ? ? Hfs Hlc]. unfold useful in *.
    assert (0 <= k * object_size info) by (apply Z.mul_nonneg_nonneg; lia).
    assert (0 <= f * folio_size info) by (apply Z.mul_nonneg_nonneg; nia). lia. }
  assert (uwrap 32 (folio_size info) = folio_size info) as ->.
  { destruct HL as [? ? ? ? Hfs Hlc]. unfold pagesize, chunksize, log_chunksize in *. apply uwrap_small. unfold is_uint. nia. }
  rewrite -> (uwrap_small _ (useful - _)) by (unfold is_uint; lia).
  rewrite -> (bind_the _ _ _ _ (divide_by_objsize _ bin info Hi Hle Hof)). rw Ek (bind_the _ _ _ _ Ho).
  destruct (si_bins _ _ _ _ _ HI bin info off Hbin Hi Ho) as (slots & HB).
  destruct (free_object_spec s bin info off (css bin) slots c f k) as (s' & slots' & E & Ech & HB' & Hst & Hfl);
    [done|lia|by intros c' Hc'; eapply si_chunk|done..|].
  destruct (advised_free s s' bin (ll c f) k off (objects_per_folio info)
    (uwrap 64 (address_2_chunknumber c * chunksize + wasted + uwrap 32 (f * folio_size info))) (folio_size info) E) as (o' & Hs & E').
  pose proof (small_inv_step s s' fl own sc css bin info off slots' HI Hbin Hi Ho Ech Hst HB') as HI'. eexists. split; [exact E'|].
  split_and!; [simpl; by rw Ech|apply (small_inv_chunks s' fl own sc css _ fl own HI'); [by apply huge_inv_same; [apply HI'|]|done]|].
  intros b a. change (in_use s' css b a <-> in_use s css b a /\ ~ (b = bin /\ a = p)).
  rw (step_in_use s s' fl own sc css bin info off c f k false) //. split; [|tauto]. intros [?|[? _]]; done.
Qed.

(** Objects in use do not overlap, and lie in chunks of small objects. *)
Lemma in_use_chunk s fl own sc css b a info x : small_inv s fl own sc css -> in_use s css b a -> static_bin b = Some info ->
  0 <= x < object_size info -> address_2_chunknumber (a + x) ∈ sc /\
  exists c, c ∈ css b /\ address_2_chunknumber (a + x) = address_2_chunknumber c /\ a + x < c + chunksize /\ c < a.
Proof.
  intros HI (Hb & i & c & f & k & Hi' & Hc & Hok & -> & Hu) Hi Hx. assert (i = info) as -> by congruence.
  destruct (si_chunk _ _ _ _ _ HI b c Hb Hc) as (Hch & _). pose proof (small_layout b info Hi ltac:(lia)) as HL.
  pose proof (object_offset info f k x HL Hok Hx) as Hr. pose proof (lo_overhead _ HL).
  assert (address_2_chunknumber (object_address info c f k + x) = address_2_chunknumber c) as E.
  { rw object_address_shift -Z.add_assoc. apply chunk_number_same; [done|]. unfold pagesize in *. lia. }
  pose proof (object_offset info f k 0 HL Hok ltac:(pose proof (lo_object _ HL); lia)) as Hr0.
  split; [rw E; apply (si_chunks _ _ _ _ _ HI); by exists b, c|]. exists c.
  rw (object_address_shift info c). unfold pagesize in *. split_and!; [done| |lia|lia]. by rw -object_address_shift.
Qed.

Lemma in_use_apart s fl own sc css b b' a a' info info' x x' :
  small_inv s fl own sc css -> in_use s css b a -> in_use s css b' a' -> static_bin b = Some info -> static_bin b' = Some info' ->
  0 <= x < object_size info -> 0 <= x' < object_size info' -> a + x = a' + x' -> b = b' /\ a = a'.
Proof.
  intros HI Hu Hu' Hi Hi' Hx Hx' E.
  destruct (in_use_chunk _ _ _ _ _ _ _ _ x HI Hu Hi Hx) as (_ & c & Hc & Ec & _).
  destruct (in_use_chunk _ _ _ _ _ _ _ _ x' HI Hu' Hi' Hx') as (_ & c' & Hc' & Ec' & _).
  destruct Hu as (Hb & i & d & f & k & Hid & Hd & Hok & -> & _). destruct Hu' as (Hb' & i' & d' & f' & k' & Hid' & Hd' & Hok' & -> & _).
  destruct (one_bin s fl own sc css b b' c c') as [-> ->]; [done..|congruence|].
  assert (i = info) as -> by congruence. assert (i' = info) as -> by congruence. assert (info' = info) as -> by congruence. split; [done|].
  destruct (objects_disjoint info d d' f k x f' k' x') as (-> & -> & ->); try done; [by apply (small_layout b'); [|lia]|by eapply si_chunk..].
Qed.
End operations.
