(* ===== verification/SmallProgram.v ===== *)
(** * src/memory/small_malloc.cpp: programs of small objects.

    Any sequence of [small_malloc] and [small_free] from the empty state: the
    objects that are handed out do not overlap, every folio is in the list of its
    number of free objects, and where the lists differ from what
    [verify_small_invariants] expects. *)
From S2P Require Import Prelude Words StateMonad Sizeclass Makechunk Huge Small SmallSpec SmallAlloc.
#[local] Open Scope Z_scope.

Inductive small_op : Set := SMalloc (bin : Z) | SFree (i : nat).

Definition small_op_ok (op : small_op) : Prop :=
  match op with SMalloc bin => 0 <= bin < first_large_bin_number | SFree _ => True end.

Section client.
Context {K : Kernel}.

Definition no_small (o : os K) : small K := Small (no_chunks o) ∅ ∅ ∅.

(** The objects of the program, with their bins. *)
Definition small_exec (op : small_op) (held : list (Z * Z)) : M (small K) (list (Z * Z)) :=
  match op with
  | SMalloc bin => r ← small_malloc bin; mret (if r =? 0 then held else (bin, r) :: held)
  | SFree i =>
      match held !! i with
      | Some (_, p) => small_free p;; mret (delete i held)
      | None => mret held
      end
  end.

Fixpoint small_script (ops : list small_op) (held : list (Z * Z)) : M (small K) (list (Z * Z)) :=
  match ops with
  | [] => mret held
  | op :: ops => held ← small_exec op held; small_script ops held
  end.

(** A list of folios with [opp - i] objects in use, linked both ways; at most
    [fuel] of them. *)
Fixpoint verify_list (fuel : nat) (s : small K) (want prev_pp pp : Z) : bool :=
  if pp =? 0 then true
  else
    match fuel, folios s !! pp with
    | Datatypes.S fuel, Some pf => (prev_pp =? prev pf) && (foldr Z.add 0 (popcount <$> inuse_bitmap pf) =? want) && verify_list fuel s want pp (next pf)
    | _, _ => false
    end.

(** What the disabled check of a bin would say. *)
Definition verify_bin (s : small K) (bin : Z) : bool :=
  let fullest_off := entry (fullest_offset s) bin in
  match dynamic_small_bin_offset bin, static_bin bin with
  | Some start, Some info =>
      let opp := objects_per_folio info in
      (if fullest_off =? 0 then forallb (fun i => entry (lists s) (start + i) =? 0) (seqZ 1 opp)
       else (fullest_off <=? opp) && negb (entry (lists s) (start + fullest_off) =? 0) &&
         forallb (fun i => entry (lists s) (start + i) =? 0) (seqZ 1 (fullest_off - 1))) &&
      (let fuel := size (folios s) in forallb (fun i => verify_list fuel s (opp - i) 0 (entry (lists s) (start + i))) (seqZ 0 (opp + 1)))
  | _, _ => false
  end.
Definition verify_small_invariants (s : small K) : bool := forallb (verify_bin s) (seqZ 0 first_large_bin_number).
End client.

Section specs.
Context {K : Kernel} {KO : KernelOk K}.

Lemma no_small_inv (o : os K) : small_inv (no_small o) (replicate (Z.to_nat log_max_chunknumber) []) [] [] (fun _ => []).
Proof.
  split.
  - apply no_chunks_inv.
  - intros x. split; [by intros ?%elem_of_nil|]. by intros (b & c & _ & ?%elem_of_nil & _).
  - by intros b c _ ?%elem_of_nil.
  - intros b info off Hb Hi Ho. exists (fun _ => []). split.
    + split; [|done..|by constructor|by intros i j x ?%elem_of_nil].
      unfold first_large_bin_number in Hb. by_table 0 40 (fun (b : Z) (i : static_bin_s) => if dynamic_small_bin_offset b is Some off then
        (0 <=? off) && (off + (objects_per_folio i + 2) <=? dynamic_small_bin_info_b) else true).
      rw Ho in Hcheck. apply andb_true_iff in Hcheck as [?%Z.leb_le ?%Z.leb_le]. by split.
    + by intros i p ?%elem_of_nil.
    + by intros p (c & f & ?%elem_of_nil & _)%elem_of_bin_folios.
    + by intros i p ?%elem_of_nil.
    + pose proof (lo_objects _ (layout b info Hi ltac:(unfold first_large_bin_number, first_huge_bin_number in *; lia))).
      change (entry (fullest_offset (no_small o)) b) with 0. split_and!; [lia..|done|lia].
  - by intros p [? ?].
Qed.


(** The objects in use are those of the program. *)
Record small_rep (s : small K) (held : list (Z * Z)) : Prop := {
  sr_inv : exists fl sc css, small_inv s fl [] sc css /\ forall b a, in_use s css b a <-> (b, a) ∈ held;
  sr_nodup : NoDup held;
}.

Lemma small_exec_spec s held op : small_rep s held -> small_op_ok op ->
  exists held' s', small_exec op held s = Some (held', s') /\ small_rep s' held'.
Proof.
  intros [(fl & sc & css & HI & Hu) Hnd] Hop. destruct op as [bin|i]; cbn [small_exec].
  - destruct (small_malloc_spec s fl [] sc css bin HI Hop) as (r & s' & E & _ & sc' & css' & HI' & Hr). rw (bind_Some _ _ _ _ _ E).
    destruct Hr as [(-> & _ & Hin)|(Hpos & Hn & Hin)].
    + exists held, s'. split; [done|]. split; [|done]. exists fl, sc', css'. split; [done|]. intros b a. by rw Hin Hu.
    + rewrite -> (proj2 (Z.eqb_neq r 0)) by lia. exists ((bin, r) :: held), s'. split; [done|]. split; [|constructor; [by rw -Hu|done]].
      exists fl, sc', css'. split; [done|]. intros b a. rw Hin Hu elem_of_cons. split; [intros [?|[-> ->]]; tauto|intros [?|?]; [simplify_eq; tauto|tauto]].
  - destruct (held !! i) as [[b p]|] eqn:Hi.
    + destruct (small_free_spec s fl [] sc css b p HI) as (s' & E & _ & HI' & Hin); [apply Hu; by eapply list_elem_of_lookup_2|].
      rw (bind_Some _ _ _ _ _ E). exists (delete i held), s'. split; [done|]. pose proof (delete_Permutation held i (b, p) Hi) as Hp.
      set (rest := delete i held) in *. clearbody rest. rw Hp in Hnd. apply NoDup_cons in Hnd as [Hn Hnd]. split; [|done]. exists fl, sc, css. split; [done|].
      intros b' a. rw Hin Hu Hp elem_of_cons. split; [intros [[?|?] ?]; [simplify_eq; tauto|done]|]. intros Hx. split; [by right|]. by intros [-> ->].
    + exists held, s. split; [done|]. split; [|done]. by exists fl, sc, css.
Qed.

Lemma small_script_spec ops : Forall small_op_ok ops -> forall s held, small_rep s held ->
  exists held' s', small_script ops held s = Some (held', s') /\ small_rep s' held'.
Proof.
  induction 1 as [|op ops Hop Hops IH]; intros s held HR; [by exists held, s|]. cbn [small_script].
  destruct (small_exec_spec s held op HR Hop) as (held1 & s1 & E & HR1). rw (bind_Some _ _ _ _ _ E). by apply IH.
Qed.

Lemma small_rep_apart s held i j b a b' a' info info' : small_rep s held -> i <> j -> held !! i = Some (b, a) -> held !! j = Some (b', a') ->
  static_bin b = Some info -> static_bin b' = Some info' -> a + object_size info <= a' \/ a' + object_size info' <= a.
Proof.
  intros [(fl & sc & css & HI & Hu) Hnd] Hij Hi Hj Hb Hb'.
  assert (in_use s css b a) as U1 by (apply Hu; by eapply list_elem_of_lookup_2). assert (in_use s css b' a') as U2 by (apply Hu; by eapply list_elem_of_lookup_2).
  assert (8 <= object_size info /\ 8 <= object_size info') as [H8 H8'].
  { split; [apply (lo_object _ (small_layout b info Hb ltac:(destruct U1; lia)))|apply (lo_object _ (small_layout b' info' Hb' ltac:(destruct U2; lia)))]. }
  destruct (Z.le_gt_cases (a + object_size info) a'); [by left|]. destruct (Z.le_gt_cases (a' + object_size info') a); [by right|]. exfalso.
  set (x := Z.max a a'). destruct (in_use_apart s fl [] sc css b b' a a' info info' (x - a) (x - a') HI U1 U2 Hb Hb') as [-> ->]; [lia..|].
  apply Hij. by eapply NoDup_lookup.
Qed.
End specs.

(** ** The claims *)

(** C10. Any sequence of small allocations and frees runs without a failed check;
    the objects that the program has do not overlap, and in every bin each folio
    is in the list with the number of its free objects, linked both ways, with a
    folio to be found at [fullest_offset] unless all are full. *)
Theorem small_lists (K : Kernel) (KO : KernelOk K) (o : os K) ops : Forall small_op_ok ops ->
  exists held s, small_script ops [] (no_small o) = Some (held, s) /\
    (forall i j b a b' a' info info', i <> j -> held !! i = Some (b, a) -> held !! j = Some (b', a') ->
      static_bin b = Some info -> static_bin b' = Some info' -> a + object_size info <= a' \/ a' + object_size info' <= a) /\
    (forall b info off, 0 <= b < first_large_bin_number -> static_bin b = Some info -> dynamic_small_bin_offset b = Some off ->
      exists cs slots, bin_inv s b info off cs slots).
Proof.
  intros Hops. destruct (small_script_spec ops Hops (no_small o) []) as (held & s & E & HR).
  { split; [|constructor]. eexists _, [], (fun _ => []). split; [apply no_small_inv|]. intros b a. split; [|by intros ?%elem_of_nil].
    by intros (_ & info & c & f & k & _ & ?%elem_of_nil & _). }
  exists held, s. split; [done|]. split.
  - intros i j b a b' a' info info'. by apply (small_rep_apart s held).
  - intros b info off Hb Hi Ho. destruct HR as [(fl & sc & css & HI & _) _]. destruct (si_bins _ _ _ _ _ HI b info off Hb Hi Ho) as (slots & HB).
    by exists (css b), slots.
Qed.

(** Two folios of two objects each; the second object of the first folio is freed
    while the second folio still has one. *)
Definition skipping_script : list small_op :=
  [SMalloc 31; SMalloc 31; SMalloc 31; SMalloc 31; SFree 3; SFree 1; SFree 1].

(** C38. [fullest_offset] can pass over a list that is not empty: after
    [skipping_script] it is 2, though list 1 has a folio, and the check that the
    source has for it would fail. *)
Theorem small_fullest_skips : exists held s,
  small_script skipping_script [] (no_small (simple_os 1)) = Some (held, s) /\ verify_small_invariants s = false /\
  entry (fullest_offset s) 31 = 2 /\ exists off, dynamic_small_bin_offset 31 = Some off /\ entry (lists s) (off + 1) <> 0.
Proof.
  assert (exists off, dynamic_small_bin_offset 31 = Some off) as (off & Ho) by (eexists; by vm_compute).
  assert (match small_script skipping_script [] (no_small (simple_os 1)) with
    | Some (_, s) => negb (verify_small_invariants s) && (entry (fullest_offset s) 31 =? 2) && negb (entry (lists s) (default 0 (dynamic_small_bin_offset 31) + 1) =? 0)
    | None => false
    end = true) as H by (vm_compute; reflexivity).
  destruct (small_script skipping_script [] (no_small (simple_os 1))) as [[held s]|]; [|done]. rw Ho in H. cbn [default] in H.
  apply andb_true_iff in H as [[?%negb_true_iff ?%Z.eqb_eq]%andb_true_iff ?%negb_true_iff%Z.eqb_neq].
  exists held, s. split_and!; [done..|]. by exists off.
Qed.

(** The same script without its last step passes the check. *)
Example small_fullest_before :
  (fun r => verify_small_invariants r.2) <$> small_script (take 6 skipping_script) [] (no_small (simple_os 1)) = Some true.
Proof. by vm_compute. Qed.

Definition sample_small_script : list small_op := [SMalloc 0; SMalloc 34; SMalloc 34; SFree 1; SMalloc 34; SMalloc 1; SFree 0].

Lemma small_lists_witness : exists held s, small_script sample_small_script [] (no_small (simple_os 1)) = Some (held, s) /\
    (forall i j b a b' a' info info', i <> j -> held !! i = Some (b, a) -> held !! j = Some (b', a') ->
      static_bin b = Some info -> static_bin b' = Some info' -> a + object_size info <= a' \/ a' + object_size info' <= a) /\
    (forall b info off, 0 <= b < first_large_bin_number -> static_bin b = Some info -> dynamic_small_bin_offset b = Some off ->
      exists cs slots, bin_inv s b info off cs slots).
Proof. apply (small_lists (simple_kernel 1) (simple_kernel_ok 1) (simple_os 1)). repeat constructor; done. Defined.
