(* ===== verification/Footprint.v ===== *)
(** * src/memory/footprint.cpp: the bytes in use, counted per processor. *)
From S2P Require Import Prelude Words StateMonad.
#[local] Open Scope Z_scope.

(** The scheduler of the system answers on which processor the thread runs. *)
Class Scheduler : Type := {
  sstate : Type;
  sched_getcpu : sstate -> Z * sstate;
}.

(** A processor number is not negative. *)
Class SchedulerOk (T : Scheduler) : Prop := {
  getcpu_nonneg t : 0 <= (sched_getcpu t).1;
}.

Definition processor_number_limit : Z := 128.
Definition prid_cache_time : Z := 128.

Section code.
Context {T : Scheduler}.

(** [prid_count] is an [int]; its 32 bits are kept as a number without sign, which
    has the same remainder. *)
Record footprint : Type := Footprint {
  sched : sstate;
  prid_cpuid : Z;
  prid_count : Z;
  partitioned_footprint : list Z;
}.

Definition call_getcpu : M footprint Z := fun f =>
  let '(cpu, t) := sched_getcpu (sched f) in
  Some (cpu, Footprint t (prid_cpuid f) (prid_count f) (partitioned_footprint f)).

Definition check_cpuid : M footprint unit :=
  count ← gets prid_count;
  modify (fun f => Footprint (sched f) (prid_cpuid f) (uadd 32 count 1) (partitioned_footprint f));;
  if count mod prid_cache_time =? 0 then
    cpu ← call_getcpu;
    modify (fun f => Footprint (sched f) (Z.rem cpu processor_number_limit) (prid_count f) (partitioned_footprint f))
  else mret tt.

Definition add_to_footprint (delta : Z) : M footprint unit :=
  check_cpuid;;
  f ← gets id;
  bassert (0 <=? prid_cpuid f);;
  old ← the (partitioned_footprint f !! Z.to_nat (prid_cpuid f));
  modify (fun f => Footprint (sched f) (prid_cpuid f) (prid_count f)
    (<[Z.to_nat (prid_cpuid f) := uadd 64 old delta]> (partitioned_footprint f))).

(** An [int64_t]. *)
Definition swrap (z : Z) : Z := (z + 2 ^ 63) mod 2 ^ 64 - 2 ^ 63.

Definition get_footprint (f : footprint) : Z := foldl (fun sum x => swrap (sum + x)) 0 (partitioned_footprint f).
End code.
Arguments footprint : clear implicits.

(** ** The sum of the counters *)

Section specs.
Context {T : Scheduler}.
Implicit Type f : footprint T.

Definition total (l : list Z) : Z := foldr Z.add 0 l.

Lemma total_insert l i x y : l !! i = Some x -> total (<[i := y]> l) = total l - x + y.
Proof.
  revert i. induction l as [|z l IH]; intros i Hi; [done|]. destruct i as [|i]; simpl in *; [simplify_eq; lia|].
  rw (IH i) //. lia.
Qed.

Record footprint_ok f : Prop := {
  fp_length : length (partitioned_footprint f) = Z.to_nat processor_number_limit;
  fp_cpuid : 0 <= prid_cpuid f < processor_number_limit;
}.

(** The counters add up to [n], as 64-bit numbers. *)
Definition counts f (n : Z) : Prop := footprint_ok f /\ uwrap 64 (total (partitioned_footprint f)) = uwrap 64 n.

Lemma uwrap_eq_iff x y : uwrap 64 x = uwrap 64 y <-> exists k, x = y + k * 2 ^ 64.
Proof.
  unfold uwrap. split.
  - intros E. exists (x / 2 ^ 64 - y / 2 ^ 64).
    pose proof (Z.div_mod x (2 ^ 64) ltac:(done)). pose proof (Z.div_mod y (2 ^ 64) ltac:(done)). lia.
  - intros (k & ->). by apply Z.mod_add.
Qed.

Lemma add_to_footprint_spec {TO : SchedulerOk T} f n delta : counts f n ->
  exists f', add_to_footprint delta f = Some (tt, f') /\ counts f' (n + delta).
Proof.
  intros [[Hl Hc] Hn]. unfold add_to_footprint.
  assert (exists f1, check_cpuid f = Some (tt, f1) /\ footprint_ok f1 /\ partitioned_footprint f1 = partitioned_footprint f)
    as (f1 & E1 & [Hl1 Hc1] & Hp1).
  { unfold check_cpuid. rw bind_gets bind_modify. case_eqb.
    - unfold call_getcpu. unfold mbind at 1, M_bind. simpl. pose proof (getcpu_nonneg (sched f)) as Hcpu.
      destruct (sched_getcpu (sched f)) as [cpu t]. simpl in Hcpu. eexists. split; [done|]. split; [|done]. split; [done|].
      simpl. rewrite -> Z.rem_mod_nonneg by (unfold processor_number_limit; lia). apply Z.mod_pos_bound. done.
    - eexists. split; [done|]. by split. }
  rw (bind_Some _ _ _ _ _ E1) bind_gets bind_bassert; [apply Z.leb_le, Hc1|].
  destruct (lookup_lt_is_Some_2 (partitioned_footprint f1) (Z.to_nat (prid_cpuid f1))) as [old Hold]; [rw Hl1; lia|].
  unfold id. rw (bind_the _ _ _ _ Hold). eexists. split; [done|]. split; [split; [by simpl; rw length_insert|done]|]. simpl.
  rw (total_insert _ _ old) // Hp1. apply uwrap_eq_iff in Hn as (k & ->). apply uwrap_eq_iff. unfold uadd, uwrap.
  pose proof (Z.div_mod (old + delta) (2 ^ 64) ltac:(done)). exists (k - (old + delta) / 2 ^ 64). lia.
Qed.

Lemma swrap_small z : - 2 ^ 63 <= z < 2 ^ 63 -> swrap z = z.
Proof. intros Hz. unfold swrap. rewrite -> Z.mod_small by lia. lia. Qed.

Lemma swrap_eq x y k : x = y + k * 2 ^ 64 -> swrap x = swrap y.
Proof.
  intros ->. unfold swrap. f_equal. replace (y + k * 2 ^ 64 + 2 ^ 63) with (y + 2 ^ 63 + k * 2 ^ 64) by lia. by apply Z.mod_add.
Qed.

Lemma swrap_add x y : swrap (swrap x + y) = swrap (x + y).
Proof.
  unfold swrap at 2. pose proof (Z.div_mod (x + 2 ^ 63) (2 ^ 64) ltac:(done)).
  apply (swrap_eq _ _ (- ((x + 2 ^ 63) / 2 ^ 64))). lia.
Qed.

Lemma get_footprint_spec f n : counts f n -> - 2 ^ 63 <= n < 2 ^ 63 -> get_footprint f = n.
Proof.
  intros [_ Hn] Hr. unfold get_footprint. assert (forall l sum, foldl (fun sum x => swrap (sum + x)) (swrap sum) l = swrap (sum + total l)) as H.
  { induction l as [|x l IH]; intros sum; simpl; [f_equal; lia|]. rw swrap_add IH. f_equal. unfold total. simpl. lia. }
  change 0 with (swrap 0) at 1. rw H Z.add_0_l. apply uwrap_eq_iff in Hn as (k & Hk). rw (swrap_eq _ _ _ Hk). by apply swrap_small.
Qed.
End specs.

(** A scheduler that moves the thread from one processor to the next. *)
Definition round_robin : Scheduler := {| sstate := Z; sched_getcpu t := (t mod 128, (t + 1) mod 128) |}.

#[export] Instance round_robin_ok : SchedulerOk round_robin.
Proof. split. intros t. by apply Z.mod_pos_bound. Qed.
