(* ===== verification/Large.v ===== *)
(** * src/memory/large_malloc.cpp: objects of whole pages.

    A chunk of large objects starts with a page of cells, one per object.  The
    cell of a free object links it to the next one, the cell of an object in use
    has its footprint. *)
From S2P Require Import Prelude Words StateMonad Sizeclass Makechunk Huge Footprint.
#[local] Open Scope Z_scope.

Section code.
Context {K : Kernel} {T : Scheduler}.

(** [cells] has the cells by their addresses, as 64-bit words. *)
Record large : Type := Large {
  l_chunks : chunks K;
  free_large_objects : list Z;
  cells : gmap Z Z;
  l_footprint : footprint T;
}.

Definition on_large_chunks {A} (m : M (chunks K) A) : M large A :=
  zoom l_chunks (fun c s => Large c (free_large_objects s) (cells s) (l_footprint s)) m.
Definition on_footprint {A} (m : M (footprint T) A) : M large A :=
  zoom l_footprint (fun f s => Large (l_chunks s) (free_large_objects s) (cells s) f) m.

(** [free_large_objects[i]] *)
Definition get_free_head (i : Z) : M large Z := fun s => the (free_large_objects s !! Z.to_nat i) s.
Definition set_free_head (i v : Z) : M large unit :=
  modify (fun s => Large (l_chunks s) (<[Z.to_nat i := v]> (free_large_objects s)) (cells s) (l_footprint s)).

(** The union of a cell: the link is the whole word, the footprint its low half. *)
Definition get_next (h : Z) : M large Z := gets (fun s => entry (cells s) h).
Definition set_cell (h v : Z) : M large unit :=
  modify (fun s => Large (l_chunks s) (free_large_objects s) (<[h := v]> (cells s)) (l_footprint s)).
Definition cell_footprint (w : Z) : Z := uwrap 32 w.
Definition with_footprint (w fp : Z) : Z := w / 2 ^ 32 * 2 ^ 32 + uwrap 32 fp.

Definition do_large_malloc_pop (free_head : Z) : M large Z :=
  h ← get_free_head free_head;
  if h =? 0 then mret 0
  else
    n ← get_next h;
    set_free_head free_head n;;
    mret h.

(** Cell [i] of the chunk at [c]. *)
Definition cell (c i : Z) : Z := c + sizeof_large_object_list_cell * i.

(** An object that was popped is handed out. *)
Definition use_large_object (h fp b usable_size : Z) : M large Z :=
  w ← get_next h;
  set_cell h (with_footprint w fp);;
  on_footprint (add_to_footprint fp);;
  let chunk := address_2_chunkaddress h in
  let offset := (h - chunk) / sizeof_large_object_list_cell in
  let address := uwrap 64 (chunk + offset_of_first_object_in_large_chunk + umul 64 offset usable_size) in
  bassert (address_2_chunknumber address =? address_2_chunknumber chunk);;
  b_and_s ← on_large_chunks (get_info (address_2_chunknumber address));
  bin ← the (bin_from_bin_and_size b_and_s);
  bassert (bin =? b);;
  mret address.

(** The objects of a new chunk are put in front of the list. *)
Definition new_large_chunk (free_head fp b usable_size : Z) : M large unit :=
  chunk ← on_large_chunks (on_os (mmap_chunk_aligned_block 1));
  bassert (negb (chunk =? 0));;
  let objects_per_chunk := (chunksize - offset_of_first_object_in_large_chunk) / usable_size in
  let size_of_header := objects_per_chunk * sizeof_large_object_list_cell in
  bassert (size_of_header <=? offset_of_first_object_in_large_chunk);;
  foreach (seqZ 0 (objects_per_chunk - 1)) (fun i => set_cell (cell chunk i) (cell chunk (i + 1)));;
  b_and_s ← the (bin_and_size_to_bin_and_size b fp);
  bassert (negb (b_and_s =? 0));;
  on_large_chunks (set_info (address_2_chunknumber chunk) b_and_s);;
  old_first ← get_free_head free_head;
  set_cell (cell chunk (objects_per_chunk - 1)) old_first;;
  set_free_head free_head (cell chunk 0).

Definition large_malloc_body (free_head fp b usable_size : Z) (_ : unit) : M large (unit + Z) :=
  h ← get_free_head free_head;
  if negb (h =? 0) then
    h ← do_large_malloc_pop free_head;
    if h =? 0 then mret (inl tt)
    else
      r ← use_large_object h fp b usable_size;
      mret (inr r)
  else
    new_large_chunk free_head fp b usable_size;;
    mret (inl tt).

(** Without interference the second turn finds an object. *)
Definition large_malloc (size : Z) : M large Z :=
  let fp := uwrap 32 (pagesize * ceil size pagesize) in
  let b := size_2_bin size in
  usable_size ← the (bin_2_size b);
  bassert (first_large_bin_number <=? b);;
  bassert (b <? first_huge_bin_number);;
  loop 2 (large_malloc_body (b - first_large_bin_number) fp b usable_size) tt.

Definition large_footprint (p : Z) : M large Z :=
  b_and_s ← on_large_chunks (get_info (address_2_chunknumber p));
  bassert (negb (b_and_s =? 0));;
  bin ← the (bin_from_bin_and_size b_and_s);
  bassert (first_large_bin_number <=? bin);;
  bassert (bin <? first_huge_bin_number);;
  usable_size ← the (bin_2_size bin);
  let objnum := uwrap 64 (offset_in_chunk p - offset_of_first_object_in_large_chunk) / usable_size in
  w ← get_next (cell (address_2_chunkaddress p) objnum);
  mret (cell_footprint w).

(** The answer of [madvise] is ignored. *)
Definition large_free (p : Z) : M large unit :=
  b_and_s ← on_large_chunks (get_info (address_2_chunknumber p));
  bassert (negb (b_and_s =? 0));;
  bin ← the (bin_from_bin_and_size b_and_s);
  bassert ((first_large_bin_number <=? bin) && (bin <? first_huge_bin_number));;
  usable_size ← the (bin_2_size bin);
  on_large_chunks (on_os (madvise p usable_size MADV_DONTNEED));;
  objnum ← the (divide_offset_by_objsize (uwrap 32 (offset_in_chunk p - offset_of_first_object_in_large_chunk)) bin);
  let ei := cell (address_2_chunkaddress p) objnum in
  w ← get_next ei;
  on_footprint (add_to_footprint (- cell_footprint w));;
  first ← get_free_head (bin - first_large_bin_number);
  set_cell ei first;;
  set_free_head (bin - first_large_bin_number) ei.
End code.
Arguments large : clear implicits.

(** ** Cells and objects *)

Lemma join_insert {A} (ls : list (list A)) j l k : ls !! j = Some l ->
  mjoin (<[j := k ++ l]> ls) ≡ₚ k ++ mjoin ls.
Proof.
  revert j. induction ls as [|l0 ls IH]; intros j Hl; [done|]. destruct j as [|j]; simpl in *.
  - simplify_eq. by rw app_assoc.
  - rw (IH j Hl) !app_assoc. f_equiv. apply Permutation_app_comm.
Qed.

Lemma join_remove {A} (ls : list (list A)) j x l : ls !! j = Some (x :: l) ->
  mjoin ls ≡ₚ x :: mjoin (<[j := l]> ls).
Proof.
  intros Hl. pose proof (lookup_lt_Some _ _ _ Hl) as Hlt.
  pose proof (join_insert (<[j := l]> ls) j l [x] ltac:(by apply list_lookup_insert_eq)) as Hp. simpl in Hp.
  rw -Hp list_insert_insert_eq list_insert_id //.
Qed.

(** The number of objects in a chunk of a bin. *)
Definition n_objects (b : Z) : Z := if static_bin b is Some info then folios_per_chunk info else 0.

Definition cells_of (bc : Z * Z) : list Z := cell bc.2 <$> seqZ 0 (n_objects bc.1).

Lemma elem_of_cells b c x : x ∈ cells_of (b, c) <-> exists i, 0 <= i < n_objects b /\ x = cell c i.
Proof.
  unfold cells_of. rw list_elem_of_fmap. setoid_rewrite elem_of_seqZ. simpl.
  split; intros (i & ? & ?); exists i; split; (done || lia).
Qed.

Definition large_bin (b : Z) : Prop := first_large_bin_number <= b < first_huge_bin_number.

Lemma large_bin_info b : large_bin b -> exists info, static_bin b = Some info /\ n_objects b = folios_per_chunk info /\
  bin_2_size b = Some (object_size info).
Proof.
  intros Hb. destruct (static_bin_some b) as [info Hi]; [unfold large_bin, first_large_bin_number, first_huge_bin_number, bin_number_limit in *; lia|].
  exists info. unfold n_objects. rw Hi. split_and!; [done..|]. by apply bin_2_size_static.
Qed.

Lemma cell_offset b i : large_bin b -> 0 <= i < n_objects b ->
  0 <= sizeof_large_object_list_cell * i < offset_of_first_object_in_large_chunk.
Proof.
  intros Hb Hi. destruct (large_bin_info b Hb) as (info & Hs & En & _). destruct (large_layout b info Hs Hb) as (_ & _ & _ & _ & H).
  unfold sizeof_large_object_list_cell in *. lia.
Qed.

Lemma cell_chunk b c i : large_bin b -> is_chunk c -> 0 <= i < n_objects b ->
  address_2_chunknumber (cell c i) = address_2_chunknumber c /\ address_2_chunkaddress (cell c i) = c.
Proof.
  intros Hb Hc Hi. pose proof (cell_offset b i Hb Hi) as Ho. unfold offset_of_first_object_in_large_chunk in Ho.
  unfold cell. split; [apply chunk_number_same|apply chunk_address]; (done || unfold chunksize, log_chunksize; lia).
Qed.

Lemma cell_inj c i j : cell c i = cell c j -> i = j.
Proof. unfold cell, sizeof_large_object_list_cell. lia. Qed.

(** The object of a cell. *)
Lemma large_object b info c i : large_bin b -> static_bin b = Some info -> is_chunk c -> 0 <= i < n_objects b ->
  object_ok info i 0 /\ layout_ok info /\
  object_address info c i 0 = c + (offset_of_first_object_in_large_chunk + i * object_size info) /\
  offset_of_first_object_in_large_chunk + i * object_size info + object_size info <= chunksize /\ 0 <= i * object_size info.
Proof.
  intros Hb Hi Hc Hr. destruct (large_bin_info b Hb) as (info' & Hi' & En & _). assert (info' = info) as -> by congruence.
  destruct (large_layout b info Hi Hb) as (Ho & Hf & Hopf & _). pose proof (layout b info Hi ltac:(unfold large_bin in *; lia)) as HL.
  split_and!; [split; lia|done|unfold object_address; rw Ho Hf; lia| |].
  - destruct HL as [? ? ? ? _ Hch]. rw Ho Hf in Hch. nia.
  - apply Z.mul_nonneg_nonneg; [lia|]. pose proof (lo_object _ HL). lia.
Qed.

(** The number of a chunk of the address of an object. *)
Lemma large_object_chunk b info c i x : large_bin b -> static_bin b = Some info -> is_chunk c -> 0 <= i < n_objects b ->
  0 <= x < object_size info -> let a := object_address info c i 0 + x in
  address_2_chunknumber a = address_2_chunknumber c /\ address_2_chunkaddress a = c /\
  offset_in_chunk a = offset_of_first_object_in_large_chunk + i * object_size info + x.
Proof.
  intros Hb Hi Hc Hr Hx a. destruct (large_object b info c i) as (_ & _ & E & Hle & Hge); [done..|]. unfold a. rw E.
  rewrite <- Z.add_assoc. unfold offset_of_first_object_in_large_chunk in *.
  split_and!; [apply chunk_number_same|apply chunk_address|rw chunk_offset]; (done || lia).
Qed.

(** ** The invariant *)

Section invariant.
Context {K : Kernel} {T : Scheduler}.
Implicit Type s : large K T.

Definition footprints (t : gmap Z Z) (live : list Z) : Z := total ((fun x => cell_footprint (entry t x)) <$> live).

(** [lc] are the chunks with their bins, [live] the cells of the objects in use,
    [fls] the lists of the free ones, and [own] the chunks that others hold. *)
Record large_inv s (fl : list (list Z)) (own : list Z) (lc : list (Z * Z)) (live : list Z) (fls : list (list Z)) : Prop := {
  li_huge : huge_inv (l_chunks s) fl ((address_2_chunknumber <$> lc.*2) ++ own);
  li_chunk b c : (b, c) ∈ lc -> large_bin b /\ is_chunk c /\
    entry (chunk_infos (l_chunks s)) (address_2_chunknumber c) <> 0 /\ chunk_bin (l_chunks s) c = Some b;
  li_lists : Forall2 (threaded (cells s)) (free_large_objects s) fls;
  li_length : length fls = 7%nat;
  li_cells : lc ≫= cells_of ≡ₚ live ++ mjoin fls;
  li_nodup : NoDup (live ++ mjoin fls);
  li_bin j l x : fls !! j = Some l -> x ∈ l -> exists c, (first_large_bin_number + Z.of_nat j, c) ∈ lc /\
    x ∈ cells_of (first_large_bin_number + Z.of_nat j, c);
  li_count : counts (l_footprint s) (footprints (cells s) live);
}.

(** The object of bin [b] at [a] was handed out. *)
Definition large_in_use (lc : list (Z * Z)) (live : list Z) (b a : Z) : Prop :=
  exists info c i, (b, c) ∈ lc /\ static_bin b = Some info /\ 0 <= i < n_objects b /\
    a = object_address info c i 0 /\ cell c i ∈ live.

(** The cell of the object of bin [b] at [a]. *)
Definition object_cell (lc : list (Z * Z)) (b a x : Z) : Prop :=
  exists info c i, (b, c) ∈ lc /\ static_bin b = Some info /\ 0 <= i < n_objects b /\ a = object_address info c i 0 /\ x = cell c i.

(** The cells of the objects in use are not changed. *)
Definition same_cells s s' (live : list Z) : Prop := forall x, x ∈ live -> entry (cells s') x = entry (cells s) x.

Lemma large_head s fl own lc live fls j : large_inv s fl own lc live fls -> 0 <= j < 7 ->
  exists hd l, free_large_objects s !! Z.to_nat j = Some hd /\ fls !! Z.to_nat j = Some l /\ threaded (cells s) hd l.
Proof.
  intros HI Hj. destruct (lookup_lt_is_Some_2 fls (Z.to_nat j)) as [l Hl]; [rw (li_length _ _ _ _ _ _ HI); lia|].
  destruct (Forall2_lookup_r _ _ _ _ _ (li_lists _ _ _ _ _ _ HI) Hl) as (hd & Hhd & Ht). by exists hd, l.
Qed.

(** Changing a cell outside of the lists keeps them. *)
Lemma threads_cell s (fls : list (list Z)) t x v : Forall2 (threaded t) (free_large_objects s) fls -> x ∉ mjoin fls ->
  Forall2 (threaded (<[x := v]> t)) (free_large_objects s) fls.
Proof.
  intros HF Hx. apply Forall2_same_length_lookup_2; [by eapply Forall2_length|]. intros j hd l Hhd Hl.
  destruct (Forall2_lookup_r _ _ _ _ _ HF Hl) as (hd' & Hhd' & Ht). assert (hd' = hd) as -> by congruence.
  apply threaded_insert; [|done]. intros Hin. apply Hx. apply list_elem_of_join. exists l. split; [done|]. by eapply list_elem_of_lookup_2.
Qed.

Lemma footprints_other t x v live : x ∉ live -> footprints (<[x := v]> t) live = footprints t live.
Proof.
  intros Hx. unfold footprints. f_equal. apply list_fmap_ext. intros i y Hy. f_equal. apply entry_insert_ne.
  intros ->. apply Hx. by eapply list_elem_of_lookup_2.
Qed.

Lemma total_perm l l' : l ≡ₚ l' -> total l = total l'.
Proof. induction 1; unfold total in *; simpl; lia. Qed.

Lemma footprints_perm t live live' : live ≡ₚ live' -> footprints t live = footprints t live'.
Proof. intros Hp. unfold footprints. apply total_perm. by rw Hp. Qed.

(** The chunks of two cells. *)
Lemma cell_bin s fl own lc live fls b b' c c' x : large_inv s fl own lc live fls -> (b, c) ∈ lc -> (b', c') ∈ lc ->
  x ∈ cells_of (b, c) -> x ∈ cells_of (b', c') -> b = b' /\ c = c'.
Proof.
  intros HI Hc Hc' (i & Hi & ->)%elem_of_cells (i' & Hi' & E)%elem_of_cells.
  destruct (li_chunk _ _ _ _ _ _ HI b c Hc) as (Hb & Hch & _ & Hbin). destruct (li_chunk _ _ _ _ _ _ HI b' c' Hc') as (Hb' & Hch' & _ & Hbin').
  destruct (cell_chunk b c i) as [_ E1]; [done..|]. destruct (cell_chunk b' c' i') as [_ E2]; [done..|].
  assert (c = c') as <- by congruence. split; [congruence|done].
Qed.

(** One object changes hands. *)
Lemma large_in_use_iff s fl own lc live fls b c i info live' :
  large_inv s fl own lc live fls -> (b, c) ∈ lc -> static_bin b = Some info -> 0 <= i < n_objects b ->
  live' ≡ₚ cell c i :: live -> forall b' a, large_in_use lc live' b' a <-> large_in_use lc live b' a \/ b' = b /\ a = object_address info c i 0.
Proof.
  intros HI Hc Hi Hr Hp b' a. split.
  - intros (info' & c' & i' & Hc' & Hi' & Hr' & -> & Hin). rw Hp in Hin. apply elem_of_cons in Hin as [E|Hin].
    + right. destruct (cell_bin s fl own lc live fls b' b c' c (cell c i)) as [-> ->]; try done; [apply elem_of_cells; by exists i'|apply elem_of_cells; by exists i|].
      apply cell_inj in E as ->. split; [done|]. congruence.
    + left. by exists info', c', i'.
  - intros [(info' & c' & i' & Hc' & Hi' & Hr' & -> & Hin)|[-> ->]].
    + exists info', c', i'. split_and!; [done|done|lia|lia|done|]. rw Hp. by right.
    + exists info, c, i. split_and!; [done|done|lia|lia|done|]. rw Hp. left.
Qed.
End invariant.

(** ** Allocating and freeing *)

Section operations.
Context {K : Kernel} {KO : KernelOk K} {T : Scheduler} {TO : SchedulerOk T}.
Implicit Type s : large K T.

Lemma on_large_chunks_Some {A} (m : M (chunks K) A) s r ch : m (l_chunks s) = Some (r, ch) ->
  on_large_chunks m s = Some (r, Large ch (free_large_objects s) (cells s) (l_footprint s)).
Proof. intros E. unfold on_large_chunks, zoom. by rw E. Qed.

Lemma on_footprint_Some {A} (m : M (footprint T) A) s r f : m (l_footprint s) = Some (r, f) ->
  on_footprint m s = Some (r, Large (l_chunks s) (free_large_objects s) (cells s) f).
Proof. intros E. unfold on_footprint, zoom. by rw E. Qed.

Lemma get_free_head_Some s j hd : free_large_objects s !! Z.to_nat j = Some hd -> get_free_head j s = Some (hd, s).
Proof. intros E. unfold get_free_head. by rw E. Qed.

Lemma cell_footprint_with w fp : is_uint 32 fp -> cell_footprint (with_footprint w fp) = fp.
Proof.
  intros Hfp. unfold cell_footprint, with_footprint. rw (uwrap_small 32 fp) //. unfold uwrap. rw Z.add_comm Z.mod_add //.
  by apply Z.mod_small.
Qed.

(** The address that is computed from the cell. *)
Lemma use_address b info c i : large_bin b -> static_bin b = Some info -> is_chunk c -> 0 <= i < n_objects b ->
  uwrap 64 (address_2_chunkaddress (cell c i) + offset_of_first_object_in_large_chunk +
    umul 64 ((cell c i - address_2_chunkaddress (cell c i)) / sizeof_large_object_list_cell) (object_size info)) =
  object_address info c i 0.
Proof.
  intros Hb Hi Hc Hr. destruct (cell_chunk b c i Hb Hc Hr) as [_ ->]. destruct (large_object b info c i Hb Hi Hc Hr) as (_ & _ & E & Hle & Hge).
  replace (cell c i - c) with (i * sizeof_large_object_list_cell) by (unfold cell; lia). rw Z.div_mul // E.
  unfold umul, offset_of_first_object_in_large_chunk, chunksize, log_chunksize in *.
  destruct Hc as (cn & Hcn & ->). unfold chunksize, log_chunksize, log_max_chunknumber in *.
  pose proof (lo_object _ (layout b info Hi ltac:(unfold large_bin in *; lia))).
  rewrite -> (uwrap_small 64 (i * _)) by (unfold is_uint; lia). rewrite -> uwrap_small by (unfold is_uint; lia). lia.
Qed.

(** The first cell of a list becomes the cell of an object in use. *)
Lemma large_pop_inv s fl own lc live fls j h l v f :
  large_inv s fl own lc live fls -> fls !! j = Some (h :: l) ->
  counts f (footprints (cells s) live + cell_footprint v) ->
  (h ∉ live) /\
  large_inv (Large (l_chunks s) (<[j := entry (cells s) h]> (free_large_objects s)) (<[h := v]> (cells s)) f) fl own lc
    (h :: live) (<[j := l]> fls).
Proof.
  intros [H1 H2 H3 H4 H5 H6 H7 H8] Hl Hf. pose proof (join_remove fls _ _ _ Hl) as Hjoin.
  assert (live ++ mjoin fls ≡ₚ h :: live ++ mjoin (<[j := l]> fls)) as Hp by (rw Hjoin; by rw Permutation_middle).
  pose proof H6 as Hnd. rw Hp in Hnd. apply NoDup_cons in Hnd as [[Hnl Hnf]%not_elem_of_app _]. split; [done|].
  destruct (Forall2_lookup_r _ _ _ _ _ H3 Hl) as (hd & Hhd & (-> & Hh & Ht)).
  split; simpl; [done|done| |by rw length_insert|by rw H5|by rw -Hp| |].
  - apply (threads_cell (Large (l_chunks s) (<[j := entry (cells s) h]> (free_large_objects s)) (cells s) f)); [|done].
    by apply Forall2_insert.
  - intros j' l' x Hl' Hx. destruct (decide (j' = j)) as [->|Hne].
    + rw list_lookup_insert_eq in Hl'; [by eapply lookup_lt_Some|]. simplify_eq. apply (H7 j (h :: l')); [done|by right].
    + rw list_lookup_insert_ne // in Hl'. by apply (H7 j' l').
  - assert (footprints (<[h := v]> (cells s)) (h :: live) = footprints (cells s) live + cell_footprint v) as ->; [|done].
    unfold footprints. cbn [fmap list_fmap total foldr]. rw entry_insert. fold (footprints (<[h := v]> (cells s)) live).
    fold (total ((fun x => cell_footprint (entry (<[h := v]> (cells s)) x)) <$> live)).
    pose proof (footprints_other (cells s) h v live Hnl) as E. unfold footprints in E. rw E. lia.
Qed.

Lemma large_not_in_use s fl own lc live fls b c i info :
  large_inv s fl own lc live fls -> (b, c) ∈ lc -> static_bin b = Some info -> 0 <= i < n_objects b -> cell c i ∉ live ->
  ~ large_in_use lc live b (object_address info c i 0).
Proof.
  intros HI Hc Hi Hr Hn (info' & c' & i' & Hc' & Hi' & Hr' & E & Hin). assert (info' = info) as -> by congruence.
  destruct (li_chunk _ _ _ _ _ _ HI b c Hc) as (Hb & Hch & _). destruct (li_chunk _ _ _ _ _ _ HI b c' Hc') as (_ & Hch' & _).
  destruct (large_object b info c i) as (Ho & HL & _); [done..|]. destruct (large_object b info c' i') as (Ho' & _); [done..|].
  destruct (object_address_inj info c c' i i' 0 0 HL Hch Hch' Ho Ho' E) as (<- & <- & _). done.
Qed.

(** From the address of an object to its cell. *)
Lemma large_footprint_spec s fl own lc live fls b c i info :
  large_inv s fl own lc live fls -> (b, c) ∈ lc -> static_bin b = Some info -> 0 <= i < n_objects b ->
  large_footprint (object_address info c i 0) s = Some (cell_footprint (entry (cells s) (cell c i)), s).
Proof.
  intros HI Hc Hi Hr. destruct (li_chunk _ _ _ _ _ _ HI b c Hc) as (Hb & Hch & Hnz & Hbin). pose proof Hb as [Hb1 Hb2].
  pose proof (lo_object _ (layout b info Hi ltac:(unfold large_bin in *; lia))) as Hpos.
  destruct (large_object_chunk b info c i 0 Hb Hi Hch Hr ltac:(lia)) as (Ecn & Eca & Eoff). rw !Z.add_0_r in Ecn Eca Eoff.
  destruct (large_object b info c i) as (_ & _ & _ & Hle & Hge); [done..|].
  unfold large_footprint. rw Ecn. unfold get_info.
  rewrite -> (bind_Some _ _ _ _ _ (on_large_chunks_Some (gets _) s _ _ eq_refl)).
  replace (Large (l_chunks s) (free_large_objects s) (cells s) (l_footprint s)) with s by by destruct s.
  rw bind_bassert; [by apply negb_true_iff, Z.eqb_neq|]. unfold chunk_bin in Hbin. rw (bind_the _ _ _ _ Hbin).
  rw bind_bassert; [by apply Z.leb_le|]. rw bind_bassert; [by apply Z.ltb_lt|].
  rewrite -> (bind_the _ _ _ _ (bin_2_size_static b info Hi)). cbv zeta. rw Eoff Eca.
  replace (offset_of_first_object_in_large_chunk + i * object_size info - offset_of_first_object_in_large_chunk)
    with (i * object_size info) by lia.
  rewrite -> uwrap_small by (unfold is_uint, chunksize, log_chunksize, offset_of_first_object_in_large_chunk in *; lia).
  rewrite -> Z.div_mul by lia. done.
Qed.

(** The first object of a list that is not empty is handed out. *)
Lemma large_pop_spec s fl own lc live fls b info h l fp :
  large_inv s fl own lc live fls -> large_bin b -> static_bin b = Some info -> is_uint 32 fp ->
  let j := b - first_large_bin_number in
  fls !! Z.to_nat j = Some (h :: l) ->
  exists a s', large_malloc_body j fp b (object_size info) tt s = Some (inr a, s') /\
    l_chunks s' = l_chunks s /\ object_cell lc b a h /\ same_cells s s' live /\
    large_inv s' fl own lc (h :: live) (<[Z.to_nat j := l]> fls) /\ 0 < a /\ large_footprint a s' = Some (fp, s') /\
    ~ large_in_use lc live b a /\
    forall b' a', large_in_use lc (h :: live) b' a' <-> large_in_use lc live b' a' \/ b' = b /\ a' = a.
Proof.
  intros HI Hb Hi Hfp j Hl. pose proof Hb as Hb'. unfold large_bin, first_large_bin_number, first_huge_bin_number in Hb'.
  assert (0 <= j < 7) as Hj by (unfold j, first_large_bin_number; lia).
  destruct (large_head s fl own lc live fls j HI Hj) as (hd & l' & Hhd & Hl' & Ht). assert (l' = h :: l) as -> by congruence.
  destruct Ht as (-> & Hh & Ht).
  assert (first_large_bin_number + Z.of_nat (Z.to_nat j) = b) as Eb by (unfold j in *; lia).
  destruct (li_bin _ _ _ _ _ _ HI (Z.to_nat j) (h :: l) h Hl ltac:(left)) as (c & Hc & Hin). rw Eb in Hc Hin.
  apply elem_of_cells in Hin as (i & Hr & ->). destruct (li_chunk _ _ _ _ _ _ HI b c Hc) as (_ & Hch & _ & Hbin).
  pose proof (lo_object _ (layout b info Hi ltac:(unfold large_bin in *; lia))) as Hpos.
  destruct (large_object_chunk b info c i 0 Hb Hi Hch Hr ltac:(lia)) as (Ecn & _). rw Z.add_0_r in Ecn.
  pose proof (use_address b info c i Hb Hi Hch Hr) as Ea. set (a := object_address info c i 0) in *.
  set (w := entry (cells s) (cell c i)) in *.
  destruct (add_to_footprint_spec (l_footprint s) _ fp (li_count _ _ _ _ _ _ HI)) as (f' & Ef & Hcount).
  rewrite <- (cell_footprint_with w fp Hfp) in Hcount.
  destruct (large_pop_inv s fl own lc live fls _ _ l _ f' HI Hl Hcount) as [Hnl HI']. fold w in HI'. set (s' := Large _ _ _ _) in HI'.
  exists a, s'. split_and!; [|done|by exists info, c, i|intros x Hx; apply entry_insert_ne; by intros <-|done| | | |by apply (large_in_use_iff s fl own lc live fls)].
  - unfold large_malloc_body. rw (bind_Some _ _ _ _ _ (get_free_head_Some s j _ Hhd)).
    rewrite -> (proj2 (Z.eqb_neq (cell c i) 0)) by lia. cbn [negb].
    set (s1 := Large (l_chunks s) (<[Z.to_nat j := w]> (free_large_objects s)) (cells s) (l_footprint s)).
    assert (do_large_malloc_pop j s = Some (cell c i, s1)) as E1.
    { unfold do_large_malloc_pop. rw (bind_Some _ _ _ _ _ (get_free_head_Some s j _ Hhd)).
      by rewrite -> (proj2 (Z.eqb_neq (cell c i) 0)) by lia. }
    rw (bind_Some _ _ _ _ _ E1). rewrite -> (proj2 (Z.eqb_neq (cell c i) 0)) by lia.
    assert (use_large_object (cell c i) fp b (object_size info) s1 = Some (a, s')) as E2; [|by rw (bind_Some _ _ _ _ _ E2)].
    unfold use_large_object, get_next. rw bind_gets. unfold set_cell. rw bind_modify.
    rewrite -> (bind_Some _ _ _ _ _ (on_footprint_Some _ (Large _ _ _ _) _ _ Ef)). cbv zeta. rw Ea.
    destruct (cell_chunk b c i Hb Hch Hr) as [_ ->]. rw bind_bassert; [by apply Z.eqb_eq|]. rw Ecn.
    unfold get_info. rewrite -> (bind_Some _ _ _ _ _ (on_large_chunks_Some (gets _) (Large _ _ _ _) _ _ eq_refl)).
    unfold chunk_bin in Hbin. by rw (bind_the _ _ _ _ Hbin) bind_bassert; [apply Z.eqb_refl|].
  - unfold a. destruct (large_object b info c i) as (_ & _ & -> & _ & Hge); [done..|]. pose proof (is_chunk_pos c Hch).
    unfold offset_of_first_object_in_large_chunk. lia.
  - unfold a. rewrite -> (large_footprint_spec s' _ _ _ _ _ b c i info HI' Hc Hi Hr). unfold s'. simpl.
    by rw entry_insert cell_footprint_with.
  - by apply (large_not_in_use s fl own lc live fls b c i info).
Qed.

Lemma init_cells_spec c l : NoDup l -> forall s,
  exists t, foreach l (fun i => set_cell (cell c i) (cell c (i + 1))) s =
      Some (tt, Large (l_chunks s) (free_large_objects s) t (l_footprint s)) /\
    (forall i, i ∈ l -> entry t (cell c i) = cell c (i + 1)) /\
    (forall x, (forall i, i ∈ l -> x <> cell c i) -> entry t x = entry (cells s) x).
Proof.
  induction 1 as [|i l Hi Hnd IH]; intros s; simpl.
  - exists (cells s). split_and!; [by destruct s|by intros i ?%elem_of_nil|done].
  - unfold set_cell at 1. rw bind_modify. set (s1 := Large _ _ _ _). destruct (IH s1) as (t & E & Hin & Hout).
    exists t. split_and!; [done| |].
    + intros j [->|Hj]%elem_of_cons; [|by apply Hin]. rw Hout; [intros j Hj E'%cell_inj; by subst|]. apply entry_insert.
    + intros x Hx. rw Hout; [intros j Hj; apply Hx; by right|]. apply entry_insert_ne. intros <-. by apply (Hx i); [left|].
Qed.

Lemma fresh_threaded t c n m : 0 < c -> forall j, 0 <= j -> j + Z.of_nat m = n ->
  (forall i, j <= i < n -> entry t (cell c i) = if i + 1 =? n then 0 else cell c (i + 1)) ->
  threaded t (if j =? n then 0 else cell c j) (cell c <$> seqZ j (Z.of_nat m)).
Proof.
  intros Hc. induction m as [|m IH]; intros j Hj Em Ht.
  - simpl. by rewrite -> (proj2 (Z.eqb_eq j n)) by lia.
  - rewrite -> (proj2 (Z.eqb_neq j n)) by lia. rw seqZ_cons; [lia|]. simpl. split; [done|].
    split; [unfold cell, sizeof_large_object_list_cell; lia|]. rewrite -> Ht by lia.
    replace (Z.pred (Z.of_nat (S m))) with (Z.of_nat m) by lia. rw -Z.add_1_r. apply IH; [lia|lia|]. intros i Hi. apply Ht. lia.
Qed.

(** The cells of a new chunk become the list of its bin. *)
Lemma large_grow_inv s fl own lc live fls b c j ch t v hd :
  large_inv s fl own lc live fls -> large_bin b -> is_chunk c -> Z.of_nat j = b - first_large_bin_number ->
  fls !! j = Some [] -> huge_inv ch fl (address_2_chunknumber c :: (address_2_chunknumber <$> lc.*2) ++ own) ->
  chunk_infos ch = <[address_2_chunknumber c := v]> (chunk_infos (l_chunks s)) -> v <> 0 -> bin_from_bin_and_size v = Some b ->
  threaded t hd (cells_of (b, c)) -> (forall x, x ∉ cells_of (b, c) -> entry t x = entry (cells s) x) ->
  large_inv (Large ch (<[j := hd]> (free_large_objects s)) t (l_footprint s)) fl own ((b, c) :: lc) live (<[j := cells_of (b, c)]> fls) /\
  forall b' a, large_in_use ((b, c) :: lc) live b' a <-> large_in_use lc live b' a.
Proof.
  intros [H1 H2 H3 H4 H5 H6 H7 H8] Hb Hc Hj Hl Hch Ein Hv Hd Hth Hout.
  assert (address_2_chunknumber c ∉ address_2_chunknumber <$> lc.*2) as Hn.
  { pose proof (hi_disjoint _ _ _ Hch) as Hnd. unfold all_chunks in Hnd. apply NoDup_app in Hnd as (_ & _ & [Hx _]%NoDup_cons).
    by apply not_elem_of_app in Hx as [? _]. }
  assert (forall b' c', (b', c') ∈ lc -> address_2_chunknumber c <> address_2_chunknumber c') as Hother.
  { intros b' c' Hc' E. apply Hn. rw E. apply list_elem_of_fmap. exists c'. split; [done|]. apply list_elem_of_fmap. by exists (b', c'). }
  assert (forall x, x ∈ cells_of (b, c) -> x ∉ live ++ mjoin fls) as Hfresh.
  { intros x (i & Hi & ->)%elem_of_cells. rw -H5. intros ([b' c'] & Hx & Hc')%list_elem_of_bind.
    apply elem_of_cells in Hx as (i' & Hi' & E). destruct (H2 b' c' Hc') as (Hb' & Hch' & _). apply (Hother b' c' Hc').
    destruct (cell_chunk b c i) as [<- _]; [done..|]. destruct (cell_chunk b' c' i') as [<- _]; [done..|]. by rw E. }
  pose proof (join_insert fls j [] (cells_of (b, c)) Hl) as Hjoin. rw app_nil_r in Hjoin.
  assert (cells_of (b, c) ++ live ++ mjoin fls ≡ₚ live ++ mjoin (<[j := cells_of (b, c)]> fls)) as Hp.
  { rw Hjoin !app_assoc. f_equiv. apply Permutation_app_comm. }
  split; [split; simpl|].
  - done.
  - intros b' c'. unfold chunk_bin. simpl. rw Ein. intros [E|Hc']%elem_of_cons.
    + simplify_eq. by rw entry_insert.
    + rewrite -> entry_insert_ne by (by apply (Hother b')). by apply H2.
  - apply Forall2_insert; [|done]. apply Forall2_same_length_lookup_2; [by eapply Forall2_length|]. intros j' hd' l' Hhd' Hl'.
    destruct (Forall2_lookup_r _ _ _ _ _ H3 Hl') as (hd0 & Hhd0 & Ht). assert (hd0 = hd') as -> by congruence.
    assert (forall x, x ∈ l' -> entry t x = entry (cells s) x) as Hsame.
    { intros x Hx. apply Hout. intros Hin. apply (Hfresh x Hin), elem_of_app. right. apply list_elem_of_join.
      exists l'. split; [done|]. by eapply list_elem_of_lookup_2. }
    clear Hhd' Hl' Hhd0. revert hd' Ht. induction l' as [|x l' IH]; intros hd'; [done|]. simpl. intros (-> & Hx & Ht).
    split_and!; [done..|]. rewrite -> Hsame by left. apply IH; [|done]. intros y Hy. apply Hsame. by right.
  - by rw length_insert.
  - change (cells_of (b, c) ++ (lc ≫= cells_of) ≡ₚ live ++ mjoin (<[j := cells_of (b, c)]> fls)). by rw H5.
  - rw -Hp. apply NoDup_app. split_and!; [|done|done].
    unfold cells_of. apply NoDup_fmap_2_strong; [|apply NoDup_seqZ]. intros x y _ _. apply cell_inj.
  - intros j' l' x Hl' Hx. destruct (decide (j' = j)) as [->|Hne].
    + rw list_lookup_insert_eq in Hl'; [by eapply lookup_lt_Some|]. simplify_eq. exists c.
      replace (first_large_bin_number + Z.of_nat j) with b by lia. split; [left|done].
    + rw list_lookup_insert_ne // in Hl'. destruct (H7 j' l' x Hl' Hx) as (c' & ? & ?). exists c'. split; [by right|done].
  - assert (footprints t live = footprints (cells s) live) as ->; [|done]. unfold footprints. f_equal. apply list_fmap_ext.
    intros i x Hx. f_equal. apply Hout. intros Hin. apply (Hfresh x Hin), elem_of_app. left. by eapply list_elem_of_lookup_2.
  - intros b' a. split; intros (info & c' & i & Hc' & Hi & Hr & -> & Hin); exists info, c', i.
    + apply elem_of_cons in Hc' as [E|Hc']; [|split_and!; (done || lia)]. simplify_eq. exfalso. apply (Hfresh (cell c i)).
      { apply elem_of_cells. by exists i. } apply elem_of_app. by left.
    + split_and!; [by right|done|lia|lia|done|done].
Qed.

Lemma new_large_chunk_spec s fl own lc live fls b info fp :
  large_inv s fl own lc live fls -> large_bin b -> static_bin b = Some info ->
  let j := b - first_large_bin_number in
  fls !! Z.to_nat j = Some [] ->
  (new_large_chunk j fp b (object_size info) s = None /\ refuses 1 (l_chunks s)) \/
  exists s' c, new_large_chunk j fp b (object_size info) s = Some (tt, s') /\
    (forall x, x ∈ own -> entry (chunk_infos (l_chunks s')) x = entry (chunk_infos (l_chunks s)) x) /\ same_cells s s' live /\
    large_inv s' fl own ((b, c) :: lc) live (<[Z.to_nat j := cells_of (b, c)]> fls) /\
    forall b' a, large_in_use ((b, c) :: lc) live b' a <-> large_in_use lc live b' a.
Proof.
  intros HI Hb Hi j Hl. pose proof Hb as Hb'. unfold large_bin, first_large_bin_number, first_huge_bin_number in Hb'.
  assert (0 <= j < 7) as Hj by (unfold j, first_large_bin_number; lia).
  destruct (large_head s fl own lc live fls j HI Hj) as (hd & l' & Hhd & Hl' & Ht). assert (l' = []) as -> by congruence. simpl in Ht. subst hd.
  destruct (large_bin_info b Hb) as (info' & Hi' & En & _). assert (info' = info) as -> by congruence.
  destruct (large_layout b info Hi Hb) as (_ & _ & _ & Efpc & Hhdr). pose proof (layout b info Hi ltac:(unfold large_bin in *; lia)) as HL.
  pose proof (lo_folios _ HL) as Hfpc. rw -En in Efpc Hhdr Hfpc. set (n := n_objects b) in *.
  unfold new_large_chunk. destruct (new_chunk_spec (l_chunks s) fl _ (li_huge _ _ _ _ _ _ HI)) as (c & ch1 & E1 & Ein1 & Hc).
  rw (bind_Some _ _ _ _ _ (on_large_chunks_Some _ s _ _ E1)). destruct Hc as [(-> & _ & Hno)|[Hc Hch]]; [by left|right].
  rw bind_bassert; [apply negb_true_iff, Z.eqb_neq; pose proof (is_chunk_pos c Hc); lia|]. cbv zeta. rw -Efpc.
  rw bind_bassert; [by apply Z.leb_le|].
  set (s1 := Large ch1 _ _ _). destruct (init_cells_spec c (seqZ 0 (n - 1)) (NoDup_seqZ _ _) s1) as (t & E2 & Hin & Hout).
  rw (bind_Some _ _ _ _ _ E2).
  destruct (bin_and_size_encode b fp) as (v & Ev & Hv & Hd); [lia|].
  rw (bind_the _ _ _ _ Ev) bind_bassert; [by apply negb_true_iff, Z.eqb_neq|].
  set (cn := address_2_chunknumber c) in *. set (ch2 := Chunks (c_os ch1) (<[cn := v]> (chunk_infos ch1)) (free_chunks ch1)).
  assert (set_info cn v ch1 = Some (tt, ch2)) as E3 by done.
  rewrite -> (bind_Some _ _ _ _ _ (on_large_chunks_Some _ (Large ch1 _ _ _) _ _ E3)).
  rewrite -> (bind_Some _ _ _ _ _ (get_free_head_Some (Large ch2 _ _ _) j 0 Hhd)).
  pose proof (set_info_spec ch1 fl _ cn v Hch ltac:(left)) as Hch2. fold ch2 in Hch2.
  destruct (large_grow_inv s fl own lc live fls b c (Z.to_nat j) ch2 (<[cell c (n - 1) := 0]> t) v (cell c 0)) as [HI' Hu'];
    [done..|unfold j in *; lia|done|done|by simpl; rw Ein1|done|done| | |].
  - pose proof (fresh_threaded (<[cell c (n - 1) := 0]> t) c n (Z.to_nat n) (is_chunk_pos c Hc) 0 ltac:(lia) ltac:(lia)) as Hth.
    rewrite -> Z2Nat.id in Hth by lia. rewrite -> (proj2 (Z.eqb_neq 0 n)) in Hth by lia. apply Hth. intros i Hr.
    destruct (Z.eqb_spec (i + 1) n).
    + replace i with (n - 1) by lia. apply entry_insert.
    + rewrite -> entry_insert_ne by (intros E%cell_inj; lia). apply Hin, elem_of_seqZ. lia.
  - intros x Hx. rewrite -> entry_insert_ne.
    + apply Hout. intros i Hr%elem_of_seqZ ->. apply Hx, elem_of_cells. exists i. fold n. split; [lia|done].
    + intros <-. apply Hx, elem_of_cells. exists (n - 1). fold n. split; [lia|done].
  - eexists _, c. split_and!; [done| | |exact HI'|exact Hu'].
    2:{ intros x Hx. simpl. pose proof (li_nodup _ _ _ _ _ _ HI') as Hnd. apply NoDup_app in Hnd as (_ & Hnd & _).
      assert (x ∉ cells_of (b, c)) as Hxc.
      { intros Hin'. apply (Hnd x Hx), list_elem_of_join. eexists. split; [exact Hin'|]. apply list_elem_of_lookup. exists (Z.to_nat j).
        apply list_lookup_insert_eq. by eapply lookup_lt_Some. }
      rewrite -> entry_insert_ne; [apply Hout; intros i Hr%elem_of_seqZ ->; apply Hxc, elem_of_cells; exists i; fold n; split; [lia|done]|].
      intros <-. apply Hxc, elem_of_cells. exists (n - 1). fold n. split; [lia|done]. } intros x Hx. simpl. rw Ein1. apply entry_insert_ne. intros <-.
    pose proof (hi_disjoint _ _ _ Hch) as Hnd. unfold all_chunks in Hnd. apply NoDup_app in Hnd as (_ & _ & [Hn _]%NoDup_cons).
    apply Hn, elem_of_app. by right.
Qed.

Lemma large_malloc_spec s fl own lc live fls size : let b := size_2_bin size in
  large_inv s fl own lc live fls -> large_bin b ->
  (large_malloc size s = None /\ refuses 1 (l_chunks s)) \/
  exists a s' lc' x fls', large_malloc size s = Some (a, s') /\ lc ⊆ lc' /\ object_cell lc' b a x /\ same_cells s s' live /\
    (forall x, x ∈ own -> entry (chunk_infos (l_chunks s')) x = entry (chunk_infos (l_chunks s)) x) /\
    large_inv s' fl own lc' (x :: live) fls' /\ 0 < a /\
    large_footprint a s' = Some (uwrap 32 (pagesize * ceil size pagesize), s') /\ ~ large_in_use lc live b a /\
    forall b' a', large_in_use lc' (x :: live) b' a' <-> large_in_use lc live b' a' \/ b' = b /\ a' = a.
Proof.
  intros b HI Hb. destruct (large_bin_info b Hb) as (info & Hi & En & Hsz).
  unfold large_malloc. fold b. rw (bind_the _ _ _ _ Hsz). pose proof Hb as [Hb1 Hb2].
  rw bind_bassert; [by apply Z.leb_le|]. rw bind_bassert; [by apply Z.ltb_lt|].
  set (fp := uwrap 32 (pagesize * ceil size pagesize)). assert (is_uint 32 fp) as Hfp by (apply uwrap_uint; lia).
  set (j := b - first_large_bin_number).
  assert (0 <= j < 7) as Hj by (unfold j, first_large_bin_number, first_huge_bin_number in *; lia).
  destruct (large_head s fl own lc live fls j HI Hj) as (hd & l & Hhd & Hl & Ht).
  destruct l as [|h l].
  - simpl in Ht. subst hd.
    assert (large_malloc_body j fp b (object_size info) tt s = (new_large_chunk j fp b (object_size info);; mret (inl tt)) s) as E1.
    { unfold large_malloc_body. by rw (bind_Some _ _ _ _ _ (get_free_head_Some s j _ Hhd)). }
    destruct (new_large_chunk_spec s fl own lc live fls b info fp) as [[E Hno]|(s1 & c & E & Hown & Hsc & HI1 & Hu1)]; [done..| |].
    + left. split; [|done]. cbn [loop]. unfold mbind at 1, M_bind. rw E1. unfold mbind at 1, M_bind. fold j in E. by rw E.
    + right. fold j in E, HI1. rw (bind_Some _ _ _ _ _ E) in E1. rw (loop_step _ _ _ _ _ _ E1).
      assert (exists h l, cells_of (b, c) = h :: l) as (h & l & Ecs).
      { unfold cells_of. simpl. rw En. pose proof (lo_folios _ (layout b info Hi ltac:(unfold large_bin in *; lia))).
        rw seqZ_cons; [lia|]. simpl. eauto. }
      rw Ecs in HI1. destruct (large_pop_spec s1 fl own ((b, c) :: lc) live _ b info h l fp HI1 Hb Hi Hfp) as (a & s2 & E2 & Ech & Hoc & Hsc2 & HI2 & Ha & Hfoot & Hnu & Hu2).
      { fold j. rw list_lookup_insert_eq //. rw (li_length _ _ _ _ _ _ HI). lia. }
      fold j in E2, HI2. rw (loop_step _ _ _ _ _ _ E2). eexists a, s2, _, _, _. split_and!; [done|by intros y Hy; right|exact Hoc| | |exact HI2|done|done|by rw -Hu1|].
      * intros y Hy. rw -(Hsc y Hy). by apply Hsc2.
      * intros x Hx. rw Ech. by apply Hown.
      * intros b' a'. by rw Hu2 Hu1.
  - right. destruct (large_pop_spec s fl own lc live fls b info h l fp HI Hb Hi Hfp Hl) as (a & s2 & E2 & Ech & Hoc & Hsc2 & HI2 & Ha & Hfoot & Hnu & Hu2).
    fold j in E2, HI2. rw (loop_step _ _ _ _ _ _ E2). eexists a, s2, _, _, _. split_and!; [done|done|exact Hoc|done|by rw Ech|exact HI2|done..].
Qed.

(** The cell of an object in use goes back to the list of its bin. *)
Lemma large_push_inv s fl own lc live fls j h hd l b c f :
  large_inv s fl own lc (h :: live) fls -> Z.of_nat j = b - first_large_bin_number -> fls !! j = Some l -> free_large_objects s !! j = Some hd ->
  (b, c) ∈ lc -> h ∈ cells_of (b, c) -> 0 < h -> counts f (footprints (cells s) (h :: live) - cell_footprint (entry (cells s) h)) ->
  large_inv (Large (l_chunks s) (<[j := h]> (free_large_objects s)) (<[h := hd]> (cells s)) f) fl own lc live (<[j := h :: l]> fls).
Proof.
  intros [H1 H2 H3 H4 H5 H6 H7 H8] Hj Hl Hhd Hc Hh Hpos Hf. pose proof (join_insert fls j l [h] Hl) as Hjoin. simpl in Hjoin, H6.
  pose proof H6 as Hnd. apply NoDup_cons in Hnd as [[Hnl Hnf]%not_elem_of_app _].
  assert (h :: live ++ mjoin fls ≡ₚ live ++ mjoin (<[j := h :: l]> fls)) as Hp by by rw Hjoin Permutation_middle.
  split; simpl; [done|done| |by rw length_insert|by rw H5|by rw -Hp| |].
  - pose proof (threads_cell s fls (cells s) h hd H3 Hnf) as HF. apply Forall2_insert; [done|]. simpl. split_and!; [done..|].
    rw entry_insert. destruct (Forall2_lookup_r _ _ _ _ _ HF Hl) as (hd' & Hhd' & Ht). by assert (hd' = hd) as -> by congruence.
  - intros j' l' x Hl' Hx. destruct (decide (j' = j)) as [->|Hne].
    + rw list_lookup_insert_eq in Hl'; [by eapply lookup_lt_Some|]. simplify_eq. apply elem_of_cons in Hx as [->|Hx]; [|by apply (H7 j l)].
      exists c. by replace (first_large_bin_number + Z.of_nat j) with b by lia.
    + rw list_lookup_insert_ne // in Hl'. by apply (H7 j' l').
  - rewrite -> footprints_other by done. unfold footprints in *. cbn [fmap list_fmap] in Hf. simpl total in Hf.
    replace (total ((fun x => cell_footprint (entry (cells s) x)) <$> live)) with
      (cell_footprint (entry (cells s) h) + total ((fun x => cell_footprint (entry (cells s) x)) <$> live) - cell_footprint (entry (cells s) h)) by lia.
    exact Hf.
Qed.

(** The large objects do not depend on chunks of others. *)
Lemma large_inv_chunks s fl own lc live fls ch fl' own' :
  large_inv s fl own lc live fls -> huge_inv ch fl' ((address_2_chunknumber <$> lc.*2) ++ own') ->
  (forall x, x ∈ address_2_chunknumber <$> lc.*2 -> entry (chunk_infos ch) x = entry (chunk_infos (l_chunks s)) x) ->
  large_inv (Large ch (free_large_objects s) (cells s) (l_footprint s)) fl' own' lc live fls.
Proof.
  intros [H1 H2 H3 H4 H5 H6 H7 H8] Hch Hsame. split; simpl; [done| |done..].
  intros b c Hc. assert (address_2_chunknumber c ∈ address_2_chunknumber <$> lc.*2) as Hin.
  { apply list_elem_of_fmap. exists c. split; [done|]. apply list_elem_of_fmap. by exists (b, c). }
  unfold chunk_bin. rewrite -> Hsame by done. by apply H2.
Qed.

(** What [large_free] does after its call of [madvise]. *)
Lemma large_free_tail s fl own lc live fls b a :
  large_inv s fl own lc live fls -> large_in_use lc live b a ->
  exists s' live' fls', 
    (objnum ← the (divide_offset_by_objsize (uwrap 32 (offset_in_chunk a - offset_of_first_object_in_large_chunk)) b);
     let ei := cell (address_2_chunkaddress a) objnum in
     w ← get_next ei;
     on_footprint (add_to_footprint (- cell_footprint w));;
     first ← get_free_head (b - first_large_bin_number);
     set_cell ei first;;
     set_free_head (b - first_large_bin_number) ei) s = Some (tt, s') /\ chunk_infos (l_chunks s') = chunk_infos (l_chunks s) /\ large_inv s' fl own lc live' fls' /\
    same_cells s s' live' /\ (forall x, object_cell lc b a x -> live ≡ₚ x :: live') /\
    forall b' a', large_in_use lc live' b' a' <-> large_in_use lc live b' a' /\ ~ (b' = b /\ a' = a).
Proof.
  intros HI (info & c & i & Hc & Hi & Hr & -> & Hin).
  destruct (li_chunk _ _ _ _ _ _ HI b c Hc) as (Hb & Hch & Hnz & Hbin). pose proof Hb as [Hb1 Hb2].
  pose proof (lo_object _ (layout b info Hi ltac:(unfold large_bin in *; lia))) as Hpos.
  destruct (large_object_chunk b info c i 0 Hb Hi Hch Hr ltac:(lia)) as (Ecn & Eca & Eoff). rw !Z.add_0_r in Ecn Eca Eoff.
  destruct (large_object b info c i) as (Hok & HL & _ & Hle & Hge); [done..|].
  apply list_elem_of_split in Hin as (l1 & l2 & ->). set (live' := l1 ++ l2). set (h := cell c i) in *.
  assert (l1 ++ h :: l2 ≡ₚ h :: live') as Hp by (unfold live'; by rw Permutation_middle).
  assert (large_inv s fl own lc (h :: live') fls) as HI'.
  { destruct HI as [H1 H2 H3 H4 H5 H6 H7 H8]. split; [done..|by rw -Hp|by rw -Hp|done|]. by rw -(footprints_perm _ _ _ Hp). }
  set (j := b - first_large_bin_number).
  assert (0 <= j < 7) as Hj by (unfold j, first_large_bin_number, first_huge_bin_number in *; lia).
  destruct (large_head s fl own lc _ fls j HI Hj) as (hd & l & Hhd & Hl & Ht).
  destruct (add_to_footprint_spec (l_footprint s) _ (- cell_footprint (entry (cells s) h)) (li_count _ _ _ _ _ _ HI')) as (f' & Ef & Hcount).
  assert (0 < h) as Hh by (unfold h, cell, sizeof_large_object_list_cell; pose proof (is_chunk_pos c Hch); lia).
  pose proof (large_push_inv s fl own lc live' fls (Z.to_nat j) h hd l b c f' HI' ltac:(unfold j in *; lia) Hl Hhd Hc
    ltac:(apply elem_of_cells; by exists i) Hh Hcount) as HI2.
  set (s2 := Large _ _ _ _) in HI2. eexists s2, live', _. split_and!; [|done|exact HI2| | |].
  - rw Eoff Eca.
    replace (offset_of_first_object_in_large_chunk + i * object_size info - offset_of_first_object_in_large_chunk)
      with (i * object_size info) by lia.
    unfold chunksize, log_chunksize, offset_of_first_object_in_large_chunk in Hle. rewrite -> uwrap_small by (unfold is_uint; lia).
    rewrite -> (bind_the _ _ _ _ (divide_by_objsize (i * object_size info) b info Hi ltac:(lia) ltac:(lia))).
    rewrite -> Z.div_mul by lia. cbv zeta. fold h. unfold get_next. rw bind_gets.
    rewrite -> (bind_Some _ _ _ _ _ (on_footprint_Some _ s _ _ Ef)). fold j.
    by rewrite -> (bind_Some _ _ _ _ _ (get_free_head_Some (Large _ (free_large_objects s) _ _) j hd Hhd)).
  - intros x Hx. simpl. apply entry_insert_ne. intros <-. pose proof (li_nodup _ _ _ _ _ _ HI') as Hnd. apply NoDup_cons in Hnd as [Hn _].
    apply Hn, elem_of_app. by left.
  - intros x (info' & c' & i' & Hc' & Hi' & Hr' & E & ->). assert (info' = info) as -> by congruence.
    destruct (li_chunk _ _ _ _ _ _ HI b c' Hc') as (_ & Hch' & _). destruct (large_object b info c' i') as (Hok' & _); [done..|].
    by destruct (object_address_inj info c c' i i' 0 0 HL Hch Hch' Hok Hok' E) as (-> & -> & _).
  - intros b' a'. rewrite -> (large_in_use_iff s2 fl own lc live' _ b c i info (l1 ++ h :: l2) HI2 Hc Hi Hr Hp).
    assert (h ∉ live') as Hn.
    { pose proof (li_nodup _ _ _ _ _ _ HI') as Hnd. simpl in Hnd. apply NoDup_cons in Hnd as [[Hx _]%not_elem_of_app _]. done. }
    pose proof (large_not_in_use s2 fl own lc live' _ b c i info HI2 Hc Hi Hr Hn) as Hnu.
    split; [|tauto]. intros Hu. split; [by left|]. intros [-> ->]. done.
Qed.

Lemma large_free_spec s fl own lc live fls b a :
  large_inv s fl own lc live fls -> large_in_use lc live b a ->
  exists s' live' fls', large_free a s = Some (tt, s') /\ chunk_infos (l_chunks s') = chunk_infos (l_chunks s) /\
    large_inv s' fl own lc live' fls' /\ same_cells s s' live' /\ (forall x, object_cell lc b a x -> live ≡ₚ x :: live') /\
    forall b' a', large_in_use lc live' b' a' <-> large_in_use lc live b' a' /\ ~ (b' = b /\ a' = a).
Proof.
  intros HI Hu. pose proof Hu as (info & c & i & Hc & Hi & Hr & Ea & _).
  destruct (li_chunk _ _ _ _ _ _ HI b c Hc) as (Hb & Hch & Hnz & Hbin). pose proof Hb as [Hb1 Hb2].
  pose proof (lo_object _ (layout b info Hi ltac:(unfold large_bin in *; lia))) as Hpos.
  destruct (large_object_chunk b info c i 0 Hb Hi Hch Hr ltac:(lia)) as (Ecn & _ & _). rw Z.add_0_r in Ecn.
  destruct (madvise_spec (l_chunks s) a (object_size info) MADV_DONTNEED) as (r & o' & Em & Hsp & _).
  pose proof (large_inv_chunks s fl own lc live fls (Chunks o' (chunk_infos (l_chunks s)) (free_chunks (l_chunks s))) fl own HI
    (huge_inv_same _ _ _ _ (li_huge _ _ _ _ _ _ HI) Hsp) (fun _ _ => eq_refl)) as HI1.
  destruct (large_free_tail _ fl own lc live fls b a HI1 Hu) as (s' & live' & fls' & E & Ech & Hrest).
  exists s', live', fls'. split; [|split; [by rw Ech|exact Hrest]]. subst a. unfold large_free. rw Ecn. unfold get_info.
  rewrite -> (bind_Some _ _ _ _ _ (on_large_chunks_Some (gets _) s _ _ eq_refl)).
  replace (Large (l_chunks s) (free_large_objects s) (cells s) (l_footprint s)) with s by by destruct s.
  rw bind_bassert; [by apply negb_true_iff, Z.eqb_neq|]. unfold chunk_bin in Hbin. rw (bind_the _ _ _ _ Hbin).
  rw bind_bassert; [apply andb_true_iff; split; [by apply Z.leb_le|by apply Z.ltb_lt]|].
  rewrite -> (bind_the _ _ _ _ (bin_2_size_static b info Hi)). by rewrite -> (bind_Some _ _ _ _ _ (on_large_chunks_Some _ s _ _ Em)).
Qed.
End operations.
