(* ===== verification/LargeProgram.v ===== *)
(** * src/memory/large_malloc.cpp and footprint.cpp: programs of large objects.

    The counters of [footprint.cpp] add up to the pages that the large objects in
    use have asked for, whatever processors the thread has run on. *)
From S2P Require Import Prelude Words StateMonad Sizeclass Makechunk Huge Footprint Large.
#[local] Open Scope Z_scope.

Inductive large_op : Set := LMalloc (size : Z) | LFree (i : nat).

Definition large_op_ok (op : large_op) : Prop :=
  match op with LMalloc size => largest_small < size <= largest_large | LFree _ => True end.

(** The bytes of the pages of an object. *)
Definition pages_of (size : Z) : Z := pagesize * ceil size pagesize.

Section client.
Context {K : Kernel} {T : Scheduler}.

Definition no_large (o : os K) (t : sstate) : large K T :=
  Large (no_chunks o) (replicate 7 0) ∅ (Footprint t 0 0 (replicate (Z.to_nat processor_number_limit) 0)).

(** The objects of the program, with the sizes it asked for. *)
Definition large_exec (op : large_op) (held : list (Z * Z)) : M (large K T) (list (Z * Z)) :=
  match op with
  | LMalloc size => r ← large_malloc size; mret ((r, size) :: held)
  | LFree i =>
      match held !! i with
      | Some (p, _) => large_free p;; mret (delete i held)
      | None => mret held
      end
  end.

Fixpoint large_script (ops : list large_op) (held : list (Z * Z)) : M (large K T) (list (Z * Z)) :=
  match ops with
  | [] => mret held
  | op :: ops => held ← large_exec op held; large_script ops held
  end.
End client.

Lemma large_size size : largest_small < size <= largest_large ->
  large_bin (size_2_bin size) /\ uwrap 32 (pagesize * ceil size pagesize) = pages_of size /\ size <= pages_of size < size + pagesize.
Proof.
  intros Hs. unfold largest_small, largest_large in Hs. split.
  - pose proof (size_2_bin_fits size ltac:(lia)) as Hf. assert (bin_2_size 46 = Some largest_large) as H46 by by vm_compute.
    assert (bin_2_size 39 = Some largest_small) as H39 by by vm_compute. pose proof (first_fit_least size _ 46 _ Hf H46 ltac:(unfold largest_large; lia)).
    destruct Hf as [(s & Hs2 & Hle) _]. split; [|unfold first_huge_bin_number; lia]. apply Z.nlt_ge. intros Hlt. unfold first_large_bin_number in Hlt.
    destruct (decide (size_2_bin size = 39)) as [E|]; [rw E in Hs2; rw Hs2 in H39; simplify_eq; unfold largest_small in *; lia|].
    pose proof (bin_sizes_mono (size_2_bin size) 39 _ _ ltac:(lia) Hs2 H39). unfold largest_small in *. lia.
  - assert (size <= pages_of size < size + pagesize) as Hp.
    { unfold pages_of, ceil, pagesize. rewrite -> uwrap_small by (unfold is_uint; lia).
      pose proof (Z.div_mod (size + 4096 - 1) 4096). pose proof (Z.mod_pos_bound (size + 4096 - 1) 4096). lia. }
    split; [|done]. fold (pages_of size). apply uwrap_small. unfold pagesize in Hp. unfold is_uint. lia.
Qed.

Section specs.
Context {K : Kernel} {KO : KernelOk K} {T : Scheduler} {TO : SchedulerOk T}.
Implicit Type s : large K T.

(** Every object of the program has a cell with its footprint. *)
Record held_cell s (lc : list (Z * Z)) (h : Z * Z) (x : Z) : Prop := {
  hc_cell : object_cell lc (size_2_bin h.2) h.1 x;
  hc_footprint : cell_footprint (entry (cells s) x) = pages_of h.2;
  hc_size : 0 <= pages_of h.2 <= 2 ^ 20;
}.

Record large_rep s (held : list (Z * Z)) : Prop := {
  lr_inv : exists fl lc live fls, large_inv s fl [] lc live fls /\ Forall2 (held_cell s lc) held live;
}.

Lemma large_rep_init o t : large_rep (no_large o t) [].
Proof.
  split. eexists _, [], [], (replicate 7 []). split; [|constructor]. split; simpl.
  - apply no_chunks_inv.
  - by intros b c ?%elem_of_nil.
  - by repeat constructor.
  - done.
  - done.
  - constructor.
  - intros j l x Hl Hx. apply (lookup_replicate 7 (@nil Z)) in Hl as [-> _]. by apply elem_of_nil in Hx.
  - split; [split; simpl; [done|done]|done].
Qed.

Lemma held_cells_same s s' lc lc' held live : lc ⊆ lc' -> same_cells s s' live -> Forall2 (held_cell s lc) held live -> Forall2 (held_cell s' lc') held live.
Proof.
  intros Hsub Hsame HF. apply (Forall2_impl_lookup _ _ _ _ HF). intros i h x _ Hx [(info & c & k & Hc & Hrest) H2 H3]. split; [|by rewrite -> Hsame by by eapply list_elem_of_lookup_2|done].
  exists info, c, k. split; [by apply Hsub|done].
Qed.

Lemma large_exec_spec s held op : large_rep s held -> large_op_ok op ->
  match large_exec op held s with
  | None => refuses 1 (l_chunks s)
  | Some (held', s') => large_rep s' held'
  end.
Proof.
  intros [(fl & lc & live & fls & HI & HF)] Hop. destruct op as [size|i]; cbn [large_exec large_op_ok] in *.
  - destruct (large_size size Hop) as (Hb & Efp & Hp).
    destruct (large_malloc_spec s fl [] lc live fls size HI Hb) as [[E Hno]|(a & s' & lc' & x & fls' & E & Hsub & Hoc & Hsame & _ & HI' & Ha & Hfoot & _)].
    { unfold mbind, M_bind. by rw E. }
    rw (bind_Some _ _ _ _ _ E). split. exists fl, lc', (x :: live), fls'. split; [done|]. constructor; [|by apply (held_cells_same s s' lc lc')].
    split; [done| |unfold largest_large, largest_small, pagesize in *; simpl; lia]. destruct Hoc as (info & c & k & Hc & Hi & Hr & -> & ->).
    rewrite -> (large_footprint_spec s' fl [] lc' _ _ _ c k info HI' Hc Hi Hr) in Hfoot. injection Hfoot as Hfoot. simpl. by rw Hfoot Efp.
  - destruct (held !! i) as [[p size]|] eqn:Hi; [|by split; exists fl, lc, live, fls].
    destruct (Forall2_lookup_l _ _ _ _ _ HF Hi) as (x & Hx & [Hoc _ _]). simpl in Hoc.
    assert (large_in_use lc live (size_2_bin size) p) as Hu.
    { destruct Hoc as (info & c & k & Hc & Hb & Hr & -> & ->). exists info, c, k. split_and!; [done|done|lia|lia|done|by eapply list_elem_of_lookup_2]. }
    destruct (large_free_spec s fl [] lc live fls _ p HI Hu) as (s' & live' & fls' & E & _ & HI' & Hsame & Hperm & _). rw (bind_Some _ _ _ _ _ E).
    pose proof (delete_Permutation live i x Hx) as Hp. rewrite -> (Hperm x Hoc) in Hp at 1. apply Permutation_cons_inv in Hp.
    split. exists fl, lc, (delete i live), fls'. split.
    + destruct HI' as [H1 H2 H3 H4 H5 H6 H7 H8]. split; [done..|by rw -Hp|by rw -Hp|done|]. by rw -(footprints_perm _ _ _ Hp).
    + apply (held_cells_same s s' lc lc); [done| |by apply Forall2_delete]. intros y Hy. apply Hsame. by rw Hp.
Qed.

Lemma large_script_spec ops : Forall large_op_ok ops -> forall s held, large_rep s held -> forall held' s', large_script ops held s = Some (held', s') ->
  large_rep s' held' /\ (length held' <= length held + length ops)%nat.
Proof.
  induction 1 as [|op ops Hop Hops IH]; intros s held HR held' s' E; cbn [large_script] in E.
  - injection E as <- <-. split; [done|]. simpl. lia.
  - apply bind_inv in E as (held1 & s1 & E1 & E2). pose proof (large_exec_spec s held op HR Hop) as Hx. rw E1 in Hx.
    destruct (IH s1 held1 Hx held' s' E2) as [HR' Hl]. split; [done|]. assert (length held1 <= S (length held))%nat; [|simpl; lia].
    destruct op as [size|i]; cbn [large_exec] in E1.
    + apply bind_inv in E1 as (r & s2 & _ & E3). injection E3 as <- <-. done.
    + destruct (held !! i) as [[p n]|] eqn:Hi; [|injection E1 as <- <-; lia]. apply bind_inv in E1 as (r & s2 & _ & E3). injection E3 as <- <-.
      pose proof (length_delete held i ltac:(by eexists)). lia.
Qed.

Lemma held_total s lc held live : Forall2 (held_cell s lc) held live ->
  footprints (cells s) live = total ((fun h => pages_of h.2) <$> held) /\ 0 <= total ((fun h => pages_of h.2) <$> held) <= 2 ^ 20 * Z.of_nat (length held).
Proof.
  induction 1 as [|h x held live [_ Hf Hr] HF [IH1 IH2]]; [done|]. unfold footprints, total in *. cbn [fmap list_fmap] in *. simpl. rw Hf. simpl length. lia.
Qed.
End specs.

(** ** The claim *)

(** C19. After any sequence of large allocations and frees, [get_footprint] is the
    sum of the pages of the objects that the program has, and an operation fails
    only when the kernel has refused a chunk. *)
Theorem large_footprint_sum (K : Kernel) (KO : KernelOk K) (T : Scheduler) (TO : SchedulerOk T) (o : os K) (t : sstate) ops held (s : large K T) :
  Forall large_op_ok ops -> Z.of_nat (length ops) < 2 ^ 42 -> large_script ops [] (no_large o t) = Some (held, s) ->
  get_footprint (l_footprint s) = total ((fun h => pages_of h.2) <$> held) /\
  forall op, large_op_ok op -> large_exec op held s = None -> refuses 1 (l_chunks s).
Proof.
  intros Hops Hlen E. destruct (large_script_spec ops Hops _ _ (large_rep_init o t) held s E) as [HR Hl]. simpl in Hl. split.
  - destruct HR as [(fl & lc & live & fls & HI & HF)]. destruct (held_total s lc held live HF) as [Ht Hr]. rw -Ht.
    apply get_footprint_spec; [apply (li_count _ _ _ _ _ _ HI)|]. rw Ht. lia.
  - intros op Hop Ex. pose proof (large_exec_spec s held op HR Hop) as Hx. by rw Ex in Hx.
Qed.

Definition sample_large_script : list large_op := [LMalloc 20000; LMalloc 16384; LMalloc 1000000; LFree 1; LMalloc 15000].

Lemma large_footprint_sum_witness : exists held s,
  large_script sample_large_script [] (no_large (T := round_robin) (simple_os 1) (0 : @sstate round_robin)) = Some (held, s) /\
  get_footprint (l_footprint s) = 20480 + 1003520 + 16384.
Proof.
  assert ((fun r => total ((fun h => pages_of h.2) <$> r.1)) <$> large_script sample_large_script [] (no_large (T := round_robin) (simple_os 1) (0 : @sstate round_robin)) =
    Some (20480 + 1003520 + 16384)) as Ht by (vm_compute; reflexivity).
  destruct (large_script sample_large_script [] (no_large (T := round_robin) (simple_os 1) (0 : @sstate round_robin))) as [[held s]|] eqn:E; [|done].
  exists held, s. split; [done|].
  destruct (large_footprint_sum (simple_kernel 1) (simple_kernel_ok 1) round_robin round_robin_ok (simple_os 1) 0 sample_large_script held s) as [-> _];
    [by repeat constructor|done|done|].
  by injection Ht.
Defined.
