(* ===== verification/Cache.v ===== *)
(** * src/memory/cache.cpp: caches of free objects.

    A thread, a processor and the whole process keep lists of objects per bin, so
    that most calls do not reach the bins themselves.  The lists are linked
    through the objects.  What the caches need of the bins is the class
    [Allocator]. *)
From stdpp Require Import functions.
From S2P Require Import Prelude Words StateMonad Sizeclass Huge.
#[local] Open Scope Z_scope.

(** The functions that the caches call. *)
Class Allocator (S : Type) : Type := {
  a_small_malloc : Z -> M S Z;
  a_large_malloc : Z -> M S Z;
  a_small_free : Z -> M S unit;
  a_large_free : Z -> M S unit;
  a_sched_getcpu : M S Z;
}.

Record cached_objects : Set := Co { bytecount : Z; head : Z; tail : Z }.

Definition empty_cached_objects : cached_objects := Co 0 0 0.

(** A pointer to a [cached_objects]: an element of [cache_for_thread.cb[bin].co],
    of [cache_for_cpu[p].cb[bin].co], or of [global_cache.gb[bin].co]. *)
Inductive co_ref : Set :=
| Thread (bin j : Z)
| Cpu (p bin j : Z)
| Global (bin j : Z).

#[export] Instance co_ref_eq_dec : EqDecision co_ref.
Proof. solve_decision. Defined.

Definition global_cache_depth : Z := 8.
Definition per_cpu_cache_bytecount_limit : Z := 1024 * 1024.
Definition thread_cache_bytecount_limit : Z := 2 * 4096.
Definition cpulimit : Z := 128.

Section code.
Context {S : Type} {A : Allocator S}.

(** [nexts] has the first word of the objects, by their addresses. *)
Record cache : Type := Cache {
  under : S;
  co : co_ref -> cached_objects;
  n_nonempty_caches : Z -> Z;
  nexts : gmap Z Z;
  cached_cpu : Z;
  cached_cpu_count : Z;
}.

Definition on_under {R} (m : M S R) : M cache R :=
  zoom under (fun u s => Cache u (co s) (n_nonempty_caches s) (nexts s) (cached_cpu s) (cached_cpu_count s)) m.

Definition get_co (r : co_ref) : M cache cached_objects := gets (fun s => co s r).
Definition set_co (r : co_ref) (c : cached_objects) : M cache unit :=
  modify (fun s => Cache (under s) (<[r := c]> (co s)) (n_nonempty_caches s) (nexts s) (cached_cpu s) (cached_cpu_count s)).
Definition get_obj_next (p : Z) : M cache Z := gets (fun s => entry (nexts s) p).
Definition set_obj_next (p v : Z) : M cache unit :=
  modify (fun s => Cache (under s) (co s) (n_nonempty_caches s) (<[p := v]> (nexts s)) (cached_cpu s) (cached_cpu_count s)).
Definition get_nonempty (bin : Z) : M cache Z := gets (fun s => n_nonempty_caches s bin).
Definition set_nonempty (bin n : Z) : M cache unit :=
  modify (fun s => Cache (under s) (co s) (<[bin := uwrap 8 n]> (n_nonempty_caches s)) (nexts s) (cached_cpu s) (cached_cpu_count s)).

Definition getcpu : M cache Z :=
  count ← gets cached_cpu_count;
  modify (fun s => Cache (under s) (co s) (n_nonempty_caches s) (nexts s) (cached_cpu s) (uadd 32 count 1));;
  (if count mod 16 =? 0 then
     cpu ← on_under a_sched_getcpu;
     modify (fun s => Cache (under s) (co s) (n_nonempty_caches s) (nexts s) (uwrap 32 cpu) (cached_cpu_count s))
   else mret tt);;
  gets cached_cpu.

(** ** Taking objects out *)

Definition try_get_cached (r : co_ref) (siz : Z) : M cache Z :=
  c ← get_co r;
  if head c =? 0 then mret 0
  else
    n ← get_obj_next (head c);
    set_co r (Co (uwrap 64 (bytecount c - siz)) n (tail c));;
    mret (head c).

(** A [CacheForBin] is given by the places of its two elements. *)
Definition try_get_cached_both (cb : Z -> co_ref) (siz : Z) : M cache Z :=
  r ← try_get_cached (cb 0) siz;
  if negb (r =? 0) then mret r else try_get_cached (cb 1) siz.

Definition do_remove_a_cache_from_cpu (cc : Z -> co_ref) : M cache cached_objects :=
  c0 ← get_co (cc 0);
  c1 ← get_co (cc 1);
  if negb (head c0 =? 0) then set_co (cc 0) empty_cached_objects;; mret c0
  else if negb (head c1 =? 0) then set_co (cc 1) empty_cached_objects;; mret c1
  else mret empty_cached_objects.

Definition append_to (r : co_ref) (c : cached_objects) : M cache unit :=
  c0 ← get_co r;
  set_obj_next (tail c0) (head c);;
  set_co r (Co (uadd 64 (bytecount c0) (bytecount c)) (head c0) (tail c)).

Definition do_add_a_cache_to_cpu (cc : Z -> co_ref) (c : cached_objects) : M cache unit :=
  c0 ← get_co (cc 0);
  c1 ← get_co (cc 1);
  if bytecount c0 =? 0 then set_co (cc 0) c
  else if bytecount c1 =? 0 then set_co (cc 1) c
  else if bytecount c0 <=? bytecount c1 then append_to (cc 0) c
  else append_to (cc 1) c.

Definition collect_body (siz : Z) (st : Z * Z) : M cache ((Z * Z) + (Z * Z)) :=
  let '(ptr, bytes) := st in
  if bytes <? thread_cache_bytecount_limit then
    bassert (negb (ptr =? 0));;
    n ← get_obj_next ptr;
    mret (inl (n, uadd 64 bytes siz))
  else mret (inr (ptr, bytes)).

(** An object has at least 8 bytes. *)
Definition collect_fuel : nat := Z.to_nat (thread_cache_bytecount_limit / 8).

(** What is left of [objects], and [first_n_objects]. *)
Definition collect_objects_for_thread_cache (objects : cached_objects) (siz : Z) :
    M cache (cached_objects * cached_objects) :=
  if bytecount objects <? thread_cache_bytecount_limit then mret (empty_cached_objects, objects)
  else
    '(ptr, bytes) ← loop collect_fuel (collect_body siz) (head objects, siz);
    bassert (negb (ptr =? 0));;
    n ← get_obj_next ptr;
    set_obj_next ptr 0;;
    mret (Co (uwrap 64 (bytecount objects - bytes)) n (if n =? 0 then 0 else tail objects),
          Co bytes (head objects) ptr).

Definition fetch_one (r : co_ref) (siz : Z) : M cache Z :=
  c ← get_co r;
  if head c =? 0 then mret 0
  else
    n ← get_obj_next (head c);
    set_co r (Co (uwrap 64 (bytecount c - siz)) n (if n =? 0 then 0 else tail c));;
    mret (head c).

Definition do_fetch_one_from_cpu (cc : Z -> co_ref) (siz : Z) : M cache Z :=
  r ← fetch_one (cc 0) siz;
  if negb (r =? 0) then mret r else fetch_one (cc 1) siz.

Variable use_threadcache : bool.

Definition try_get_cpu_cached (processor bin siz : Z) : M cache Z :=
  let tc := Thread bin in
  let cc := Cpu processor bin in
  if use_threadcache then
    my_co ← do_remove_a_cache_from_cpu cc;
    let result := head my_co in
    if result =? 0 then mret 0
    else
      n ← get_obj_next result;
      '(my_co, first_n_objects) ← collect_objects_for_thread_cache (Co (uwrap 64 (bytecount my_co - siz)) n (tail my_co)) siz;
      t0 ← get_co (tc 0);
      (if head t0 =? 0 then set_co (tc 0) first_n_objects
       else
         t1 ← get_co (tc 1);
         bassert (head t1 =? 0);;
         set_co (tc 1) first_n_objects);;
      (if negb (head my_co =? 0) then do_add_a_cache_to_cpu cc my_co else mret tt);;
      mret result
  else do_fetch_one_from_cpu cc siz.

Definition do_get_global_cached (cb : Z -> co_ref) (bin siz : Z) : M cache Z :=
  n ← get_nonempty bin;
  if 0 <? n then
    g ← get_co (Global bin (n - 1));
    let result := head g in
    bassert (negb (result =? 0));;
    result_next ← get_obj_next result;
    (if negb (result_next =? 0) then
       c0 ← get_co (cb 0);
       c1 ← get_co (cb 1);
       let r := if bytecount c0 <? bytecount c1 then cb 0 else cb 1 in
       c ← get_co r;
       (if head c =? 0 then mret tt else set_obj_next (tail g) (head c));;
       set_co r (Co (uwrap 64 (bytecount g - siz)) result_next (if head c =? 0 then tail g else tail c))
     else mret tt);;
    set_nonempty bin (n - 1);;
    mret result
  else mret 0.

Definition cached_malloc (bin : Z) : M cache Z :=
  bassert (bin <? first_huge_bin_number);;
  siz ← the (bin_2_size bin);
  result ← (if use_threadcache then try_get_cached_both (Thread bin) siz else mret 0);
  if negb (result =? 0) then mret result
  else
    cpu ← getcpu;
    let p := cpu mod cpulimit in
    result ← try_get_cpu_cached p bin siz;
    if negb (result =? 0) then mret result
    else
      result ← do_get_global_cached (Cpu p bin) bin siz;
      if negb (result =? 0) then mret result
      else if bin <? first_large_bin_number then on_under (a_small_malloc bin)
      else on_under (a_large_malloc siz).

(** ** Putting objects in *)

Definition try_put_cached (obj : Z) (r : co_ref) (size cache_size : Z) : M cache bool :=
  c ← get_co r;
  let bc := bytecount c in
  if bc <? cache_size then
    set_obj_next obj (head c);;
    (if head c =? 0 then set_co r (Co size obj obj)
     else set_co r (Co (uadd 64 bc size) obj (tail c)));;
    mret true
  else mret false.

Definition try_put_cached_both (obj : Z) (cb : Z -> co_ref) (size cache_size : Z) : M cache bool :=
  b ← try_put_cached obj (cb 0) size cache_size;
  if b : bool then mret true else try_put_cached obj (cb 1) size cache_size.

Definition try_put_into_cpu_cache_part (obj : Z) (tco cco : co_ref) (siz : Z) : M cache bool :=
  c ← get_co cco;
  if bytecount c <? per_cpu_cache_bytecount_limit then
    t ← get_co tco;
    set_obj_next obj (head t);;
    bassert (negb (tail t =? 0));;
    set_obj_next (tail t) (head c);;
    set_co cco (Co (uadd 64 (uadd 64 (bytecount c) (bytecount t)) siz) obj (if head c =? 0 then tail t else tail c));;
    set_co tco empty_cached_objects;;
    mret true
  else mret false.

Definition do_put_into_cpu_cache (obj : Z) (tco : co_ref) (cc : Z -> co_ref) (siz : Z) : M cache bool :=
  b ← try_put_into_cpu_cache_part obj tco (cc 0) siz;
  if b : bool then mret true else try_put_into_cpu_cache_part obj tco (cc 1) siz.

Definition put_one (obj : Z) (r : co_ref) (siz : Z) : M cache bool :=
  c ← get_co r;
  if bytecount c <? per_cpu_cache_bytecount_limit then
    set_co r (Co (uadd 64 (bytecount c) siz) obj (if head c =? 0 then obj else tail c));;
    set_obj_next obj (head c);;
    mret true
  else mret false.

Definition do_put_one_into_cpu_cache (obj : Z) (cc : Z -> co_ref) (siz : Z) : M cache bool :=
  b ← put_one obj (cc 0) siz;
  if b : bool then mret true else put_one obj (cc 1) siz.

Definition try_put_into_cpu_cache (obj processor bin siz : Z) : M cache bool :=
  if use_threadcache then do_put_into_cpu_cache obj (Thread bin 0) (Cpu processor bin) siz
  else do_put_one_into_cpu_cache obj (Cpu processor bin) siz.

Definition do_put_into_global_cache (obj : Z) (cb : Z -> co_ref) (bin siz : Z) : M cache bool :=
  gnum ← get_nonempty bin;
  c ← get_co (cb 0);
  if (gnum <? global_cache_depth) && (per_cpu_cache_bytecount_limit <=? bytecount c) then
    set_obj_next obj (head c);;
    set_co (Global bin gnum) (Co (uadd 64 (bytecount c) siz) obj (tail c));;
    set_nonempty bin (gnum + 1);;
    set_co (cb 0) empty_cached_objects;;
    mret true
  else mret false.

Definition cached_free (ptr bin : Z) : M cache unit :=
  bassert (bin <? first_huge_bin_number);;
  siz ← the (bin_2_size bin);
  put ← (if use_threadcache then try_put_cached_both ptr (Thread bin) siz thread_cache_bytecount_limit else mret false);
  if put : bool then mret tt
  else
    cpu ← getcpu;
    let p := cpu mod cpulimit in
    put ← try_put_into_cpu_cache ptr p bin siz;
    if put : bool then mret tt
    else
      put ← do_put_into_global_cache ptr (Cpu p bin) bin siz;
      if put : bool then mret tt
      else if bin <? first_large_bin_number then on_under (a_small_free ptr)
      else on_under (a_large_free ptr).

(** ** The end of a thread *)

Definition destroy_body (bin head : Z) : M cache (Z + unit) :=
  if head =? 0 then mret (inr tt)
  else
    n ← get_obj_next head;
    (if bin <? first_large_bin_number then on_under (a_small_free head) else on_under (a_large_free head));;
    mret (inl n).

(** A list of a thread has less than twice [thread_cache_bytecount_limit] / 8 objects. *)
Definition destroy_fuel : nat := 2 * collect_fuel.

Definition cache_destructor : M cache unit :=
  foreach (seqZ 0 first_huge_bin_number) (fun bin =>
    foreach [0; 1] (fun j =>
      c ← get_co (Thread bin j);
      loop destroy_fuel (destroy_body bin) (head c))).
End code.
Arguments cache : clear implicits.

(** ** What the bins promise *)

Definition objects : Type := Z -> Z -> Prop.

(** [U b a] says that the object of bin [b] at [a] is in use. *)
Definition added (U U' : objects) (b a : Z) : Prop :=
  ~ U b a /\ forall b' a', U' b' a' <-> U b' a' \/ b' = b /\ a' = a.
Definition removed (U U' : objects) (b a : Z) : Prop :=
  forall b' a', U' b' a' <-> U b' a' /\ ~ (b' = b /\ a' = a).
Definition same_objects (U U' : objects) : Prop := forall b a, U' b a <-> U b a.

Class AllocatorOk {S} (A : Allocator S) : Type := {
  holds : S -> objects -> Prop;
  out_of_memory : S -> Prop;
  holds_same s U U' : holds s U -> same_objects U U' -> holds s U';
  holds_positive s U b a : holds s U -> U b a -> 0 < a;
  holds_one_bin s U b b' a : holds s U -> U b a -> U b' a -> b = b';
  a_small_malloc_ok s U b : holds s U -> 0 <= b < first_large_bin_number ->
    exists r s' U', a_small_malloc b s = Some (r, s') /\ holds s' U' /\
      ((r = 0 /\ out_of_memory s /\ same_objects U U') \/ (0 < r /\ added U U' b r));
  a_large_malloc_ok s U b siz : holds s U -> first_large_bin_number <= b < first_huge_bin_number -> bin_2_size b = Some siz ->
    (a_large_malloc siz s = None /\ out_of_memory s) \/
    exists r s' U', a_large_malloc siz s = Some (r, s') /\ holds s' U' /\ 0 < r /\ added U U' b r;
  a_small_free_ok s U b a : holds s U -> 0 <= b < first_large_bin_number -> U b a ->
    exists s' U', a_small_free a s = Some (tt, s') /\ holds s' U' /\ removed U U' b a;
  a_large_free_ok s U b a : holds s U -> first_large_bin_number <= b < first_huge_bin_number -> U b a ->
    exists s' U', a_large_free a s = Some (tt, s') /\ holds s' U' /\ removed U U' b a;
  a_sched_getcpu_ok s U : holds s U -> exists c s', a_sched_getcpu s = Some (c, s') /\ holds s' U /\
    (out_of_memory s' -> out_of_memory s);
}.

(** ** The invariant *)

Definition bin_of (r : co_ref) : Z := match r with Thread b _ => b | Cpu _ b _ => b | Global b _ => b end.

(** The bytes that a list can have. *)
Definition co_limit (r : co_ref) (siz : Z) : Z :=
  match r with
  | Thread _ _ => thread_cache_bytecount_limit + siz
  | Cpu _ _ _ => per_cpu_cache_bytecount_limit + thread_cache_bytecount_limit + 2 * siz
  | Global _ _ => per_cpu_cache_bytecount_limit + thread_cache_bytecount_limit + 3 * siz
  end.

(** The list [l] of objects of [siz] bytes; the tail counts when there is one. *)
Record co_ok (t : gmap Z Z) (siz : Z) (c : cached_objects) (l : list Z) : Prop := {
  co_list : threaded t (head c) l;
  co_tail : l <> [] -> last l = Some (tail c);
  co_bytes : bytecount c = siz * Z.of_nat (length l);
}.

Section invariant.
Context {S : Type} {A : Allocator S} {AO : AllocatorOk A}.
Implicit Types (s : cache S) (U : objects) (L : co_ref -> list Z).

(** The global lists above [n_nonempty_caches] have no meaning. *)
Definition active (n : Z -> Z) (r : co_ref) : Prop :=
  match r with Global b j => j < n b | _ => True end.

#[export] Instance active_dec n r : Decision (active n r).
Proof. destruct r; simpl; apply _. Defined.

Record cache_inv s U L : Prop := {
  ci_under : holds (under s) U;
  ci_depth b : 0 <= n_nonempty_caches s b <= global_cache_depth;
  ci_ok r siz : active (n_nonempty_caches s) r -> bin_2_size (bin_of r) = Some siz -> co_ok (nexts s) siz (co s r) (L r);
  ci_limit r siz : bin_2_size (bin_of r) = Some siz -> siz * Z.of_nat (length (L r)) <= co_limit r siz;
  ci_inactive r : ~ active (n_nonempty_caches s) r -> L r = [];
  ci_full b j : 0 <= j < n_nonempty_caches s b -> L (Global b j) <> [];
  ci_in_use r a : a ∈ L r -> U (bin_of r) a;
  ci_nodup r : NoDup (L r);
  ci_disjoint r r' a : a ∈ L r -> a ∈ L r' -> r = r';
}.

(** The objects in the caches. *)
Definition cached L (b a : Z) : Prop := exists r, bin_of r = b /\ a ∈ L r.

(** The objects in the hands of the program. *)
Definition owned U L : objects := fun b a => U b a /\ ~ cached L b a.

Lemma threaded_ext t t' hd l : (forall x, x ∈ l -> entry t' x = entry t x) -> threaded t hd l -> threaded t' hd l.
Proof.
  revert hd. induction l as [|x l IH]; intros hd He; [done|]. simpl. intros (-> & Hx & Hl). split_and!; [done..|].
  rewrite -> He by left. apply IH; [|done]. intros y Hy. apply He. by right.
Qed.

Lemma co_ok_ext t t' siz c l : (forall x, x ∈ l -> entry t' x = entry t x) -> co_ok t siz c l -> co_ok t' siz c l.
Proof. intros He [H1 H2 H3]. split; [by apply (threaded_ext t)|done|done]. Qed.

Lemma join_refs_nodup L (R : list co_ref) : (forall r, NoDup (L r)) -> (forall r r' a, a ∈ L r -> a ∈ L r' -> r = r') ->
  NoDup R -> NoDup (R ≫= L).
Proof.
  intros Hn Hd. induction 1 as [|r R Hr HR IH]; [constructor|]. simpl. apply NoDup_app. split_and!; [done| |done].
  intros a Ha (r' & Ha' & Hr')%list_elem_of_bind. assert (r = r') as -> by by eapply Hd. done.
Qed.

Lemma join_refs_inv L (R : list co_ref) r r' a : NoDup (R ≫= L) -> r ∈ R -> r' ∈ R -> a ∈ L r -> a ∈ L r' -> NoDup (L r) /\ r = r'.
Proof.
  induction R as [|r0 R IH]; [by intros _ ?%elem_of_nil|]. simpl. intros (Hn & Hd & HR)%NoDup_app Hr Hr' Ha Ha'.
  apply elem_of_cons in Hr as [->|Hr], Hr' as [->|Hr'].
  - done.
  - exfalso. apply (Hd a Ha). apply list_elem_of_bind. by exists r'.
  - exfalso. apply (Hd a Ha'). apply list_elem_of_bind. by exists r.
  - by apply IH.
Qed.

(** An operation rearranges the lists [R] of one bin, takes [out] out of them and
    puts [inn] in. *)
Record moves s s' U' L L' (R : list co_ref) (b siz : Z) (inn out : list Z) : Prop := {
  mv_refs : NoDup R;
  mv_bin r : r ∈ R -> bin_of r = b;
  mv_size : bin_2_size b = Some siz;
  mv_depth b' : 0 <= n_nonempty_caches s' b' <= global_cache_depth;
  mv_others r : r ∉ R -> L' r = L r /\ co s' r = co s r /\ (active (n_nonempty_caches s') r <-> active (n_nonempty_caches s) r);
  mv_nexts r a : r ∉ R -> a ∈ L r -> entry (nexts s') a = entry (nexts s) a;
  mv_ok r : r ∈ R -> active (n_nonempty_caches s') r -> co_ok (nexts s') siz (co s' r) (L' r);
  mv_limit r : r ∈ R -> siz * Z.of_nat (length (L' r)) <= co_limit r siz;
  mv_inactive r : r ∈ R -> ~ active (n_nonempty_caches s') r -> L' r = [];
  mv_full j : 0 <= j < n_nonempty_caches s' b -> Global b j ∈ R -> L' (Global b j) <> [];
  mv_perm : out ++ (R ≫= L') ≡ₚ inn ++ (R ≫= L);
  mv_fresh a : a ∈ inn -> U' b a /\ forall r, a ∉ L r;
  mv_inn : NoDup inn;
}.

Lemma cache_step s s' U U' L L' R b siz inn out :
  cache_inv s U L -> moves s s' U' L L' R b siz inn out -> holds (under s') U' -> (forall r a, a ∈ L r -> U' (bin_of r) a) ->
  cache_inv s' U' L' /\
  forall b' a, cached L' b' a <-> (cached L b' a \/ b' = b /\ a ∈ inn) /\ ~ (b' = b /\ a ∈ out).
Proof.
  intros HI [HR Hbin Hsz Hdep Hoth Hnx Hok Hlim Hina Hfull Hperm Hfr Hinn] HU HL.
  assert (NoDup (inn ++ (R ≫= L))) as Hnd.
  { apply NoDup_app. split_and!; [done| |by apply join_refs_nodup; [apply HI|apply HI|]].
    intros a Ha (r & Har & _)%list_elem_of_bind. by destruct (Hfr a Ha) as [_ Hn]; apply (Hn r). }
  pose proof Hnd as Hnd'. rw -Hperm in Hnd'. apply NoDup_app in Hnd' as (_ & Hdj & HndL').
  assert (forall r a, r ∈ R -> a ∈ L' r -> a ∈ inn \/ exists r', r' ∈ R /\ a ∈ L r') as Hin.
  { intros r a Hr Ha. assert (a ∈ out ++ (R ≫= L')) as Hx by (apply elem_of_app; right; apply list_elem_of_bind; by exists r).
    rw Hperm in Hx. apply elem_of_app in Hx as [?|(r' & ? & ?)%list_elem_of_bind]; [by left|right; by exists r']. }
  assert (forall r r' a, r ∈ R -> r' ∉ R -> a ∈ L' r -> a ∉ L r') as Hsep.
  { intros r r' a Hr Hr' Ha Ha'. destruct (Hin r a Hr Ha) as [Hi|(r'' & Hr'' & Ha'')].
    - by destruct (Hfr a Hi) as [_ Hn]; apply (Hn r').
    - apply Hr'. by rewrite -> (ci_disjoint _ _ _ HI r' r'' a). }
  split; [split|].
  - done.
  - done.
  - intros r sz Hact Hs. destruct (decide (r ∈ R)) as [Hr|Hr].
    + rw Hbin // Hsz in Hs. simplify_eq. by apply Hok.
    + destruct (Hoth r Hr) as (-> & -> & Ha). apply (co_ok_ext (nexts s)); [|apply (ci_ok _ _ _ HI); [by apply Ha|done]].
      intros a. by apply Hnx.
  - intros r sz Hs. destruct (decide (r ∈ R)) as [Hr|Hr].
    + rw Hbin // Hsz in Hs. simplify_eq. by apply Hlim.
    + destruct (Hoth r Hr) as (-> & _). by apply HI.
  - intros r Hna. destruct (decide (r ∈ R)) as [Hr|Hr]; [by apply Hina|]. destruct (Hoth r Hr) as (-> & _ & Ha). apply HI. by rw -Ha.
  - intros b' j Hj. destruct (decide (Global b' j ∈ R)) as [Hr|Hr].
    + pose proof (Hbin _ Hr) as E. simpl in E. subst b'. by apply Hfull.
    + destruct (Hoth _ Hr) as (-> & _ & Ha). apply HI. simpl in Ha. split; [lia|]. apply Ha. lia.
  - intros r a Ha. destruct (decide (r ∈ R)) as [Hr|Hr]; [|destruct (Hoth r Hr) as (E & _); rw E in Ha; by apply HL].
    rw Hbin //. destruct (Hin r a Hr Ha) as [Hi|(r' & Hr' & Ha')]; [by apply Hfr|]. rewrite <- (Hbin r' Hr'). by apply HL.
  - intros r. destruct (decide (r ∈ R)) as [Hr|Hr]; [|destruct (Hoth r Hr) as (-> & _); apply HI].
    destruct (L' r) as [|a l] eqn:E; [constructor|]. rw -E. apply (join_refs_inv L' R r r a); (done || by rw E; left).
  - intros r r' a Ha Ha'. destruct (decide (r ∈ R)) as [Hr|Hr], (decide (r' ∈ R)) as [Hr'|Hr'].
    + by apply (join_refs_inv L' R r r' a).
    + destruct (Hoth r' Hr') as (E & _). rw E in Ha'. exfalso. by apply (Hsep r r' a).
    + destruct (Hoth r Hr) as (E & _). rw E in Ha. exfalso. by apply (Hsep r' r a).
    + destruct (Hoth r Hr) as (E & _). destruct (Hoth r' Hr') as (E' & _). rw E in Ha. rw E' in Ha'. by apply (ci_disjoint _ _ _ HI r r' a).
  - intros b' a. split.
    + intros (r & <- & Ha). destruct (decide (r ∈ R)) as [Hr|Hr].
      * split; [|intros [_ Ho]; apply (Hdj a Ho), list_elem_of_bind; by exists r].
        destruct (Hin r a Hr Ha) as [Hi|(r' & Hr' & Ha')]; [right; by rw Hbin|left; exists r'; by rw !Hbin].
      * destruct (Hoth r Hr) as (E & _). rw E in Ha. split; [left; by exists r|]. intros [Eb Ho].
        assert (a ∈ inn ++ (R ≫= L)) as Hx by (rw -Hperm; apply elem_of_app; by left).
        apply elem_of_app in Hx as [Hi|(r' & Ha' & Hr')%list_elem_of_bind]; [by destruct (Hfr a Hi) as [_ Hn]; apply (Hn r)|].
        apply Hr. by rewrite -> (ci_disjoint _ _ _ HI r r' a).
    + intros [Hc Hno]. assert ((exists r, (r ∉ R) /\ bin_of r = b' /\ a ∈ L r) \/ (b' = b /\ a ∈ inn ++ (R ≫= L))) as [(r & Hr & <- & Ha)|[-> Hx]].
      { destruct Hc as [(r & <- & Ha)|[-> Hi]]; [|right; split; [done|apply elem_of_app; by left]].
        destruct (decide (r ∈ R)) as [Hr|Hr]; [right; split; [by apply Hbin|]|left; by exists r].
        apply elem_of_app. right. apply list_elem_of_bind. by exists r. }
      * exists r. destruct (Hoth r Hr) as (-> & _). done.
      * rw -Hperm in Hx. apply elem_of_app in Hx as [?|(r & Ha & Hr)%list_elem_of_bind]; [by destruct Hno|]. exists r. split; [by apply Hbin|done].
Qed.
End invariant.

Definition no_cache {S} (u : S) : cache S := Cache u (fun _ => empty_cached_objects) (fun _ => 0) ∅ 0 0.
