(* ===== verification/CacheSpec.v ===== *)
(** * src/memory/cache.cpp: the caches lose no object and hand none out twice. *)
From stdpp Require Import functions.
From S2P Require Import Prelude Words StateMonad Sizeclass Huge Cache.
#[local] Open Scope Z_scope.

Lemma cached_size b siz : 0 <= b < first_huge_bin_number -> bin_2_size b = Some siz -> 8 <= siz <= 2 ^ 20.
Proof.
  intros Hb Hs. destruct (static_bin_some b) as [info Hi]; [unfold first_huge_bin_number, bin_number_limit in *; lia|].
  rw (bin_2_size_static b info Hi) in Hs. simplify_eq.
  by_table 0 47 (fun (_ : Z) (i : static_bin_s) => (8 <=? object_size i) && (object_size i <=? 2 ^ 20)). done.
Qed.

(** Lists that are put one after the other. *)
Lemma threaded_append t hd1 l1 hd2 l2 x : threaded t hd1 l1 -> threaded t hd2 l2 -> last l1 = Some x -> NoDup (l1 ++ l2) ->
  threaded (<[x := hd2]> t) hd1 (l1 ++ l2).
Proof.
  revert hd1. induction l1 as [|y l1 IH]; intros hd1 H1 H2 Hx Hnd; [done|]. simpl in *. destruct H1 as (-> & Hy & H1).
  apply NoDup_cons in Hnd as [Hny Hnd]. split_and!; [done..|]. destruct l1 as [|z l1].
  - simpl in Hx. simplify_eq. rw entry_insert. simpl in Hny. by apply threaded_insert.
  - rw last_cons in Hx. assert (last (z :: l1) = Some x) as Hx' by (destruct (last (z :: l1)) eqn:E; [done|by apply last_None in E]).
    rewrite -> entry_insert_ne; [by apply IH|]. intros ->. apply Hny. apply elem_of_app. left.
    by apply last_Some_elem_of.
Qed.

(** Lists that are cut. *)
Lemma threaded_cut t hd l1 x l2 : threaded t hd (l1 ++ x :: l2) -> NoDup (l1 ++ x :: l2) ->
  threaded t (entry t x) l2 /\ threaded (<[x := 0]> t) hd (l1 ++ [x]) /\ threaded (<[x := 0]> t) (entry t x) l2.
Proof.
  revert hd. induction l1 as [|y l1 IH]; intros hd Ht Hnd; simpl in *.
  - destruct Ht as (-> & Hx & Ht). apply NoDup_cons in Hnd as [Hn _]. split_and!; [done..|by rw entry_insert|by apply threaded_insert].
  - destruct Ht as (-> & Hy & Ht). apply NoDup_cons in Hnd as [Hn Hnd]. destruct (IH _ Ht Hnd) as (H1 & H2 & H3).
    split_and!; [done..| |done]. rewrite -> entry_insert_ne; [done|]. intros ->. apply Hn, elem_of_app. right. left.
Qed.

Section specs.
Context {S : Type} {A : Allocator S} {AO : AllocatorOk A}.
Implicit Types (s : cache S) (U : objects) (L : co_ref -> list Z).

Lemma cache_length s U L r siz : cache_inv s U L -> 0 <= bin_of r < first_huge_bin_number -> bin_2_size (bin_of r) = Some siz ->
  0 <= siz * Z.of_nat (length (L r)) < 2 ^ 32.
Proof.
  intros HI Hb Hs. pose proof (cached_size _ _ Hb Hs). pose proof (ci_limit _ _ _ HI r siz Hs) as Hl.
  split; [apply Z.mul_nonneg_nonneg; lia|].
  unfold co_limit, thread_cache_bytecount_limit, per_cpu_cache_bytecount_limit in Hl. destruct r; lia.
Qed.

(** The state after a list was replaced. *)
Definition with_co s (r : co_ref) (c : cached_objects) : cache S :=
  Cache (under s) (<[r := c]> (co s)) (n_nonempty_caches s) (nexts s) (cached_cpu s) (cached_cpu_count s).

Lemma set_co_with s r c : set_co r c s = Some (tt, with_co s r c).
Proof. done. Qed.

(** One list is replaced and the links of others stay. *)
Lemma one_list s s' U L r b siz c l inn out :
  cache_inv s U L -> active (n_nonempty_caches s) r -> bin_of r = b -> bin_2_size b = Some siz ->
  under s' = under s -> co s' = <[r := c]> (co s) -> n_nonempty_caches s' = n_nonempty_caches s ->
  (forall r' a, r' <> r -> a ∈ L r' -> entry (nexts s') a = entry (nexts s) a) ->
  co_ok (nexts s') siz c l -> siz * Z.of_nat (length l) <= co_limit r siz -> (forall b j, r = Global b j -> l <> []) ->
  out ++ l ≡ₚ inn ++ L r -> NoDup inn -> (forall a, a ∈ inn -> U b a /\ forall r, a ∉ L r) ->
  cache_inv s' U (<[r := l]> L) /\
  forall b' a, cached (<[r := l]> L) b' a <-> (cached L b' a \/ b' = b /\ a ∈ inn) /\ ~ (b' = b /\ a ∈ out).
Proof.
  intros HI Ha Hb Hs Eu Ec En Hnx Hok Hlim Hg Hp Hinn Hfr.
  apply (cache_step s s' U U L (<[r := l]> L) [r] b siz inn out); [done| |rw Eu; apply HI|apply HI].
  split; [apply NoDup_singleton| |done|rw En; apply HI| | | | | | | |done|done].
  - by intros r' ->%list_elem_of_singleton.
  - intros r' Hr'. apply not_elem_of_cons in Hr' as [Hne _]. by rw En Ec !fn_lookup_insert_ne.
  - intros r' a Hr'. apply not_elem_of_cons in Hr' as [Hne _]. by apply Hnx.
  - intros r' ->%list_elem_of_singleton _. by rw Ec !fn_lookup_insert.
  - intros r' ->%list_elem_of_singleton. by rw fn_lookup_insert.
  - intros r' ->%list_elem_of_singleton Hna. rw En in Hna. done.
  - intros j _ E%list_elem_of_singleton. rw -E fn_lookup_insert. by eapply Hg.
  - simpl. by rw fn_lookup_insert !app_nil_r.
Qed.

(** Two lists are replaced. *)
Lemma two_lists s s' U L r1 r2 b siz c1 c2 l1 l2 inn out :
  cache_inv s U L -> r1 <> r2 -> bin_of r1 = b -> bin_of r2 = b -> bin_2_size b = Some siz ->
  under s' = under s -> (forall r, r <> r1 -> r <> r2 -> co s' r = co s r) -> co s' r1 = c1 -> co s' r2 = c2 ->
  (forall b', 0 <= n_nonempty_caches s' b' <= global_cache_depth) ->
  (forall r, r <> r1 -> r <> r2 -> active (n_nonempty_caches s') r <-> active (n_nonempty_caches s) r) ->
  (forall r' a, r' <> r1 -> r' <> r2 -> a ∈ L r' -> entry (nexts s') a = entry (nexts s) a) ->
  (active (n_nonempty_caches s') r1 -> co_ok (nexts s') siz c1 l1) -> (active (n_nonempty_caches s') r2 -> co_ok (nexts s') siz c2 l2) ->
  (~ active (n_nonempty_caches s') r1 -> l1 = []) -> (~ active (n_nonempty_caches s') r2 -> l2 = []) ->
  siz * Z.of_nat (length l1) <= co_limit r1 siz -> siz * Z.of_nat (length l2) <= co_limit r2 siz ->
  (forall j, r1 = Global b j -> active (n_nonempty_caches s') r1 -> l1 <> []) ->
  (forall j, r2 = Global b j -> active (n_nonempty_caches s') r2 -> l2 <> []) ->
  out ++ l1 ++ l2 ≡ₚ inn ++ L r1 ++ L r2 -> NoDup inn -> (forall a, a ∈ inn -> U b a /\ forall r, a ∉ L r) ->
  cache_inv s' U (<[r2 := l2]> (<[r1 := l1]> L)) /\
  forall b' a, cached (<[r2 := l2]> (<[r1 := l1]> L)) b' a <-> (cached L b' a \/ b' = b /\ a ∈ inn) /\ ~ (b' = b /\ a ∈ out).
Proof.
  intros HI Hne Hb1 Hb2 Hs Eu Eo E1 E2 Hdep Hact Hnx Hok1 Hok2 Hi1 Hi2 Hl1 Hl2 Hg1 Hg2 Hp Hinn Hfr.
  assert ((<[r2 := l2]> (<[r1 := l1]> L)) r1 = l1) as G1 by by rw fn_lookup_insert_ne // fn_lookup_insert.
  assert ((<[r2 := l2]> (<[r1 := l1]> L)) r2 = l2) as G2 by by rw fn_lookup_insert.
  assert (forall r, r ∈ [r1; r2] -> r = r1 \/ r = r2) as Hin.
  { intros r Hr. rw !elem_of_cons in Hr. destruct Hr as [?|[?|?%elem_of_nil]]; tauto. }
  assert (forall r, r ∉ [r1; r2] -> r <> r1 /\ r <> r2) as Hout.
  { intros r Hr. rw !not_elem_of_cons in Hr. tauto. }
  apply (cache_step s s' U U L _ [r1; r2] b siz inn out); [done| |rw Eu; apply HI|apply HI].
  split; [| |done|done| | | | | | | |done|done].
  - apply NoDup_cons. split; [|apply NoDup_singleton]. by intros ?%list_elem_of_singleton.
  - by intros r [->| ->]%Hin.
  - intros r [H1 H2]%Hout. rw !fn_lookup_insert_ne // Eo //. split_and!; [done..|]. by apply Hact.
  - intros r a [H1 H2]%Hout. by apply Hnx.
  - intros r [->| ->]%Hin; [rw G1 E1|rw G2 E2]; done.
  - intros r [->| ->]%Hin; [by rw G1|by rw G2].
  - intros r [->| ->]%Hin; [by rw G1|by rw G2].
  - intros j Hj [E|E]%Hin; rw E; [rw G1; apply (Hg1 j)|rw G2; apply (Hg2 j)]; try done; rw -E; simpl; lia.
  - simpl. by rw G1 G2 !app_nil_r.
Qed.

(** ** Taking an object out of a list *)

Definition taken L L' (b a : Z) : Prop := forall b' a', cached L' b' a' <-> cached L b' a' /\ ~ (b' = b /\ a' = a).

Lemma co_pop t siz c a l v : co_ok t siz c (a :: l) -> (l <> [] -> v = tail c) ->
  head c = a /\ 0 < a /\ co_ok t siz (Co (bytecount c - siz) (entry t a) v) l.
Proof.
  intros [H1 H2 H3] Hv. simpl in H1. destruct H1 as (-> & Ha & Ht). split_and!; [done..|]. split; simpl; [done| |].
  - intros Hl. rw Hv //. specialize (H2 ltac:(done)). rw last_cons in H2. destruct (last l) eqn:E; [done|by apply last_None in E].
  - rw H3. simpl length. lia.
Qed.

Lemma pop_list s U L r b siz a l v :
  cache_inv s U L -> active (n_nonempty_caches s) r -> bin_of r = b -> 0 <= b < first_huge_bin_number -> bin_2_size b = Some siz ->
  (forall b j, r <> Global b j) -> L r = a :: l -> (l <> [] -> v = tail (co s r)) ->
  head (co s r) = a /\ 0 < a /\
  let s' := with_co s r (Co (uwrap 64 (bytecount (co s r) - siz)) (entry (nexts s) a) v) in
  cache_inv s' U (<[r := l]> L) /\ taken L (<[r := l]> L) b a.
Proof.
  intros HI Ha <- Hb Hs Hg El Hv. pose proof (ci_ok _ _ _ HI r siz Ha Hs) as Hok. rw El in Hok.
  destruct (co_pop _ _ _ _ _ v Hok Hv) as (Eh & Hpos & Hok'). pose proof (cache_length s U L r siz HI Hb Hs) as Hlen.
  pose proof (cached_size _ _ Hb Hs) as Hsz. rw El in Hlen. simpl length in Hlen.
  assert (uwrap 64 (bytecount (co s r) - siz) = bytecount (co s r) - siz) as Ew.
  { apply uwrap_small. rw (co_bytes _ _ _ _ Hok). simpl length. unfold is_uint. lia. }
  split_and!; [done..|]. rw Ew. cbv zeta.
  destruct (one_list s (with_co s r (Co (bytecount (co s r) - siz) (entry (nexts s) a) v)) U L r (bin_of r) siz _ l [] [a] HI Ha eq_refl Hs
    eq_refl eq_refl eq_refl) as [HI' Hc]; try done.
  - pose proof (ci_limit _ _ _ HI r siz Hs) as Hl. rw El in Hl. simpl length in Hl. lia.
  - intros b' j E. by destruct (Hg b' j).
  - by rw El.
  - constructor.
  - by intros a' ?%elem_of_nil.
  - split; [done|]. intros b' a'. rw Hc list_elem_of_singleton. split; [|tauto]. intros [[?|[_ ?%elem_of_nil]] ?]; tauto.
Qed.

Lemma empty_list s U L r siz : cache_inv s U L -> active (n_nonempty_caches s) r -> bin_2_size (bin_of r) = Some siz -> L r = [] ->
  head (co s r) = 0 /\ bytecount (co s r) = 0.
Proof. intros HI Ha Hs El. destruct (ci_ok _ _ _ HI r siz Ha Hs) as [H1 _ H3]. rw El in H1 H3. simpl in *. split; [done|lia]. Qed.

(** What comes back when an object is looked for in the lists [R]: 0 when they are
    all empty, or an object that was in a cache. *)
Definition got s U L (b : Z) (R : list co_ref) (r : Z) s' : Prop :=
  (r = 0 /\ s' = s /\ forall x, x ∈ R -> L x = []) \/
  (0 < r /\ under s' = under s /\ cached L b r /\ exists L', cache_inv s' U L' /\ taken L L' b r).

Lemma take_spec s U L r b siz (v : Z -> cached_objects -> Z) :
  (forall n c, n <> 0 -> v n c = tail c) ->
  cache_inv s U L -> active (n_nonempty_caches s) r -> bin_of r = b -> 0 <= b < first_huge_bin_number -> bin_2_size b = Some siz ->
  (forall b j, r <> Global b j) -> exists x s',
  (c ← get_co r;
   if head c =? 0 then mret 0
   else
     n ← get_obj_next (head c);
     set_co r (Co (uwrap 64 (bytecount c - siz)) n (v n c));;
     mret (head c)) s = Some (x, s') /\ got s U L b [r] x s'.
Proof.
  intros Hv HI Ha Hr Hb Hs Hg. unfold get_co. rw bind_gets. destruct (L r) as [|a l] eqn:El.
  - destruct (empty_list s U L r siz HI Ha ltac:(by rw Hr) El) as [Eh _]. exists 0, s. rw Eh.
    split; [done|]. left. split_and!; [done..|]. by intros x ->%list_elem_of_singleton.
  - assert (l <> [] -> v (entry (nexts s) a) (co s r) = tail (co s r)) as Hv'.
    { intros Hl. apply Hv. pose proof (ci_ok _ _ _ HI r siz Ha ltac:(by rw Hr)) as [Ht _ _]. rw El in Ht. destruct Ht as (_ & _ & Ht).
      destruct l as [|y l]; [done|]. destruct Ht as (-> & Hy & _). lia. }
    destruct (pop_list s U L r b siz a l _ HI Ha Hr Hb Hs Hg El Hv') as (Eh & Hpos & HI' & Htk). cbv zeta in HI'.
    rw Eh. rewrite -> (proj2 (Z.eqb_neq a 0)) by lia. unfold get_obj_next. rw bind_gets. eexists a, _. split; [done|].
    right. split_and!; [done|done|exists r; split; [done|rw El; left]|]. by exists (<[r := l]> L).
Qed.

Lemma got_nil s U L b R r s' : got s U L b R r s' -> 0 <= r.
Proof. intros [[-> _]|[? _]]; lia. Qed.

(** The second list is tried when the first one is empty. *)
Lemma both_spec s U L b r1 r2 (m1 m2 : M (cache S) Z) :
  (exists x s', m1 s = Some (x, s') /\ got s U L b [r1] x s') -> (exists x s', m2 s = Some (x, s') /\ got s U L b [r2] x s') ->
  exists x s', (r ← m1; if negb (r =? 0) then mret r else m2) s = Some (x, s') /\ got s U L b [r1; r2] x s'.
Proof.
  intros (x1 & s1 & E1 & [(-> & -> & H1)|Hgot1]) (x2 & s2 & E2 & Hgot2).
  - rw (bind_Some _ _ _ _ _ E1). exists x2, s2. split; [done|]. destruct Hgot2 as [(-> & -> & H2)|?]; [left|by right].
    split_and!; [done..|]. intros x [->|Hx]%elem_of_cons; [apply H1; left|by apply H2].
  - rw (bind_Some _ _ _ _ _ E1). exists x1, s1. rewrite -> (proj2 (Z.eqb_neq x1 0)) by (destruct Hgot1; lia). split; [done|by right].
Qed.

Lemma try_get_cached_both_spec s U L b siz :
  cache_inv s U L -> 0 <= b < first_huge_bin_number -> bin_2_size b = Some siz ->
  exists x s', try_get_cached_both (Thread b) siz s = Some (x, s') /\ got s U L b [Thread b 0; Thread b 1] x s'.
Proof.
  intros HI Hb Hs. apply both_spec; by apply (take_spec s U L _ b siz (fun _ c => tail c)).
Qed.

Lemma do_fetch_one_from_cpu_spec s U L b siz p :
  cache_inv s U L -> 0 <= b < first_huge_bin_number -> bin_2_size b = Some siz ->
  exists x s', do_fetch_one_from_cpu (Cpu p b) siz s = Some (x, s') /\ got s U L b [Cpu p b 0; Cpu p b 1] x s'.
Proof.
  intros HI Hb Hs. apply both_spec; apply (take_spec s U L _ b siz (fun n c => if n =? 0 then 0 else tail c)); try done;
    intros n c Hn; by rewrite -> (proj2 (Z.eqb_neq n 0)).
Qed.

(** ** A list in the hands of the thread *)

(** The objects [l] were taken out of the caches, and are linked. *)
Record in_hand s U L (b siz : Z) (c : cached_objects) (l : list Z) : Prop := {
  ih_ok : co_ok (nexts s) siz c l;
  ih_nodup : NoDup l;
  ih_use a : a ∈ l -> U b a /\ forall r, a ∉ L r;
}.

Lemma remove_spec s U L b siz p :
  cache_inv s U L -> 0 <= b < first_huge_bin_number -> bin_2_size b = Some siz ->
  let cc := Cpu p b in
  (do_remove_a_cache_from_cpu cc s = Some (empty_cached_objects, s) /\ L (cc 0) = [] /\ L (cc 1) = []) \/
  exists c l s' L', do_remove_a_cache_from_cpu cc s = Some (c, s') /\ l <> [] /\ under s' = under s /\
    n_nonempty_caches s' = n_nonempty_caches s /\ (forall j, co s' (Thread b j) = co s (Thread b j) /\ L' (Thread b j) = L (Thread b j)) /\
    cache_inv s' U L' /\ L' (cc 0) = [] /\ in_hand s' U L' b siz c l /\ siz * Z.of_nat (length l) <= co_limit (cc 0) siz /\
    forall b' a, cached L b' a <-> cached L' b' a \/ b' = b /\ a ∈ l.
Proof.
  intros HI Hb Hs cc. unfold do_remove_a_cache_from_cpu, get_co. rw !bind_gets.
  assert (forall j, L (cc j) <> [] -> let s' := with_co s (cc j) empty_cached_objects in let L' := <[cc j := []]> L in
    head (co s (cc j)) <> 0 /\ cache_inv s' U L' /\ in_hand s' U L' b siz (co s (cc j)) (L (cc j)) /\
    siz * Z.of_nat (length (L (cc j))) <= co_limit (cc j) siz /\
    forall b' a, cached L b' a <-> cached L' b' a \/ b' = b /\ a ∈ L (cc j)) as Hrem.
  { intros j Hne s' L'. pose proof (ci_ok _ _ _ HI (cc j) siz I Hs) as Hok. split.
    { destruct Hok as [Ht _ _]. destruct (L (cc j)); [done|]. destruct Ht as (-> & ? & _). lia. }
    destruct (one_list s s' U L (cc j) b siz empty_cached_objects [] [] (L (cc j)) HI I eq_refl Hs eq_refl eq_refl eq_refl) as [HI' Hc]; try done.
    - split; [done|done|simpl; lia].
    - pose proof (cached_size _ _ Hb Hs). simpl. unfold per_cpu_cache_bytecount_limit, thread_cache_bytecount_limit. lia.
    - by rw app_nil_r.
    - constructor.
    - by intros a ?%elem_of_nil.
    - split_and!; [done| |by apply (ci_limit _ _ _ HI (cc j))|].
      + split; [done|apply HI|]. intros a Ha. split; [by apply (ci_in_use _ _ _ HI (cc j))|]. intros r Hr. unfold L' in Hr.
        destruct (decide (r = cc j)) as [->|Hn]; [rw fn_lookup_insert in Hr; by apply elem_of_nil in Hr|].
        rw fn_lookup_insert_ne // in Hr. apply Hn. by apply (ci_disjoint _ _ _ HI r (cc j) a).
      + intros b' a. fold L' in Hc. rw Hc. split.
        * intros Hca. destruct (decide (b' = b /\ a ∈ L (cc j))) as [?|Hn]; [by right|left]. split; [by left|tauto].
        * intros [[[?|[_ ?%elem_of_nil]] _]|[-> Ha]]; [done|done|]. exists (cc j). done. }
  destruct (L (cc 0)) as [|a0 l0] eqn:E0.
  - destruct (empty_list s U L (cc 0) siz HI I Hs E0) as [-> _]. cbn [negb Z.eqb]. destruct (L (cc 1)) as [|a1 l1] eqn:E1.
    + destruct (empty_list s U L (cc 1) siz HI I Hs E1) as [-> _]. by left.
    + right. destruct (Hrem 1) as (Hh & HI' & Hih & Hlim & Hc); [by rw E1|]. rewrite -> (proj2 (Z.eqb_neq _ 0)) by done. cbn [negb].
      rw E1 in Hih Hlim Hc. eexists _, (a1 :: l1), _, (<[cc 1 := []]> L). split_and!; [done|done|done|done| |done|by rw fn_lookup_insert_ne|done|done|done].
      intros j. unfold with_co. simpl. by rw !fn_lookup_insert_ne.
  - right. destruct (Hrem 0) as (Hh & HI' & Hih & Hlim & Hc); [by rw E0|]. rewrite -> (proj2 (Z.eqb_neq _ 0)) by done. cbn [negb].
    rw E0 in Hih Hlim Hc. eexists _, (a0 :: l0), _, (<[cc 0 := []]> L). split_and!; [done|done|done|done| |done|by rw fn_lookup_insert|done|done|done].
    intros j. unfold with_co. simpl. by rw !fn_lookup_insert_ne.
Qed.

Lemma threaded_split t hd l1 x l2 : threaded t hd (l1 ++ x :: l2) -> 0 < x /\ threaded t x (x :: l2).
Proof.
  revert hd. induction l1 as [|y l1 IH]; intros hd; simpl.
  - intros (-> & Hx & Ht). by split_and!.
  - intros (-> & _ & Ht). by eapply IH.
Qed.

(** The walk stops inside of the list. *)
Lemma collect_loop s siz l2 : 8 <= siz -> forall fuel l1 x hd, threaded (nexts s) hd (l1 ++ x :: l2) ->
  let m := Z.of_nat (length l1) + 1 in
  thread_cache_bytecount_limit <= siz * (m + Z.of_nat (length l2)) < 2 ^ 32 -> 1025 <= m + Z.of_nat fuel ->
  siz * m < thread_cache_bytecount_limit + siz ->
  exists k1 y k2, loop fuel (collect_body siz) (x, siz * m) s = Some ((y, siz * (Z.of_nat (length k1) + 1)), s) /\
    l1 ++ x :: l2 = k1 ++ y :: k2 /\
    thread_cache_bytecount_limit <= siz * (Z.of_nat (length k1) + 1) < thread_cache_bytecount_limit + siz.
Proof.
  intros Hsiz. induction l2 as [|z l2 IH]; intros fuel l1 x hd Ht m Hlim Hfuel Hm; simpl length in Hlim.
  - change (Z.of_nat 0) with 0 in Hlim. rw Z.add_0_r in Hlim.
    destruct fuel as [|fuel]; [unfold thread_cache_bytecount_limit in *; nia|].
    exists l1, x, []. fold m. split_and!; [|done|lia|lia]. cbn [loop]. unfold collect_body.
    rewrite -> (proj2 (Z.ltb_ge (siz * m) thread_cache_bytecount_limit)) by lia. done.
  - destruct (Z.le_gt_cases thread_cache_bytecount_limit (siz * m)) as [Hge|Hlt].
    + destruct fuel as [|fuel]; [unfold thread_cache_bytecount_limit in *; nia|].
      exists l1, x, (z :: l2). fold m. split_and!; [|done|lia|lia]. cbn [loop]. unfold collect_body.
      rewrite -> (proj2 (Z.ltb_ge (siz * m) thread_cache_bytecount_limit)) by lia. done.
    + destruct fuel as [|fuel]; [unfold thread_cache_bytecount_limit in *; nia|].
      destruct (threaded_split _ _ _ _ _ Ht) as (Hx & _ & _ & Hn & _).
      assert (collect_body siz (x, siz * m) s = Some (inl (z, siz * (m + 1)), s)) as E.
      { unfold collect_body. rewrite -> (proj2 (Z.ltb_lt (siz * m) thread_cache_bytecount_limit)) by lia.
        rw bind_bassert; [apply negb_true_iff, Z.eqb_neq; lia|]. unfold get_obj_next. rw bind_gets Hn.
        replace (siz * (m + 1)) with (siz * m + siz) by lia. unfold uadd. rewrite -> uwrap_small; [done|].
        unfold is_uint, thread_cache_bytecount_limit in *. nia. }
      rw (loop_step _ _ _ _ _ _ E). destruct (IH fuel (l1 ++ [x]) z hd) as (k1 & y & k2 & E' & El & Hk).
      { by rw -app_assoc. }
      { rw length_app. simpl length. unfold m in *. lia. }
      { rw length_app. simpl length. unfold m in *. lia. }
      { rw length_app. simpl length. unfold m in *. lia. }
      exists k1, y, k2. split_and!; [|by rw -El -app_assoc|lia|lia].
      rw length_app in E'. simpl length in E'. replace (m + 1) with (Z.of_nat (length l1 + 1) + 1) by (unfold m; lia). done.
Qed.

Lemma collect_spec s U L b siz c l :
  cache_inv s U L -> 0 <= b < first_huge_bin_number -> bin_2_size b = Some siz -> in_hand s U L b siz c l ->
  siz * Z.of_nat (length l) < 2 ^ 32 ->
  exists rest first l1 l2 s', collect_objects_for_thread_cache c siz s = Some ((rest, first), s') /\ l = l1 ++ l2 /\
    under s' = under s /\ co s' = co s /\ n_nonempty_caches s' = n_nonempty_caches s /\ cache_inv s' U L /\
    in_hand s' U L b siz first l1 /\ in_hand s' U L b siz rest l2 /\
    siz * Z.of_nat (length l1) <= co_limit (Thread b 0) siz.
Proof.
  intros HI Hb Hs [Hok Hnd Hu] Hlen. pose proof (cached_size _ _ Hb Hs) as Hsz. unfold collect_objects_for_thread_cache.
  rw (co_bytes _ _ _ _ Hok). destruct (Z.ltb_spec (siz * Z.of_nat (length l)) thread_cache_bytecount_limit) as [Hlt|Hge].
  { exists empty_cached_objects, c, l, [], s. split_and!; [done|by rw app_nil_r|done..| |simpl; lia].
    split; [split; [done|done|simpl; lia]|constructor|by intros a ?%elem_of_nil]. }
  destruct l as [|x l]; [simpl length in Hge; unfold thread_cache_bytecount_limit in Hge; lia|].
  pose proof Hok as [Ht Hta Hby]. pose proof Ht as (Ehd & Hx & _). rw Ehd. replace (x, siz) with (x, siz * (Z.of_nat (length (@nil Z)) + 1)) by (simpl length; f_equal; lia).
  rw Ehd in Ht. simpl length in Hge, Hlen.
  destruct (collect_loop s siz l ltac:(lia) collect_fuel [] x x Ht) as (k1 & y & k2 & E & El & Hk).
  { simpl length. lia. }
  { by vm_compute. }
  { simpl length. unfold thread_cache_bytecount_limit. lia. }
  rw (bind_Some _ _ _ _ _ E). cbv beta iota. simpl in El. rw El in Ht Hnd Hu Hta Hby.
  destruct (threaded_split _ _ _ _ _ Ht) as (Hy & _). rw bind_bassert; [apply negb_true_iff, Z.eqb_neq; lia|].
  unfold get_obj_next. rw bind_gets. unfold set_obj_next. rw bind_modify.
  destruct (threaded_cut _ _ _ _ _ Ht Hnd) as (Hn & Hf & Hr). set (n := entry (nexts s) y) in *.
  assert (y ∈ k1 ++ y :: k2) as Hyin by (apply elem_of_app; right; left).
  eexists _, _, (k1 ++ [y]), k2, _. split; [done|]. split; [rw -app_assoc; done|].
  assert (length (x :: l) = length k1 + Datatypes.S (length k2))%nat as Elen by by rw El length_app.
  simpl length in Elen. split_and!; [done..| | | |].
  - destruct HI as [H1 H2 H3 H4 H5 H6 H7 H8 H9]. split; try done. intros r sz Ha Hsr. simpl. apply (co_ok_ext (nexts s)); [|by apply H3].
    intros a Ha'. apply entry_insert_ne. intros <-. by apply (Hu y Hyin) in Ha'.
  - split; simpl; [split; simpl; [done|by rw last_snoc|rw length_app; simpl length; lia]| |].
    + apply NoDup_app in Hnd as (H1 & H2 & _). apply NoDup_app. split_and!; [done| |apply NoDup_singleton].
      intros a Ha ->%list_elem_of_singleton. apply (H2 y Ha). left.
    + intros a Ha. apply Hu. rw elem_of_app list_elem_of_singleton in Ha. rw elem_of_app elem_of_cons. tauto.
  - split; simpl; [split; simpl; [done| |]| |].
    + intros Hk2. destruct k2 as [|z k2]; [done|]. destruct Hn as (-> & Hz & _). rewrite -> (proj2 (Z.eqb_neq z 0)) by lia.
      specialize (Hta ltac:(by destruct k1)). rw last_app_cons last_cons in Hta. by destruct (last (z :: k2)) eqn:El2; [|by apply last_None in El2].
    + rewrite -> uwrap_small; [lia|]. unfold is_uint. nia.
    + apply NoDup_app in Hnd as (_ & _ & [_ ?]%NoDup_cons). done.
    + intros a Ha. apply Hu. rw elem_of_app elem_of_cons. tauto.
  - rw length_app. simpl length. simpl co_limit. lia.
Qed.

(** A list in hand is put where the list is empty. *)
Lemma put_list s U L r b siz c l :
  cache_inv s U L -> (forall b j, r <> Global b j) -> bin_of r = b -> bin_2_size b = Some siz -> L r = [] ->
  in_hand s U L b siz c l -> siz * Z.of_nat (length l) <= co_limit r siz ->
  cache_inv (with_co s r c) U (<[r := l]> L) /\
  (forall b' a, cached (<[r := l]> L) b' a <-> cached L b' a \/ b' = b /\ a ∈ l) /\
  forall c2 l2, in_hand s U L b siz c2 l2 -> (forall a, a ∈ l2 -> a ∉ l) -> in_hand (with_co s r c) U (<[r := l]> L) b siz c2 l2.
Proof.
  intros HI Hg Hr Hs El [Hok Hnd Hu] Hlim.
  destruct (one_list s (with_co s r c) U L r b siz c l l [] HI) as [HI' Hc]; try done.
  - destruct r as [| |b' j]; [done..|]. by destruct (Hg b' j).
  - intros b' j E. by destruct (Hg b' j).
  - by rw El app_nil_r.
  - split_and!; [done| |].
    + intros b' a. rw Hc. split; [tauto|]. intros Ha. split; [done|]. by intros [_ ?%elem_of_nil].
    + intros c2 l2 [Hok2 Hnd2 Hu2] Hsep. split; [done..|]. intros a Ha. split; [by apply Hu2|]. intros r'.
      destruct (decide (r' = r)) as [->|Hne]; [rw fn_lookup_insert; by apply Hsep|rw fn_lookup_insert_ne //; by apply Hu2].
Qed.

Lemma in_hand_tail s U L b siz c a l : in_hand s U L b siz c (a :: l) -> siz * Z.of_nat (length (a :: l)) < 2 ^ 32 -> 8 <= siz ->
  head c = a /\ 0 < a /\ U b a /\ in_hand s U L b siz (Co (uwrap 64 (bytecount c - siz)) (entry (nexts s) a) (tail c)) l.
Proof.
  intros [Hok Hnd Hu] Hlen Hsz. destruct (co_pop _ _ _ _ _ (tail c) Hok ltac:(done)) as (Eh & Ha & Hok').
  assert (uwrap 64 (bytecount c - siz) = bytecount c - siz) as ->.
  { apply uwrap_small. rw (co_bytes _ _ _ _ Hok). simpl length in *. unfold is_uint. lia. }
  split_and!; [done..|apply Hu; left|]. apply NoDup_cons in Hnd as [_ Hnd]. split; [done..|]. intros x Hx. apply Hu. by right.
Qed.

Lemma try_get_cpu_cached_spec s U L b siz p use_threadcache :
  cache_inv s U L -> 0 <= b < first_huge_bin_number -> bin_2_size b = Some siz ->
  (use_threadcache = true -> L (Thread b 0) = [] /\ L (Thread b 1) = []) ->
  exists x s', try_get_cpu_cached use_threadcache p b siz s = Some (x, s') /\ got s U L b [Cpu p b 0; Cpu p b 1] x s'.
Proof.
  intros HI Hb Hs Hth. unfold try_get_cpu_cached. cbv zeta. destruct use_threadcache; [|by apply do_fetch_one_from_cpu_spec].
  destruct (Hth eq_refl) as [Ht0 _]. pose proof (cached_size _ _ Hb Hs) as Hsz.
  destruct (remove_spec s U L b siz p HI Hb Hs) as [(E & E0 & E1)|(c & l & s1 & L1 & E & Hne & Hun & _ & Hth1 & HI1 & Hc0 & Hih & Hlim & Hc1)].
  { rw (bind_Some _ _ _ _ _ E). exists 0, s. split; [done|]. left. split_and!; [done..|].
    intros x [->|[->|?%elem_of_nil]%elem_of_cons]%elem_of_cons; done. }
  rw (bind_Some _ _ _ _ _ E). destruct l as [|a l]; [done|].
  assert (siz * Z.of_nat (length (a :: l)) < 2 ^ 32) as Hlen.
  { simpl co_limit in Hlim. unfold per_cpu_cache_bytecount_limit, thread_cache_bytecount_limit in Hlim. lia. }
  destruct (in_hand_tail _ _ _ _ _ _ _ _ Hih Hlen ltac:(lia)) as (Eh & Ha & Hua & Hih').
  rw Eh. rewrite -> (proj2 (Z.eqb_neq a 0)) by lia. unfold get_obj_next at 1. rw bind_gets.
  destruct (collect_spec s1 U L1 b siz _ l HI1 Hb Hs Hih') as (rest & first & l1 & l2 & s2 & E2 & -> & Hun2 & Eco & _ & HI2 & Hf & Hr & Hlim1);
    [simpl length in Hlen; lia|]. rw (bind_Some _ _ _ _ _ E2). cbv beta iota.
  pose proof (ih_nodup _ _ _ _ _ _ _ Hih) as Hnd. apply NoDup_cons in Hnd as [Hna Hnd].
  assert (L1 (Thread b 0) = []) as Ht1 by by destruct (Hth1 0) as [_ ->].
  unfold get_co at 1. rw bind_gets. rw Eco. destruct (Hth1 0) as [-> _].
  destruct (empty_list s U L (Thread b 0) siz HI I Hs Ht0) as [-> _]. cbn [Z.eqb].
  rw (bind_Some _ _ _ _ _ (set_co_with s2 (Thread b 0) first)).
  destruct (put_list s2 U L1 (Thread b 0) b siz first l1 HI2) as (HI3 & Hc3 & Hih3); [done..|].
  set (s3 := with_co s2 (Thread b 0) first) in *. set (L3 := <[Thread b 0 := l1]> L1) in *.
  assert (in_hand s3 U L3 b siz rest l2) as Hr3.
  { apply Hih3; [done|]. apply NoDup_app in Hnd as (_ & Hdj & _). intros x Hx Hx'. by apply (Hdj x). }
  assert (forall L4 s4, cache_inv s4 U L4 -> under s4 = under s3 -> (forall b' x, cached L4 b' x <-> cached L3 b' x \/ b' = b /\ x ∈ l2) ->
    got s U L b [Cpu p b 0; Cpu p b 1] a s4) as Hfin.
  { intros L4 s4 HI4 Hun4 Hc4. right. split_and!; [done|by rw Hun4 /= Hun2 Hun|apply Hc1; right; split; [done|left]|]. exists L4. split; [done|].
    intros b' x. rw Hc4 Hc3 Hc1 elem_of_cons elem_of_app. split.
    - assert (cached L1 b x -> x <> a) as Hx.
      { intros (r & _ & Hr') ->. apply (ih_use _ _ _ _ _ _ _ Hih a ltac:(left)) in Hr'. done. }
      intros [[H|[-> H]]|[-> H]].
      + split; [by left|]. intros [-> ->]. by apply Hx.
      + split; [right; tauto|]. intros [_ ->]. apply Hna, elem_of_app. by left.
      + split; [right; tauto|]. intros [_ ->]. apply Hna, elem_of_app. by right.
    - tauto. }
  pose proof (ih_ok _ _ _ _ _ _ _ Hr3) as Hrok. destruct l2 as [|y l2].
  - destruct Hrok as [Hh _ _]. simpl in Hh. rw Hh. cbn [negb Z.eqb]. exists a, s3. split; [done|]. apply (Hfin L3); [done|done|].
    intros b' x. split; [tauto|]. intros [?|[_ ?%elem_of_nil]]; done.
  - assert (head rest <> 0) as Hh by (destruct Hrok as [(-> & ? & _) _ _]; lia).
    rewrite -> (proj2 (Z.eqb_neq (head rest) 0)) by done. cbn [negb].
    assert (L3 (Cpu p b 0) = []) as Ecc by (unfold L3; by rw fn_lookup_insert_ne).
    assert (do_add_a_cache_to_cpu (Cpu p b) rest s3 = Some (tt, with_co s3 (Cpu p b 0) rest)) as Ea.
    { unfold do_add_a_cache_to_cpu, get_co. rw !bind_gets. by destruct (empty_list s3 U L3 (Cpu p b 0) siz HI3 I Hs Ecc) as [_ ->]. }
    rw (bind_Some _ _ _ _ _ Ea).
    destruct (put_list s3 U L3 (Cpu p b 0) b siz rest (y :: l2) HI3) as (HI4 & Hc4 & _); [done..| |].
    { simpl length in Hlim. rw length_app in Hlim. simpl length in Hlim |- *. lia. }
    eexists a, _. split; [done|]. by apply (Hfin (<[Cpu p b 0 := y :: l2]> L3)).
Qed.

(** A list of the process goes to an empty list of the processor. *)
Lemma do_get_global_cached_spec s U L b siz p :
  cache_inv s U L -> 0 <= b < first_huge_bin_number -> bin_2_size b = Some siz ->
  L (Cpu p b 0) = [] -> L (Cpu p b 1) = [] ->
  exists x s', do_get_global_cached (Cpu p b) b siz s = Some (x, s') /\ got s U L b [] x s'.
Proof.
  intros HI Hb Hs E0 E1. pose proof (cached_size _ _ Hb Hs) as Hsz. unfold do_get_global_cached, get_nonempty. rw bind_gets.
  set (n := n_nonempty_caches s b). pose proof (ci_depth _ _ _ HI b) as Hn. fold n in Hn. destruct (Z.ltb_spec 0 n) as [Hpos|Hle].
  2:{ exists 0, s. split; [done|]. left. split_and!; [done..|]. by intros x ?%elem_of_nil. }
  set (g := Global b (n - 1)). assert (active (n_nonempty_caches s) g) as Hact by (simpl; fold n; lia).
  pose proof (ci_ok _ _ _ HI g siz Hact Hs) as Hok. destruct (L g) as [|a l] eqn:El; [by destruct (ci_full _ _ _ HI b (n - 1)); [fold n; lia|]|].
  unfold get_co at 1. rw bind_gets. cbv zeta. destruct (co_pop _ _ _ _ _ (tail (co s g)) Hok ltac:(done)) as (Eh & Ha & Hok').
  rw Eh. rw bind_bassert; [apply negb_true_iff, Z.eqb_neq; lia|]. unfold get_obj_next at 1. rw bind_gets.
  set (nx := entry (nexts s) a) in *. pose proof (ci_limit _ _ _ HI g siz Hs) as Hlim. rw El in Hlim. simpl length in Hlim. simpl co_limit in Hlim.
  assert (uwrap 8 (n - 1) = n - 1) as Ewn by (apply uwrap_small; unfold is_uint, global_cache_depth in *; lia).
  set (s1 := if nx =? 0 then s else with_co s (Cpu p b 1) (Co (bytecount (co s g) - siz) nx (tail (co s g)))).
  match goal with |- context [((if negb (nx =? 0) then ?m else _) ≫= _) _] =>
    assert ((if negb (nx =? 0) then m else mret tt) s = Some (tt, s1)) as Em end.
  { unfold s1. destruct (nx =? 0); cbn [negb]; [done|]. unfold get_co. rw !bind_gets.
    destruct (empty_list s U L (Cpu p b 0) siz HI I Hs E0) as [_ ->]. destruct (empty_list s U L (Cpu p b 1) siz HI I Hs E1) as [Hh1 ->].
    cbv zeta. rw Z.ltb_irrefl Hh1. cbn [Z.eqb]. rw bind_ret. unfold set_co, modify, with_co. do 5 f_equal.
    rw (co_bytes _ _ _ _ Hok). simpl length. apply uwrap_small. unfold is_uint, per_cpu_cache_bytecount_limit, thread_cache_bytecount_limit in *. lia. }
  rw (bind_Some _ _ _ _ _ Em). unfold set_nonempty. rw bind_modify Ewn. eexists a, _. split; [done|]. right.
  assert ((nx = 0 /\ l = []) \/ (nx <> 0 /\ l <> [])) as Hcase.
  { destruct Hok' as [Ht _ _]. destruct l as [|y l]; [by left|right]. destruct Ht as (Et & Hy & _). simpl in Et. split; [lia|done]. }
  destruct (two_lists s (Cache (under s1) (co s1) (<[b := n - 1]> (n_nonempty_caches s1)) (nexts s1) (cached_cpu s1) (cached_cpu_count s1))
    U L g (Cpu p b 1) b siz (co s1 g) (co s1 (Cpu p b 1)) [] l [] [a] HI) as [HI' Hc].
  all: try done.
  - unfold s1. by destruct (nx =? 0).
  - intros r Hr1 Hr2. unfold s1. destruct (nx =? 0); [done|]. simpl. by rw fn_lookup_insert_ne.
  - intros b'. simpl. destruct (decide (b' = b)) as [->|Hne]; [rw fn_lookup_insert; lia|rw fn_lookup_insert_ne //].
    unfold s1. destruct (nx =? 0); simpl; apply HI.
  - intros r Hr1 Hr2. simpl. replace (n_nonempty_caches s1) with (n_nonempty_caches s) by (unfold s1; by destruct (nx =? 0)).
    destruct r as [| |b' j]; [done..|]. simpl. destruct (decide (b' = b)) as [->|Hne]; [rw fn_lookup_insert|by rw fn_lookup_insert_ne].
    fold n. split; [lia|]. intros Hj. assert (j <> n - 1) by (intros ->; by apply Hr1). lia.
  - intros r' x _ _ _. unfold s1. simpl. by destruct (nx =? 0).
  - intros Hact'. simpl in Hact'. rw fn_lookup_insert in Hact'. lia.
  - intros _. unfold s1. destruct Hcase as [[Enx ->]|[Hnx Hl]].
    + rw Enx. simpl. rw -E1. by apply (ci_ok _ _ _ HI (Cpu p b 1)).
    + rewrite -> (proj2 (Z.eqb_neq nx 0)) by done. simpl. by rw fn_lookup_insert.
  - simpl. unfold per_cpu_cache_bytecount_limit, thread_cache_bytecount_limit in *. lia.
  - simpl. lia.
  - intros j E Hact'. rw E in Hact'. simpl in Hact'. rw fn_lookup_insert in Hact'. unfold g in E. injection E as E. lia.
  - simpl. by rw El E1 app_nil_r.
  - constructor.
  - by intros x ?%elem_of_nil.
  - split_and!; [done|unfold s1; simpl; by destruct (nx =? 0)|exists g; split; [done|rw El; left]|].
    eexists. split; [exact HI'|]. intros b' x. rw Hc list_elem_of_singleton. split; [|tauto]. intros [[?|[_ ?%elem_of_nil]] ?]; tauto.
Qed.

Lemma getcpu_spec s U L : cache_inv s U L ->
  exists c s', getcpu s = Some (c, s') /\ cache_inv s' U L /\ (out_of_memory (under s') -> out_of_memory (under s)).
Proof.
  intros HI. unfold getcpu. rw bind_gets bind_modify. set (s1 := Cache _ _ _ _ _ _).
  assert (cache_inv s1 U L) as HI1 by by destruct HI.
  case_eqb.
  - destruct (a_sched_getcpu_ok (under s1) U (ci_under _ _ _ HI1)) as (c & u & E & Hu & Hmem).
    assert (on_under a_sched_getcpu s1 = Some (c, Cache u (co s1) (n_nonempty_caches s1) (nexts s1) (cached_cpu s1) (cached_cpu_count s1))) as E1
      by (unfold on_under, zoom; by rw E).
    unfold mbind at 1, M_bind. unfold mbind at 1, M_bind. rw E1. simpl. eexists _, _. split; [done|]. split; [|done].
    destruct HI1. by split.
  - eexists _, s1. split; [done|]. by split.
Qed.

(** The objects of the program after one more was handed out. *)
Definition handed U L U' L' (b a : Z) : Prop := ~ owned U L b a /\ forall b' a', owned U' L' b' a' <-> owned U L b' a' \/ b' = b /\ a' = a.

Lemma taken_handed s U L L' b a : cache_inv s U L -> cached L b a -> taken L L' b a -> handed U L U L' b a.
Proof.
  intros HI Hc Ht. split; [by intros [_ Hn]|]. intros b' a'. unfold owned. rw (Ht b' a'). split.
  - intros [Hu Hn]. destruct (decide (b' = b /\ a' = a)) as [?|Hne]; [by right|left]. split; [done|]. intros Hc'. by apply Hn.
  - intros [[Hu Hn]|[-> ->]]; [split; [done|tauto]|]. split; [|tauto]. destruct Hc as (r & <- & Hr). by apply (ci_in_use _ _ _ HI r).
Qed.

Lemma added_handed s U U' L b a : cache_inv s U L -> added U U' b a -> handed U L U' L b a.
Proof.
  intros HI [Hn Ha]. assert (~ cached L b a) as Hnc.
  { intros (r & <- & Hr). by apply Hn, (ci_in_use _ _ _ HI r). }
  split; [by intros [? _]|]. intros b' a'. unfold owned. rw Ha. split; [tauto|]. intros [?|[-> ->]]; tauto.
Qed.

(** The bins are asked when the caches are empty. *)
Lemma under_inv s U U' L u : cache_inv s U L -> holds u U' -> (forall r a, a ∈ L r -> U' (bin_of r) a) ->
  cache_inv (Cache u (co s) (n_nonempty_caches s) (nexts s) (cached_cpu s) (cached_cpu_count s)) U' L.
Proof. intros [H1 H2 H3 H4 H5 H6 H7 H8 H9] Hu Hin. by split. Qed.

Definition malloc_result s U L (b : Z) (m : option (Z * cache S)) : Prop :=
  match m with
  | None => out_of_memory (under s)
  | Some (r, s') => exists U' L', cache_inv s' U' L' /\
      ((r = 0 /\ out_of_memory (under s) /\ same_objects (owned U L) (owned U' L')) \/ (0 < r /\ handed U L U' L' b r))
  end.

Lemma under_malloc_spec s U L b siz : cache_inv s U L -> 0 <= b < first_huge_bin_number -> bin_2_size b = Some siz ->
  malloc_result s U L b ((if b <? first_large_bin_number then on_under (a_small_malloc b) else on_under (a_large_malloc siz)) s).
Proof.
  intros HI Hb Hs. unfold on_under, zoom. case_ltb.
  - destruct (a_small_malloc_ok (under s) U b (ci_under _ _ _ HI)) as (r & u & U' & E & Hu & Hr); [lia|]. rw E. exists U', L.
    destruct Hr as [(-> & Hno & Hsame)|[Hpos Hadd]].
    + split; [apply (under_inv s U U'); [done..|]; intros r a Ha; apply Hsame; by apply HI|]. left. split_and!; [done..|].
      intros b' a'. unfold owned. by rw (Hsame b' a').
    + split; [apply (under_inv s U U'); [done..|]; intros r' a Ha; apply Hadd; left; by apply HI|]. right. split; [done|]. by apply (added_handed s).
  - destruct (a_large_malloc_ok (under s) U b siz (ci_under _ _ _ HI)) as [[E Hno]|(r & u & U' & E & Hu & Hpos & Hadd)]; [lia|done|by rw E|].
    rw E. exists U', L. split; [apply (under_inv s U U'); [done..|]; intros r' a Ha; apply Hadd; left; by apply HI|].
    right. split; [done|]. by apply (added_handed s).
Qed.

Lemma cached_malloc_spec s U L b use_threadcache : cache_inv s U L -> 0 <= b < first_huge_bin_number ->
  malloc_result s U L b (cached_malloc use_threadcache b s).
Proof.
  intros HI Hb. destruct (bin_2_size_some b) as [siz Hs]; [unfold first_huge_bin_number, bin_number_limit in *; lia|].
  unfold cached_malloc. rw bind_bassert; [apply Z.ltb_lt; lia|]. rw (bind_the _ _ _ _ Hs).
  assert (forall R r s1 (m : M (cache S) Z), got s U L b R r s1 -> 0 < r -> malloc_result s U L b ((if negb (r =? 0) then mret r else m) s1)) as Hgot.
  { intros R r s1 m [[-> _]|(_ & _ & Hc & L' & HI' & Ht)] Hr; [lia|]. rewrite -> (proj2 (Z.eqb_neq r 0)) by lia. cbn [negb].
    exists U, L'. split; [done|]. right. split; [done|]. by apply (taken_handed s). }
  assert (exists r s1 R, (if use_threadcache then try_get_cached_both (Thread b) siz else mret 0) s = Some (r, s1) /\ got s U L b R r s1 /\
    (use_threadcache = true -> R = [Thread b 0; Thread b 1])) as (r & s1 & R & E & Hg & HR).
  { destruct use_threadcache.
    - destruct (try_get_cached_both_spec s U L b siz HI Hb Hs) as (r & s1 & E & Hg). by eexists r, s1, _.
    - exists 0, s, []. split_and!; [done| |done]. left. split_and!; [done..|]. by intros x ?%elem_of_nil. }
  rw (bind_Some _ _ _ _ _ E). destruct Hg as [(-> & -> & HR0)|Hg]; [|apply (Hgot R); [by right|by destruct Hg]]. cbn [negb Z.eqb].
  destruct (getcpu_spec s U L HI) as (cpu & s2 & Ec & HI2 & Hmem). rw (bind_Some _ _ _ _ _ Ec).
  set (p := cpu mod cpulimit).
  assert (forall m, malloc_result s2 U L b m -> malloc_result s U L b m) as Hweak by
    (intros [[? ?]|]; simpl; [intros (U' & L' & ? & [(? & ? & ?)|?]); exists U', L'; split; [done|left|done|right]; tauto|apply Hmem]).
  assert (forall R r s3 (m : M (cache S) Z), got s2 U L b R r s3 -> 0 < r -> malloc_result s U L b ((if negb (r =? 0) then mret r else m) s3)) as Hgot2.
  { intros R' r s3 m [[-> _]|(_ & _ & Hc & L' & HI' & Ht)] Hr; [lia|]. rewrite -> (proj2 (Z.eqb_neq r 0)) by lia. cbn [negb].
    exists U, L'. split; [done|]. right. split; [done|]. by apply (taken_handed s2). }
  destruct (try_get_cpu_cached_spec s2 U L b siz p use_threadcache HI2 Hb Hs) as (r & s3 & Er & Hg).
  { intros Ht. rw (HR Ht) in HR0. split; apply HR0; [left|right; left]. }
  rw (bind_Some _ _ _ _ _ Er). destruct Hg as [(-> & -> & HR1)|Hg]; [|apply (Hgot2 [Cpu p b 0; Cpu p b 1]); [by right|by destruct Hg]]. cbn [negb Z.eqb].
  destruct (do_get_global_cached_spec s2 U L b siz p HI2 Hb Hs) as (r & s3 & Er' & Hg); [apply HR1; left|apply HR1; right; left|].
  rw (bind_Some _ _ _ _ _ Er'). destruct Hg as [(-> & -> & _)|Hg]; [|apply (Hgot2 []); [by right|by destruct Hg]]. cbn [negb Z.eqb].
  apply Hweak. by apply under_malloc_spec.
Qed.

(** ** Putting an object in a list *)

Definition put L L' (b a : Z) : Prop := forall b' a', cached L' b' a' <-> cached L b' a' \/ b' = b /\ a' = a.

(** Whether the object was put somewhere; nothing changes when it was not. *)
Definition put_result s U L (b a : Z) (m : option (bool * cache S)) : Prop :=
  m = Some (false, s) \/ exists s' L', m = Some (true, s') /\ cache_inv s' U L' /\ put L L' b a.

Lemma owned_fresh s U L b a : cache_inv s U L -> owned U L b a -> 0 < a /\ forall r, a ∉ L r.
Proof.
  intros HI [Hu Hn]. split; [by apply (holds_positive _ _ b a (ci_under _ _ _ HI))|]. intros r Hr. apply Hn. exists r. split; [|done].
  apply (holds_one_bin (under s) U _ _ a (ci_under _ _ _ HI)); [by apply HI|done].
Qed.

Lemma put_iff L L' b a : (forall b' a', cached L' b' a' <-> (cached L b' a' \/ b' = b /\ a' ∈ [a]) /\ ~ (b' = b /\ a' ∈ [])) -> put L L' b a.
Proof.
  intros H b' a'. rw H list_elem_of_singleton. split; [tauto|]. intros Ha. split; [done|]. by intros [_ ?%elem_of_nil].
Qed.

Lemma push_co t siz c l a : co_ok t siz c l -> 0 < a -> a ∉ l ->
  co_ok (<[a := head c]> t) siz (Co (bytecount c + siz) a (if head c =? 0 then a else tail c)) (a :: l).
Proof.
  intros [H1 H2 H3] Ha Hn. split; simpl.
  - split_and!; [done..|]. rw entry_insert. by apply threaded_insert.
  - intros _. destruct l as [|y l]; simpl in H1.
    + by rw H1.
    + destruct H1 as (-> & Hy & _). rewrite -> (proj2 (Z.eqb_neq y 0)) by lia. rw last_cons_cons. by apply H2.
  - rw H3. lia.
Qed.

(** An object is put in front of the list [r]. *)
Lemma push_list s s' U L r b siz a lim :
  cache_inv s U L -> (forall b j, r <> Global b j) -> bin_of r = b -> 0 <= b < first_huge_bin_number -> bin_2_size b = Some siz ->
  owned U L b a -> bytecount (co s r) < lim -> lim + siz <= co_limit r siz ->
  under s' = under s -> n_nonempty_caches s' = n_nonempty_caches s -> nexts s' = <[a := head (co s r)]> (nexts s) ->
  co s' = <[r := Co (uadd 64 (bytecount (co s r)) siz) a (if head (co s r) =? 0 then a else tail (co s r))]> (co s) ->
  cache_inv s' U (<[r := a :: L r]> L) /\ put L (<[r := a :: L r]> L) b a.
Proof.
  intros HI Hg Hr Hb Hs Ho Hlt Hlim Eu En Enx Ec. destruct (owned_fresh s U L b a HI Ho) as [Ha Hf].
  assert (active (n_nonempty_caches s) r) as Hact by (destruct r as [| |b' j]; [done..|]; by destruct (Hg b' j)).
  pose proof (ci_ok _ _ _ HI r siz Hact ltac:(by rw Hr)) as Hok. pose proof (cached_size _ _ Hb Hs) as Hsz.
  pose proof (cache_length s U L r siz HI ltac:(by rw Hr) ltac:(by rw Hr)) as Hlen. pose proof (co_bytes _ _ _ _ Hok) as Hby.
  assert (uadd 64 (bytecount (co s r)) siz = bytecount (co s r) + siz) as Ew by (apply uwrap_small; unfold is_uint; lia).
  rw Ew in Ec.
  destruct (one_list s s' U L r b siz _ (a :: L r) [a] [] HI Hact Hr Hs Eu Ec En) as [HI' Hc]; try done.
  - intros r' x Hr' Hx. rw Enx. apply entry_insert_ne. intros <-. by apply (Hf r').
  - rw Enx. by apply push_co.
  - simpl length. lia.
  - apply NoDup_singleton.
  - intros x ->%list_elem_of_singleton. split; [apply Ho|done].
  - split; [done|]. by apply put_iff.
Qed.

Lemma try_put_cached_spec s U L b siz a j :
  cache_inv s U L -> 0 <= b < first_huge_bin_number -> bin_2_size b = Some siz -> owned U L b a ->
  put_result s U L b a (try_put_cached a (Thread b j) siz thread_cache_bytecount_limit s) /\
  (try_put_cached a (Thread b j) siz thread_cache_bytecount_limit s = Some (false, s) -> L (Thread b j) <> []).
Proof.
  intros HI Hb Hs Ho. unfold try_put_cached, get_co. rw bind_gets. cbv zeta. set (r := Thread b j). pose proof (cached_size _ _ Hb Hs) as Hsz.
  case_ltb.
  - split; [|by destruct (head (co s r) =? 0)]. right. unfold set_obj_next. rw bind_modify.
    match goal with |- context [((if ?b then ?m1 else ?m2) ≫= ?k) ?s] => assert (exists s', ((if b then m1 else m2) ≫= k) s = Some (true, s') /\
      under s' = under s /\ n_nonempty_caches s' = n_nonempty_caches s /\ nexts s' = nexts s /\
      co s' = <[r := Co (uadd 64 (bytecount (co s r)) siz) a (if head (co s r) =? 0 then a else tail (co s r))]> (co s)) as (s' & E & Eu & En & Enx & Ec) end.
    { destruct (Z.eqb_spec (head (co s r)) 0) as [Eh|Hh]; (eexists; split; [done|]; split_and!; [done..|]); simpl;
        [rw Eh; cbn [Z.eqb]|by rewrite -> (proj2 (Z.eqb_neq _ 0) Hh)].
      f_equal. f_equal. assert (L r = []) as El.
      { destruct (ci_ok _ _ _ HI r siz I Hs) as [Ht _ _]. destruct (L r); [done|]. destruct Ht as (? & ? & _). lia. }
      destruct (empty_list s U L r siz HI I Hs El) as [_ ->]. unfold uadd. rw Z.add_0_l uwrap_small //. unfold is_uint. lia. }
    rw E. simpl in Eu, En, Enx, Ec.
    destruct (push_list s s' U L r b siz a thread_cache_bytecount_limit) as [HI' Hp]; try done.
    by exists s', (<[r := a :: L r]> L).
  - split; [by left|]. intros _ El. destruct (empty_list s U L r siz HI I Hs El) as [_ E0]. unfold thread_cache_bytecount_limit in *. lia.
Qed.

Lemma put_one_spec s U L b siz a p j :
  cache_inv s U L -> 0 <= b < first_huge_bin_number -> bin_2_size b = Some siz -> owned U L b a ->
  put_result s U L b a (put_one a (Cpu p b j) siz s).
Proof.
  intros HI Hb Hs Ho. unfold put_one, get_co. rw bind_gets. pose proof (cached_size _ _ Hb Hs) as Hsz. case_ltb; [right|by left].
  unfold set_co, set_obj_next. rw !bind_modify. eexists _, _. split; [done|].
  apply (push_list s _ U L (Cpu p b j) b siz a per_cpu_cache_bytecount_limit); try done.
  simpl. unfold thread_cache_bytecount_limit. lia.
Qed.

(** A second place is tried when the first one is full. *)
Lemma both_put s U L b a (m1 m2 : M (cache S) bool) : put_result s U L b a (m1 s) -> put_result s U L b a (m2 s) ->
  put_result s U L b a ((b ← m1; if b : bool then mret true else m2) s).
Proof.
  intros [E1|(s' & L' & E1 & HI' & Hp)] H2; rw (bind_Some _ _ _ _ _ E1); [done|]. right. by exists s', L'.
Qed.

Lemma both_put_inv (m1 m2 : M (cache S) bool) s : (m1 s = Some (false, s) \/ exists s', m1 s = Some (true, s')) ->
  (b ← m1; if b : bool then mret true else m2) s = Some (false, s) -> m1 s = Some (false, s).
Proof. intros [E|(s' & E)]; [done|]. by rw (bind_Some _ _ _ _ _ E). Qed.

(** The lists of the thread and of the processor become one. *)
Lemma merge_co t siz ct lt cc lc a : co_ok t siz ct lt -> co_ok t siz cc lc -> lt <> [] -> 0 < a -> a ∉ lt ++ lc -> NoDup (lt ++ lc) ->
  0 < tail ct /\ tail ct ∈ lt /\
  co_ok (<[tail ct := head cc]> (<[a := head ct]> t)) siz
    (Co (bytecount cc + bytecount ct + siz) a (if head cc =? 0 then tail ct else tail cc)) (a :: lt ++ lc).
Proof.
  intros [T1 T2 T3] [C1 C2 C3] Hne Ha Hn Hnd. specialize (T2 Hne). apply not_elem_of_app in Hn as [Hnt Hnc].
  assert (tail ct ∈ lt) as Hin by by apply last_Some_elem_of. assert (0 < tail ct) as Hpos.
  { apply list_elem_of_split in Hin as (k1 & k2 & E). rw E in T1. by apply (threaded_split _ _ _ _ _ T1). }
  split_and!; [done..|]. split; simpl.
  - split_and!; [done..|]. rewrite -> entry_insert_ne by (intros <-; done). rw entry_insert.
    apply threaded_append; [by apply threaded_insert..|done|done].
  - intros _. rw last_cons last_app. destruct lc as [|y lc]; simpl in C1.
    + rw C1. simpl. by rw T2.
    + destruct C1 as (-> & Hy & _). rewrite -> (proj2 (Z.eqb_neq y 0)) by lia. by rw C2.
  - rw C3 T3 length_app. lia.
Qed.

Lemma try_put_part_spec s U L b siz a p j :
  cache_inv s U L -> 0 <= b < first_huge_bin_number -> bin_2_size b = Some siz -> owned U L b a -> L (Thread b 0) <> [] ->
  put_result s U L b a (try_put_into_cpu_cache_part a (Thread b 0) (Cpu p b j) siz s).
Proof.
  intros HI Hb Hs Ho Hne. destruct (owned_fresh s U L b a HI Ho) as [Ha Hf]. pose proof (cached_size _ _ Hb Hs) as Hsz.
  unfold try_put_into_cpu_cache_part. unfold get_co at 1. rw bind_gets. set (rt := Thread b 0) in *. set (rc := Cpu p b j) in *.
  case_ltb; [|by left]. right. unfold get_co. rw bind_gets. unfold set_obj_next at 1. rw bind_modify.
  pose proof (ci_ok _ _ _ HI rt siz I Hs) as Hokt. pose proof (ci_ok _ _ _ HI rc siz I Hs) as Hokc.
  pose proof (ci_limit _ _ _ HI rt siz Hs) as Hlt. simpl co_limit in Hlt.
  pose proof (join_refs_nodup L [rt; rc] (ci_nodup _ _ _ HI) (ci_disjoint _ _ _ HI)) as Hnd. simpl in Hnd. rw app_nil_r in Hnd.
  destruct (merge_co (nexts s) siz (co s rt) (L rt) (co s rc) (L rc) a Hokt Hokc Hne Ha) as (Htl & Htin & Hok).
  { intros [?|?]%elem_of_app; by eapply Hf. }
  { apply Hnd. apply NoDup_cons. split; [by intros ?%list_elem_of_singleton|apply NoDup_singleton]. }
  rw bind_bassert; [apply negb_true_iff, Z.eqb_neq; lia|]. unfold set_obj_next. rw bind_modify. unfold set_co. rw !bind_modify.
  eexists _, _. split; [done|]. pose proof (co_bytes _ _ _ _ Hokt) as Bt. pose proof (co_bytes _ _ _ _ Hokc) as Bc.
  assert (uadd 64 (uadd 64 (bytecount (co s rc)) (bytecount (co s rt))) siz = bytecount (co s rc) + bytecount (co s rt) + siz) as Ew.
  { unfold per_cpu_cache_bytecount_limit, thread_cache_bytecount_limit in *. unfold uadd.
    rewrite -> (uwrap_small 64 (_ + bytecount (co s rt))) by (unfold is_uint; lia). apply uwrap_small. unfold is_uint. lia. }
  destruct (two_lists s (Cache (under s) (<[rt := empty_cached_objects]> (<[rc := Co (uadd 64 (uadd 64 (bytecount (co s rc)) (bytecount (co s rt))) siz) a
      (if head (co s rc) =? 0 then tail (co s rt) else tail (co s rc))]> (co s))) (n_nonempty_caches s)
      (<[tail (co s rt) := head (co s rc)]> (<[a := head (co s rt)]> (nexts s))) (cached_cpu s) (cached_cpu_count s))
    U L rt rc b siz empty_cached_objects (Co (bytecount (co s rc) + bytecount (co s rt) + siz) a (if head (co s rc) =? 0 then tail (co s rt) else tail (co s rc)))
    [] (a :: L rt ++ L rc) [a] [] HI) as [HI' Hc]; try done.
  - intros r H1 H2. simpl. by rw !fn_lookup_insert_ne.
  - simpl. by rw fn_lookup_insert.
  - simpl. by rw fn_lookup_insert_ne // fn_lookup_insert Ew.
  - simpl. apply HI.
  - intros r x H1 H2 Hx. simpl. rewrite -> entry_insert_ne; [apply entry_insert_ne|].
    + intros <-. by apply (Hf r).
    + intros E. rw E in Htin. apply H1. by apply (ci_disjoint _ _ _ HI r rt x).
  - intros _. split; [done|done|simpl; lia].
  - simpl. unfold thread_cache_bytecount_limit. lia.
  - simpl length. rw length_app. simpl co_limit. unfold per_cpu_cache_bytecount_limit, thread_cache_bytecount_limit in *. lia.
  - apply NoDup_singleton.
  - intros x ->%list_elem_of_singleton. split; [apply Ho|done].
  - split; [exact HI'|]. by apply put_iff.
Qed.

Lemma try_put_into_cpu_cache_spec s U L b siz a p use_threadcache :
  cache_inv s U L -> 0 <= b < first_huge_bin_number -> bin_2_size b = Some siz -> owned U L b a ->
  (use_threadcache = true -> L (Thread b 0) <> []) ->
  put_result s U L b a (try_put_into_cpu_cache use_threadcache a p b siz s).
Proof.
  intros HI Hb Hs Ho Ht. unfold try_put_into_cpu_cache. destruct use_threadcache.
  - specialize (Ht eq_refl). apply both_put; by apply try_put_part_spec.
  - apply both_put; by apply put_one_spec.
Qed.

Lemma do_put_into_global_cache_spec s U L b siz a p :
  cache_inv s U L -> 0 <= b < first_huge_bin_number -> bin_2_size b = Some siz -> owned U L b a ->
  put_result s U L b a (do_put_into_global_cache a (Cpu p b) b siz s).
Proof.
  intros HI Hb Hs Ho. destruct (owned_fresh s U L b a HI Ho) as [Ha Hf]. pose proof (cached_size _ _ Hb Hs) as Hsz.
  unfold do_put_into_global_cache, get_nonempty, get_co. rw !bind_gets. set (n := n_nonempty_caches s b). set (rc := Cpu p b 0).
  pose proof (ci_depth _ _ _ HI b) as Hdep. fold n in Hdep.
  destruct ((n <? global_cache_depth) && (per_cpu_cache_bytecount_limit <=? bytecount (co s rc))) eqn:Ec; [right|by left].
  apply andb_true_iff in Ec as [Hn%Z.ltb_lt Hbc%Z.leb_le]. unfold set_obj_next, set_nonempty, set_co. rw !bind_modify.
  eexists _, _. split; [done|]. pose proof (ci_ok _ _ _ HI rc siz I Hs) as Hok. pose proof (co_bytes _ _ _ _ Hok) as Hby.
  pose proof (ci_limit _ _ _ HI rc siz Hs) as Hlim. simpl co_limit in Hlim. set (rg := Global b n).
  assert (L rg = []) as Eg by (apply (ci_inactive _ _ _ HI); simpl; fold n; lia).
  pose proof (push_co _ _ _ _ a Hok Ha (Hf rc)) as Hpush.
  assert (head (co s rc) <> 0) as Hh.
  { destruct Hok as [Ht _ _]. destruct (L rc); [simpl length in Hby; unfold per_cpu_cache_bytecount_limit in Hbc; lia|]. destruct Ht as (-> & ? & _). lia. }
  rewrite -> (proj2 (Z.eqb_neq _ 0) Hh) in Hpush.
  assert (uadd 64 (bytecount (co s rc)) siz = bytecount (co s rc) + siz) as Ew.
  { apply uwrap_small. unfold is_uint, per_cpu_cache_bytecount_limit, thread_cache_bytecount_limit in *. lia. }
  assert (uwrap 8 (n + 1) = n + 1) as Ewn by (apply uwrap_small; unfold is_uint, global_cache_depth in *; lia).
  destruct (two_lists s (Cache (under s) (<[rc := empty_cached_objects]> (<[rg := Co (uadd 64 (bytecount (co s rc)) siz) a (tail (co s rc))]> (co s)))
      (<[b := uwrap 8 (n + 1)]> (n_nonempty_caches s)) (<[a := head (co s rc)]> (nexts s)) (cached_cpu s) (cached_cpu_count s))
    U L rc rg b siz empty_cached_objects (Co (bytecount (co s rc) + siz) a (tail (co s rc))) [] (a :: L rc) [a] [] HI) as [HI' Hc]; try done.
  - intros r H1 H2. simpl. by rw !fn_lookup_insert_ne.
  - simpl. by rw fn_lookup_insert.
  - simpl. by rw fn_lookup_insert_ne // fn_lookup_insert Ew.
  - intros b'. simpl. destruct (decide (b' = b)) as [->|Hne]; [rw fn_lookup_insert Ewn; lia|rw fn_lookup_insert_ne //; apply HI].
  - intros r H1 H2. simpl. destruct r as [| |b' j]; [done..|]. simpl. destruct (decide (b' = b)) as [->|Hne]; [rw fn_lookup_insert Ewn|by rw fn_lookup_insert_ne].
    fold n. split; [|lia]. intros Hj. assert (j <> n) by (intros ->; by apply H2). lia.
  - intros r x H1 H2 Hx. simpl. apply entry_insert_ne. intros <-. by apply (Hf r).
  - intros _. split; [done|done|simpl; lia].
  - intros Hna. exfalso. apply Hna. simpl. rw fn_lookup_insert Ewn. lia.
  - simpl. unfold per_cpu_cache_bytecount_limit, thread_cache_bytecount_limit. lia.
  - simpl length. simpl co_limit. lia.
  - by rw Eg app_nil_r.
  - apply NoDup_singleton.
  - intros x ->%list_elem_of_singleton. split; [apply Ho|done].
  - split; [exact HI'|]. by apply put_iff.
Qed.

(** The objects of the program after one was given back. *)
Definition given_back U L U' L' (b a : Z) : Prop := forall b' a', owned U' L' b' a' <-> owned U L b' a' /\ ~ (b' = b /\ a' = a).

Lemma put_given U L L' b a : put L L' b a -> given_back U L U L' b a.
Proof. intros Hp b' a'. unfold owned. rw (Hp b' a'). tauto. Qed.

Lemma under_free_spec s U L b a : cache_inv s U L -> 0 <= b < first_huge_bin_number -> owned U L b a ->
  exists s' U', (if b <? first_large_bin_number then on_under (a_small_free a) else on_under (a_large_free a)) s = Some (tt, s') /\
    cache_inv s' U' L /\ removed U U' b a /\ nexts s' = nexts s /\ co s' = co s.
Proof.
  intros HI Hb Ho. destruct (owned_fresh s U L b a HI Ho) as [Ha Hf]. pose proof Ho as [Hu _]. unfold on_under, zoom.
  assert (exists u U', (if b <? first_large_bin_number then a_small_free a else a_large_free a) (under s) = Some (tt, u) /\ holds u U' /\ removed U U' b a)
    as (u & U' & E & Hh & Hr).
  { case_ltb; [apply (a_small_free_ok (under s) U b a (ci_under _ _ _ HI)); [lia|done]|].
    apply (a_large_free_ok (under s) U b a (ci_under _ _ _ HI)); [lia|done]. }
  eexists _, U'. split; [destruct (b <? first_large_bin_number); by rw E|]. split_and!; [|done|done|done].
  apply (under_inv s U U'); [done..|]. intros r x Hx. apply Hr. split; [by apply HI|]. intros [_ ->]. by apply (Hf r).
Qed.

Lemma cached_free_spec s U L b a use_threadcache : cache_inv s U L -> 0 <= b < first_huge_bin_number -> owned U L b a ->
  exists s' U' L', cached_free use_threadcache a b s = Some (tt, s') /\ cache_inv s' U' L' /\ given_back U L U' L' b a.
Proof.
  intros HI Hb Ho. destruct (bin_2_size_some b) as [siz Hs]; [unfold first_huge_bin_number, bin_number_limit in *; lia|].
  unfold cached_free. rw bind_bassert; [apply Z.ltb_lt; lia|]. rw (bind_the _ _ _ _ Hs).
  assert (put_result s U L b a ((if use_threadcache then try_put_cached_both a (Thread b) siz thread_cache_bytecount_limit else mret false) s) /\
    ((if use_threadcache then try_put_cached_both a (Thread b) siz thread_cache_bytecount_limit else mret false) s = Some (false, s) ->
     use_threadcache = true -> L (Thread b 0) <> [])) as [[E|(s' & L' & E & HI' & Hp)] Hfull].
  { destruct use_threadcache; [|split; [by left|done]]. destruct (try_put_cached_spec s U L b siz a 0 HI Hb Hs Ho) as [H0 Hf].
    split; [apply both_put; [done|]; by apply try_put_cached_spec|]. intros E _. apply Hf. eapply both_put_inv; [|exact E].
    destruct H0 as [?|(s' & _ & ? & _)]; [by left|right; by exists s']. }
  2:{ rw (bind_Some _ _ _ _ _ E). exists s', U, L'. split_and!; [done..|]. by apply put_given. }
  rw (bind_Some _ _ _ _ _ E). specialize (Hfull E). destruct (getcpu_spec s U L HI) as (cpu & s1 & Ec & HI1 & _). rw (bind_Some _ _ _ _ _ Ec).
  set (p := cpu mod cpulimit).
  destruct (try_put_into_cpu_cache_spec s1 U L b siz a p use_threadcache HI1 Hb Hs Ho Hfull) as [E1|(s' & L' & E1 & HI' & Hp)].
  2:{ rw (bind_Some _ _ _ _ _ E1). exists s', U, L'. split_and!; [done..|]. by apply put_given. }
  rw (bind_Some _ _ _ _ _ E1). destruct (do_put_into_global_cache_spec s1 U L b siz a p HI1 Hb Hs Ho) as [E2|(s' & L' & E2 & HI' & Hp)].
  2:{ rw (bind_Some _ _ _ _ _ E2). exists s', U, L'. split_and!; [done..|]. by apply put_given. }
  rw (bind_Some _ _ _ _ _ E2). destruct (under_free_spec s1 U L b a HI1 Hb Ho) as (s2 & U' & E3 & HI2 & Hr & _).
  exists s2, U', L. split_and!; [done..|]. intros b' a'. unfold owned. rw (Hr b' a'). tauto.
Qed.

(** ** The end of a thread *)

Definition same_lists s s' : Prop := co s' = co s /\ nexts s' = nexts s.

Lemma bins_free_spec s U b a : holds (under s) U -> 0 <= b < first_huge_bin_number -> U b a ->
  exists s' U', (if b <? first_large_bin_number then on_under (a_small_free a) else on_under (a_large_free a)) s = Some (tt, s') /\
    holds (under s') U' /\ removed U U' b a /\ same_lists s s'.
Proof.
  intros Hh Hb Hu. unfold on_under, zoom.
  assert (exists u U', (if b <? first_large_bin_number then a_small_free a else a_large_free a) (under s) = Some (tt, u) /\ holds u U' /\ removed U U' b a)
    as (u & U' & E & Hh' & Hr).
  { case_ltb; [apply (a_small_free_ok (under s) U b a Hh); [lia|done]|]. apply (a_large_free_ok (under s) U b a Hh); [lia|done]. }
  eexists _, U'. by split; [destruct (b <? first_large_bin_number); by rw E|].
Qed.

(** The objects of one list are freed. *)
Lemma destroy_list_spec b l : 0 <= b < first_huge_bin_number -> forall fuel s U hd, holds (under s) U -> threaded (nexts s) hd l -> NoDup l ->
  (forall a, a ∈ l -> U b a) -> (length l < fuel)%nat ->
  exists s' U', loop fuel (destroy_body b) hd s = Some (tt, s') /\ holds (under s') U' /\ same_lists s s' /\
    forall b' a, U' b' a <-> U b' a /\ ~ (b' = b /\ a ∈ l).
Proof.
  intros Hb. induction l as [|x l IH]; intros fuel s U hd Hh Ht Hnd Hu Hfuel; simpl in Hfuel; (destruct fuel as [|fuel]; [lia|]).
  - simpl in Ht. subst hd. exists s, U. split_and!; [done|done|done|]. intros b' a. split; [|tauto]. intros Ha. split; [done|]. by intros [_ ?%elem_of_nil].
  - destruct Ht as (-> & Hx & Ht). apply NoDup_cons in Hnd as [Hn Hnd].
    destruct (bins_free_spec s U b x Hh Hb (Hu x ltac:(left))) as (s1 & U1 & E1 & Hh1 & Hr1 & [Ec En]).
    assert (destroy_body b x s = Some (inl (entry (nexts s) x), s1)) as E.
    { unfold destroy_body. rewrite -> (proj2 (Z.eqb_neq x 0)) by lia. unfold get_obj_next. rw bind_gets. by rw (bind_Some _ _ _ _ _ E1). }
    rw (loop_step _ _ _ _ _ _ E). destruct (IH fuel s1 U1 (entry (nexts s) x)) as (s2 & U2 & E2 & Hh2 & [Ec2 En2] & Hr2); [done|by rw En|done| |lia|].
    { intros a Ha. apply Hr1. split; [apply Hu; by right|]. by intros [_ ->]. }
    exists s2, U2. split_and!; [done|done|by rw /same_lists Ec2 En2|]. intros b' a. rw Hr2 (Hr1 b' a) elem_of_cons. tauto.
Qed.

Lemma destroy_bin_spec b s U L : 0 <= b < first_huge_bin_number -> holds (under s) U ->
  (forall j, threaded (nexts s) (head (co s (Thread b j))) (L (Thread b j)) /\ NoDup (L (Thread b j)) /\ (length (L (Thread b j)) < destroy_fuel)%nat) ->
  (forall j a, a ∈ L (Thread b j) -> U b a) -> (forall a, a ∈ L (Thread b 0) -> a ∉ L (Thread b 1)) ->
  exists s' U', foreach [0; 1] (fun j => c ← get_co (Thread b j); loop destroy_fuel (destroy_body b) (head c)) s = Some (tt, s') /\
    holds (under s') U' /\ same_lists s s' /\ forall b' a, U' b' a <-> U b' a /\ ~ (b' = b /\ (a ∈ L (Thread b 0) \/ a ∈ L (Thread b 1))).
Proof.
  intros Hb Hh HL Hu Hd. destruct (HL 0) as (T0 & N0 & F0). destruct (HL 1) as (T1 & N1 & F1).
  destruct (destroy_list_spec b _ Hb destroy_fuel s U _ Hh T0 N0 (Hu 0) F0) as (s1 & U1 & E1 & Hh1 & [Ec1 En1] & Hr1).
  destruct (destroy_list_spec b (L (Thread b 1)) Hb destroy_fuel s1 U1 (head (co s (Thread b 1))) Hh1) as (s2 & U2 & E2 & Hh2 & [Ec2 En2] & Hr2);
    [by rw En1|done| |done|].
  { intros a Ha. apply Hr1. split; [by apply (Hu 1)|]. intros [_ Ha0]. by apply (Hd a). }
  exists s2, U2. split_and!; [|done|by rw /same_lists Ec2 En2|intros b' a; rw Hr2 Hr1; tauto].
  cbn [foreach]. assert ((c ← get_co (Thread b 0); loop destroy_fuel (destroy_body b) (head c)) s = Some (tt, s1)) as G1 by done.
  rw (bind_Some _ _ _ _ _ G1). assert ((c ← get_co (Thread b 1); loop destroy_fuel (destroy_body b) (head c)) s1 = Some (tt, s2)) as G2
    by (unfold get_co; by rw bind_gets Ec1).
  by rw (bind_Some _ _ _ _ _ G2).
Qed.

Lemma destroy_bins_spec L bins : NoDup bins -> (forall b, b ∈ bins -> 0 <= b < first_huge_bin_number) ->
  (forall b j, NoDup (L (Thread b j)) /\ (b ∈ bins -> (length (L (Thread b j)) < destroy_fuel)%nat)) ->
  (forall b a, a ∈ L (Thread b 0) -> a ∉ L (Thread b 1)) -> forall s U, holds (under s) U ->
  (forall b j, b ∈ bins -> threaded (nexts s) (head (co s (Thread b j))) (L (Thread b j))) -> (forall b j a, b ∈ bins -> a ∈ L (Thread b j) -> U b a) ->
  exists s' U', foreach bins (fun bin => foreach [0; 1] (fun j => c ← get_co (Thread bin j); loop destroy_fuel (destroy_body bin) (head c))) s = Some (tt, s') /\
    holds (under s') U' /\ forall b' a, U' b' a <-> U b' a /\ ~ (b' ∈ bins /\ (a ∈ L (Thread b' 0) \/ a ∈ L (Thread b' 1))).
Proof.
  intros Hnd. induction Hnd as [|b bins Hn Hnd IH]; intros Hb HN Hd s U Hh HT Hu.
  - exists s, U. split_and!; [done|done|]. intros b' a. split; [|tauto]. intros Ha. split; [done|]. by intros [?%elem_of_nil _].
  - destruct (destroy_bin_spec b s U L (Hb b ltac:(left)) Hh) as (s1 & U1 & E1 & Hh1 & [Ec En] & Hr1).
    { intros j. split_and!; [apply HT; left|apply HN|apply HN; left]. }
    { intros j a. apply Hu. left. }
    { apply Hd. }
    destruct (IH ltac:(intros b' ?; apply Hb; by right)) with (s := s1) (U := U1) as (s2 & U2 & E2 & Hh2 & Hr2); try done.
    { intros b' j. split; [apply HN|]. intros ?. apply HN. by right. }
    { intros b' j Hb'. rw En Ec. apply HT. by right. }
    { intros b' j a Hb' Ha. apply Hr1. split; [apply (Hu b' j); [by right|done]|]. intros [-> _]. done. }
    exists s2, U2. split_and!; [|done|].
    + change (foreach (b :: bins) ?f s) with ((f b;; foreach bins f) s). by rw (bind_Some _ _ _ _ _ E1).
    + intros b' a. rw Hr2 Hr1 elem_of_cons. split.
      * intros [[Ha H1] H2]. split; [done|]. intros [[->|Hb'] H]; tauto.
      * intros [Ha H]. split; [split; [done|]|].
        -- intros [-> ?]. tauto.
        -- tauto.
Qed.

Lemma cache_destructor_spec s U L : cache_inv s U L ->
  exists s' U', cache_destructor s = Some (tt, s') /\ holds (under s') U' /\
    forall b a, U' b a <-> U b a /\ ~ (0 <= b < first_huge_bin_number /\ (a ∈ L (Thread b 0) \/ a ∈ L (Thread b 1))).
Proof.
  intros HI. assert (forall b, b ∈ seqZ 0 first_huge_bin_number <-> 0 <= b < first_huge_bin_number) as Hseq.
  { intros b. rw elem_of_seqZ. lia. }
  assert (forall b, b ∈ seqZ 0 first_huge_bin_number -> exists siz, bin_2_size b = Some siz /\ 8 <= siz) as Hsize.
  { intros b Hb%Hseq. destruct (bin_2_size_some b) as [siz Hs]; [unfold first_huge_bin_number, bin_number_limit in *; lia|].
    exists siz. split; [done|]. by apply (cached_size b siz Hb). }
  destruct (destroy_bins_spec L (seqZ 0 first_huge_bin_number) (NoDup_seqZ _ _)) with (s := s) (U := U) as (s' & U' & E & Hh & Hr).
  - intros b. apply Hseq.
  - intros b j. split; [apply HI|]. intros (siz & Hs & H8)%Hsize. pose proof (ci_limit _ _ _ HI (Thread b j) siz Hs) as Hl. simpl co_limit in Hl.
    unfold thread_cache_bytecount_limit in Hl. assert (Z.of_nat (length (L (Thread b j))) < 2048); [nia|].
    assert (Z.of_nat destroy_fuel = 2048) by by vm_compute. lia.
  - intros b a H0 H1. by pose proof (ci_disjoint _ _ _ HI _ _ a H0 H1).
  - apply HI.
  - intros b j (siz & Hs & _)%Hsize. by apply (ci_ok _ _ _ HI (Thread b j) siz I Hs).
  - intros b j a _ Ha. by apply (ci_in_use _ _ _ HI (Thread b j)).
  - exists s', U'. split_and!; [done|done|]. intros b a. rw Hr Hseq. done.
Qed.

Lemma no_cache_inv (u : S) : holds u (fun _ _ => False) -> cache_inv (no_cache u) (fun _ _ => False) (fun _ => []).
Proof.
  intros Hu. split; simpl.
  - done.
  - intros b. done.
  - intros r siz _ _. split; [done|done|]. simpl. lia.
  - intros r siz (info & Hi & <-)%bin_static. pose proof (static_bin_range _ _ Hi).
    by_table 0 74 (fun (_ : Z) (i : static_bin_s) => 0 <=? object_size i).
    unfold co_limit, thread_cache_bytecount_limit, per_cpu_cache_bytecount_limit. destruct r; simpl; lia.
  - done.
  - intros b j Hj. lia.
  - by intros r a ?%elem_of_nil.
  - constructor.
  - by intros r r' a ?%elem_of_nil.
Qed.
End specs.
