(* ===== verification/Bins.v ===== *)
(** * The bins of src/memory as one component.

    Small and large objects and blocks of chunks share the table of the chunks.
    Together they are the [Allocator] that the caches are built on. *)
From stdpp Require Import functions.
From S2P Require Import Prelude Words StateMonad Sizeclass Makechunk Huge Small SmallSpec SmallAlloc SmallProgram Footprint Large Cache.
#[local] Open Scope Z_scope.

Section state.
Context {K : Kernel} {T : Scheduler}.

(** The global variables of small_malloc.cpp, large_malloc.cpp, huge_malloc.cpp
    and footprint.cpp. *)
Record bins : Type := Bins {
  b_small : small K;
  b_free_large : list Z;
  b_cells : gmap Z Z;
  b_footprint : footprint T;
}.

Definition b_large (s : bins) : large K T := Large (s_chunks (b_small s)) (b_free_large s) (b_cells s) (b_footprint s).

Definition set_chunks (ch : chunks K) (s : small K) : small K := Small ch (lists s) (fullest_offset s) (folios s).

Definition on_small {A} (m : M (small K) A) : M bins A :=
  zoom b_small (fun u s => Bins u (b_free_large s) (b_cells s) (b_footprint s)) m.
Definition on_large {A} (m : M (large K T) A) : M bins A :=
  zoom b_large (fun l s => Bins (set_chunks (l_chunks l) (b_small s)) (free_large_objects l) (cells l) (l_footprint l)) m.
Definition on_bin_chunks {A} (m : M (chunks K) A) : M bins A := on_small (on_chunks m).

#[export] Instance bins_allocator : Allocator bins := {|
  a_small_malloc b := on_small (small_malloc b);
  a_large_malloc size := on_large (large_malloc size);
  a_small_free p := on_small (small_free p);
  a_large_free p := on_large (large_free p);
  a_sched_getcpu := on_large (on_footprint call_getcpu);
|}.
End state.
Arguments bins : clear implicits.

(** ** Frames *)

Section frames.
Context {K : Kernel} {T : Scheduler}.

(** A huge block that is in use: its address, size, first chunk and length. *)
Record huge_block : Set := HugeBlock { hb_address : Z; hb_size : Z; hb_chunk : Z; hb_log : Z }.

Definition huge_own (hb : list huge_block) : list Z := hb ≫= fun h => chunks_of (hb_chunk h, hb_log h).

Definition huge_ok (ch : chunks K) (h : huge_block) : Prop :=
  huge_live ch (hb_address h) (hb_size h) (hb_chunk h) (hb_log h).

Lemma huge_own_chunk hb h : h ∈ hb -> 0 <= hb_log h -> hb_chunk h ∈ huge_own hb.
Proof.
  intros Hh Hk. unfold huge_own. apply list_elem_of_bind. exists h. split; [|done]. by apply (chunks_of_start (hb_chunk h, hb_log h)).
Qed.

Lemma huge_ok_frame ch ch' h : huge_ok ch h ->
  entry (chunk_infos ch') (hb_chunk h) = entry (chunk_infos ch) (hb_chunk h) -> huge_ok ch' h.
Proof. intros [H1 H2 H3 H4 H5 H6 H7 H8 H9] E. split; [done..|by rw E|by rw E|done]. Qed.
End frames.

(** ** The invariant of the bins *)

Section invariant.
Context {K : Kernel} {T : Scheduler}.
Implicit Type s : bins K T.

Definition large_own (lc : list (Z * Z)) : list Z := address_2_chunknumber <$> lc.*2.

(** The ghost state: the chunks and the objects of each kind. *)
Record ghost : Type := Ghost {
  g_free : list (list Z);
  g_small : list Z;
  g_bins : Z -> list Z;
  g_large : list (Z * Z);
  g_live : list Z;
  g_lists : list (list Z);
}.

(** [U] are the objects in use, [hb] the huge blocks, and [tbl] the chunks that
    are mapped for other reasons. *)
Record bins_inv s (g : ghost) (U : objects) (hb : list huge_block) (tbl : list Z) : Prop := {
  bi_small : small_inv (b_small s) (g_free g) (large_own (g_large g) ++ huge_own hb ++ tbl) (g_small g) (g_bins g);
  bi_large : large_inv (b_large s) (g_free g) (g_small g ++ huge_own hb ++ tbl) (g_large g) (g_live g) (g_lists g);
  bi_huge : Forall (huge_ok (s_chunks (b_small s))) hb;
  bi_objects b a : U b a <-> in_use (b_small s) (g_bins g) b a \/ large_in_use (g_large g) (g_live g) b a;
}.

(** The chunks that are in use by anybody. *)
Definition all_own (g : ghost) (hb : list huge_block) (tbl : list Z) : list Z :=
  g_small g ++ large_own (g_large g) ++ huge_own hb ++ tbl.

Lemma bins_chunks s g U hb tbl : bins_inv s g U hb tbl -> huge_inv (s_chunks (b_small s)) (g_free g) (all_own g hb tbl).
Proof. intros [Hs _ _ _]. apply Hs. Qed.

(** A change of the table and of the free chunks that keeps the bins. *)
Lemma bins_inv_chunks s g U hb tbl ch fl' hb' tbl' :
  bins_inv s g U hb tbl -> huge_inv ch fl' (all_own g hb' tbl') -> Forall (huge_ok ch) hb' ->
  (forall x, x ∈ g_small g \/ x ∈ large_own (g_large g) -> entry (chunk_infos ch) x = entry (chunk_infos (s_chunks (b_small s))) x) ->
  bins_inv (Bins (set_chunks ch (b_small s)) (b_free_large s) (b_cells s) (b_footprint s))
    (Ghost fl' (g_small g) (g_bins g) (g_large g) (g_live g) (g_lists g)) U hb' tbl'.
Proof.
  intros [Hs Hl Hh HU] Hch Hh' Hsame. split; simpl; [| |done|].
  - apply (small_inv_chunks _ _ _ _ _ ch fl' _ Hs); [done|]. intros x Hx. apply Hsame. by left.
  - apply (large_inv_chunks _ _ _ _ _ _ ch fl' _ Hl).
    + eapply huge_inv_perm; [|exact Hch]. unfold all_own. rw !app_assoc. do 2 f_equiv. apply Permutation_app_comm.
    + intros x Hx. apply Hsame. by right.
  - done.
Qed.

(** Where an object in use is. *)
Record located (ch : chunks K) (b a : Z) (info : static_bin_s) (c f k : Z) : Prop := {
  lc_bin : 0 <= b < first_huge_bin_number;
  lc_info : static_bin b = Some info;
  lc_layout : layout_ok info;
  lc_chunk : is_chunk c;
  lc_object : object_ok info f k;
  lc_address : a = object_address info c f k;
  lc_entry : entry (chunk_infos ch) (address_2_chunknumber c) <> 0;
  lc_table : chunk_bin ch c = Some b;
}.

Lemma object_located s g U hb tbl b a : bins_inv s g U hb tbl -> U b a ->
  exists info c f k, located (s_chunks (b_small s)) b a info c f k /\ (address_2_chunknumber c ∈ g_small g \/ address_2_chunknumber c ∈ large_own (g_large g)).
Proof.
  intros [Hs Hl _ HU] [(Hb & info & c & f & k & Hi & Hc & Hok & -> & _)|(info & c & i & Hc & Hi & Hr & -> & _)]%HU.
  - destruct (si_chunk _ _ _ _ _ Hs b c Hb Hc) as (Hch & Hnz & Hbin). exists info, c, f, k. split.
    + split; try done; [unfold first_large_bin_number, first_huge_bin_number in *; lia|]. by apply (small_layout b); [|lia].
    + left. apply (si_chunks _ _ _ _ _ Hs). by exists b, c.
  - destruct (li_chunk _ _ _ _ _ _ Hl b c Hc) as (Hb & Hch & Hnz & Hbin). destruct (large_object b info c i) as (Hok & HL & _); [done..|].
    exists info, c, i, 0. split.
    + split; try done. unfold large_bin, first_large_bin_number in Hb. lia.
    + right. unfold large_own. apply list_elem_of_fmap. exists c. split; [done|]. apply list_elem_of_fmap. by exists (b, c).
Qed.

Lemma located_chunk ch b a info c f k x : located ch b a info c f k -> 0 <= x < object_size info ->
  address_2_chunknumber (a + x) = address_2_chunknumber c /\ address_2_chunkaddress (a + x) = c /\
  offset_in_chunk (a + x) = object_address info 0 f k + x /\ 0 < a /\ c * 1 < a /\ a + x < c + chunksize.
Proof.
  intros [Hb Hi HL Hc Hok -> _ _] Hx. pose proof (object_offset info f k x HL Hok Hx) as Hr.
  pose proof (object_offset info f k 0 HL Hok ltac:(lia)) as Hr0. pose proof (lo_overhead _ HL). pose proof (is_chunk_pos c Hc).
  unfold pagesize in *. rw object_address_shift -Z.add_assoc.
  split_and!; [apply chunk_number_same|apply chunk_address|apply chunk_offset|..]; (done || lia).
Qed.

Lemma located_apart ch b b' a a' info info' c c' f f' k k' x x' :
  located ch b a info c f k -> located ch b' a' info' c' f' k' -> 0 <= x < object_size info -> 0 <= x' < object_size info' ->
  a + x = a' + x' -> b = b' /\ a = a'.
Proof.
  intros H H' Hx Hx' E. destruct (located_chunk _ _ _ _ _ _ _ x H Hx) as (_ & Ec & _). destruct (located_chunk _ _ _ _ _ _ _ x' H' Hx') as (_ & Ec' & _).
  assert (c = c') as <- by congruence. destruct H as [Hb Hi HL Hc Hok -> _ Ht]. destruct H' as [Hb' Hi' HL' Hc' Hok' -> _ Ht'].
  assert (b = b') as <- by congruence. assert (info = info') as <- by congruence.
  destruct (objects_disjoint info c c f k x f' k' x') as (_ & -> & ->); done.
Qed.
End invariant.

(** ** The bins are an allocator *)

Section instance.
Context {K : Kernel} {KO : KernelOk K} {T : Scheduler} {TO : SchedulerOk T}.
Implicit Type s : bins K T.

Lemma on_small_Some {A} (m : M (small K) A) s r u : m (b_small s) = Some (r, u) ->
  on_small m s = Some (r, Bins u (b_free_large s) (b_cells s) (b_footprint s)).
Proof. intros E. unfold on_small, zoom. by rw E. Qed.

Lemma on_large_Some {A} (m : M (large K T) A) s r l : m (b_large s) = Some (r, l) ->
  on_large m s = Some (r, Bins (set_chunks (l_chunks l) (b_small s)) (free_large_objects l) (cells l) (l_footprint l)).
Proof. intros E. unfold on_large, zoom. by rw E. Qed.

(** What a change of the small objects has to keep. *)
Lemma bins_inv_small s g U hb tbl u sc css U' : bins_inv s g U hb tbl ->
  let own := large_own (g_large g) ++ huge_own hb ++ tbl in
  small_inv u (g_free g) own sc css ->
  (forall x, x ∈ own -> entry (chunk_infos (s_chunks u)) x = entry (chunk_infos (s_chunks (b_small s))) x) ->
  (forall b a, U' b a <-> in_use u css b a \/ large_in_use (g_large g) (g_live g) b a) ->
  bins_inv (Bins u (b_free_large s) (b_cells s) (b_footprint s)) (Ghost (g_free g) sc css (g_large g) (g_live g) (g_lists g)) U' hb tbl.
Proof.
  intros [Hs Hl Hh HU] own Hu Hsame HU'. split; simpl; [done| | |done].
  - apply (large_inv_chunks _ _ _ _ _ _ (s_chunks u) (g_free g) _ Hl).
    + eapply huge_inv_perm; [|apply (si_huge _ _ _ _ _ Hu)]. unfold own, large_own. rw !app_assoc. do 2 f_equiv. apply Permutation_app_comm.
    + intros x Hx. apply Hsame. unfold own. apply elem_of_app. by left.
  - apply Forall_forall. intros h Hh'. rw Forall_forall in Hh. pose proof (Hh h Hh') as Hlive. apply (huge_ok_frame _ _ _ Hlive). apply Hsame. unfold own.
    rw !elem_of_app. right. left. apply huge_own_chunk; [done|]. by destruct Hlive as [_ _ _ [? _] _ _ _ _].
Qed.

Lemma bins_inv_large s g U hb tbl l lc live fls U' : bins_inv s g U hb tbl ->
  let own := g_small g ++ huge_own hb ++ tbl in
  large_inv l (g_free g) own lc live fls ->
  (forall x, x ∈ own -> entry (chunk_infos (l_chunks l)) x = entry (chunk_infos (s_chunks (b_small s))) x) ->
  (forall b a, U' b a <-> in_use (b_small s) (g_bins g) b a \/ large_in_use lc live b a) ->
  bins_inv (Bins (set_chunks (l_chunks l) (b_small s)) (free_large_objects l) (cells l) (l_footprint l))
    (Ghost (g_free g) (g_small g) (g_bins g) lc live fls) U' hb tbl.
Proof.
  intros [Hs Hl Hh HU] own Hu Hsame HU'. split; simpl; [| | |done].
  - apply (small_inv_chunks _ _ _ _ _ (l_chunks l) (g_free g) _ Hs).
    + eapply huge_inv_perm; [|apply (li_huge _ _ _ _ _ _ Hu)]. unfold own, large_own. rw !app_assoc. do 2 f_equiv. apply Permutation_app_comm.
    + intros x Hx. apply Hsame. unfold own. apply elem_of_app. by left.
  - by destruct l.
  - apply Forall_forall. intros h Hh'. rw Forall_forall in Hh. pose proof (Hh h Hh') as Hlive. apply (huge_ok_frame _ _ _ Hlive). apply Hsame. unfold own.
    rw !elem_of_app. right. left. apply huge_own_chunk; [done|]. by destruct Hlive as [_ _ _ [? _] _ _ _ _].
Qed.

Lemma in_use_bin s g U hb tbl b a : bins_inv s g U hb tbl -> U b a ->
  (0 <= b < first_large_bin_number /\ in_use (b_small s) (g_bins g) b a) \/ (large_bin b /\ large_in_use (g_large g) (g_live g) b a).
Proof.
  intros [Hs Hl _ HU] [H|H]%HU; [left; split; [apply H|done]|right]. split; [|done]. destruct H as (info & c & i & Hc & _).
  by apply (li_chunk _ _ _ _ _ _ Hl b c Hc).
Qed.

Lemma bins_small_malloc s g U hb tbl b : bins_inv s g U hb tbl -> 0 <= b < first_large_bin_number ->
  exists r s' g' U', on_small (small_malloc b) s = Some (r, s') /\ bins_inv s' g' U' hb tbl /\
    ((r = 0 /\ refuses 1 (s_chunks (b_small s)) /\ same_objects U U') \/ (0 < r /\ added U U' b r)).
Proof.
  intros HI Hb. pose proof HI as [Hs _ _ HU]. destruct (small_malloc_spec _ _ _ _ _ b Hs Hb) as (r & u & E & Hsame & sc & css & Hu & Hr).
  eexists r, _, _, (fun b' a => in_use u css b' a \/ large_in_use (g_large g) (g_live g) b' a). split; [by apply on_small_Some|].
  split; [by apply (bins_inv_small s g U hb tbl u sc css _ HI Hu Hsame)|].
  destruct Hr as [(-> & Hno & Hin)|(Hpos & Hnew & Hin)]; [left; split_and!; [done..|]|right; split; [done|split]].
  - intros b' a. by rw Hin HU.
  - rw HU. intros [?|?]; [done|]. destruct (in_use_bin s g U hb tbl b r HI) as [[_ ?]|[Hl _]]; [apply HU; by right|done|]. unfold large_bin in Hl. lia.
  - intros b' a. rw Hin HU. tauto.
Qed.

Lemma bins_large_malloc s g U hb tbl b siz : bins_inv s g U hb tbl -> large_bin b -> bin_2_size b = Some siz ->
  (on_large (large_malloc siz) s = None /\ refuses 1 (s_chunks (b_small s))) \/
  exists r s' g' U', on_large (large_malloc siz) s = Some (r, s') /\ bins_inv s' g' U' hb tbl /\ 0 < r /\ added U U' b r.
Proof.
  intros HI Hb Hs. pose proof HI as [_ Hl _ HU].
  assert (size_2_bin siz = b) as Eb.
  { apply size_2_bin_of_bin; [done|]. destruct (large_bin_info b Hb) as (info & Hi & _ & Hsz). rw Hs in Hsz. simplify_eq.
    destruct Hb as [Hb1 Hb2]. by_table 40 7 (fun (_ : Z) (i : static_bin_s) => object_size i <=? 2 ^ 47). done. }
  destruct (large_malloc_spec _ _ _ _ _ _ siz Hl) as [[E Hno]|(r & l & lc & x & fls & E & _ & _ & _ & Hsame & Hl' & Hpos & _ & Hnew & Hin)]; [by rw Eb| |].
  - left. split; [unfold on_large, zoom; by rw E|done].
  - right. rw Eb in Hnew Hin. eexists r, _, _, (fun b' a => in_use (b_small s) (g_bins g) b' a \/ large_in_use lc (x :: g_live g) b' a). split; [by apply on_large_Some|].
    split; [by apply (bins_inv_large s g U hb tbl l lc _ fls _ HI Hl' Hsame)|]. split; [done|]. split.
    + rw HU. intros [?|?]; [|done]. destruct (in_use_bin s g U hb tbl b r HI) as [[Hx _]|[_ ?]]; [apply HU; by left|unfold large_bin in Hb; lia|done].
    + intros b' a. rw Hin HU. tauto.
Qed.

Lemma bins_small_free s g U hb tbl b a : bins_inv s g U hb tbl -> 0 <= b < first_large_bin_number -> U b a ->
  exists s' g' U', on_small (small_free a) s = Some (tt, s') /\ bins_inv s' g' U' hb tbl /\ removed U U' b a.
Proof.
  intros HI Hb Hu. pose proof HI as [Hs _ _ HU]. destruct (in_use_bin s g U hb tbl b a HI Hu) as [[_ Hin]|[Hl _]]; [|unfold large_bin in Hl; lia].
  destruct (small_free_spec _ _ _ _ _ b a Hs Hin) as (u & E & Ech & Hu' & Hin').
  eexists _, _, (fun b' a => in_use u (g_bins g) b' a \/ large_in_use (g_large g) (g_live g) b' a). split; [by apply on_small_Some|].
  split; [apply (bins_inv_small s g U hb tbl u _ _ _ HI Hu'); [intros x _; by rw Ech|done]|].
  intros b' a'. rw Hin' HU. split; [|tauto]. intros [?|Hlu]; [tauto|]. split; [by right|]. intros [-> ->].
  destruct (in_use_bin s g U hb tbl b a HI) as [[_ _]|[Hl _]]; [apply HU; by right| |unfold large_bin in Hl; lia].
  destruct Hlu as (info & c & i & Hc & _). destruct (li_chunk _ _ _ _ _ _ (bi_large _ _ _ _ _ HI) b c Hc) as [Hl _]. unfold large_bin in Hl. lia.
Qed.

Lemma bins_large_free s g U hb tbl b a : bins_inv s g U hb tbl -> large_bin b -> U b a ->
  exists s' g' U', on_large (large_free a) s = Some (tt, s') /\ bins_inv s' g' U' hb tbl /\ removed U U' b a.
Proof.
  intros HI Hb Hu. pose proof HI as [_ Hl _ HU]. destruct (in_use_bin s g U hb tbl b a HI Hu) as [[Hx _]|[_ Hin]]; [unfold large_bin in Hb; lia|].
  destruct (large_free_spec _ _ _ _ _ _ b a Hl Hin) as (l & live & fls & E & Ech & Hl' & _ & _ & Hin').
  eexists _, _, (fun b' a => in_use (b_small s) (g_bins g) b' a \/ large_in_use (g_large g) live b' a). split; [by apply on_large_Some|].
  split; [apply (bins_inv_large s g U hb tbl l _ _ _ _ HI Hl'); [by rw Ech|done]|].
  intros b' a'. rw Hin' HU. split; [|tauto]. intros [Hsu|?]; [|tauto]. split; [by left|]. intros [-> ->].
  destruct Hsu as [Hx _]. unfold large_bin in Hb. lia.
Qed.

Lemma bins_getcpu s g U hb tbl : bins_inv s g U hb tbl ->
  exists c s', on_large (on_footprint call_getcpu) s = Some (c, s') /\ bins_inv s' g U hb tbl /\ s_chunks (b_small s') = s_chunks (b_small s).
Proof.
  intros HI. unfold on_large, on_footprint, zoom, call_getcpu. destruct (sched_getcpu (sched (l_footprint (b_large s)))) as [c t].
  eexists c, _. split; [done|]. split; [|done]. destruct HI as [Hs Hl Hh HU].
  assert (forall u : small K, set_chunks (s_chunks u) u = u) as Eset by by intros [].
  split; simpl; rw ?Eset; [done| |done|done]. destruct Hl as [H1 H2 H3 H4 H5 H6 H7 H8]. split; try done. simpl. destruct H8 as [[? ?] ?]. by split.
Qed.

(** The instance, for given huge blocks. *)
#[export] Instance bins_ok (hb : list huge_block) (tbl : list Z) : AllocatorOk (bins_allocator (K := K) (T := T)).
Proof.
  refine {| holds s U := exists g, bins_inv s g U hb tbl; out_of_memory s := refuses 1 (s_chunks (b_small s)) |}.
  - intros s U U' (g & [H1 H2 H3 H4]) Hsame. exists g. split; [done..|]. intros b a. by rw (Hsame b a).
  - intros s U b a (g & HI) Hu. destruct (object_located _ _ _ _ _ _ _ HI Hu) as (info & c & f & k & Hl & _).
    pose proof (lo_object _ (lc_layout _ _ _ _ _ _ _ Hl)). apply (located_chunk _ _ _ _ _ _ _ 0 Hl). lia.
  - intros s U b b' a (g & HI) Hu Hu'. destruct (object_located _ _ _ _ _ _ _ HI Hu) as (info & c & f & k & Hl & _).
    destruct (object_located _ _ _ _ _ _ _ HI Hu') as (info' & c' & f' & k' & Hl' & _).
    pose proof (lo_object _ (lc_layout _ _ _ _ _ _ _ Hl)). pose proof (lo_object _ (lc_layout _ _ _ _ _ _ _ Hl')).
    apply (located_apart _ _ _ _ _ _ _ _ _ _ _ _ _ 0 0 Hl Hl'); lia.
  - intros s U b (g & HI) Hb. destruct (bins_small_malloc s g U hb tbl b HI Hb) as (r & s' & g' & U' & E & HI' & Hr).
    exists r, s', U'. split_and!; [done|by exists g'|done].
  - intros s U b siz (g & HI) Hb Hs. destruct (bins_large_malloc s g U hb tbl b siz HI Hb Hs) as [?|(r & s' & g' & U' & E & HI' & Hr)]; [by left|right].
    exists r, s', U'. split_and!; [done|by exists g'|by apply Hr|by apply Hr].
  - intros s U b a (g & HI) Hb Hu. destruct (bins_small_free s g U hb tbl b a HI Hb Hu) as (s' & g' & U' & E & HI' & Hr).
    exists s', U'. split_and!; [done|by exists g'|done].
  - intros s U b a (g & HI) Hb Hu. destruct (bins_large_free s g U hb tbl b a HI Hb Hu) as (s' & g' & U' & E & HI' & Hr).
    exists s', U'. split_and!; [done|by exists g'|done].
  - intros s U (g & HI). destruct (bins_getcpu s g U hb tbl HI) as (c & s' & E & HI' & Ech).
    exists c, s'. split_and!; [done|by exists g|by rw Ech].
Defined.
End instance.

(** ** The bins at the start *)

Section start.
Context {K : Kernel} {T : Scheduler}.

Definition no_bins (o : os K) (t : sstate) : bins K T :=
  Bins (no_small o) (replicate 7 0) ∅ (Footprint t 0 0 (replicate (Z.to_nat processor_number_limit) 0)).

Lemma no_bins_inv (o : os K) (t : @sstate T) :
  bins_inv (no_bins o t) (Ghost (replicate (Z.to_nat log_max_chunknumber) []) [] (fun _ => []) [] [] (replicate 7 [])) (fun _ _ => False) [] [].
Proof.
  split; simpl.
  - apply no_small_inv.
  - split; simpl.
    + apply no_chunks_inv.
    + by intros b c ?%elem_of_nil.
    + by repeat constructor.
    + done.
    + done.
    + constructor.
    + intros j l x Hl Hx. apply (lookup_replicate 7 (@nil Z)) in Hl as [-> _]. by apply elem_of_nil in Hx.
    + split; [split; simpl; [done|done]|done].
  - constructor.
  - intros b a. split; [done|]. intros [(_ & info & c & f & k & _ & ?%elem_of_nil & _)|(info & c & i & ?%elem_of_nil & _)]; done.
Qed.
End start.
