(* ===== verification/CacheProgram.v ===== *)
(** * src/memory/cache.cpp: programs above the caches.

    The caches stand between the program and any allocator of bins that keeps
    the laws of [AllocatorOk]: the program gets objects that it does not have, the
    caches stay within their limits, and a thread that ends gives its objects
    back. *)
From S2P Require Import Prelude Words StateMonad Sizeclass Makechunk Huge Footprint Cache CacheSpec Bins.
#[local] Open Scope Z_scope.

Inductive cache_op : Set := CMalloc (bin : Z) | CFree (i : nat).

Definition cache_op_ok (op : cache_op) : Prop :=
  match op with CMalloc bin => 0 <= bin < first_huge_bin_number | CFree _ => True end.

Section client.
Context {S : Type} {A : Allocator S}.
Variable use_threadcache : bool.

(** The objects of the program, with their bins. *)
Definition cache_exec (op : cache_op) (held : list (Z * Z)) : M (cache S) (list (Z * Z)) :=
  match op with
  | CMalloc bin => r ← cached_malloc use_threadcache bin; mret (if r =? 0 then held else (bin, r) :: held)
  | CFree i =>
      match held !! i with
      | Some (bin, p) => cached_free use_threadcache p bin;; mret (delete i held)
      | None => mret held
      end
  end.

Fixpoint cache_script (ops : list cache_op) (held : list (Z * Z)) : M (cache S) (list (Z * Z)) :=
  match ops with
  | [] => mret held
  | op :: ops => held ← cache_exec op held; cache_script ops held
  end.
End client.

(** What the program has after an operation that did what was asked. *)
Definition cache_granted (op : cache_op) (held held' : list (Z * Z)) : Prop :=
  match op with
  | CMalloc bin => exists p, 0 < p /\ held' = (bin, p) :: held
  | CFree i => held' = if held !! i is Some _ then delete i held else held
  end.

Section specs.
Context {S : Type} {A : Allocator S} {AO : AllocatorOk A}.
Variable use_threadcache : bool.
Implicit Type s : cache S.

Record cache_rep s (held : list (Z * Z)) : Prop := {
  cr_inv : exists U L, cache_inv s U L /\ forall b a, owned U L b a <-> (b, a) ∈ held;
  cr_nodup : NoDup held;
  cr_bins b a : (b, a) ∈ held -> 0 <= b < first_huge_bin_number;
}.

Lemma cache_exec_spec s held op : cache_rep s held -> cache_op_ok op ->
  match cache_exec use_threadcache op held s with
  | None => (exists b, op = CMalloc b) /\ out_of_memory (under s)
  | Some (held', s') => cache_rep s' held' /\ (cache_granted op held held' \/ (exists b, op = CMalloc b) /\ held' = held /\ out_of_memory (under s))
  end.
Proof.
  intros [(U & L & HI & Hu) Hnd Hbins] Hop. destruct op as [bin|i]; cbn [cache_exec].
  - pose proof (cached_malloc_spec s U L bin use_threadcache HI Hop) as Hr. unfold malloc_result in Hr. unfold mbind, M_bind.
    destruct (cached_malloc use_threadcache bin s) as [[r s']|]; [|by split; [exists bin|]]. destruct Hr as (U' & L' & HI' & [(-> & Hno & Hsame)|(Hpos & Hn & Hin)]); simpl.
    + split; [|right; by split; [exists bin|]]. split; [|done|done]. exists U', L'. split; [done|]. intros b a. by rw -Hu (Hsame b a).
    + rewrite -> (proj2 (Z.eqb_neq r 0)) by lia. split; [|left; by exists r]. split.
      * exists U', L'. split; [done|]. intros b a. rw Hin Hu elem_of_cons. split; [intros [?|[-> ->]]; tauto|intros [?|?]; [simplify_eq; tauto|tauto]].
      * constructor; [by rw -Hu|done].
      * intros b a [?|?]%elem_of_cons; [by simplify_eq|by apply (Hbins b a)].
  - destruct (held !! i) as [[b p]|] eqn:Hi; [|split; [split; [by exists U, L|done|done]|left; simpl; by rw Hi]].
    assert ((b, p) ∈ held) as Hin by by eapply list_elem_of_lookup_2.
    destruct (cached_free_spec s U L b p use_threadcache HI (Hbins b p Hin) ltac:(by apply Hu)) as (s' & U' & L' & E & HI' & Hg). rw (bind_Some _ _ _ _ _ E). simpl.
    pose proof (delete_Permutation held i (b, p) Hi) as Hp. split; [|left; simpl; by rw Hi]. set (rest := delete i held) in *. clearbody rest.
    rw Hp in Hnd. apply NoDup_cons in Hnd as [Hn Hnd]. split; [|done|intros b' a Ha; apply (Hbins b' a); rw Hp; by right].
    exists U', L'. split; [done|]. intros b' a. rw (Hg b' a) Hu Hp elem_of_cons. split; [intros [[?|?] ?]; [simplify_eq; tauto|done]|].
    intros Hx. split; [by right|]. by intros [-> ->].
Qed.

Lemma cache_script_spec ops : Forall cache_op_ok ops -> forall s held, cache_rep s held -> forall held' s', cache_script use_threadcache ops held s = Some (held', s') ->
  cache_rep s' held'.
Proof.
  induction 1 as [|op ops Hop Hops IH]; intros s held HR held' s' E; cbn [cache_script] in E; [by injection E as <- <-|].
  apply bind_inv in E as (held1 & s1 & E1 & E2). pose proof (cache_exec_spec s held op HR Hop) as Hx. rw E1 in Hx. destruct Hx as [Hx _]. by apply (IH s1 held1).
Qed.

Lemma cache_rep_init (u : S) : holds u (fun _ _ => False) -> cache_rep (no_cache u) [].
Proof.
  intros Hu. split; [|constructor|by intros b a ?%elem_of_nil]. eexists _, _. split; [by apply no_cache_inv|]. intros b a. split; [by intros [? _]|by intros ?%elem_of_nil].
Qed.
End specs.

(** ** The claims *)

(** C5. Above any allocator that keeps its laws, and with or without caches of the
    thread: the program never has an object twice; the lists that the caches have
    in memory link objects in use below, each of them once, and the objects of the
    program are exactly those in use below that are in no list, so none is lost; an
    operation does what is asked unless it is an allocation and the allocator below
    is out of memory; and at the end of the thread exactly the objects of its own
    lists go back. *)
Theorem cache_refines {S} (A : Allocator S) (AO : AllocatorOk A) (use_threadcache : bool) (u : S) ops held (s : cache S) :
  holds u (fun _ _ => False) -> Forall cache_op_ok ops -> cache_script use_threadcache ops [] (no_cache u) = Some (held, s) ->
  NoDup held /\
  (forall op, cache_op_ok op -> match cache_exec use_threadcache op held s with
    | None => (exists b, op = CMalloc b) /\ out_of_memory (under s)
    | Some (held', _) => cache_granted op held held' \/ (exists b, op = CMalloc b) /\ held' = held /\ out_of_memory (under s)
    end) /\
  exists U L, holds (under s) U /\
    (forall r siz, active (n_nonempty_caches s) r -> bin_2_size (bin_of r) = Some siz -> co_ok (nexts s) siz (co s r) (L r)) /\
    (forall r, ~ active (n_nonempty_caches s) r -> L r = []) /\
    (forall r, NoDup (L r)) /\ (forall r r' a, a ∈ L r -> a ∈ L r' -> r = r') /\
    (forall r a, a ∈ L r -> U (bin_of r) a) /\
    (forall b a, (b, a) ∈ held <-> U b a /\ ~ cached L b a) /\
    exists s' U', cache_destructor s = Some (tt, s') /\ holds (under s') U' /\
      forall b a, U' b a <-> U b a /\ ~ (0 <= b < first_huge_bin_number /\ (a ∈ L (Thread b 0) \/ a ∈ L (Thread b 1))).
Proof.
  intros Hu Hops E. pose proof (cache_script_spec use_threadcache ops Hops _ _ (cache_rep_init u Hu) held s E) as HR. split; [apply HR|]. split.
  - intros op Hop. pose proof (cache_exec_spec use_threadcache s held op HR Hop) as Hx.
    destruct (cache_exec use_threadcache op held s) as [[held' s']|]; [|done]. by destruct Hx as [_ ?].
  - destruct HR as [(U & L & HI & Hown) _ _]. exists U, L. split_and!; [apply HI|apply HI|apply HI|apply HI|apply HI|apply HI|intros b a; by rw -Hown|by apply cache_destructor_spec].
Qed.

(** C18. The caches are bounded: the objects that are linked in a list of the thread
    take at most 8 KB and one object more, in a list of a processor 1 MB and 8 KB
    and two objects, in a global list three; the byte count of the list is the sum
    of their sizes; and there are at most [global_cache_depth] global lists of a bin. *)
Theorem cache_bounds {S} (A : Allocator S) (AO : AllocatorOk A) (use_threadcache : bool) (u : S) ops held (s : cache S) :
  holds u (fun _ _ => False) -> Forall cache_op_ok ops -> cache_script use_threadcache ops [] (no_cache u) = Some (held, s) ->
  (forall b, 0 <= n_nonempty_caches s b <= global_cache_depth) /\
  forall r siz, active (n_nonempty_caches s) r -> bin_2_size (bin_of r) = Some siz ->
    exists l, threaded (nexts s) (head (co s r)) l /\ bytecount (co s r) = siz * Z.of_nat (length l) /\ siz * Z.of_nat (length l) <= co_limit r siz.
Proof.
  intros Hu Hops E. destruct (cache_script_spec use_threadcache ops Hops _ _ (cache_rep_init u Hu) held s E) as [(U & L & HI & _) _ _]. split; [apply HI|].
  intros r siz Hr Hs. exists (L r). destruct (ci_ok _ _ _ HI r siz Hr Hs) as [Hl _ Hb]. split_and!; [done..|]. by apply HI.
Qed.

(** ** A run on the bins *)

Definition sample_cache_script : list cache_op := [CMalloc 3; CMalloc 42; CMalloc 3; CFree 0; CFree 1; CMalloc 42; CMalloc 3].

Definition sample_bins : bins (simple_kernel 1) round_robin := no_bins (simple_os 1) (0 : @sstate round_robin).

#[local] Instance sample_ok : AllocatorOk (bins_allocator (K := simple_kernel 1) (T := round_robin)) :=
  bins_ok (KO := simple_kernel_ok 1) (TO := round_robin_ok) [] [].

Lemma sample_bins_empty : holds sample_bins (fun _ _ => False).
Proof. eexists. apply no_bins_inv. Qed.

(** The freed objects come back from the caches. *)
Lemma sample_cache_run : exists held s, cache_script true sample_cache_script [] (no_cache sample_bins) = Some (held, s) /\
  held.*1 = [3; 42; 42] /\ bytecount (co s (Thread 3 0)) = 14.
Proof.
  assert (match cache_script true sample_cache_script [] (no_cache sample_bins) with
    | Some (held, s) => bool_decide (held.*1 = [3; 42; 42]) && (bytecount (co s (Thread 3 0)) =? 14)
    | None => false
    end = true) as H by (vm_compute; reflexivity).
  destruct (cache_script true sample_cache_script [] (no_cache sample_bins)) as [[held s]|]; [|done].
  apply andb_true_iff in H as [?%bool_decide_eq_true ?%Z.eqb_eq]. by exists held, s.
Qed.

Lemma cache_refines_witness : exists held s, cache_script true sample_cache_script [] (no_cache sample_bins) = Some (held, s) /\ NoDup held.
Proof.
  destruct sample_cache_run as (held & s & E & _). exists held, s. split; [done|].
  apply (cache_refines _ sample_ok true sample_bins sample_cache_script held s sample_bins_empty); [by repeat constructor|done].
Defined.

Lemma cache_bounds_witness : exists held s l, cache_script true sample_cache_script [] (no_cache sample_bins) = Some (held, s) /\
  threaded (nexts s) (head (co s (Thread 3 0))) l /\ 14 * Z.of_nat (length l) = 14 /\ 14 <= co_limit (Thread 3 0) 14.
Proof.
  destruct sample_cache_run as (held & s & E & _ & Hb). exists held, s.
  destruct (cache_bounds _ sample_ok true sample_bins sample_cache_script held s sample_bins_empty) as [_ H]; [by repeat constructor|done|].
  destruct (H (Thread 3 0) 14) as (l & Hl & Hbl & Hlim); [done|done|]. exists l. split_and!; [done|done|congruence|congruence].
Defined.
