(* ===== verification/Supermalloc.v ===== *)
(** * src/memory/malloc.cpp and rng.cpp: [malloc] and its companions. *)
From stdpp Require Import strings functions.
From S2P Require Import Prelude Words StateMonad Sizeclass Makechunk Huge Small SmallSpec SmallAlloc SmallProgram Footprint Large Cache Bins.
#[local] Open Scope Z_scope.

Definition ENOMEM : Z := 12.
Definition EINVAL : Z := 22.
Definition sizeof_pointer : Z := 8.

Definition max_allocatable_size : Z := Z.shiftl chunksize 27 - 1.

(** ** rng.cpp *)

Definition MIX : Z := 15760922415973212899.

Definition Mix64 (z : Z) : Z :=
  let z := umul 64 (Z.lxor z (Z.shiftr z 32)) MIX in
  let z := umul 64 (Z.lxor z (Z.shiftr z 32)) MIX in
  Z.lxor z (Z.shiftr z 32).

(** What the surroundings fix: the environment variables, the address of a variable
    of the thread, and whether there is another [free] behind this one. *)
Record setting : Set := Setting {
  SUPERMALLOC_TRANSACTIONS : option string;
  SUPERMALLOC_PREDO : option string;
  SUPERMALLOC_THREADCACHE : option string;
  rv_address : Z;
  has_free_p : bool;
}.

(** A variable is read once, when the allocator is initialized; other values than
    0 and 1 leave the default. *)
Definition env_flag (dflt : bool) (v : option string) : bool :=
  match v with
  | None => dflt
  | Some v => if (v =? "0")%string then false else if (v =? "1")%string then true else dflt
  end.

(** The first two only choose how [atomically] runs an operation. *)
Definition use_transactions (env : setting) : bool := env_flag true (SUPERMALLOC_TRANSACTIONS env).
Definition do_predo (env : setting) : bool := env_flag true (SUPERMALLOC_PREDO env).
Definition use_threadcache (env : setting) : bool := env_flag true (SUPERMALLOC_THREADCACHE env).

Section code.
Context {K : Kernel} {T : Scheduler}.
Variable env : setting.

(** [bytes] are the contents of the memory of the program. *)
Record heap : Type := Heap {
  h_cache : cache (bins K T);
  initialized : bool;
  rv : Z;
  errno : Z;
  bytes : Z -> Z;
}.

Definition on_cache {A} (m : M (cache (bins K T)) A) : M heap A :=
  zoom h_cache (fun c s => Heap c (initialized s) (rv s) (errno s) (bytes s)) m.
Definition on_heap_chunks {A} (m : M (chunks K) A) : M heap A := on_cache (on_under (on_bin_chunks m)).

Definition set_errno (e : Z) : M heap unit :=
  modify (fun s => Heap (h_cache s) (initialized s) (rv s) e (bytes s)).
Definition read (a : Z) : M heap Z := gets (fun s => bytes s a).
Definition write (a v : Z) : M heap unit :=
  modify (fun s => Heap (h_cache s) (initialized s) (rv s) (errno s) (<[a := v]> (bytes s))).

(** [memset (a, 0, n)]. *)
Definition zero (a n : Z) : M heap unit :=
  modify (fun s => Heap (h_cache s) (initialized s) (rv s) (errno s)
    (fun x => if (a <=? x) && (x <? a + n) then 0 else bytes s x)).

(** [madvise (a, n, MADV_DONTNEED)] of [CALLOC]: the pages of a private mapping read as
    zero when it succeeds; its answer is ignored. *)
Definition dont_need (a n : Z) : M heap unit :=
  r ← on_heap_chunks (on_os (madvise a n MADV_DONTNEED));
  if r : bool then zero a n else mret tt.

Definition prandnum : M heap Z :=
  s ← gets id;
  let v := uadd 64 (rv s) 1 in
  modify (fun s => Heap (h_cache s) (initialized s) v (errno s) (bytes s));;
  mret (Mix64 (uadd 64 (rv_address env) v)).

(** The table of the chunks: 2^27 entries of 4 bytes. *)
Definition initialize_malloc : M heap unit :=
  let n_elts := 2 ^ 27 in
  let alloc_size := n_elts * 4 in
  let n_chunks := ceil alloc_size chunksize in
  infos ← on_heap_chunks (on_os (mmap_chunk_aligned_block n_chunks));
  bassert (negb (infos =? 0));;
  modify (fun s => Heap (h_cache s) true (rv s) (errno s) (bytes s)).

Definition maybe_initialize_malloc : M heap unit :=
  i ← gets initialized;
  if i : bool then mret tt else initialize_malloc.

Definition cached_malloc_h (bin : Z) : M heap Z := on_cache (cached_malloc (use_threadcache env) bin).
Definition cached_free_h (p bin : Z) : M heap unit := on_cache (cached_free (use_threadcache env) p bin).

Definition object_base (ptr : Z) : M heap Z :=
  let cn := address_2_chunknumber ptr in
  b_and_s ← on_heap_chunks (get_info cn);
  bassert (negb (b_and_s =? 0));;
  bin ← the (bin_from_bin_and_size b_and_s);
  if first_huge_bin_number <=? bin then mret (address_2_chunkaddress ptr)
  else
    info ← the (static_bin bin);
    let wasted_offset := overhead_pages_per_chunk info * pagesize in
    bassert (wasted_offset <=? offset_in_chunk ptr);;
    let useful_offset := offset_in_chunk ptr - wasted_offset in
    folio_number ← the (divide_offset_by_foliosize (uwrap 32 useful_offset) bin);
    let folio_mul := umul 64 folio_number (folio_size info) in
    let offset_in_folio := uwrap 32 (useful_offset - folio_mul) in
    object_number ← the (divide_offset_by_objsize offset_in_folio bin);
    mret (uwrap 64 (cn * chunksize + wasted_offset + folio_mul + object_number * object_size info)).

Definition MALLOC (size : Z) : M heap Z :=
  maybe_initialize_malloc;;
  if max_allocatable_size <=? size then set_errno ENOMEM;; mret 0
  else if size <? largest_small then
    let bin := size_2_bin size in
    siz ← the (bin_2_size bin);
    if (size <=? cacheline_size) || negb (is_power_of_two siz) then cached_malloc_h bin
    else cached_malloc_h (bin + 1)
  else
    misalignment ← (if size <=? largest_small then mret 0
                    else r ← prandnum; mret (umul 64 r cacheline_size mod pagesize));
    let allocate_size := uadd 64 size misalignment in
    if allocate_size <=? largest_large then
      let bin := size_2_bin allocate_size in
      result ← cached_malloc_h bin;
      if result =? 0 then mret 0 else mret (uadd 64 result misalignment)
    else
      result ← on_heap_chunks (huge_malloc allocate_size);
      if result =? 0 then mret 0 else mret (uadd 64 result misalignment).

(** The [free] of another allocator does not change this one. *)
Definition FREE (p : Z) : M heap unit :=
  maybe_initialize_malloc;;
  if p =? 0 then mret tt
  else
    let cn := address_2_chunknumber p in
    bnt ← on_heap_chunks (get_info cn);
    if bnt =? 0 then (if has_free_p env then mret tt else abort)
    else
      bin ← the (bin_from_bin_and_size bnt);
      bassert (negb ((offset_in_chunk p =? 0) && (bin =? 0)));;
      if bin <? first_huge_bin_number then
        base ← object_base p;
        cached_free_h base bin
      else on_heap_chunks (huge_free p).

Definition MALLOC_USABLE_SIZE (ptr : Z) : M heap Z :=
  let cn := address_2_chunknumber ptr in
  b_and_s ← on_heap_chunks (get_info cn);
  bassert (negb (b_and_s =? 0));;
  bin ← the (bin_from_bin_and_size b_and_s);
  base ← object_base ptr;
  bassert (address_2_chunknumber base =? cn);;
  base_size ← the (bin_2_size bin);
  bassert (base <=? ptr);;
  bassert (ptr - base <=? base_size);;
  mret (base_size - (ptr - base)).

(** [for (i = 0; i < n; i++) dst[i] = src[i];] *)
Definition copy_bytes (dst src n : Z) : M heap unit :=
  foreach (seqZ 0 n) (fun i => v ← read (src + i); write (dst + i) v).

Definition REALLOC (p size : Z) : M heap Z :=
  if max_allocatable_size <=? size then set_errno ENOMEM;; mret 0
  else if p =? 0 then MALLOC size
  else
    oldsize ← MALLOC_USABLE_SIZE p;
    if oldsize <? size then
      result ← MALLOC size;
      if result =? 0 then mret 0
      else
        copy_bytes result p oldsize;;
        FREE p;;
        mret result
    else if (16 <? oldsize) && (size <? oldsize / 2) then
      result ← MALLOC size;
      if result =? 0 then mret 0
      else
        copy_bytes result p size;;
        mret result
    else mret p.

Definition CALLOC (number size : Z) : M heap Z :=
  result ← MALLOC (umul 64 number size);
  base ← object_base result;
  usable_from_base ← MALLOC_USABLE_SIZE base;
  let oip := offset_in_page base in
  (if 0 <? oip then zero result (umul 64 number size)
   else if negb (usable_from_base mod pagesize =? 0) then
     bassert (usable_from_base <? chunksize);;
     zero result (umul 64 number size)
   else dont_need base usable_from_base);;
  mret result.

Definition align_pointer_up (p alignment size alloced_size : Z) : M heap Z :=
  let ra := Z.land (uwrap 64 (p + alignment - 1)) (uwrap 64 (Z.lnot (alignment - 1))) in
  bassert (Z.land ra (alignment - 1) =? 0);;
  bassert (uadd 64 ra size <=? uadd 64 p alloced_size);;
  mret ra.

(** The bin for an aligned block, and whether a piece of it has to be taken. *)
Definition find_bin_body (alignment size bin : Z) : M heap (Z + option (Z * Z * bool)) :=
  if bin <? first_huge_bin_number then
    bs ← the (bin_2_size bin);
    if Z.land bs (alignment - 1) =? 0 then mret (inr (Some (bin, bs, false)))
    else if uadd 64 alignment size <=? bs + 1 then mret (inr (Some (bin, bs, true)))
    else mret (inl (bin + 1))
  else mret (inr None).

Definition aligned_malloc_internal (alignment size : Z) : M heap Z :=
  maybe_initialize_malloc;;
  found ← loop 48 (find_bin_body alignment size) (size_2_bin size);
  match found with
  | Some (bin, bs, false) => cached_malloc_h bin
  | Some (bin, bs, true) =>
      r ← cached_malloc_h bin;
      if r =? 0 then mret 0 else align_pointer_up r alignment size bs
  | None =>
      if alignment <=? chunksize then on_heap_chunks (huge_malloc size)
      else
        r ← on_heap_chunks (huge_malloc (Z.max alignment size));
        if r =? 0 then mret 0
        else
          bassert (Z.land r (alignment - 1) =? 0);;
          mret r
  end.

Definition ALIGNED_ALLOC (alignment size : Z) : M heap Z :=
  if max_allocatable_size <=? size then set_errno ENOMEM;; mret 0
  else if negb (Z.land alignment (uwrap 64 (alignment - 1)) =? 0) then set_errno EINVAL;; mret 0
  else if negb (Z.land size (uwrap 64 (alignment - 1)) =? 0) then set_errno EINVAL;; mret 0
  else aligned_malloc_internal alignment size.

(** The answer, and what is written to [*ptr]. *)
Definition POSIX_MEMALIGN (alignment size : Z) : M heap (Z * option Z) :=
  if negb (Z.land alignment (uwrap 64 (alignment - 1)) =? 0) then mret (EINVAL, None)
  else if alignment <? sizeof_pointer then mret (EINVAL, None)
  else if size =? 0 then mret (0, Some 0)
  else
    r ← aligned_malloc_internal alignment size;
    if r =? 0 then e ← gets errno; mret (e, None) else mret (0, Some r).

Definition MEMALIGN (alignment size : Z) : M heap Z :=
  if negb (Z.land alignment (uwrap 64 (alignment - 1)) =? 0) then mret 0
  else
    let size := Z.land (uwrap 64 (size + alignment - 1)) (uwrap 64 (Z.lnot (alignment - 1))) in
    aligned_malloc_internal alignment size.
End code.
Arguments heap : clear implicits.

(** ** The state at the start of the program *)

Section start.
Context {K : Kernel} {T : Scheduler}.

Definition no_heap (o : os K) (t : sstate) : heap K T := Heap (no_cache (no_bins o t)) false 0 0 (fun _ => 0).
End start.
