(* ===== verification/SupermallocSpec.v ===== *)
(** * src/memory/malloc.cpp: blocks of memory. *)
From stdpp Require Import functions.
From S2P Require Import Prelude Words StateMonad Sizeclass Makechunk Huge Small SmallSpec SmallAlloc SmallProgram Footprint Large Cache CacheSpec Bins Supermalloc.
#[local] Open Scope Z_scope.

(** ** The blocks of the program *)

Inductive owner : Set :=
| InBin (b a : Z)
| InHuge (h : huge_block).

(** A block of [len] bytes at [ptr], in an object of a bin or in a huge block. *)
Record block : Set := Block { ptr : Z; len : Z; own : owner }.

Definition bins_of (es : list block) : list (Z * Z) := omap (fun e => if own e is InBin b a then Some (b, a) else None) es.
Definition huge_of (es : list block) : list huge_block := omap (fun e => if own e is InHuge h then Some h else None) es.

Definition block_ok (e : block) : Prop :=
  0 <= len e /\
  match own e with
  | InBin b a => exists info, static_bin b = Some info /\ a <= ptr e < a + object_size info /\ ptr e + len e <= a + object_size info
  | InHuge h => hb_address h <= ptr e < hb_address h + pagesize /\ ptr e + len e <= hb_address h + 2 ^ hb_log h * chunksize
  end.

Section invariant.
Context {K : Kernel} {KO : KernelOk K} {T : Scheduler} {TO : SchedulerOk T}.
Implicit Type s : heap K T.

Definition hchunks s : chunks K := s_chunks (b_small (under (h_cache s))).

Definition with_under (u : bins K T) (c : cache (bins K T)) : cache (bins K T) :=
  Cache u (co c) (n_nonempty_caches c) (nexts c) (cached_cpu c) (cached_cpu_count c).

Definition with_hchunks (ch : chunks K) s : heap K T :=
  let u := under (h_cache s) in
  Heap (with_under (Bins (set_chunks ch (b_small u)) (b_free_large u) (b_cells u) (b_footprint u)) (h_cache s))
    (initialized s) (rv s) (errno s) (bytes s).

(** The objects that are in use and not in a cache are those of the blocks. *)
Record heap_rep s (es : list block) (U : objects) (L : co_ref -> list Z) (tbl : list Z) : Prop := {
  hr_cache : cache_inv (AO := bins_ok (huge_of es) tbl) (h_cache s) U L;
  hr_owned b a : owned U L b a <-> (b, a) ∈ bins_of es;
  hr_nodup : NoDup (bins_of es);
  hr_blocks : Forall block_ok es;
  hr_start : es <> [] -> initialized s = true;
}.

Definition heap_inv s (es : list block) : Prop := exists U L tbl, heap_rep s es U L tbl.

Lemma on_heap_chunks_Some {A} (m : M (chunks K) A) s r ch : m (hchunks s) = Some (r, ch) ->
  on_heap_chunks m s = Some (r, with_hchunks ch s).
Proof. intros E. unfold on_heap_chunks, on_cache, on_under, on_bin_chunks, on_small, on_chunks, zoom. unfold hchunks in E. by rw E. Qed.

Lemma with_hchunks_id s : with_hchunks (hchunks s) s = s.
Proof. by destruct s as [[[[] ? ? ?] ? ? ? ? ?] ? ? ? ?]. Qed.

Lemma get_info_h s cn : on_heap_chunks (get_info cn) s = Some (entry (chunk_infos (hchunks s)) cn, s).
Proof. rewrite -> (on_heap_chunks_Some _ s (entry (chunk_infos (hchunks s)) cn) (hchunks s)) by done. by rw with_hchunks_id. Qed.

(** The caches do not depend on the blocks outside of them. *)
Lemma cache_inv_under hb hb' tbl tbl' (c : cache (bins K T)) U L u g :
  cache_inv (AO := bins_ok hb tbl) c U L -> bins_inv u g U hb' tbl' -> cache_inv (AO := bins_ok hb' tbl') (with_under u c) U L.
Proof. intros [H1 H2 H3 H4 H5 H6 H7 H8 H9] Hu. split; try done. by exists g. Qed.

Lemma heap_bins s es U L tbl : heap_rep s es U L tbl -> exists g, bins_inv (under (h_cache s)) g U (huge_of es) tbl.
Proof. intros [Hc _ _ _ _]. apply (ci_under (AO := bins_ok (huge_of es) tbl) _ _ _ Hc). Qed.

(** A change of the chunks outside of the bins. *)
Lemma heap_rep_chunks s es U L tbl g ch fl' es' tbl' :
  heap_rep s es U L tbl -> bins_inv (under (h_cache s)) g U (huge_of es) tbl ->
  huge_inv ch fl' (all_own g (huge_of es') tbl') -> Forall (huge_ok ch) (huge_of es') ->
  (forall x, x ∈ g_small g \/ x ∈ large_own (g_large g) -> entry (chunk_infos ch) x = entry (chunk_infos (hchunks s)) x) ->
  bins_of es' = bins_of es -> Forall block_ok es' -> (es' <> [] -> initialized s = true) ->
  heap_rep (with_hchunks ch s) es' U L tbl'.
Proof.
  intros [Hca How Hnd Hbl Hst] HB Hch Hok Hsame Eb Hbl' Hst'. split; [|by rw Eb|by rw Eb|done|done]. simpl.
  eapply cache_inv_under; [exact Hca|]. by apply (bins_inv_chunks _ _ _ _ _ ch fl' _ _ HB).
Qed.

Lemma heap_rep_perm s es es' U L tbl : es ≡ₚ es' -> heap_rep s es U L tbl -> heap_rep s es' U L tbl.
Proof.
  intros Hp HR. destruct (heap_bins _ _ _ _ _ HR) as (g & HB). pose proof HR as [Hca How Hnd Hbl Hst].
  assert (huge_of es ≡ₚ huge_of es') as Hh by (unfold huge_of; by rw Hp). assert (bins_of es ≡ₚ bins_of es') as Hb by (unfold bins_of; by rw Hp).
  split; [|intros b a; by rw How Hb|by rw -Hb|by rw -Hp|].
  - pose proof (bins_inv_chunks _ _ _ _ _ (hchunks s) (g_free g) (huge_of es') tbl HB) as HB'.
    replace (h_cache s) with (with_under (under (h_cache s)) (h_cache s)) by by destruct s as [[] ? ? ? ?].
    eapply cache_inv_under; [exact Hca|]. pose proof (bins_chunks _ _ _ _ _ HB) as Hch. destruct HB as [H1 H2 H3 H4].
    assert (huge_own (huge_of es) ≡ₚ huge_own (huge_of es')) as Hho by (unfold huge_own; by rw Hh).
    replace (under (h_cache s)) with (Bins (set_chunks (hchunks s) (b_small (under (h_cache s)))) (b_free_large (under (h_cache s)))
      (b_cells (under (h_cache s))) (b_footprint (under (h_cache s)))) by by destruct s as [[[[] ? ? ?] ? ? ? ? ?] ? ? ? ?].
    apply HB'; [|by rw -Hh|done]. eapply huge_inv_perm; [|exact Hch]. unfold all_own. by rw Hho.
  - intros Hne. apply Hst. intros ->. by apply Permutation_nil_l in Hp.
Qed.

Lemma heap_inv_perm s es es' : es ≡ₚ es' -> heap_inv s es -> heap_inv s es'.
Proof. intros Hp (U & L & tbl & HR). exists U, L, tbl. by apply (heap_rep_perm s es). Qed.

(** The kernel may change its state as long as what is mapped stays. *)
Lemma heap_inv_space s es o : heap_inv s es -> same_space (c_os (hchunks s)) o ->
  heap_inv (with_hchunks (Chunks o (chunk_infos (hchunks s)) (free_chunks (hchunks s))) s) es.
Proof.
  intros (U & L & tbl & HR) Hs. destruct (heap_bins _ _ _ _ _ HR) as (g & HB). pose proof (bins_chunks _ _ _ _ _ HB) as Hch. exists U, L, tbl.
  apply (heap_rep_chunks s es U L tbl g _ (g_free g) es tbl HR HB); [by apply huge_inv_same| |done|done|apply HR|apply HR].
  eapply Forall_impl; [exact (bi_huge _ _ _ _ _ HB)|]. intros h Hok. by apply (huge_ok_frame _ _ _ Hok).
Qed.

(** ** The start *)

(** The chunks that the table of all chunks takes. *)
Definition table_chunks : Z := 256.

Lemma initialize_spec s es : heap_inv s es ->
  (maybe_initialize_malloc s = None /\ refuses table_chunks (hchunks s)) \/
  exists s', maybe_initialize_malloc s = Some (tt, s') /\ heap_inv s' es /\ initialized s' = true /\ bytes s' = bytes s /\
    (initialized s = true -> s' = s).
Proof.
  intros (U & L & tbl & HR). unfold maybe_initialize_malloc. rw bind_gets.
  destruct (initialized s) eqn:Hini; [right; exists s; split_and!; [done|by exists U, L, tbl|done..]|].
  unfold initialize_malloc. cbv zeta. change (ceil (2 ^ 27 * 4) chunksize) with 256.
  destruct (heap_bins s es U L tbl HR) as (g & HB). pose proof (bins_chunks _ _ _ _ _ HB) as Hch. fold (hchunks s) in Hch.
  destruct (mmap_chunk_spec (c_os (hchunks s)) 256) as (r & o & E & Hr); [unfold log_max_chunknumber; lia|].
  set (ch := Chunks o (chunk_infos (hchunks s)) (free_chunks (hchunks s))).
  assert (on_os (mmap_chunk_aligned_block 256) (hchunks s) = Some (r, ch)) as E1 by (unfold on_os, zoom; by rw E).
  rw (bind_Some _ _ _ _ _ (on_heap_chunks_Some _ s _ _ E1)). destruct Hr as [[-> _]|[Hal Hm]].
  { left. split; [done|]. by exists o. }
  right. assert (0 < r) by apply Hm. rw bind_bassert; [apply negb_true_iff, Z.eqb_neq; lia|].
  eexists. split; [done|]. split_and!; [|done..].
  pose proof (block_chunk _ _ _ _ 0 Hm Hal ltac:(lia)) as Hc. rw Z.add_0_r in Hc. rewrite <- (chunk_number_self r Hc) in Hm.
  set (new := seqZ (address_2_chunknumber r) 256).
  pose proof (huge_inv_grow (hchunks s) _ _ o (address_2_chunknumber r) 256 Hch ltac:(lia) Hm) as Hch'. fold ch new in Hch'.
  assert (heap_rep (with_hchunks ch s) es U L (new ++ tbl)) as [H1 H2 H3 H4 H5].
  { apply (heap_rep_chunks _ _ _ _ _ g _ (g_free g) _ _ HR HB); [| |done..|apply HR|by intros ?%(hr_start _ _ _ _ _ HR)].
    - eapply huge_inv_perm; [|exact Hch']. unfold all_own. solve_Permutation.
    - eapply Forall_impl; [exact (bi_huge _ _ _ _ _ HB)|]. intros h Hok. by apply (huge_ok_frame _ _ _ Hok). }
  exists U, L, (new ++ tbl). by split.
Qed.

(** ** Where the blocks are *)

Lemma heap_located s es b a : heap_inv s es -> (b, a) ∈ bins_of es ->
  exists info c f k, located (hchunks s) b a info c f k.
Proof.
  intros (U & L & tbl & HR) Hb. destruct (heap_bins _ _ _ _ _ HR) as (g & HB).
  apply (hr_owned _ _ _ _ _ HR) in Hb as [Hu _]. destruct (object_located _ _ _ _ _ _ _ HB Hu) as (info & c & f & k & Hl & _).
  by exists info, c, f, k.
Qed.

Lemma heap_huge s es h : heap_inv s es -> h ∈ huge_of es -> huge_ok (hchunks s) h.
Proof.
  intros (U & L & tbl & HR) Hh. destruct (heap_bins _ _ _ _ _ HR) as (g & HB). pose proof (bi_huge _ _ _ _ _ HB) as HF.
  rw Forall_forall in HF. by apply HF.
Qed.

Lemma located_below ch b a info c f k : located ch b a info c f k -> 0 < a /\ a + object_size info <= 2 ^ 48.
Proof.
  intros Hl. pose proof (lo_object _ (lc_layout _ _ _ _ _ _ _ Hl)).
  destruct (located_chunk _ _ _ _ _ _ _ (object_size info - 1) Hl ltac:(lia)) as (_ & _ & _ & Ha & _ & Hlt).
  destruct (lc_chunk _ _ _ _ _ _ _ Hl) as (cn & Hcn & ->). unfold log_max_chunknumber, chunksize, log_chunksize in *. lia.
Qed.

Lemma heap_bin_block s es e b a : heap_inv s es -> e ∈ es -> own e = InBin b a ->
  exists info c f k, located (hchunks s) b a info c f k /\ a <= ptr e < a + object_size info /\ ptr e + len e <= a + object_size info.
Proof.
  intros HI He Ho. assert ((b, a) ∈ bins_of es) as Hb by (apply list_elem_of_omap; exists e; by rw Ho).
  destruct (heap_located s es b a HI Hb) as (info & c & f & k & Hl). exists info, c, f, k. split; [done|].
  destruct HI as (U & L & tbl & HR). pose proof (hr_blocks _ _ _ _ _ HR) as HF. rw Forall_forall in HF.
  destruct (HF e He) as [_ Hok]. rw Ho in Hok. destruct Hok as (info' & Hi & H1 & H2). pose proof (lc_info _ _ _ _ _ _ _ Hl). by assert (info' = info) as -> by congruence.
Qed.

Lemma heap_huge_block s es e h : heap_inv s es -> e ∈ es -> own e = InHuge h ->
  huge_ok (hchunks s) h /\ hb_address h <= ptr e < hb_address h + pagesize /\ ptr e + len e <= hb_address h + 2 ^ hb_log h * chunksize.
Proof.
  intros HI He Ho. split.
  - apply (heap_huge s es h HI). apply list_elem_of_omap. exists e. by rw Ho.
  - destruct HI as (U & L & tbl & HR). pose proof (hr_blocks _ _ _ _ _ HR) as HF. rw Forall_forall in HF.
    destruct (HF e He) as [_ Hok]. by rw Ho in Hok.
Qed.

(** ** Objects of the bins *)

Variable env : setting.

(** The kernel does not map a number of chunks that a request asks for. *)
Definition lacks s (asks : Z -> Prop) : Prop := exists n, asks n /\ refuses n (hchunks s).

(** The same, or the kernel does not map the table of the chunks to begin with. *)
Definition refused s (asks : Z -> Prop) : Prop :=
  (maybe_initialize_malloc s = None /\ refuses table_chunks (hchunks s)) \/
  exists s1, maybe_initialize_malloc s = Some (tt, s1) /\ lacks s1 asks.

(** What [malloc] may ask for: one chunk for a bin, or the chunks of a huge block
    with up to a page in front. *)
Definition malloc_asks (size n : Z) : Prop :=
  (size <= largest_large /\ n = 1) \/ exists asked, size <= asked < size + pagesize /\ largest_large < asked /\ n = huge_request asked.

(** A request is answered with 0 or aborts only when the kernel has refused. *)
Definition served s (es : list block) (no : Prop) (m : option (Z * heap K T)) (P : Z -> owner -> Prop) (size : Z) : Prop :=
  match m with
  | None => no
  | Some (r, s') => bytes s' = bytes s /\ initialized s' = true /\
      ((r = 0 /\ no /\ heap_inv s' es) \/ exists o, 0 < r < 2 ^ 48 /\ P r o /\ heap_inv s' (Block r size o :: es))
  end.

Lemma cached_malloc_h_spec s es b info size : heap_inv s es -> initialized s = true -> 0 <= b < first_huge_bin_number ->
  static_bin b = Some info -> 0 <= size <= object_size info ->
  served s es (refuses 1 (hchunks s)) (cached_malloc_h env b s)
    (fun r o => exists c f k, o = InBin b r /\ object_ok info f k /\ is_chunk c /\ r = object_address info c f k /\ r + object_size info <= 2 ^ 48) size.
Proof.
  intros (U & L & tbl & HR) Hin Hb Hi Hsz. pose proof HR as [Hca How Hnd Hbl Hst].
  pose proof (cached_malloc_spec (AO := bins_ok (huge_of es) tbl) (h_cache s) U L b (use_threadcache env) Hca Hb) as Hr.
  unfold cached_malloc_h, on_cache, zoom. destruct (cached_malloc _ b (h_cache s)) as [[r c]|]; [|done].
  destruct Hr as (U' & L' & Hca' & Hr). split_and!; [done..|]. destruct Hr as [(-> & Hno & Hsame)|(Hpos & Hnew & Hin')]; [left|right].
  - split_and!; [done..|]. exists U', L', tbl. split; try done. intros b' a. by rw -How (Hsame b' a).
  - exists (InBin b r). match goal with |- _ /\ _ /\ heap_inv ?s' _ => set (s1 := s') end.
    assert (heap_inv s1 (Block r size (InBin b r) :: es)) as HI.
    { pose proof (layout b info Hi ltac:(lia)) as HL. pose proof (lo_object _ HL). exists U', L', tbl. split; [done| | | |done].
      - intros b' a. rw Hin' How. simpl. rw elem_of_cons. split; [intros [?|[-> ->]]; [by right|by left]|intros [?|?]; [right|by left]]. by simplify_eq.
      - simpl. constructor; [by rw -How|done].
      - constructor; [|done]. split; [simpl; lia|]. exists info. simpl. split; [done|lia]. }
    destruct (heap_located s1 _ b r HI ltac:(left)) as (info' & c0 & f & k & Hl). pose proof (located_below _ _ _ _ _ _ _ Hl) as [_ Hlt].
    destruct Hl as [_ Hi' HL Hc Hok Ha _ _]. assert (info' = info) as -> by congruence. pose proof (lo_object _ HL).
    split_and!; [done|lia| |done]. by exists c0, f, k.
Qed.

(** Another piece of the same object. *)
Lemma heap_inv_piece s es p q n m o : heap_inv s (Block p n o :: es) -> block_ok (Block q m o) -> heap_inv s (Block q m o :: es).
Proof.
  intros (U & L & tbl & [H1 H2 H3 H4 H5]) Hok. exists U, L, tbl. split; [exact H1|exact H2|exact H3| |by intros _; apply H5].
  apply Forall_cons in H4 as [_ H4]. by constructor.
Qed.

(** ** Huge blocks *)

Lemma huge_of_frame g U s es tbl ch : bins_inv (under (h_cache s)) g U (huge_of es) tbl ->
  (forall x, x ∈ all_own g (huge_of es) tbl -> entry (chunk_infos ch) x = entry (chunk_infos (hchunks s)) x) ->
  Forall (huge_ok ch) (huge_of es).
Proof.
  intros HB Hsame. pose proof (bi_huge _ _ _ _ _ HB) as HF. rw !Forall_forall in HF *. intros h Hh. pose proof (HF h Hh) as Hok.
  apply (huge_ok_frame _ _ _ Hok), Hsame. unfold all_own. rw !elem_of_app. right. right. left. apply huge_own_chunk; [done|].
  by destruct (hl_log _ _ _ _ _ Hok).
Qed.

Lemma huge_malloc_h_spec s es asked size : heap_inv s es -> initialized s = true -> 0 <= size <= asked -> asked <= 2 ^ 46 ->
  served s es (refuses (huge_request asked) (hchunks s)) (on_heap_chunks (huge_malloc asked) s)
    (fun r o => exists cn k, o = InHuge (HugeBlock r asked cn k) /\ r = cn * chunksize /\ (2 ^ k | cn) /\
       asked <= 2 ^ k * chunksize /\ (hyperceil asked | 2 ^ k * chunksize) /\ r + 2 ^ k * chunksize <= 2 ^ 47 + 2 ^ 47 /\ 0 <= k) size.
Proof.
  intros (U & L & tbl & HR) Hin Hsz Hmax. destruct (heap_bins _ _ _ _ _ HR) as (g & HB). pose proof (bins_chunks _ _ _ _ _ HB) as Hch.
  destruct (huge_malloc_spec (hchunks s) _ _ asked Hch ltac:(lia)) as (r & ch & fl' & E & Hsame & Hr).
  rw (on_heap_chunks_Some _ s _ _ E). split_and!; [done..|].
  assert (forall x, x ∈ g_small g \/ x ∈ large_own (g_large g) -> entry (chunk_infos ch) x = entry (chunk_infos (hchunks s)) x) as Hsame'.
  { intros x Hx. apply Hsame. unfold all_own. rw !elem_of_app. tauto. }
  pose proof (huge_of_frame g U s es tbl ch HB Hsame) as Hold.
  destruct Hr as [(-> & Hch' & Hno)|(cn & k & Hlive & Hch')]; [left|right].
  - split_and!; [done..|]. exists U, L, tbl. by apply (heap_rep_chunks _ _ _ _ _ g _ fl' _ _ HR HB); [..|apply HR|].
  - pose proof Hlive as [-> Hcn Hle Hk Hal Hhyp _ _]. exists (InHuge (HugeBlock (cn * chunksize) asked cn k)).
    assert (0 < 2 ^ k <= 2 ^ 25) by (split; [apply Z.pow_pos_nonneg; lia|apply Z.pow_le_mono_r; lia]).
    change chunk_limit with (2 ^ 26) in Hcn. split_and!; [unfold chunksize, log_chunksize; lia..| |].
    { exists cn, k. split_and!; [done..| |lia]. unfold chunksize, log_chunksize. lia. }
    exists U, L, tbl. apply (heap_rep_chunks _ _ _ _ _ g _ fl' _ _ HR HB); [|by constructor|done|done| |done].
    + eapply huge_inv_perm; [|exact Hch']. simpl. unfold all_own. change (huge_own (_ :: ?l)) with (chunks_of (cn, k) ++ huge_own l). solve_Permutation.
    + constructor; [|apply HR]. split; [simpl; lia|]. simpl. unfold pagesize, chunksize, log_chunksize in *. lia.
Qed.

(** ** malloc *)

Lemma largest_bins : bin_2_size 39 = Some largest_small /\ bin_2_size 46 = Some largest_large.
Proof. by vm_compute. Qed.

(** The bin for a size, and for a size at most [hi], the size of bin [top]. *)
Lemma bin_for size top hi : 0 <= size <= hi -> bin_2_size top = Some hi -> hi <= 2 ^ 47 ->
  exists siz, bin_2_size (size_2_bin size) = Some siz /\ size <= siz /\ 0 <= size_2_bin size <= top.
Proof.
  intros Hs Ht Hhi. pose proof (size_2_bin_fits size ltac:(lia)) as Hf. pose proof Hf as [(siz & Hsiz & Hle) _]. exists siz.
  pose proof (bin_2_size_range _ _ Hsiz). pose proof (first_fit_least _ _ _ _ Hf Ht ltac:(lia)). split_and!; [done|done|lia..].
Qed.

Lemma served_weaken s es no no' m P Q size : (no -> no') -> (forall r o, P r o -> Q r o) -> served s es no m P size -> served s es no' m Q size.
Proof.
  intros Hno HP. unfold served. destruct m as [[r s']|]; [|done]. intros (? & ? & [(? & ? & ?)|(o & ? & ? & ?)]); split_and!; [done|done|left; tauto|done|done|right].
  exists o. by split_and!; [lia..|apply HP|].
Qed.

Lemma served_from s s1 es no m P size : bytes s1 = bytes s -> served s1 es no m P size -> served s es no m P size.
Proof. intros Eb. unfold served. by rw Eb. Qed.

(** The addresses of the objects have the alignment of their size, up to a page. *)
Lemma object_aligned info c f k d : is_chunk c -> (d | pagesize) -> (d | folio_size info) -> (d | object_size info) ->
  (d | object_address info c f k).
Proof.
  intros (cn & _ & ->) Hp Hf Ho. unfold object_address.
  assert (d | chunksize) as Hc by (etrans; [exact Hp|by exists 512]).
  repeat apply Z.divide_add_r; by apply Z.divide_mul_r.
Qed.

Lemma bin_words b info : static_bin b = Some info -> 8 <= b < first_huge_bin_number -> (8 | folio_size info) /\ (8 | object_size info).
Proof.
  intros Hi Hb. unfold first_huge_bin_number in Hb.
  by_table 8 39 (fun (_ : Z) (i : static_bin_s) => (folio_size i mod 8 =? 0) && (object_size i mod 8 =? 0)).
  destruct Hcheck. by split; apply Z.mod_divide.
Qed.

Lemma large_pages b info : static_bin b = Some info -> large_bin b -> folio_size info mod pagesize = 0 /\ object_size info mod pagesize = 0.
Proof.
  intros Hi [Hb Hb']. unfold first_large_bin_number, first_huge_bin_number in *.
  by_table 40 7 (fun (_ : Z) (i : static_bin_s) => (folio_size i mod pagesize =? 0) && (object_size i mod pagesize =? 0)).
  by destruct Hcheck.
Qed.

Definition word_aligned (size r : Z) : Prop := 28 < size -> (8 | r).

(** An object of a bin that has room. *)
Lemma bin_malloc_spec s es b siz size : heap_inv s es -> initialized s = true -> 0 <= b < first_huge_bin_number -> bin_2_size b = Some siz ->
  0 <= size <= siz -> served s es (refuses 1 (hchunks s)) (cached_malloc_h env b s) (fun r o => word_aligned size r /\ exists b a, o = InBin b a) size.
Proof.
  intros HI Hin Hb Hs Hsz. destruct (bin_static b siz Hs) as (info & Hi & <-).
  eapply served_weaken; [done| |by apply (cached_malloc_h_spec s es b info size)]. intros r o (c & f & k & -> & Hok & Hc & -> & _).
  split; [|by eexists _, _]. intros H28. assert (8 <= b) as H8.
  { apply Z.nlt_ge. intros Hlt. assert (bin_2_size 8 = Some 32) as H32 by by vm_compute. assert (bin_2_size 7 = Some 28) as H7 by by vm_compute.
    destruct (decide (b = 7)) as [->|]; [rw Hs in H7; simplify_eq; lia|]. pose proof (bin_sizes_mono b 7 _ _ ltac:(lia) Hs H7). lia. }
  destruct (bin_words b info Hi ltac:(lia)) as [Hf Ho]. apply object_aligned; [done|by exists 512|done|done].
Qed.

Lemma heap_inv_head s es e : heap_inv s (e :: es) -> block_ok e.
Proof. intros (U & L & tbl & [_ _ _ H4 _]). by apply Forall_cons in H4 as [? _]. Qed.

(** [r = m (); return r ? r + mis : NULL;] *)
Lemma shifted_spec s es no (m : M (heap K T) Z) P Q asked size mis : 0 <= mis < pagesize -> served s es no (m s) P asked ->
  (forall r o, 0 < r -> P r o -> block_ok (Block r asked o) -> block_ok (Block (r + mis) size o) /\ Q (r + mis) o /\ r + mis < 2 ^ 48) ->
  served s es no ((result ← m; if result =? 0 then mret 0 else mret (uadd 64 result mis)) s) Q size.
Proof.
  intros Hmis Hm Hpiece. unfold served in Hm. unfold mbind, M_bind. destruct (m s) as [[r s']|]; [|done].
  destruct Hm as (Eb & Ei & [(-> & Hno & HI)|(o & Hr & HP & HI)]); [split_and!; [done..|by left]|].
  rewrite -> (proj2 (Z.eqb_neq r 0)) by lia. destruct (Hpiece r o ltac:(lia) HP (heap_inv_head _ _ _ HI)) as (Hok & HQ & Hlt).
  unfold uadd. rewrite -> uwrap_small by (unfold is_uint; lia). split_and!; [done..|]. right. exists o. split_and!; [lia..|done|].
  by apply (heap_inv_piece s' es r (r + mis) asked).
Qed.

Lemma prandnum_spec s es : heap_inv s es ->
  exists v s', prandnum env s = Some (v, s') /\ heap_inv s' es /\ bytes s' = bytes s /\ initialized s' = initialized s /\ hchunks s' = hchunks s.
Proof.
  intros (U & L & tbl & [H1 H2 H3 H4 H5]). unfold prandnum. rw bind_gets bind_modify. eexists _, _. split; [done|]. split_and!; [|done..].
  exists U, L, tbl. by split.
Qed.

Lemma misalignment_range v : 0 <= umul 64 v cacheline_size mod pagesize < pagesize /\ (8 | umul 64 v cacheline_size mod pagesize).
Proof.
  split; [by apply Z.mod_pos_bound|]. unfold umul, uwrap, cacheline_size, pagesize.
  assert (forall a m, (8 | a) -> (8 | m) -> m <> 0 -> (8 | a mod m)) as Hmod.
  { intros a m Ha Hm Hne. rewrite -> (Z.mod_eq a m) by done. apply Z.divide_sub_r; [done|]. by apply Z.divide_mul_l. }
  apply Hmod; [|by exists 512|done]. apply Hmod; [|by exists (2 ^ 61)|done]. apply Z.divide_mul_r. by exists 8.
Qed.

(** Large and huge objects start at a random line of their first page. *)
Lemma malloc_large_spec s es size mis : heap_inv s es -> initialized s = true -> largest_small <= size <= 2 ^ 46 - pagesize ->
  0 <= mis < pagesize -> (8 | mis) ->
  served s es (lacks s (malloc_asks size)) ((let allocate_size := uadd 64 size mis in
    if allocate_size <=? largest_large then
      let bin := size_2_bin allocate_size in
      result ← cached_malloc_h env bin;
      if result =? 0 then mret 0 else mret (uadd 64 result mis)
    else
      result ← on_heap_chunks (huge_malloc allocate_size);
      if result =? 0 then mret 0 else mret (uadd 64 result mis)) s) (fun r _ => word_aligned size r) size.
Proof.
  intros HI Hin Hsz Hmis H8. unfold largest_small, pagesize in *. cbv zeta. assert (uadd 64 size mis = size + mis) as -> by (unfold uadd; rewrite -> uwrap_small; [done|unfold is_uint; lia]).
  destruct (Z.leb_spec (size + mis) largest_large) as [Hle|Hgt].
  - destruct (bin_for (size + mis) 46 largest_large) as (siz & Hs & Hle' & Hb); [lia|apply largest_bins|done|].
    destruct (bin_static _ _ Hs) as (info & Hi & <-). apply (served_weaken _ _ (refuses 1 (hchunks s)) _ _ (fun r _ => word_aligned size r)); [|done|].
    { intros Hno. exists 1. split; [left; split; [lia|done]|done]. }
    eapply shifted_spec; [done|apply (cached_malloc_h_spec s es _ info (size + mis)); try done; unfold first_huge_bin_number; lia|].
    intros r o Hr (c & f & k & -> & Hok & Hc & E & Hlt) _. split_and!; [|intros _|lia].
    + split; [simpl; lia|]. exists info. split; [done|]. simpl. lia.
    + apply Z.divide_add_r; [|done]. rw E. destruct (bin_words _ info Hi) as [? ?]; [|apply object_aligned; [done|by exists 512|done|done]].
      split; [|unfold first_huge_bin_number; lia]. apply Z.nlt_ge. intros Hlt8. assert (bin_2_size 8 = Some 32) as H32 by by vm_compute.
      pose proof (bin_sizes_mono _ 8 _ _ Hlt8 Hs H32). lia.
  - apply (served_weaken _ _ (refuses (huge_request (size + mis)) (hchunks s)) _ _ (fun r _ => word_aligned size r)); [|done|].
    { intros Hno. eexists. split; [right; exists (size + mis); split_and!; [lia|unfold pagesize; lia|done|done]|done]. }
    eapply shifted_spec; [done|apply (huge_malloc_h_spec s es _ (size + mis)); try done; lia|].
    intros r o Hr (cn & k & -> & -> & _ & Hle & _ & Hlt & Hk) _. assert (0 < 2 ^ k) by (apply Z.pow_pos_nonneg; lia). split_and!; [|intros _|].
    + split; [simpl; lia|]. simpl. unfold pagesize. lia.
    + apply Z.divide_add_r; [|done]. apply Z.divide_mul_r. by exists (2 ^ 18).
    + unfold chunksize, log_chunksize, largest_large in *. lia.
Qed.

Lemma malloc_spec s es size : heap_inv s es -> 0 <= size <= 2 ^ 46 - pagesize ->
  served s es (refused s (malloc_asks size)) (MALLOC env size s) (fun r _ => word_aligned size r) size.
Proof.
  intros HI Hsz. unfold MALLOC.
  destruct (initialize_spec s es HI) as [[E Hno]|(s1 & E & HI1 & Hin & Eb & _)].
  { unfold mbind, M_bind. rw E. by left. }
  assert (lacks s1 (malloc_asks size) -> refused s (malloc_asks size)) as Href by (intros ?; right; by exists s1).
  assert (size <= largest_large -> refuses 1 (hchunks s1) -> refused s (malloc_asks size)) as Href1.
  { intros Hle Hno. apply Href. exists 1. split; [by left|done]. }
  rw (bind_Some _ _ _ _ _ E). assert (max_allocatable_size = 2 ^ 48 - 1) as -> by by vm_compute.
  unfold pagesize in Hsz. rewrite -> (proj2 (Z.leb_gt (2 ^ 48 - 1) size)) by lia. apply (served_from s s1 _ _ _ _ _ Eb).
  destruct (Z.ltb_spec size largest_small) as [Hlt|Hge].
  - cbv zeta. destruct (bin_for size 39 largest_small) as (siz & Hs & Hle & Hb); [lia|apply largest_bins|done|]. rw (bind_the _ _ _ _ Hs).
    destruct ((size <=? cacheline_size) || negb (is_power_of_two siz)).
    + eapply served_weaken; [apply Href1; unfold largest_small, largest_large in *; lia| |apply (bin_malloc_spec s1 es _ siz size); try done; unfold first_huge_bin_number; lia]. by intros r o [? _].
    + destruct (bin_2_size_some (size_2_bin size + 1)) as [siz' Hs']; [unfold bin_number_limit; lia|].
      pose proof (bin_sizes_mono (size_2_bin size) (size_2_bin size + 1) siz siz' ltac:(lia) Hs Hs').
      eapply served_weaken; [apply Href1; unfold largest_small, largest_large in *; lia| |apply (bin_malloc_spec s1 es _ siz' size); try done; [unfold first_huge_bin_number; lia|lia]]. by intros r o [? _].
  - destruct (Z.leb_spec size largest_small) as [Hle|Hgt].
    + rw bind_ret. eapply served_weaken; [exact Href|intros r o Hx; exact Hx|apply malloc_large_spec; try done; first [by exists 0|unfold pagesize; lia]].
    + destruct (prandnum_spec s1 es HI1) as (v & s2 & Ev & HI2 & Eb2 & Ei2 & Ech).
      assert ((r ← prandnum env; mret (umul 64 r cacheline_size mod pagesize)) s1 = Some (umul 64 v cacheline_size mod pagesize, s2)) as Em
        by by rw (bind_Some _ _ _ _ _ Ev).
      rw (bind_Some _ _ _ _ _ Em). destruct (misalignment_range v) as [Hr H8]. apply (served_from s1 s2 _ _ _ _ _ Eb2).
      eapply served_weaken; [|intros r o Hx; exact Hx|apply malloc_large_spec; try done; [by rw Ei2|unfold pagesize; lia]]. unfold lacks. by rw Ech.
Qed.

(** ** From an address to its object *)

Definition base_of (o : owner) : Z := match o with InBin _ a => a | InHuge h => hb_address h end.
Definition bin_of_owner (o : owner) : Z := match o with InBin b _ => b | InHuge h => first_huge_bin_number + hb_log h end.

Lemma object_base_bin s b a info c f k p : located (hchunks s) b a info c f k -> a <= p < a + object_size info ->
  object_base p s = Some (a, s).
Proof.
  intros Hl Hp. replace p with (a + (p - a)) by lia. set (x := p - a). assert (0 <= x < object_size info) as Hx by (unfold x; lia). clearbody x. clear Hp.
  destruct (located_chunk _ _ _ _ _ _ _ x Hl Hx) as (Ecn & _ & Eoff & _). pose proof (located_below _ _ _ _ _ _ _ Hl) as [_ Hlt].
  pose proof Hl as [Hb Hi HL Hc Hok -> Hnz Ht]. pose proof (object_offset info f k x HL Hok Hx) as Hr.
  unfold object_base. cbv zeta. rw (bind_Some _ _ _ _ _ (get_info_h s _)) Ecn.
  rw bind_bassert; [by apply negb_true_iff, Z.eqb_neq|]. unfold chunk_bin in Ht. rw (bind_the _ _ _ _ Ht).
  rewrite -> (proj2 (Z.leb_gt first_huge_bin_number b)) by lia. rw (bind_the _ _ _ _ Hi) Eoff. rw bind_bassert; [apply Z.leb_le; lia|].
  set (useful := f * folio_size info + k * object_size info + x).
  assert (object_address info 0 f k + x - overhead_pages_per_chunk info * pagesize = useful) as -> by (unfold object_address, useful; lia).
  pose proof (lo_overhead _ HL). assert (0 <= useful < 2 ^ 21) as Hus.
  { unfold object_address, pagesize, chunksize, log_chunksize, useful in *. lia. }
  rewrite -> !(uwrap_small _ useful) by (unfold is_uint; lia). assert (b <= first_huge_bin_number) by lia.
  rewrite -> (bind_the _ _ _ _ (divide_by_foliosize useful b info Hi ltac:(lia) ltac:(lia))).
  destruct (locate_object info f k x HL Hok Hx) as [Ef Ek]. fold useful in Ef, Ek. rw Ef.
  destruct HL as [? ? ? ? Hfs _]. destruct Hok as [Hf Hk].
  assert (0 <= f * folio_size info <= useful) by (unfold useful; nia).
  assert (umul 64 f (folio_size info) = f * folio_size info) as -> by (apply uwrap_small; unfold is_uint; lia).
  rewrite -> (uwrap_small 32) by (unfold is_uint; lia).
  rewrite -> (bind_the _ _ _ _ (divide_by_objsize (useful - f * folio_size info) b info Hi ltac:(lia) ltac:(lia))). rw Ek. cbv [mret M_ret]. f_equal. f_equal.
  rewrite -> (chunk_number_self c Hc). apply uwrap_small. unfold object_address in *. unfold is_uint.
  pose proof (is_chunk_pos c Hc). unfold pagesize in *. lia.
Qed.

Lemma huge_chunk ch h x : huge_ok ch h -> 0 <= x < chunksize ->
  address_2_chunknumber (hb_address h + x) = hb_chunk h /\ address_2_chunkaddress (hb_address h + x) = hb_address h /\
  is_chunk (hb_address h).
Proof.
  intros [-> Hcn _ _ _ _ _ _] Hx. assert (is_chunk (hb_chunk h * chunksize)) as Hc.
  { exists (hb_chunk h). split; [|done]. change chunk_limit with (2 ^ 26) in Hcn. unfold log_max_chunknumber. lia. }
  split_and!; [|by apply chunk_address|done]. rw chunk_number_same //. pose proof (chunk_number_self _ Hc) as E.
  by apply Z.mul_reg_r in E.
Qed.

Lemma object_base_huge s h p : huge_ok (hchunks s) h -> hb_address h <= p < hb_address h + chunksize ->
  object_base p s = Some (hb_address h, s).
Proof.
  intros Hok Hp. replace p with (hb_address h + (p - hb_address h)) by lia.
  destruct (huge_chunk _ h (p - hb_address h) Hok ltac:(lia)) as (Ecn & Eca & _). unfold object_base. cbv zeta.
  rw (bind_Some _ _ _ _ _ (get_info_h s _)) Ecn. destruct Hok as [_ _ _ Hk _ _ Hnz Hb].
  rw bind_bassert; [by apply negb_true_iff, Z.eqb_neq|]. rw (bind_the _ _ _ _ Hb).
  rewrite -> (proj2 (Z.leb_le _ _)) by lia. by rw Eca.
Qed.

(** The table has the bin of every block. *)
Lemma block_entry s es e : heap_inv s es -> e ∈ es ->
  let v := entry (chunk_infos (hchunks s)) (address_2_chunknumber (ptr e)) in
  v <> 0 /\ bin_from_bin_and_size v = Some (bin_of_owner (own e)) /\ 0 < ptr e /\ object_base (ptr e) s = Some (base_of (own e), s) /\
  exists siz, bin_2_size (bin_of_owner (own e)) = Some siz /\ base_of (own e) <= ptr e < base_of (own e) + siz /\
    ptr e + len e <= base_of (own e) + siz /\
    address_2_chunknumber (base_of (own e)) = address_2_chunknumber (ptr e) /\ base_of (own e) + siz <= 2 ^ 48.
Proof.
  intros HI He. destruct (own e) as [b a|h] eqn:Ho; cbn [base_of bin_of_owner].
  - destruct (heap_bin_block s es e b a HI He Ho) as (info & c & f & k & Hl & Hp & Hlen). pose proof (located_below _ _ _ _ _ _ _ Hl) as [Ha Hlt].
    destruct (located_chunk _ _ _ _ _ _ _ (ptr e - a) Hl ltac:(lia)) as (Ecn & _). replace (a + (ptr e - a)) with (ptr e) in Ecn by lia.
    destruct (located_chunk _ _ _ _ _ _ _ 0 Hl ltac:(lia)) as (Ecn0 & _). rw Z.add_0_r in Ecn0. cbv zeta. rw Ecn Ecn0.
    split_and!; [apply Hl|apply Hl|lia|by apply (object_base_bin s b a info c f k)|].
    exists (object_size info). split_and!; try done; try lia. by apply bin_2_size_static, Hl.
  - destruct (heap_huge_block s es e h HI He Ho) as (Hok & Hp & Hlen). unfold pagesize in Hp.
    destruct (huge_chunk _ h (ptr e - hb_address h) Hok) as (Ecn & _); [unfold chunksize, log_chunksize; lia|].
    replace (hb_address h + (ptr e - hb_address h)) with (ptr e) in Ecn by lia.
    destruct (huge_chunk _ h 0 Hok) as (Ecn0 & _ & Hc); [done|]. rw Z.add_0_r in Ecn0. pose proof (is_chunk_pos _ Hc). cbv zeta. rw Ecn Ecn0.
    pose proof Hok as [Ha Hcn Hle Hk _ _ Hnz Hb]. change chunk_limit with (2 ^ 26) in Hcn.
    assert (0 < 2 ^ hb_log h <= 2 ^ 25) by (split; [apply Z.pow_pos_nonneg; lia|apply Z.pow_le_mono_r; lia]).
    split_and!; [done|done|lia|apply object_base_huge; [done|unfold chunksize, log_chunksize; lia]|].
    exists (2 ^ hb_log h * chunksize). split_and!; [|lia|unfold chunksize, log_chunksize in *; lia|lia|done|unfold chunksize, log_chunksize in *; lia].
    replace (first_huge_bin_number + hb_log h) with (26 + (hb_log h + 21)) by (unfold first_huge_bin_number; lia).
    rewrite -> huge_bin_size by lia. rewrite -> Z.pow_add_r by lia. done.
Qed.

(** The bytes from the address to the end of the object. *)
Lemma usable_spec s es e : heap_inv s es -> e ∈ es ->
  exists siz, let n := siz - (ptr e - base_of (own e)) in bin_2_size (bin_of_owner (own e)) = Some siz /\
    MALLOC_USABLE_SIZE (ptr e) s = Some (n, s) /\ len e <= n /\ 0 < n /\ ptr e + n <= 2 ^ 48 /\ block_ok (Block (ptr e) n (own e)).
Proof.
  intros HI He. destruct (block_entry s es e HI He) as (Hnz & Hb & Hp & Hbase & siz & Hsiz & Hr & Hlen & Ecn & Hlt).
  exists siz. cbv zeta. split; [done|]. unfold MALLOC_USABLE_SIZE. rw (bind_Some _ _ _ _ _ (get_info_h s _)).
  rw bind_bassert; [by apply negb_true_iff, Z.eqb_neq|]. rw (bind_the _ _ _ _ Hb) (bind_Some _ _ _ _ _ Hbase) Ecn.
  rw bind_bassert; [by apply Z.eqb_eq|]. rw (bind_the _ _ _ _ Hsiz). rw bind_bassert; [apply Z.leb_le; lia|]. rw bind_bassert; [apply Z.leb_le; lia|].
  split_and!; [done|lia..|]. split; [simpl; lia|]. cbn [ptr len own]. destruct (own e) as [b a|h] eqn:Ho; cbn [base_of bin_of_owner] in *.
  - destruct (bin_static b siz Hsiz) as (info & Hi & <-). exists info. split; [done|]. lia.
  - destruct (heap_huge_block s es e h HI He Ho) as (Hok & Hp' & _). split; [done|]. destruct (hl_log _ _ _ _ _ Hok) as [Hk Hk'].
    replace (first_huge_bin_number + hb_log h) with (26 + (hb_log h + 21)) in Hsiz by (unfold first_huge_bin_number; lia).
    rewrite -> huge_bin_size in Hsiz by lia. rewrite -> Z.pow_add_r in Hsiz by lia. simplify_eq. unfold chunksize, log_chunksize. lia.
Qed.

(** ** free *)

(** Any address of the first page of a huge block will do. *)
Lemma huge_free_page cn o (ch : chunks K) : 0 < cn < chunk_limit -> 0 <= o < pagesize -> huge_free (cn * chunksize + o) ch = huge_free (cn * chunksize) ch.
Proof.
  intros Hcn Ho. change chunk_limit with (2 ^ 26) in Hcn. unfold huge_free.
  assert (forall x, 0 <= x < pagesize -> Z.land (cn * chunksize + x) (uwrap 64 (Z.lnot 4095)) = cn * chunksize) as E.
  { intros x Hx. unfold pagesize, chunksize, log_chunksize in *. change 4095 with (2 ^ 12 - 1). rewrite -> mask_down by (unfold is_uint; lia).
    change (2 ^ 21) with (2 ^ 9 * 2 ^ 12). rw Z.mul_assoc Z.div_add_l // Z.div_small //. lia. }
  rw E //. pose proof (E 0 ltac:(unfold pagesize; lia)) as E0. rw Z.add_0_r in E0. by rw E0.
Qed.

Lemma free_bin_spec s es e b a : heap_inv s (e :: es) -> own e = InBin b a -> initialized s = true -> 0 <= b < first_huge_bin_number ->
  exists s', cached_free_h env a b s = Some (tt, s') /\ heap_inv s' es /\ bytes s' = bytes s /\ initialized s' = true.
Proof.
  intros (U & L & tbl & [Hca How Hnd Hbl Hst]) Ho Hin Hb.
  assert (bins_of (e :: es) = (b, a) :: bins_of es) as Ebs by (unfold bins_of; simpl; by rw Ho).
  assert (huge_of (e :: es) = huge_of es) as Ehs by (unfold huge_of; simpl; by rw Ho).
  rw Ebs in How Hnd. rw Ehs in Hca. apply NoDup_cons in Hnd as [Hn Hnd].
  destruct (cached_free_spec (AO := bins_ok (huge_of es) tbl) (h_cache s) U L b a (use_threadcache env) Hca Hb) as (c & U' & L' & E & Hca' & Hg);
    [apply How; left|].
  unfold cached_free_h, on_cache, zoom. rw E. eexists. split; [done|]. split_and!; [|done..].
  exists U', L', tbl. split; [done| |done|by apply Forall_cons in Hbl as [_ ?]|done]. intros b' a'. rw (Hg b' a') How elem_of_cons. split.
  - intros [[?|?] Hne]; [simplify_eq; tauto|done].
  - intros Hx. split; [by right|]. by intros [-> ->].
Qed.

Lemma free_huge_spec s es e h : heap_inv s (e :: es) -> own e = InHuge h -> initialized s = true ->
  exists s', on_heap_chunks (huge_free (ptr e)) s = Some (tt, s') /\ heap_inv s' es /\ bytes s' = bytes s /\ initialized s' = true.
Proof.
  intros HI Ho Hin. destruct (heap_huge_block s (e :: es) e h HI ltac:(left) Ho) as (Hok & Hp & _). destruct HI as (U & L & tbl & HR).
  destruct (heap_bins _ _ _ _ _ HR) as (g & HB). pose proof (bins_chunks _ _ _ _ _ HB) as Hch.
  assert (bins_of (e :: es) = bins_of es) as Ebs by (unfold bins_of; simpl; by rw Ho).
  assert (huge_of (e :: es) = h :: huge_of es) as Ehs by (unfold huge_of; simpl; by rw Ho). rw Ehs in Hch.
  set (own := all_own g (huge_of es) tbl).
  assert (huge_inv (hchunks s) (g_free g) (chunks_of (hb_chunk h, hb_log h) ++ own)) as Hch1.
  { eapply huge_inv_perm; [|exact Hch]. unfold own, all_own. change (huge_own (h :: ?l)) with (chunks_of (hb_chunk h, hb_log h) ++ huge_own l). solve_Permutation. }
  pose proof Hok as [Ha Hcn _ Hk _ _ _ _]. assert (hb_chunk h ∈ chunks_of (hb_chunk h, hb_log h)) as Hself by (apply (chunks_of_start (_, _)); simpl; lia).
  destruct (huge_free_spec (hchunks s) _ _ _ _ _ _ Hch1 Hok) as (ch & fl' & E & Hch2 & Hsame).
  assert (forall x, x ∈ own -> entry (chunk_infos ch) x = entry (chunk_infos (hchunks s)) x) as Hsame'.
  { intros x Hx. apply Hsame. intros ->. pose proof (hi_disjoint _ _ _ Hch1) as Hnd. unfold all_chunks in Hnd.
    apply NoDup_app in Hnd as (_ & _ & (_ & Hnd & _)%NoDup_app). by apply (Hnd (hb_chunk h)). }
  assert (huge_free (ptr e) (hchunks s) = Some (tt, ch)) as E1.
  { rw -E Ha. replace (ptr e) with (hb_chunk h * chunksize + (ptr e - hb_address h)) by lia. by apply huge_free_page; [|lia]. }
  rw (on_heap_chunks_Some _ s _ _ E1). eexists. split; [done|]. split_and!; [|done..]. exists U, L, tbl.
  apply (heap_rep_chunks _ _ _ _ _ g ch fl' es tbl HR HB); [done| | |done| |done].
  - rewrite -> Ehs in HB. pose proof (bi_huge _ _ _ _ _ HB) as HF. apply Forall_cons in HF as [_ HF]. rw !Forall_forall in HF *. intros h' Hh'.
    pose proof (HF h' Hh') as Hok'. apply (huge_ok_frame _ _ _ Hok'), Hsame'. unfold own, all_own. rw !elem_of_app. right. right. left.
    apply huge_own_chunk; [done|]. by destruct (hl_log _ _ _ _ _ Hok').
  - intros x Hx. apply Hsame'. unfold own, all_own. rw !elem_of_app. tauto.
  - by pose proof (hr_blocks _ _ _ _ _ HR) as [_ ?]%Forall_cons.
Qed.

Lemma free_spec s es e : heap_inv s (e :: es) ->
  exists s', FREE env (ptr e) s = Some (tt, s') /\ heap_inv s' es /\ bytes s' = bytes s /\ initialized s' = true.
Proof.
  intros HI. assert (initialized s = true) as Hin by (destruct HI as (U & L & tbl & HR); by apply HR).
  destruct (block_entry s (e :: es) e HI ltac:(left)) as (Hnz & Hb & Hp & Hbase & siz & Hsiz & Hr & _ & Ecn & _).
  assert (maybe_initialize_malloc s = Some (tt, s)) as E0 by (unfold maybe_initialize_malloc; rw bind_gets; by rw Hin).
  unfold FREE. rw (bind_Some _ _ _ _ _ E0). rewrite -> (proj2 (Z.eqb_neq (ptr e) 0)) by lia. cbv zeta.
  rw (bind_Some _ _ _ _ _ (get_info_h s _)). rewrite -> (proj2 (Z.eqb_neq _ 0) Hnz). rw (bind_the _ _ _ _ Hb).
  destruct (own e) as [b a|h] eqn:Ho; cbn [base_of bin_of_owner] in *.
  - destruct (heap_bin_block s (e :: es) e b a HI ltac:(left) Ho) as (info & c & f & k & Hl & Hpe & _).
    destruct (located_chunk _ _ _ _ _ _ _ (ptr e - a) Hl ltac:(lia)) as (_ & _ & Eoff & _). replace (a + (ptr e - a)) with (ptr e) in Eoff by lia.
    pose proof (lc_bin _ _ _ _ _ _ _ Hl) as Hbr. pose proof (lc_layout _ _ _ _ _ _ _ Hl) as HL. pose proof (lo_overhead _ HL).
    pose proof (object_offset info f k (ptr e - a) HL (lc_object _ _ _ _ _ _ _ Hl) ltac:(lia)) as Hoff. unfold pagesize in Hoff.
    rw bind_bassert; [rw Eoff; rewrite -> (proj2 (Z.eqb_neq (object_address info 0 f k + (ptr e - a)) 0)) by lia; done|].
    rewrite -> (proj2 (Z.ltb_lt b _)) by lia. rw (bind_Some _ _ _ _ _ Hbase). by apply (free_bin_spec s es e b a).
  - destruct (heap_huge_block s (e :: es) e h HI ltac:(left) Ho) as (Hok & _). destruct (hl_log _ _ _ _ _ Hok) as [Hk _].
    unfold first_huge_bin_number in *. rw bind_bassert; [rewrite -> (proj2 (Z.eqb_neq (47 + hb_log h) 0)) by lia; by rw andb_false_r|].
    rewrite -> (proj2 (Z.ltb_ge (47 + hb_log h) 47)) by lia. by apply (free_huge_spec s es e h).
Qed.

(** ** What the program may use *)

Definition in_block (x : Z) (e : block) : Prop := ptr e <= x < ptr e + len e.

(** The chunk of an address of a block. *)
Lemma block_chunks s es U L tbl g e x : heap_rep s es U L tbl -> bins_inv (under (h_cache s)) g U (huge_of es) tbl -> e ∈ es -> in_block x e ->
  let cn := address_2_chunknumber x in
  cn * chunksize <= x < (cn + 1) * chunksize /\
  match own e with
  | InBin _ _ => cn ∈ g_small g \/ cn ∈ large_own (g_large g)
  | InHuge h => cn ∈ chunks_of (hb_chunk h, hb_log h)
  end.
Proof.
  intros HR HB He Hx. assert (heap_inv s es) as HI by by exists U, L, tbl. unfold in_block in Hx. destruct (own e) as [b a|h] eqn:Ho; cbv zeta.
  - destruct (heap_bin_block s es e b a HI He Ho) as (info & c & f & k & Hl & Hp & Hlen).
    destruct (located_chunk _ _ _ _ _ _ _ (x - a) Hl ltac:(lia)) as (Ecn & _ & _ & _ & Hc & Hc'). replace (a + (x - a)) with x in Ecn, Hc' by lia.
    rw Ecn. pose proof (chunk_number_self c (lc_chunk _ _ _ _ _ _ _ Hl)). split; [lia|].
    assert (U b a) as Hu by (apply (hr_owned _ _ _ _ _ HR), list_elem_of_omap; exists e; by rw Ho).
    destruct (object_located _ _ _ _ _ _ _ HB Hu) as (info' & c' & f' & k' & Hl' & Hown).
    pose proof (lo_object _ (lc_layout _ _ _ _ _ _ _ Hl)). pose proof (lo_object _ (lc_layout _ _ _ _ _ _ _ Hl')).
    destruct (located_chunk _ _ _ _ _ _ _ 0 Hl ltac:(lia)) as (E & _). destruct (located_chunk _ _ _ _ _ _ _ 0 Hl' ltac:(lia)) as (E' & _). by rw -E E'.
  - destruct (heap_huge_block s es e h HI He Ho) as (Hok & Hp & Hlen). pose proof Hok as [Ha Hcn _ Hk _ _ _ _]. change chunk_limit with (2 ^ 26) in Hcn.
    assert (0 < 2 ^ hb_log h <= 2 ^ 25) by (split; [apply Z.pow_pos_nonneg; lia|apply Z.pow_le_mono_r; lia]).
    rw elem_of_chunks_of. cbn [fst snd].
    assert (hb_chunk h <= x / chunksize < hb_chunk h + 2 ^ hb_log h) as Hdiv.
    { split; [apply Z.div_le_lower_bound; [done|lia]|apply Z.div_lt_upper_bound; [done|lia]]. }
    unfold address_2_chunknumber, log_max_chunknumber. rewrite -> (Z.mod_small (x / chunksize)) by lia. split; [|done].
    pose proof (Z.div_mod x chunksize ltac:(done)). pose proof (Z.mod_pos_bound x chunksize ltac:(done)). lia.
Qed.

Lemma block_mapped s es e x : heap_inv s es -> e ∈ es -> in_block x e -> mapped (kern (c_os (hchunks s))) x.
Proof.
  intros (U & L & tbl & HR) He Hx. destruct (heap_bins _ _ _ _ _ HR) as (g & HB).
  destruct (block_chunks s es U L tbl g e x HR HB He Hx) as [Hr Hcn]. pose proof (bins_chunks _ _ _ _ _ HB) as Hch.
  apply (hi_mapped _ _ _ Hch (address_2_chunknumber x)); [|done]. unfold all_chunks, all_own. rw !elem_of_app. right.
  destruct (own e) as [b a|h] eqn:Ho; [tauto|]. right. right. left. apply list_elem_of_bind. exists h. split; [done|].
  apply list_elem_of_omap. exists e. by rw Ho.
Qed.

(** No address is in two blocks. *)
Lemma blocks_disjoint s es e1 e2 x : heap_inv s (e1 :: e2 :: es) -> in_block x e1 -> in_block x e2 -> False.
Proof.
  intros (U & L & tbl & HR) Hx1 Hx2. destruct (heap_bins _ _ _ _ _ HR) as (g & HB). assert (heap_inv s (e1 :: e2 :: es)) as HI by by exists U, L, tbl.
  destruct (block_chunks s _ U L tbl g e1 x HR HB ltac:(left) Hx1) as [_ H1].
  destruct (block_chunks s _ U L tbl g e2 x HR HB ltac:(right; left) Hx2) as [_ H2].
  pose proof (hi_disjoint _ _ _ (bins_chunks _ _ _ _ _ HB)) as Hnd. unfold all_chunks, all_own in Hnd. apply NoDup_app in Hnd as (_ & _ & Hnd).
  rw app_assoc in Hnd. apply NoDup_app in Hnd as (_ & Hdisj & (Hnd & _)%NoDup_app). cbv zeta in H1, H2.
  assert (forall h, h ∈ huge_of (e1 :: e2 :: es) -> address_2_chunknumber x ∈ chunks_of (hb_chunk h, hb_log h) ->
    (address_2_chunknumber x ∈ g_small g \/ address_2_chunknumber x ∈ large_own (g_large g)) -> False) as Hmix.
  { intros h Hh Hc Hb. apply (Hdisj (address_2_chunknumber x)); [by apply elem_of_app|]. apply elem_of_app. left.
    apply list_elem_of_bind. by exists h. }
  assert (forall e h, e ∈ e1 :: e2 :: es -> own e = InHuge h -> h ∈ huge_of (e1 :: e2 :: es)) as Hof.
  { intros e h He Ho. apply list_elem_of_omap. exists e. by rw Ho. }
  destruct (own e1) as [b1 a1|h1] eqn:Ho1, (own e2) as [b2 a2|h2] eqn:Ho2.
  - destruct (heap_bin_block s _ e1 b1 a1 HI ltac:(left) Ho1) as (i1 & c1 & f1 & k1 & Hl1 & Hp1 & Hn1).
    destruct (heap_bin_block s _ e2 b2 a2 HI ltac:(right; left) Ho2) as (i2 & c2 & f2 & k2 & Hl2 & Hp2 & Hn2). unfold in_block in *.
    destruct (located_apart _ _ _ _ _ _ _ _ _ _ _ _ _ (x - a1) (x - a2) Hl1 Hl2) as [-> ->]; [lia..|].
    pose proof (hr_nodup _ _ _ _ _ HR) as Hd. unfold bins_of in Hd. simpl in Hd. rw Ho1 Ho2 in Hd. apply NoDup_cons in Hd as [Hd _]. by apply Hd; left.
  - apply (Hmix h2); [apply (Hof e2); [right; left|done]|done..].
  - apply (Hmix h1); [apply (Hof e1); [left|done]|done..].
  - unfold huge_of in Hnd. simpl in Hnd. rw Ho1 Ho2 in Hnd. simpl in Hnd. apply NoDup_app in Hnd as (_ & Hd & _).
    apply (Hd (address_2_chunknumber x)); [done|]. apply elem_of_app. by left.
Qed.

Lemma blocks_disjoint_index s es i j e1 e2 x : heap_inv s es -> es !! i = Some e1 -> es !! j = Some e2 -> i <> j -> in_block x e1 -> in_block x e2 -> False.
Proof.
  intros HI Hi Hj Hne. pose proof (delete_Permutation es i e1 Hi) as Hp.
  assert (exists k, delete i es !! k = Some e2) as (k & Hk).
  { destruct (decide (j < i)%nat); [exists j; by rewrite -> list_lookup_delete_lt by lia|].
    exists (j - 1)%nat. rewrite -> list_lookup_delete_ge by lia. by replace (S (j - 1)) with j by lia. }
  pose proof (delete_Permutation _ k e2 Hk) as Hp'. rw Hp' in Hp. apply (heap_inv_perm _ _ _ Hp) in HI. by apply (blocks_disjoint s (delete k (delete i es))).
Qed.
End invariant.

(** ** The state at the start *)

Section start.
Context {K : Kernel} {KO : KernelOk K} {T : Scheduler} {TO : SchedulerOk T}.

Lemma no_heap_inv (o : os K) (t : @sstate T) : heap_inv (no_heap o t) [].
Proof.
  eexists _, _, []. split; [apply no_cache_inv; eexists; apply no_bins_inv| |constructor|constructor|done].
  intros b a. split; [by intros [? _]|by intros ?%elem_of_nil].
Qed.
End start.
