(* ===== verification/SupermallocOps.v ===== *)
(** * src/memory/malloc.cpp: [calloc], [realloc] and the aligned allocations.

    What they add to [malloc]: the contents of the new block, the fate of the old
    one, and the alignment of the address. *)
From stdpp Require Import functions.
From S2P Require Import Prelude Words StateMonad Sizeclass Makechunk Huge Small SmallSpec SmallAlloc Footprint Large Cache CacheSpec Bins Supermalloc SupermallocSpec.
#[local] Open Scope Z_scope.

Section contents.
Context {K : Kernel} {KO : KernelOk K} {T : Scheduler} {TO : SchedulerOk T}.
Variable env : setting.
Implicit Type s : heap K T.

Definition with_bytes (f : Z -> Z) s : heap K T := Heap (h_cache s) (initialized s) (rv s) (errno s) f.

Lemma heap_inv_bytes s es f : heap_inv s es -> heap_inv (with_bytes f s) es.
Proof. intros (U & L & tbl & [H1 H2 H3 H4 H5]). exists U, L, tbl. by split. Qed.

(** The bytes of the other blocks. *)
Definition kept s s' (es : list block) : Prop := forall e x, e ∈ es -> in_block x e -> bytes s' x = bytes s x.

Lemma kept_eq s s' es : bytes s' = bytes s -> kept s s' es.
Proof. intros E e x _ _. by rw E. Qed.

(** What is written inside of a block does not touch another one. *)
Lemma kept_outside s s1 s2 es e : heap_inv s1 (e :: es) -> bytes s1 = bytes s -> (forall x, ~ in_block x e -> bytes s2 x = bytes s1 x) -> kept s s2 es.
Proof.
  intros HI Eb Hout e' x He' Hx. rw -Eb. apply Hout. intros Hx'. apply list_elem_of_lookup in He' as (i & Hi).
  by apply (blocks_disjoint_index s1 (e :: es) 0 (S i) e e' x).
Qed.

(** The beginning of the object of a block. *)
Lemma heap_inv_base s es e : heap_inv s (e :: es) -> heap_inv s (Block (base_of (own e)) 0 (own e) :: es).
Proof.
  intros HI. pose proof (heap_inv_head _ _ _ HI) as [Hn Hok]. destruct e as [p n o]. apply (heap_inv_piece s es p _ n 0 o HI). split; [done|].
  cbn [own ptr len] in *. destruct o as [b a|h]; simpl in *.
  - destruct Hok as (info & Hi & H1 & H2). exists info. split; [done|lia].
  - unfold pagesize in *. lia.
Qed.

Lemma block_ok_shorter p n m o : block_ok (Block p n o) -> 0 <= m <= n -> block_ok (Block p m o).
Proof.
  intros [Hn Hok] Hm. split; [simpl; lia|]. cbn [own ptr len] in *. destruct o as [b a|h]; [|lia]. destruct Hok as (info & Hi & H1 & H2).
  exists info. split; [done|lia].
Qed.

(** [NULL] has no object. *)
Lemma object_base_null s es : heap_inv s es -> object_base 0 s = None.
Proof.
  intros (U & L & tbl & HR). destruct (heap_bins _ _ _ _ _ HR) as (g & HB). pose proof (hi_zero _ _ _ (bins_chunks _ _ _ _ _ HB)) as Hz.
  unfold object_base. cbv zeta. rw (bind_Some _ _ _ _ _ (get_info_h s _)). change (address_2_chunknumber 0) with 0. unfold hchunks. by rw Hz.
Qed.

(** ** calloc *)

(** Zeros in the object of a block. *)
Lemma zero_spec s s1 es r n o base siz a m : heap_inv s1 (Block r n o :: es) -> block_ok (Block base siz o) -> bytes s1 = bytes s ->
  base <= a -> a <= r -> r + n <= a + m -> a + m <= base + siz ->
  exists s', zero a m s1 = Some (tt, s') /\ heap_inv s' (Block r n o :: es) /\ (forall i, 0 <= i < n -> bytes s' (r + i) = 0) /\ kept s s' es.
Proof.
  intros HI Hok Eb H1 H2 H3 H4. eexists. split; [done|]. split; [by apply heap_inv_bytes|]. split.
  - intros i Hi. cbn [bytes]. rewrite -> (proj2 (Z.leb_le a (r + i))), (proj2 (Z.ltb_lt (r + i) (a + m))) by lia. done.
  - apply (kept_outside s s1 _ es (Block base siz o)); [by apply (heap_inv_piece s1 es r base n)|done|].
    intros x Hx. cbn [bytes]. unfold in_block in Hx. cbn [ptr len] in Hx.
    destruct (Z.leb_spec a x), (Z.ltb_spec x (a + m)); simpl; (done || lia).
Qed.

(** The same by way of [madvise], which succeeds because the object is mapped. *)
Lemma dont_need_spec s s1 es r n o base siz : heap_inv s1 (Block r n o :: es) -> block_ok (Block base siz o) -> bytes s1 = bytes s ->
  0 < siz -> offset_in_page base = 0 -> base <= r -> r + n <= base + siz ->
  exists s', dont_need base siz s1 = Some (tt, s') /\ heap_inv s' (Block r n o :: es) /\ (forall i, 0 <= i < n -> bytes s' (r + i) = 0) /\ kept s s' es.
Proof.
  intros HI Hok Eb Hs Hp H1 H2. unfold dont_need.
  destruct (madvise_spec (hchunks s1) base siz MADV_DONTNEED) as (ok & k & E & Hsame & Hyes). rw (bind_Some _ _ _ _ _ (on_heap_chunks_Some _ s1 _ _ E)).
  assert (ok = true) as ->.
  { apply Hyes; [done|done|done|]. intros x Hx. apply (block_mapped s1 (Block base siz o :: es) (Block base siz o)); [|left|done].
    by apply (heap_inv_piece s1 es r base n). }
  apply (zero_spec s _ es r n o base siz base siz); [by apply heap_inv_space|done|done|lia..].
Qed.

Lemma calloc_spec s es number size : heap_inv s es -> 0 <= number -> 0 <= size -> number * size <= 2 ^ 46 - pagesize ->
  match CALLOC env number size s with
  | None => refused s (malloc_asks (number * size))
  | Some (r, s') => exists o, 0 < r < 2 ^ 48 /\ heap_inv s' (Block r (number * size) o :: es) /\
      (forall i, 0 <= i < number * size -> bytes s' (r + i) = 0) /\ kept s s' es
  end.
Proof.
  intros HI Hn Hs Hmax. set (n := number * size). assert (0 <= n) as Hn0 by (unfold n; lia). unfold pagesize in Hmax. fold n in Hmax.
  assert (umul 64 number size = n) as En by (apply uwrap_small; fold n; unfold is_uint; lia).
  pose proof (malloc_spec env s es n HI ltac:(unfold pagesize; lia)) as Hm. unfold CALLOC. rw !En. unfold served in Hm.
  destruct (MALLOC env n s) as [[r s1]|] eqn:E; [|unfold mbind at 1, M_bind; by rw E]. rw (bind_Some _ _ _ _ _ E).
  destruct Hm as (Eb & Hin & [(-> & Hno & HI1)|(o & Hr & _ & HI1)]); [unfold mbind at 1, M_bind; by rw (object_base_null s1 es)|]. set (e := Block r n o) in *.
  destruct (block_entry s1 (e :: es) e HI1 ltac:(left)) as (_ & _ & _ & Hbase & siz & Hsiz & Hrange & Hlen & _). cbn [ptr len own e] in *.
  rw (bind_Some _ _ _ _ _ Hbase). pose proof (heap_inv_base s1 es e HI1) as HI2. cbn [own e] in HI2.
  destruct (usable_spec s1 _ _ HI2 ltac:(left)) as (siz' & Hsiz' & Eu & _ & Hu0 & _ & Hoku). cbn [ptr own] in Hsiz', Eu, Hoku.
  assert (siz' = siz) as -> by congruence. rw (bind_Some _ _ _ _ _ Eu). set (base := base_of o) in *. replace (siz - (base - base)) with siz in * by lia.
  assert (forall a m, base <= a -> a <= r -> r + n <= a + m -> a + m <= base + siz ->
    exists s', zero a m s1 = Some (tt, s') /\ heap_inv s' (e :: es) /\ (forall i, 0 <= i < n -> bytes s' (r + i) = 0) /\ kept s s' es) as Hzero
    by (intros a m; by apply (zero_spec s s1 es r n o base siz a m)).
  assert (exists s', ((if 0 <? offset_in_page base then zero r n else if negb (siz mod pagesize =? 0) then bassert (siz <? chunksize);; zero r n
    else dont_need base siz) s1 : option (unit * heap K T)) = Some (tt, s') /\ heap_inv s' (e :: es) /\ (forall i, 0 <= i < n -> bytes s' (r + i) = 0) /\ kept s s' es)
    as (s' & Ez & HI' & Hz & Hk).
  { pose proof (Z.mod_pos_bound base pagesize ltac:(done)) as Hbp. fold (offset_in_page base) in Hbp.
    case_ltb; [apply Hzero; lia|]. destruct (negb (siz mod pagesize =? 0)) eqn:Epg; [|apply (dont_need_spec s s1 es r n o base siz); (done || lia)].
    rw bind_bassert; [|apply Hzero; lia]. apply Z.ltb_lt. apply negb_true_iff, Z.eqb_neq in Epg. destruct o as [b a|h]; cbn [bin_of_owner] in Hsiz.
    - destruct (heap_bin_block s1 _ e b a HI1 ltac:(left) eq_refl) as (info & c & f & k & Hl & _).
      pose proof (cached_size b siz (lc_bin _ _ _ _ _ _ _ Hl) Hsiz). unfold chunksize, log_chunksize. lia.
    - exfalso. apply Epg. destruct (heap_huge_block s1 _ e h HI1 ltac:(left) eq_refl) as (Hok & _). destruct (hl_log _ _ _ _ _ Hok).
      replace (first_huge_bin_number + hb_log h) with (26 + (hb_log h + 21)) in Hsiz by (unfold first_huge_bin_number; lia).
      rewrite -> huge_bin_size in Hsiz by lia. rewrite -> Z.pow_add_r in Hsiz by lia. simplify_eq. change (2 ^ 21) with (2 ^ 9 * pagesize).
      rw Z.mul_assoc. by apply Z.mod_mul. }
  rw (bind_Some _ _ _ _ _ Ez). exists o. by split_and!; [lia..| | |].
Qed.

(** ** realloc *)

Lemma copy_list_spec dst src n l : (forall i j, 0 <= i < n -> 0 <= j < n -> src + i <> dst + j) -> (forall i, i ∈ l -> 0 <= i < n) -> forall s,
  exists f, foreach l (fun i => v ← read (src + i); write (dst + i) v) s = Some (tt, with_bytes f s) /\
    (forall i, i ∈ l -> f (dst + i) = bytes s (src + i)) /\ (forall x, (forall i, i ∈ l -> x <> dst + i) -> f x = bytes s x).
Proof.
  intros Hd. induction l as [|i l IH]; intros Hl s.
  - exists (bytes s). split_and!; [by destruct s|by intros i ?%elem_of_nil|done].
  - cbn [foreach]. set (f0 := <[dst + i := bytes s (src + i)]> (bytes s)).
    assert ((v ← read (src + i); write (dst + i) v) s = Some (tt, with_bytes f0 s)) as E0 by done. rw (bind_Some _ _ _ _ _ E0).
    destruct (IH ltac:(by intros j Hj; apply Hl; right) (with_bytes f0 s)) as (f & E & Hin & Hout). exists f. split; [by rw E|].
    assert (forall j, 0 <= j < n -> f0 (src + j) = bytes s (src + j)) as Hsrc.
    { intros j Hj. apply fn_lookup_insert_ne. intros Heq. by apply (Hd j i); [|apply Hl; left|]. }
    split.
    + intros j Hj. destruct (decide (j ∈ l)) as [Hjl|Hjl]; [rw Hin //; simpl; apply Hsrc, Hl; by right|].
      apply elem_of_cons in Hj as [->|?]; [|done]. rw Hout; [intros k Hk E'; apply Hjl; by replace i with k by lia|]. apply fn_lookup_insert.
    + intros x Hx. rw Hout; [intros k Hk; apply Hx; by right|]. apply fn_lookup_insert_ne. intros <-. by apply (Hx i); [left|].
Qed.

Lemma copy_bytes_spec s es e1 e2 n : heap_inv s (e1 :: e2 :: es) -> n <= len e1 -> n <= len e2 ->
  exists s', copy_bytes (ptr e1) (ptr e2) n s = Some (tt, s') /\ heap_inv s' (e1 :: e2 :: es) /\ initialized s' = initialized s /\
    (forall i, 0 <= i < n -> bytes s' (ptr e1 + i) = bytes s (ptr e2 + i)) /\ (forall x, ~ in_block x e1 -> bytes s' x = bytes s x).
Proof.
  intros HI H1 H2. destruct (copy_list_spec (ptr e1) (ptr e2) n (seqZ 0 n)) with (s := s) as (f & E & Hin & Hout).
  - intros i j Hi Hj Heq. apply (blocks_disjoint s es e1 e2 (ptr e1 + j) HI); unfold in_block; lia.
  - intros i Hi%elem_of_seqZ. lia.
  - exists (with_bytes f s). split_and!; [done|by apply heap_inv_bytes|done|intros i Hi; apply Hin, elem_of_seqZ; lia|].
    intros x Hx. apply Hout. intros i Hi%elem_of_seqZ ->. apply Hx. unfold in_block. lia.
Qed.

(** The result of [realloc]: [lost] is the old block when nobody will free it. *)
Definition reallocated s (es : list block) (e : block) (size : Z) (m : option (Z * heap K T)) : Prop :=
  match m with
  | None => refused s (malloc_asks size)
  | Some (r, s') =>
      (r = 0 /\ refused s (malloc_asks size) /\ heap_inv s' (e :: es) /\ bytes s' = bytes s) \/
      exists o lost, 0 < r < 2 ^ 48 /\ heap_inv s' (Block r size o :: lost ++ es) /\ (lost = [] \/ lost = [e]) /\
        (forall i, 0 <= i < len e -> i < size -> bytes s' (r + i) = bytes s (ptr e + i)) /\ kept s s' es
  end.

(** A new block gets the first [n] bytes of the old object. *)
Lemma fresh_copy s s1 es e r o size n usable : heap_inv s1 (Block r size o :: e :: es) -> bytes s1 = bytes s ->
  block_ok (Block (ptr e) usable (own e)) -> n <= usable -> n <= size ->
  exists s2, copy_bytes r (ptr e) n s1 = Some (tt, s2) /\ heap_inv s2 (Block r size o :: e :: es) /\
    (forall i, 0 <= i < n -> bytes s2 (r + i) = bytes s (ptr e + i)) /\ kept s s2 es.
Proof.
  intros HI Eb Hok Hn Hs. set (e1 := Block (ptr e) usable (own e)) in *. set (e0 := Block r size o) in *.
  assert (block_ok e) as Hoke. { apply (heap_inv_head s1 (e0 :: es)). by eapply heap_inv_perm; [apply Permutation_swap|]. }
  assert (heap_inv s1 (e0 :: e1 :: es)) as HI1.
  { eapply heap_inv_perm; [apply Permutation_swap|]. destruct e as [p l oo]. apply (heap_inv_piece s1 _ p p l); [|done].
    by eapply heap_inv_perm; [apply Permutation_swap|]. }
  destruct (copy_bytes_spec s1 es e0 e1 n HI1 ltac:(done) ltac:(done)) as (s2 & Ec & HI2 & _ & Hcopy & Hout). cbn [ptr e0 e1] in Ec, Hcopy.
  exists s2. split_and!; [done| |by rw -Eb|].
  - eapply heap_inv_perm; [apply Permutation_swap|]. destruct e as [p l oo]. apply (heap_inv_piece s2 _ p p usable); [|done].
    by eapply heap_inv_perm; [apply Permutation_swap|].
  - intros e' x He'. apply (kept_outside s s1 s2 (e :: es) e0 HI Eb Hout). by right.
Qed.

Lemma realloc_spec s es e size : heap_inv s (e :: es) -> 0 <= size <= 2 ^ 46 - pagesize ->
  reallocated s es e size (REALLOC env (ptr e) size s).
Proof.
  intros HI Hsz. unfold REALLOC. assert (max_allocatable_size = 2 ^ 48 - 1) as -> by by vm_compute. pose proof Hsz as Hsz'. unfold pagesize in Hsz'.
  rewrite -> (proj2 (Z.leb_gt (2 ^ 48 - 1) size)) by lia.
  destruct (block_entry s (e :: es) e HI ltac:(left)) as (_ & _ & Hp & _). rewrite -> (proj2 (Z.eqb_neq (ptr e) 0)) by lia.
  destruct (usable_spec s (e :: es) e HI ltac:(left)) as (siz & _ & Eu & Hlen & Hu0 & Hlt & Hok). set (n := siz - _) in *.
  rw (bind_Some _ _ _ _ _ Eu). pose proof (malloc_spec env s (e :: es) size HI Hsz) as Hm. unfold served in Hm.
  destruct (Z.ltb_spec n size) as [Hgrow|Hfit]; [|destruct ((16 <? n) && (size <? n / 2)) eqn:Eshrink].
  - destruct (MALLOC env size s) as [[r s1]|] eqn:E; [|unfold mbind at 1, M_bind; by rw E]. rw (bind_Some _ _ _ _ _ E).
    destruct Hm as (Eb & Hin & [(-> & Hno & HI2)|(o & Hr & _ & HI2)]); [by left|]. rewrite -> (proj2 (Z.eqb_neq r 0)) by lia.
    destruct (fresh_copy s s1 es e r o size n n HI2 Eb Hok) as (s2 & Ec & HI3 & Hcopy & Hkept); [lia..|]. rw (bind_Some _ _ _ _ _ Ec).
    destruct (free_spec env s2 (Block r size o :: es) e) as (s3 & Ef & HI5 & Eb3 & _).
    { by eapply heap_inv_perm; [apply Permutation_swap|]. }
    rw (bind_Some _ _ _ _ _ Ef). right. exists o, []. split_and!; [lia..|done|by left| |].
    + intros i Hi _. rw Eb3. apply Hcopy. lia.
    + intros e' x He' Hx. rw Eb3. by apply (Hkept e').
  - apply andb_true_iff in Eshrink as [_ Hhalf%Z.ltb_lt].
    destruct (MALLOC env size s) as [[r s1]|] eqn:E; [|unfold mbind at 1, M_bind; by rw E]. rw (bind_Some _ _ _ _ _ E).
    destruct Hm as (Eb & Hin & [(-> & Hno & HI2)|(o & Hr & _ & HI2)]); [by left|]. rewrite -> (proj2 (Z.eqb_neq r 0)) by lia.
    destruct (fresh_copy s s1 es e r o size size n HI2 Eb Hok) as (s2 & Ec & HI3 & Hcopy & Hkept); [lia..|]. rw (bind_Some _ _ _ _ _ Ec).
    right. exists o, [e]. split_and!; [lia..|done|by right| |done]. intros i Hi Hi'. apply Hcopy. lia.
  - right. exists (own e), []. split_and!; [lia..| |by left|done|by apply kept_eq].
    destruct e as [p l o]. apply (heap_inv_piece s es p p l); [done|]. apply (block_ok_shorter _ n); [done|lia].
Qed.
End contents.

(** ** Aligned blocks *)

Section aligned.
Context {K : Kernel} {KO : KernelOk K} {T : Scheduler} {TO : SchedulerOk T}.
Variable env : setting.
Implicit Type s : heap K T.

Lemma bin_even b siz : bin_2_size b = Some siz -> (2 | siz).
Proof.
  intros (info & Hi & <-)%bin_static. pose proof (static_bin_range _ _ Hi).
  by_table 0 74 (fun (_ : Z) (i : static_bin_s) => object_size i mod 2 =? 0). by apply Z.mod_divide.
Qed.

Lemma folio_pages b info : static_bin b = Some info -> 0 <= b < first_huge_bin_number -> (pagesize | folio_size info).
Proof.
  intros Hi Hb. by_table 0 47 (fun (_ : Z) (i : static_bin_s) => folio_size i mod pagesize =? 0). by apply Z.mod_divide.
Qed.

(** What the search answers, from bin [b0] on. *)
Definition found (alignment size b0 : Z) (r : option (Z * Z * bool)) : Prop :=
  match r with
  | Some (b, bs, cut) => b0 <= b < first_huge_bin_number /\ bin_2_size b = Some bs /\
      (if cut : bool then alignment + size <= bs + 1 else Z.land bs (alignment - 1) = 0)
  | None => True
  end.

Lemma find_bin_spec alignment size n : 0 <= alignment -> 0 <= size -> alignment + size < 2 ^ 64 -> forall fuel b s, 0 <= b -> (Z.of_nat n = first_huge_bin_number - b \/ first_huge_bin_number <= b) ->
  (n < fuel)%nat -> exists r, loop fuel (find_bin_body alignment size) b s = Some (r, s) /\ found alignment size b r.
Proof.
  intros Ha Hs Hlt.
  assert (forall fuel b s, first_huge_bin_number <= b -> exists r, loop (S fuel) (find_bin_body alignment size) b s = Some (r, s) /\ found alignment size b r) as Hend.
  { intros fuel b s Hge. exists None. split; [|done]. apply (loop_step _ _ _ _ (inr None)). unfold find_bin_body.
    by rewrite -> (proj2 (Z.ltb_ge b first_huge_bin_number)) by lia. }
  induction n as [|n IH]; intros [|fuel] b s Hb Hn Hf; [lia|apply Hend; lia|lia|].
  destruct (Z.le_gt_cases first_huge_bin_number b) as [Hge|Hlt']; [by apply Hend|].
  destruct (bin_2_size_some b) as [bs Hbs]; [unfold first_huge_bin_number, bin_number_limit in *; lia|].
  assert (find_bin_body alignment size b s = Some (if Z.land bs (alignment - 1) =? 0 then inr (Some (b, bs, false)) else
    if alignment + size <=? bs + 1 then inr (Some (b, bs, true)) else inl (b + 1), s)) as E.
  { unfold find_bin_body. rewrite -> (proj2 (Z.ltb_lt b first_huge_bin_number)) by lia. rw (bind_the _ _ _ _ Hbs).
    assert (uadd 64 alignment size = alignment + size) as -> by (apply uwrap_small; unfold is_uint; lia). repeat case_match; done. }
  rw (loop_step _ _ _ _ _ _ E). destruct (Z.eqb_spec (Z.land bs (alignment - 1)) 0) as [Hz|].
  { exists (Some (b, bs, false)). split; [done|]. by split_and!; [lia..| |]. }
  destruct (Z.leb_spec (alignment + size) (bs + 1)).
  { exists (Some (b, bs, true)). split; [done|]. by split_and!; [lia..| |]. }
  destruct (IH fuel (b + 1) s) as (r & Er & Hr); [lia..|]. exists r. split; [done|]. destruct r as [[[? ?] ?]|]; [|done].
  destruct Hr as (? & ? & ?). by split_and!; [lia..| |].
Qed.

(** The alignment that is kept: up to that of a page always, and any alignment when
    the search meets no bin whose size is a multiple of it. *)
Definition aligned (j size r : Z) : Prop :=
  (2 ^ Z.min j 12 | r) /\
  ((forall b bs, size_2_bin size <= b < first_huge_bin_number -> bin_2_size b = Some bs -> ~ (2 ^ j | bs)) -> (2 ^ j | r)).

Lemma aligned_full j size r : 0 <= j -> (2 ^ j | r) -> aligned j size r.
Proof. intros Hj Hr. split; [|done]. apply (pow_divide_mono (Z.min j 12) j); [lia|done]. Qed.

Lemma aligned_mono j n m r : 0 <= n <= m -> m <= 2 ^ 47 -> aligned j m r -> aligned j n r.
Proof.
  intros Hn Hm [Hp Hr]. split; [done|]. intros Hno. apply Hr. intros b bs Hb. apply Hno. split; [|lia].
  pose proof (size_2_bin_fits n ltac:(lia)) as Hf. pose proof (size_2_bin_fits m ltac:(lia)) as [(siz & Hs & Hle) _].
  pose proof (first_fit_least _ _ _ _ Hf Hs ltac:(lia)). lia.
Qed.

(** What an aligned request may ask for. *)
Definition aligned_asks (j size n : Z) : Prop :=
  n = 1 \/ n = huge_request (if 2 ^ j <=? chunksize then size else Z.max (2 ^ j) size).

Lemma bin_aligned s es b bs j size : heap_inv s es -> initialized s = true -> 0 <= j <= 46 -> 0 <= size <= bs -> 0 <= b < first_huge_bin_number -> size_2_bin size <= b ->
  bin_2_size b = Some bs -> Z.land bs (2 ^ j - 1) = 0 ->
  served s es (refuses 1 (hchunks s)) (cached_malloc_h env b s) (fun r _ => aligned j size r) size.
Proof.
  intros HI Hin Hj Hs Hb Hle Hbs Hz. destruct (bin_static b bs Hbs) as (info & Hi & <-). rewrite -> land_pow2 in Hz by lia.
  assert (0 < 2 ^ j) by (apply Z.pow_pos_nonneg; lia). apply Z.mod_divide in Hz; [|lia].
  eapply served_weaken; [done| |by apply (cached_malloc_h_spec env s es b info size)].
  intros r o (c & f & k & -> & _ & Hc & -> & _). split; [|by intros Hno; exfalso; apply (Hno b (object_size info)); [lia|..]].
  assert (2 ^ Z.min j 12 | pagesize) as Hp by (apply (pow_divide_mono _ 12); [lia|by exists 1]).
  apply object_aligned; [done|done| |apply (pow_divide_mono _ j); [lia|done]]. etrans; [exact Hp|]. by apply (folio_pages b).
Qed.

Lemma align_up_spec s p j size alloced : 0 < p < 2 ^ 48 -> 0 <= j <= 46 -> 0 <= size -> 2 ^ j + size <= alloced + 1 -> alloced <= 2 ^ 47 ->
  exists ra, align_pointer_up p (2 ^ j) size alloced s = Some (ra, s) /\ p <= ra <= p + 2 ^ j - 1 /\ (2 ^ j | ra).
Proof.
  intros Hp Hj Hs Hroom Hal. assert (0 < 2 ^ j <= 2 ^ 46) by (split; [apply Z.pow_pos_nonneg; lia|apply Z.pow_le_mono_r; lia]).
  unfold align_pointer_up. cbv zeta. rewrite -> (uwrap_small 64 (p + 2 ^ j - 1)) by (unfold is_uint; lia). rewrite -> mask_down by (unfold is_uint; lia).
  set (ra := (p + 2 ^ j - 1) / 2 ^ j * 2 ^ j). assert (p <= ra <= p + 2 ^ j - 1) as Hra.
  { unfold ra. pose proof (Z.div_mod (p + 2 ^ j - 1) (2 ^ j)). pose proof (Z.mod_pos_bound (p + 2 ^ j - 1) (2 ^ j)). lia. }
  exists ra. split_and!; [|lia..|by eexists]. rw bind_bassert; [apply Z.eqb_eq; rewrite -> land_pow2 by lia; by apply Z.mod_mul; lia|].
  unfold uadd. rewrite -> !uwrap_small by (unfold is_uint; lia). rw bind_bassert; [apply Z.leb_le; lia|]. done.
Qed.

Lemma cut_aligned s es b bs j size : heap_inv s es -> initialized s = true -> 0 <= j <= 46 -> 0 <= size -> 0 <= b < first_huge_bin_number ->
  bin_2_size b = Some bs -> 2 ^ j + size <= bs + 1 ->
  served s es (refuses 1 (hchunks s)) ((r ← cached_malloc_h env b; if r =? 0 then mret 0 else align_pointer_up r (2 ^ j) size bs) s)
    (fun r _ => aligned j size r) size.
Proof.
  intros HI Hin Hj Hs Hb Hbs Hroom. destruct (bin_static b bs Hbs) as (info & Hi & <-). assert (0 < 2 ^ j) by (apply Z.pow_pos_nonneg; lia).
  pose proof (cached_malloc_h_spec env s es b info size HI Hin Hb Hi ltac:(lia)) as Hm. unfold served in Hm. unfold mbind, M_bind.
  destruct (cached_malloc_h env b s) as [[r s1]|]; [|done]. destruct Hm as (Eb & Hin1 & [(-> & Hno & HI1)|(o & Hr & (c & f & k & -> & _ & _ & _ & Hlt) & HI1)]).
  { split_and!; [done..|by left]. }
  rewrite -> (proj2 (Z.eqb_neq r 0)) by lia. pose proof (cached_size b _ Hb Hbs).
  destruct (align_up_spec s1 r j size (object_size info) Hr Hj Hs Hroom) as (ra & E & Hra & Hd); [lia|]. rw E. split_and!; [done..|right].
  assert (ra < r + object_size info) as Hin2.
  { destruct (decide (size = 0)) as [->|]; [|lia]. destruct (decide (j = 0)) as [->|]; [lia|].
    assert (2 | 2 ^ j) as [x Hx] by (apply (pow_divide_mono 1 j); [lia|done]). destruct (bin_even b _ Hbs) as [y Hy]. lia. }
  exists (InBin b r). split_and!; [lia..|apply aligned_full; [lia|done]|]. apply (heap_inv_piece s1 es r ra size size _ HI1). split; [simpl; lia|]. exists info. split; [done|]. simpl. lia.
Qed.

Lemma huge_aligned s es j size : heap_inv s es -> initialized s = true -> 0 <= j <= 46 -> 0 <= size <= 2 ^ 46 ->
  served s es (lacks s (aligned_asks j size)) ((if 2 ^ j <=? chunksize then on_heap_chunks (huge_malloc size) else
    r ← on_heap_chunks (huge_malloc (Z.max (2 ^ j) size)); if r =? 0 then mret 0 else bassert (Z.land r (2 ^ j - 1) =? 0);; mret r) s)
    (fun r _ => aligned j size r) size.
Proof.
  intros HI Hin Hj Hs. assert (0 < 2 ^ j <= 2 ^ 46) by (split; [apply Z.pow_pos_nonneg; lia|apply Z.pow_le_mono_r; lia]).
  destruct (Z.leb_spec (2 ^ j) chunksize) as [Hle|Hgt].
  - apply Z.leb_le in Hle as Hle'. eapply served_weaken; [|  |apply (huge_malloc_h_spec s es size size); (done || lia)].
    { intros Hno. eexists. split; [by right|]. by rw Hle'. }
    intros r o (cn & k & _ & -> & _). apply aligned_full; [lia|].
    apply Z.divide_mul_r. apply (pow_divide_mono j 21); [|done]. split; [lia|]. apply (Z.pow_le_mono_r_iff 2); [lia..|done].
  - set (asked := Z.max (2 ^ j) size). pose proof (huge_malloc_h_spec s es asked size HI Hin ltac:(lia) ltac:(lia)) as Hm. unfold served in Hm. unfold mbind at 1, M_bind.
    assert (refuses (huge_request asked) (hchunks s) -> lacks s (aligned_asks j size)) as Hlack.
    { intros Hno. eexists. split; [by right|]. by rewrite -> (proj2 (Z.leb_gt (2 ^ j) chunksize)) by done. }
    destruct (on_heap_chunks (huge_malloc asked) s) as [[r s1]|]; [|by apply Hlack]. destruct Hm as (Eb & Hin1 & [(-> & Hno & HI1)|(o & Hr & (cn & k & -> & Er & Hal & _ & Hhyp & _ & Hk) & HI1)]).
    { split_and!; [done..|left; split_and!; [done|by apply Hlack|done]]. }
    rewrite -> (proj2 (Z.eqb_neq r 0)) by lia. assert (2 ^ j | r) as Hd.
    { destruct (hyperceil_spec asked ltac:(lia)) as (m & Hm & Eh & Hle & _). assert (2 ^ j | hyperceil asked) as Hjm.
      { rw Eh. apply (pow_divide_mono j m); [|done]. split; [lia|]. apply (Z.pow_le_mono_r_iff 2); lia. }
      rw Er. etrans; [exact Hjm|]. etrans; [exact Hhyp|]. by apply Z.mul_divide_mono_r. }
    rw bind_bassert; [apply Z.eqb_eq; rewrite -> land_pow2 by lia; by apply Z.mod_divide; [lia|]|]. split_and!; [done..|right]. eexists. split_and!; [lia..|apply aligned_full; [lia|done]|done].
Qed.

Lemma aligned_internal_spec s es j size : heap_inv s es -> 0 <= j <= 46 -> 0 <= size <= 2 ^ 46 ->
  served s es (refused s (aligned_asks j size)) (aligned_malloc_internal env (2 ^ j) size s) (fun r _ => aligned j size r) size.
Proof.
  intros HI Hj Hs. assert (0 < 2 ^ j <= 2 ^ 46) by (split; [apply Z.pow_pos_nonneg; lia|apply Z.pow_le_mono_r; lia]). unfold aligned_malloc_internal.
  destruct (initialize_spec s es HI) as [[E Hno]|(s1 & E & HI1 & Hin & Eb & _)].
  { unfold mbind, M_bind. rw E. by left. }
  assert (lacks s1 (aligned_asks j size) -> refused s (aligned_asks j size)) as Href by (intros ?; right; by exists s1).
  rw (bind_Some _ _ _ _ _ E). apply (served_from s s1 _ _ _ _ _ Eb).
  pose proof (size_2_bin_fits size ltac:(lia)) as [(siz & Hsiz & Hle) _]. pose proof (bin_2_size_range _ _ Hsiz) as Hb0.
  destruct (find_bin_spec (2 ^ j) size (Z.to_nat (first_huge_bin_number - size_2_bin size)) ltac:(lia) ltac:(lia) ltac:(lia) 48%nat (size_2_bin size) s1)
    as (r & Er & Hr); [lia|lia|unfold first_huge_bin_number; lia|].
  rw (bind_Some _ _ _ _ _ Er). destruct r as [[[b bs] cut]|].
  - destruct Hr as (Hb & Hbs & Hcut). assert (size <= bs) as Hfit.
    { destruct (decide (b = size_2_bin size)) as [->|]; [by assert (siz = bs) as <- by congruence|].
      pose proof (bin_sizes_mono (size_2_bin size) b siz bs ltac:(lia) Hsiz Hbs). lia. }
    eapply (served_weaken _ _ (refuses 1 (hchunks s1)) _ _ (fun r _ => aligned j size r)); [intros Hno; apply Href; exists 1; split; [by left|done]|done|]. destruct cut; [apply (cut_aligned s1 es b bs)|apply (bin_aligned s1 es b bs)]; (done || lia).
  - eapply (served_weaken _ _ (lacks s1 (aligned_asks j size)) _ _ (fun r _ => aligned j size r)); [exact Href|done|]. by apply huge_aligned.
Qed.

Lemma pow2_test j x : 0 <= j <= 63 -> 0 <= x -> Z.land x (uwrap 64 (2 ^ j - 1)) = x mod 2 ^ j.
Proof.
  intros Hj Hx. assert (0 < 2 ^ j <= 2 ^ 63) by (split; [apply Z.pow_pos_nonneg; lia|apply Z.pow_le_mono_r; lia]).
  rewrite -> uwrap_small by (unfold is_uint; lia). apply land_pow2. lia.
Qed.

Lemma aligned_alloc_spec s es j size : heap_inv s es -> 0 <= j <= 46 -> 0 <= size <= 2 ^ 46 -> (2 ^ j | size) ->
  served s es (refused s (aligned_asks j size)) (ALIGNED_ALLOC env (2 ^ j) size s) (fun r _ => aligned j size r) size.
Proof.
  intros HI Hj Hs Hd. assert (0 < 2 ^ j) by (apply Z.pow_pos_nonneg; lia). unfold ALIGNED_ALLOC. assert (max_allocatable_size = 2 ^ 48 - 1) as -> by by vm_compute.
  rewrite -> (proj2 (Z.leb_gt (2 ^ 48 - 1) size)) by lia. rewrite -> !pow2_test by lia. rewrite -> Z.mod_same by lia.
  rewrite -> (proj2 (Z.mod_divide size (2 ^ j) ltac:(lia)) Hd). cbn [negb Z.eqb]. by apply aligned_internal_spec.
Qed.

(** The objects of the large bins start one page into their chunk. *)
Lemma large_bin_offset b info c f k : static_bin b = Some info -> 40 <= b <= 43 -> is_chunk c ->
  object_address info c f k mod object_size info = pagesize.
Proof.
  intros Hi Hb (cn & _ & ->). by_table 40 4 (fun (_ : Z) (i : static_bin_s) =>
    (overhead_pages_per_chunk i =? 1) && (folio_size i =? object_size i) && (pagesize <? object_size i) && (chunksize mod object_size i =? 0)).
  destruct Hcheck as [[[Hov Hf] Hgt] Hm]. unfold pagesize in Hgt. unfold object_address. rw Hov Hf Z.mul_1_l.
  apply Z.mod_divide in Hm as [q Hq]; [|lia]. rw Hq.
  replace (cn * (q * object_size info) + pagesize + f * object_size info + k * object_size info)
    with (pagesize + (cn * q + f + k) * object_size info) by ring.
  rewrite -> Z.mod_add by lia. apply Z.mod_small. unfold pagesize in *. lia.
Qed.

Lemma find_own_bin j s : 14 <= j <= 17 -> loop 48 (find_bin_body (2 ^ j) (2 ^ j)) (size_2_bin (2 ^ j)) s = Some (Some (26 + j, 2 ^ j, false), s).
Proof. intros Hj. assert (j = 14 \/ j = 15 \/ j = 16 \/ j = 17) as [->|[->|[->| ->]]] by lia; by vm_compute. Qed.

(** A block of a large bin whose size is the alignment is a page off. *)
Lemma own_bin_misaligned s es j : heap_inv s es -> 14 <= j <= 17 ->
  served s es (refused s (aligned_asks j (2 ^ j))) (aligned_malloc_internal env (2 ^ j) (2 ^ j) s) (fun r _ => r mod 2 ^ j = pagesize) (2 ^ j).
Proof.
  intros HI Hj. unfold aligned_malloc_internal. destruct (initialize_spec s es HI) as [[E Hno]|(s1 & E & HI1 & Hin & Eb & _)].
  { unfold mbind, M_bind. rw E. by left. }
  rw (bind_Some _ _ _ _ _ E) (bind_Some _ _ _ _ _ (find_own_bin j s1 Hj)). apply (served_from s s1 _ _ _ _ _ Eb).
  assert (bin_2_size (26 + j) = Some (2 ^ j)) as Hs by (assert (j = 14 \/ j = 15 \/ j = 16 \/ j = 17) as [->|[->|[->| ->]]] by lia; by vm_compute).
  destruct (bin_static _ _ Hs) as (info & Hi & Eo). assert (0 < 2 ^ j) by (apply Z.pow_pos_nonneg; lia).
  eapply (served_weaken _ _ (refuses 1 (hchunks s1))); [| |apply (cached_malloc_h_spec env s1 es (26 + j) info (2 ^ j)); try done; [unfold first_huge_bin_number; lia|lia]].
  - intros Hno. right. exists s1. split; [done|]. exists 1. split; [by left|done].
  - intros r o (c & f & k & -> & _ & Hc & -> & _). rw -Eo. apply (large_bin_offset (26 + j)); [done|lia|done].
Qed.

Lemma aligned_alloc_page_off s es j : heap_inv s es -> 14 <= j <= 17 ->
  served s es (refused s (aligned_asks j (2 ^ j))) (ALIGNED_ALLOC env (2 ^ j) (2 ^ j) s) (fun r _ => r mod 2 ^ j = pagesize) (2 ^ j).
Proof.
  intros HI Hj. assert (0 < 2 ^ j <= 2 ^ 17) by (split; [apply Z.pow_pos_nonneg; lia|apply Z.pow_le_mono_r; lia]). unfold ALIGNED_ALLOC.
  assert (max_allocatable_size = 2 ^ 48 - 1) as -> by by vm_compute. rewrite -> (proj2 (Z.leb_gt (2 ^ 48 - 1) (2 ^ j))) by lia.
  rewrite -> !pow2_test by lia. rewrite -> Z.mod_same by lia. cbn [negb Z.eqb]. by apply own_bin_misaligned.
Qed.

Lemma posix_memalign_spec s es j size : heap_inv s es -> 3 <= j <= 46 -> 0 < size <= 2 ^ 46 ->
  match POSIX_MEMALIGN env (2 ^ j) size s with
  | None => refused s (aligned_asks j size)
  | Some ((e, p), s') => bytes s' = bytes s /\ initialized s' = true /\
      ((p = None /\ refused s (aligned_asks j size) /\ heap_inv s' es) \/
       exists r o, e = 0 /\ p = Some r /\ 0 < r < 2 ^ 48 /\ aligned j size r /\ heap_inv s' (Block r size o :: es))
  end.
Proof.
  intros HI Hj Hs. assert (8 <= 2 ^ j) by (apply (Z.pow_le_mono_r 2 3); lia). unfold POSIX_MEMALIGN. rewrite -> pow2_test by lia. rewrite -> Z.mod_same by lia. cbn [negb Z.eqb].
  unfold sizeof_pointer. rewrite -> (proj2 (Z.ltb_ge (2 ^ j) 8)) by lia. rewrite -> (proj2 (Z.eqb_neq size 0)) by lia.
  pose proof (aligned_internal_spec s es j size HI ltac:(lia) ltac:(lia)) as Hm. unfold served in Hm. unfold mbind at 1, M_bind.
  destruct (aligned_malloc_internal env (2 ^ j) size s) as [[r s1]|]; [|done]. destruct Hm as (Eb & Hin1 & [(-> & Hno & HI1)|(o & Hr & Hal & HI1)]).
  { simpl. split_and!; [done..|by left]. }
  rewrite -> (proj2 (Z.eqb_neq r 0)) by lia. simpl. split_and!; [done..|right]. exists r, o. by split_and!; [|done|lia..| |].
Qed.

(** [memalign] rounds the size up. *)
Lemma memalign_spec s es j size : heap_inv s es -> 0 <= j <= 46 -> 0 <= size -> size + 2 ^ j <= 2 ^ 46 ->
  let rounded := (size + 2 ^ j - 1) / 2 ^ j * 2 ^ j in
  size <= rounded /\ served s es (refused s (aligned_asks j rounded)) (MEMALIGN env (2 ^ j) size s) (fun r _ => aligned j rounded r) rounded.
Proof.
  intros HI Hj Hs Hmax rounded. assert (0 < 2 ^ j) by (apply Z.pow_pos_nonneg; lia). unfold MEMALIGN. rewrite -> pow2_test by lia. rewrite -> Z.mod_same by lia. cbn [negb Z.eqb].
  cbv zeta. rewrite -> (uwrap_small 64 (size + 2 ^ j - 1)) by (unfold is_uint; lia). rewrite -> mask_down by (unfold is_uint; lia). fold rounded.
  assert (size <= rounded <= size + 2 ^ j - 1) as Hr.
  { unfold rounded. pose proof (Z.div_mod (size + 2 ^ j - 1) (2 ^ j)). pose proof (Z.mod_pos_bound (size + 2 ^ j - 1) (2 ^ j)). lia. }
  split; [lia|]. apply aligned_internal_spec; (done || lia).
Qed.
End aligned.
