(* ===== verification/Programs.v ===== *)
(** * Programs that use src/memory/malloc.cpp.

    A program calls the allocator and writes to its blocks.  The abstract memory
    that it may rely on has only blocks with their contents; the allocator
    implements it. *)
From stdpp Require Import functions.
From S2P Require Import Prelude Words StateMonad Sizeclass Makechunk Huge Small SmallSpec SmallAlloc Footprint Large Cache CacheSpec Bins Supermalloc SupermallocSpec SupermallocOps.
#[local] Open Scope Z_scope.

(** Blocks are named by their position in the list of the blocks that are held. *)
Inductive call : Set :=
| Malloc (n : Z)
| Calloc (k n : Z)
| Realloc (i : nat) (n : Z)
| Aligned_alloc (j n : Z)
| Posix_memalign (j n : Z)
| Memalign (j n : Z)
| Free (i : nat)
| Store (i : nat) (o v : Z).

(** ** The abstract memory *)

#[local] Abbreviation memory := (list (Z * list Z)).

Definition fresh (a n : Z) (m : memory) : Prop :=
  0 < a /\ a + n <= 2 ^ 48 /\ forall p bs x, (p, bs) ∈ m -> a <= x < a + n -> ~ p <= x < p + Z.of_nat (length bs).

(** A request may be refused; otherwise there is a new block. *)
Inductive allocates (m : memory) (n : Z) (P : Z -> list Z -> Prop) : memory -> Prop :=
| Refuse : allocates m n P m
| Allocate a bs : Z.of_nat (length bs) = n -> fresh a n m -> P a bs -> allocates m n P ((a, bs) :: m).

Definition index_of (c : call) : option nat :=
  match c with Realloc i _ | Free i | Store i _ _ => Some i | _ => None end.

Inductive spec (m : memory) : call -> memory -> Prop :=
| SpecMalloc n m' : allocates m n (fun a _ => 28 < n -> (8 | a)) m' -> spec m (Malloc n) m'
| SpecCalloc k n m' : allocates m (k * n) (fun _ bs => bs = replicate (Z.to_nat (k * n)) 0) m' -> spec m (Calloc k n) m'
| SpecAligned j n m' : allocates m n (fun a _ => aligned j n a) m' -> spec m (Aligned_alloc j n) m'
| SpecPosix j n m' : allocates m n (fun a _ => aligned j n a) m' -> spec m (Posix_memalign j n) m'
| SpecMemalign j n m' : allocates m n (fun a _ => aligned j n a) m' -> spec m (Memalign j n) m'
| SpecReallocRefuse i n : spec m (Realloc i n) m
| SpecRealloc i n p old a bs : m !! i = Some (p, old) -> Z.of_nat (length bs) = n -> fresh a n (delete i m) ->
    (forall k v, old !! k = Some v -> (k < length bs)%nat -> bs !! k = Some v) -> spec m (Realloc i n) ((a, bs) :: delete i m)
| SpecFree i p bs : m !! i = Some (p, bs) -> spec m (Free i) (delete i m)
| SpecStore i o v p bs : m !! i = Some (p, bs) -> 0 <= o < Z.of_nat (length bs) -> spec m (Store i o v) (<[i := (p, <[Z.to_nat o := v]> bs)]> m)
| SpecOutside i o v p bs : m !! i = Some (p, bs) -> ~ 0 <= o < Z.of_nat (length bs) -> spec m (Store i o v) m
| SpecAbsent c i : index_of c = Some i -> m !! i = None -> spec m c m.

Inductive specs : list call -> memory -> memory -> Prop :=
| SpecsNil m : specs [] m m
| SpecsCons c cs m m1 m2 : spec m c m1 -> specs cs m1 m2 -> specs (c :: cs) m m2.

(** ** The program on the allocator *)

Section client.
Context {K : Kernel} {T : Scheduler}.
Variable env : setting.

Definition give (n r : Z) (held : list (Z * Z)) : list (Z * Z) := if r =? 0 then held else (r, n) :: held.

Definition exec (c : call) (held : list (Z * Z)) : M (heap K T) (list (Z * Z)) :=
  match c with
  | Malloc n => r ← MALLOC env n; mret (give n r held)
  | Calloc k n => r ← CALLOC env k n; mret (give (k * n) r held)
  | Realloc i n =>
      match held !! i with
      | Some (p, _) => r ← REALLOC env p n; mret (if r =? 0 then held else (r, n) :: delete i held)
      | None => mret held
      end
  | Aligned_alloc j n => r ← ALIGNED_ALLOC env (2 ^ j) n; mret (give n r held)
  | Posix_memalign j n => '(_, p) ← POSIX_MEMALIGN env (2 ^ j) n; mret (give n (default 0 p) held)
  | Memalign j n => r ← MEMALIGN env (2 ^ j) n; mret (give n r held)
  | Free i =>
      match held !! i with
      | Some (p, _) => FREE env p;; mret (delete i held)
      | None => mret held
      end
  | Store i o v =>
      match held !! i with
      | Some (p, l) => if (0 <=? o) && (o <? l) then write (p + o) v;; mret held else mret held
      | None => mret held
      end
  end.
End client.

(** The sizes for which the promise holds. *)
Definition call_ok (c : call) : Prop :=
  match c with
  | Malloc n | Realloc _ n => 0 <= n <= 2 ^ 46 - pagesize
  | Calloc k n => 0 <= k /\ 0 <= n /\ k * n <= 2 ^ 46 - pagesize
  | Aligned_alloc j n => 0 <= j <= 46 /\ 0 <= n <= 2 ^ 46 /\ (2 ^ j | n)
  | Posix_memalign j n => 3 <= j <= 46 /\ 0 <= n <= 2 ^ 46
  | Memalign j n => 0 <= j <= 46 /\ 0 <= n /\ n + 2 ^ j <= 2 ^ 46
  | Free _ | Store _ _ _ => True
  end.

(** The blocks that the program has after a call that was not refused. *)
Definition granted (c : call) (held held' : list (Z * Z)) : Prop :=
  match c with
  | Malloc n | Aligned_alloc _ n | Memalign _ n => exists p, 0 < p /\ held' = (p, n) :: held
  | Posix_memalign _ n => if n =? 0 then held' = held else exists p, 0 < p /\ held' = (p, n) :: held
  | Calloc k n => exists p, 0 < p /\ held' = (p, k * n) :: held
  | Realloc i n => if held !! i is Some _ then exists p, 0 < p /\ held' = (p, n) :: delete i held else held' = held
  | Free i => held' = if held !! i is Some _ then delete i held else held
  | Store _ _ _ => held' = held
  end.

(** ** The simulation *)

Section simulation.
Context {K : Kernel} {KO : KernelOk K} {T : Scheduler} {TO : SchedulerOk T}.
Variable env : setting.
Implicit Type s : heap K T.

Definition contents s (e : block) : list Z := (fun i => bytes s (ptr e + i)) <$> seqZ 0 (len e).
Definition view s (es : list block) : memory := (fun e => (ptr e, contents s e)) <$> es.
Definition extent (e : block) : Z * Z := (ptr e, len e).

(** [es] are the blocks that the program holds, [lost] those that nobody can free. *)
Record simulates s (held : list (Z * Z)) (m : memory) (es lost : list block) : Prop := {
  sm_heap : heap_inv s (es ++ lost);
  sm_held : held = extent <$> es;
  sm_memory : m = view s es;
}.

Lemma contents_length s e : 0 <= len e -> Z.of_nat (length (contents s e)) = len e.
Proof. intros Hl. unfold contents. rw length_fmap length_seqZ. lia. Qed.

Lemma contents_lookup s e k v : contents s e !! k = Some v <-> Z.of_nat k < len e /\ v = bytes s (ptr e + Z.of_nat k).
Proof.
  unfold contents. rw list_lookup_fmap fmap_Some. split.
  - intros (i & Hi & ->). apply lookup_seqZ in Hi as [-> Hk]. split; [lia|f_equal; lia].
  - intros [Hk ->]. exists (Z.of_nat k). split; [|done]. apply lookup_seqZ. lia.
Qed.

Lemma contents_kept s s' e : (forall x, in_block x e -> bytes s' x = bytes s x) -> contents s' e = contents s e.
Proof.
  intros Hk. apply list_eq. intros i. apply option_eq. intros v. rw !contents_lookup. unfold in_block in Hk.
  split; intros [Hi ->]; (split; [done|]); [|symmetry]; apply Hk; lia.
Qed.

Lemma view_kept s s' es : kept s s' es -> view s' es = view s es.
Proof.
  intros Hk. unfold view. apply list_fmap_ext. intros i e He. f_equal. apply contents_kept. intros x. apply Hk. by eapply list_elem_of_lookup_2.
Qed.

Lemma kept_app s s' es lost : kept s s' (es ++ lost) -> kept s s' es.
Proof. intros Hk e x He. apply Hk, elem_of_app. by left. Qed.

Lemma view_fresh s es lost e : heap_inv s (e :: es ++ lost) -> fresh (ptr e) (len e) (view s es).
Proof.
  intros HI. destruct (block_entry s _ e HI ltac:(left)) as (_ & _ & Hp & _ & siz & _ & _ & Hlen & _ & Hlt).
  split_and!; [done|lia|]. intros p bs x (e' & E & He')%list_elem_of_fmap Hx Hx'. simplify_eq.
  apply list_elem_of_lookup in He' as (i & Hi). assert (0 <= len e') as Hl.
  { destruct HI as (U & L & tbl & HR). pose proof (hr_blocks _ _ _ _ _ HR) as [_ HF]%Forall_cons. rw Forall_forall in HF.
    destruct (HF e') as [? _]; [|done]. apply elem_of_app. left. by eapply list_elem_of_lookup_2. }
  rewrite -> contents_length in Hx' by done.
  apply (blocks_disjoint_index s (e :: es ++ lost) 0 (S i) e e' x HI); [done| |done|done|done]. simpl. by apply lookup_app_l_Some.
Qed.

(** A new block in front of the others. *)
Lemma allocate_simulates s s' held m es lost r n o (P : Z -> list Z -> Prop) : simulates s held m es lost -> heap_inv s' (Block r n o :: es ++ lost) ->
  0 < r -> kept s s' es -> P r (contents s' (Block r n o)) ->
  simulates s' (give n r held) ((r, contents s' (Block r n o)) :: m) (Block r n o :: es) lost /\ allocates m n P ((r, contents s' (Block r n o)) :: m).
Proof.
  intros [HI -> ->] HI' Hr Hk HP. pose proof (heap_inv_head _ _ _ HI') as [Hn _]. split.
  - split; [done| |by rw -(view_kept _ _ _ Hk)]. unfold give. by rewrite -> (proj2 (Z.eqb_neq r 0)) by lia.
  - constructor; [by apply contents_length| |done]. rw -(view_kept _ _ _ Hk). by apply (view_fresh s' es lost (Block r n o)).
Qed.

(** The kernel refuses what a call needs; [free] and a store need nothing. *)
Definition call_refused s (c : call) : Prop :=
  match c with
  | Malloc n | Realloc _ n => refused s (malloc_asks n)
  | Calloc k n => refused s (malloc_asks (k * n))
  | Aligned_alloc j n | Posix_memalign j n => refused s (aligned_asks j n)
  | Memalign j n => refused s (aligned_asks j ((n + 2 ^ j - 1) / 2 ^ j * 2 ^ j))
  | Free _ | Store _ _ _ => False
  end.

(** The state after a call; the program goes on unless the kernel has refused memory. *)
Definition simulated s held m lost (c : call) (r : option (list (Z * Z) * heap K T)) : Prop :=
  match r with
  | None => call_refused s c
  | Some (held', s') => exists m' es' lost', simulates s' held' m' es' (lost' ++ lost) /\ spec m c m' /\
      (granted c held held' \/ held' = held /\ call_refused s c)
  end.

Lemma give_pos n r held : 0 < r -> give n r held = (r, n) :: held.
Proof. intros Hr. unfold give. by rewrite -> (proj2 (Z.eqb_neq r 0)) by lia. Qed.

(** The calls that only allocate. *)
Lemma served_simulated s held m es lost c (call : M (heap K T) Z) (P : Z -> list Z -> Prop) (Q : Z -> owner -> Prop) n asked :
  simulates s held m es lost -> served s (es ++ lost) (call_refused s c) (call s) Q asked -> 0 <= n <= asked ->
  (forall r o bs, Q r o -> P r bs) -> (forall m', allocates m n P m' -> spec m c m') -> (forall r, 0 < r -> granted c held ((r, n) :: held)) ->
  simulated s held m lost c ((r ← call; mret (give n r held)) s).
Proof.
  intros HS Hm Hn HP Hspec Hg. unfold served in Hm. unfold mbind, M_bind. destruct (call s) as [[r s']|]; [|done]. simpl.
  destruct Hm as (Eb & _ & [(-> & Hno & HI)|(o & Hr & HQ & HI)]).
  - destruct HS as [_ -> ->]. exists (view s es), es, []. split_and!; [|apply Hspec; constructor|by right].
    split; [done|done|]. by rewrite -> (view_kept s s' es) by by apply kept_eq.
  - assert (heap_inv s' (Block r n o :: es ++ lost)) as HI'.
    { apply (heap_inv_piece s' _ r r asked); [done|]. apply (block_ok_shorter _ asked); [|done]. by apply (heap_inv_head s' (es ++ lost)). }
    destruct (allocate_simulates s s' held m es lost r n o P HS HI' ltac:(lia) ltac:(by apply kept_eq) ltac:(by eapply HP)) as [HS' Ha].
    eexists _, _, []. split_and!; [exact HS'|by apply Hspec|left]. rewrite -> give_pos by lia. apply Hg. lia.
Qed.

Lemma calloc_simulated s held m es lost k n : simulates s held m es lost -> call_ok (Calloc k n) ->
  simulated s held m lost (Calloc k n) (exec env (Calloc k n) held s).
Proof.
  intros HS (Hk & Hn & Hkn). pose proof (calloc_spec env s _ k n (sm_heap _ _ _ _ _ HS) Hk Hn Hkn) as Hc. cbn [exec]. unfold mbind, M_bind.
  destruct (CALLOC env k n s) as [[r s']|]; [|done]. destruct Hc as (o & Hr & HI & Hz & Hkept). simpl. destruct (allocate_simulates s s' held m es lost r (k * n) o (fun _ bs => bs = replicate (Z.to_nat (k * n)) 0) HS HI) as [HS' Ha];
    [lia|by eapply kept_app| |].
  - apply list_eq. intros i. apply option_eq. intros v. rw contents_lookup lookup_replicate. simpl. split.
    + intros [Hi ->]. split; [apply Hz; lia|lia].
    + intros [-> Hi]. split; [lia|]. symmetry. apply Hz. lia.
  - eexists _, _, []. split_and!; [exact HS'|by constructor|left]. rewrite -> give_pos by lia. exists r. split; [lia|done].
Qed.

Lemma posix_simulated s held m es lost j n : simulates s held m es lost -> call_ok (Posix_memalign j n) ->
  simulated s held m lost (Posix_memalign j n) (exec env (Posix_memalign j n) held s).
Proof.
  intros HS (Hj & Hn). cbn [exec]. destruct (decide (n = 0)) as [->|Hne].
  - assert (8 <= 2 ^ j) by (apply (Z.pow_le_mono_r 2 3); lia).
    assert (POSIX_MEMALIGN env (2 ^ j) 0 s = Some ((0, Some 0), s)) as E.
    { unfold POSIX_MEMALIGN. rewrite -> pow2_test by lia. rewrite -> Z.mod_same by lia. cbn [negb Z.eqb].
      unfold sizeof_pointer. by rewrite -> (proj2 (Z.ltb_ge (2 ^ j) 8)) by lia. }
    rw (bind_Some _ _ _ _ _ E). exists m, es, []. by split_and!; [|repeat constructor|left].
  - pose proof (posix_memalign_spec env s (es ++ lost) j n (sm_heap _ _ _ _ _ HS) Hj ltac:(lia)) as Hp. unfold mbind, M_bind.
    destruct (POSIX_MEMALIGN env (2 ^ j) n s) as [[[e p] s']|]; [|done]. simpl. destruct Hp as (Eb & _ & [(-> & Hno & HI)|(r & o & _ & -> & Hr & Hal & HI)]).
    + destruct HS as [_ -> ->]. exists (view s es), es, []. split_and!; [|by repeat constructor|by right].
      split; [done|done|]. by rewrite -> (view_kept s s' es) by by apply kept_eq.
    + destruct (allocate_simulates s s' held m es lost r n o (fun a _ => aligned j n a) HS HI ltac:(lia) ltac:(by apply kept_eq) Hal) as [HS' Ha].
      eexists _, _, []. split_and!; [exact HS'|by constructor|left]. cbn [default id]. rewrite -> give_pos by lia. unfold granted.
      rewrite -> (proj2 (Z.eqb_neq n 0)) by done. exists r. split; [lia|done].
Qed.

(** The block at a position. *)
Lemma held_block s held m es lost i p l : simulates s held m es lost -> held !! i = Some (p, l) ->
  exists e, es !! i = Some e /\ ptr e = p /\ len e = l /\ 0 <= l /\ m !! i = Some (p, contents s e) /\ es ++ lost ≡ₚ e :: delete i es ++ lost.
Proof.
  intros [HI -> ->] Hi. rw list_lookup_fmap fmap_Some in Hi. destruct Hi as (e & He & E). unfold extent in E. simplify_eq. exists e. split_and!; [done..| | |].
  - destruct HI as (U & L & tbl & HR). pose proof (hr_blocks _ _ _ _ _ HR) as HF. rw Forall_forall in HF. destruct (HF e) as [? _]; [|done].
    apply elem_of_app. left. by eapply list_elem_of_lookup_2.
  - unfold view. by rw list_lookup_fmap He.
  - by rewrite -> (delete_Permutation es i e) at 1.
Qed.

Lemma absent s held m es lost i c : simulates s held m es lost -> held !! i = None -> index_of c = Some i -> granted c held held ->
  simulated s held m lost c (Some (held, s)).
Proof.
  intros HS Hi Hc Hg. exists m, es, []. split_and!; [done| |by left]. apply (SpecAbsent m c i); [done|]. destruct HS as [_ -> ->].
  rw list_lookup_fmap fmap_None in Hi. unfold view. by rw list_lookup_fmap Hi.
Qed.

Lemma view_delete s es i : view s (delete i es) = delete i (view s es).
Proof. apply list_fmap_delete. Qed.

Lemma free_simulated s held m es lost i : simulates s held m es lost -> simulated s held m lost (Free i) (exec env (Free i) held s).
Proof.
  intros HS. cbn [exec]. destruct (held !! i) as [[p l]|] eqn:Hi; [|by apply (absent s held m es lost i); rw /granted ?Hi].
  destruct (held_block s held m es lost i p l HS Hi) as (e & He & <- & <- & _ & Hm & Hp). destruct HS as [HI -> ->].
  apply (heap_inv_perm _ _ _ Hp) in HI. destruct (free_spec env s _ e HI) as (s' & E & HI' & Eb & _). rw (bind_Some _ _ _ _ _ E).
  exists (delete i (view s es)), (delete i es), []. split_and!; [|by econstructor|left; by rw /granted Hi]. split; [done| |].
  - by rw list_fmap_delete.
  - rw -view_delete. by rewrite -> (view_kept s s' (delete i es)) by by apply kept_eq.
Qed.

Lemma realloc_simulated s held m es lost i n : simulates s held m es lost -> call_ok (Realloc i n) ->
  simulated s held m lost (Realloc i n) (exec env (Realloc i n) held s).
Proof.
  intros HS Hn. cbn [exec]. destruct (held !! i) as [[p l]|] eqn:Hi; [|by apply (absent s held m es lost i); rw /granted ?Hi].
  destruct (held_block s held m es lost i p l HS Hi) as (e & He & <- & <- & Hl & Hm & Hp). pose proof HS as [HI -> ->].
  pose proof HI as HI0. apply (heap_inv_perm _ _ _ Hp) in HI. pose proof (realloc_spec env s _ e n HI Hn) as Hr. unfold reallocated in Hr. unfold mbind, M_bind.
  destruct (REALLOC env (ptr e) n s) as [[r s']|]; [|done]. simpl. destruct Hr as [(-> & Hno & HI' & Eb)|(o & more & Hr & HI' & Hmore & Hcopy & Hk)].
  - exists (view s es), es, []. split_and!; [|constructor|by right]. split; [by apply (heap_inv_perm _ _ _ (symmetry Hp))|done|].
    by rewrite -> (view_kept s s' es) by by apply kept_eq.
  - rewrite -> (proj2 (Z.eqb_neq r 0)) by lia. pose proof (kept_app _ _ _ _ Hk) as Hk'.
    assert (heap_inv s' (Block r n o :: delete i es ++ more ++ lost)) as HI1.
    { eapply heap_inv_perm; [|exact HI']. rw !(app_assoc _ _ lost). do 2 f_equiv. apply Permutation_app_comm. }
    pose proof (heap_inv_head _ _ _ HI1) as [Hn0 _]. simpl in Hn0.
    exists ((r, contents s' (Block r n o)) :: delete i (view s es)), (Block r n o :: delete i es), more. split_and!; [split| |left; rw /granted Hi; exists r; by split; [lia|]].
    + done.
    + by rw fmap_cons list_fmap_delete.
    + rw -view_delete -(view_kept _ _ _ Hk'). done.
    + apply (SpecRealloc _ i n (ptr e) (contents s e)); [done|by apply contents_length| |].
      * rw -view_delete -(view_kept _ _ _ Hk'). by apply (view_fresh s' (delete i es) (more ++ lost) (Block r n o)).
      * intros k v [Hk0 ->]%contents_lookup Hlen. apply contents_lookup. simpl.
        pose proof (contents_length s' (Block r n o) Hn0) as El. simpl in El. split; [lia|]. symmetry. apply Hcopy; lia.
Qed.

Lemma store_contents s e o v : 0 <= o < len e -> contents (with_bytes (<[ptr e + o := v]> (bytes s)) s) e = <[Z.to_nat o := v]> (contents s e).
Proof.
  intros Ho. apply list_eq. intros k. apply option_eq. intros x. rw contents_lookup list_lookup_insert_Some contents_lookup. simpl.
  destruct (decide (Z.to_nat o = k)) as [<-|Hne].
  - rewrite -> Z2Nat.id by lia. rw fn_lookup_insert. split.
    + intros [_ ->]. left. split_and!; [done..|]. unfold contents. rw length_fmap length_seqZ. lia.
    + intros [(_ & -> & _)|[? _]]; [split; [lia|done]|done].
  - rewrite -> fn_lookup_insert_ne by lia. split; [intros [? ?]; by right|]. intros [[? _]|[_ ?]]; done.
Qed.

Lemma store_simulated s held m es lost i o v : simulates s held m es lost -> simulated s held m lost (Store i o v) (exec env (Store i o v) held s).
Proof.
  intros HS. cbn [exec]. destruct (held !! i) as [[p l]|] eqn:Hi; [|by apply (absent s held m es lost i); rw /granted ?Hi].
  destruct (held_block s held m es lost i p l HS Hi) as (e & He & <- & <- & Hl & Hm & _). pose proof HS as [HI -> ->].
  destruct ((0 <=? o) && (o <? len e)) eqn:Eo.
  - apply andb_true_iff in Eo as [Ho1%Z.leb_le Ho2%Z.ltb_lt]. set (s' := with_bytes (<[ptr e + o := v]> (bytes s)) s).
    assert (write (ptr e + o) v s = Some (tt, s')) as E by done. rw (bind_Some _ _ _ _ _ E).
    exists (<[i := (ptr e, <[Z.to_nat o := v]> (contents s e))]> (view s es)), es, []. split_and!; [|by apply SpecStore; [|rewrite -> contents_length by done; lia]|by left].
    split; [by apply heap_inv_bytes|done|]. unfold view. rewrite <- (store_contents s e o v) by lia. fold s'.
    apply list_eq. intros j. destruct (decide (i = j)) as [<-|Hne].
    + rewrite -> list_lookup_insert_eq by (rw length_fmap; by eapply lookup_lt_Some). by rw list_lookup_fmap He.
    + rewrite -> list_lookup_insert_ne by done. rw !list_lookup_fmap. destruct (es !! j) as [e'|] eqn:He'; [|done]. simpl. f_equal. f_equal.
      symmetry. apply contents_kept. intros x Hx. simpl. apply fn_lookup_insert_ne. intros <-.
      apply (blocks_disjoint_index s (es ++ lost) i j e e' (ptr e + o) HI); [by apply lookup_app_l_Some..|done| |done]. unfold in_block. lia.
  - exists (view s es), es, []. split_and!; [done| |by left]. apply (SpecOutside _ i o v (ptr e) (contents s e)); [done|]. rewrite -> contents_length by done.
    apply andb_false_iff in Eo as [?%Z.leb_gt|?%Z.ltb_ge]; lia.
Qed.

Lemma exec_simulated s held m es lost c : simulates s held m es lost -> call_ok c -> simulated s held m lost c (exec env c held s).
Proof.
  intros HS Hc. pose proof (sm_heap _ _ _ _ _ HS) as HI. destruct c as [n|k n|i n|j n|j n|j n|i|i o v]; simpl in Hc.
  - apply (served_simulated s held m es lost _ _ (fun a _ => 28 < n -> (8 | a)) (fun r _ => word_aligned n r) n n); [done|by apply malloc_spec|lia|done| |].
    { intros m' ?. by constructor. } intros r Hr. by exists r.
  - by apply (calloc_simulated s held m es lost).
  - by apply (realloc_simulated s held m es lost).
  - destruct Hc as (Hj & Hn & Hd). apply (served_simulated s held m es lost _ _ (fun a _ => aligned j n a) (fun r _ => aligned j n r) n n); [done|by apply aligned_alloc_spec|lia|done| |].
    { intros m' ?. by constructor. } intros r Hr. by exists r.
  - by apply (posix_simulated s held m es lost).
  - destruct Hc as (Hj & Hn & Hd). destruct (memalign_spec env s (es ++ lost) j n HI Hj Hn Hd) as [Hle Hs].
    apply (served_simulated s held m es lost (Memalign j n) _ (fun a _ => aligned j n a) _ n _ HS Hs); [lia| |intros m' ?; by constructor|by intros r Hr; exists r].
    intros r o _ Hal. apply (aligned_mono j n _ r ltac:(by split)) in Hal; [done|]. 
    pose proof (Z.div_mod (n + 2 ^ j - 1) (2 ^ j)). pose proof (Z.pow_pos_nonneg 2 j). pose proof (Z.mod_pos_bound (n + 2 ^ j - 1) (2 ^ j)). lia.
  - by apply (free_simulated s held m es lost).
  - by apply (store_simulated s held m es lost).
Qed.

Lemma heap_block_length s es lost i e : heap_inv s (es ++ lost) -> es !! i = Some e -> 0 <= len e.
Proof.
  intros (U & L & tbl & HR) He. pose proof (hr_blocks _ _ _ _ _ HR) as HF. rw Forall_forall in HF. destruct (HF e) as [? _]; [|done].
  apply elem_of_app. left. by eapply list_elem_of_lookup_2.
Qed.

Lemma object_of_block s es e : heap_inv s es -> e ∈ es ->
  exists base usable, object_base (ptr e) s = Some (base, s) /\ MALLOC_USABLE_SIZE (ptr e) s = Some (usable, s) /\ 0 < base <= ptr e /\ len e <= usable /\
    ptr e + usable <= 2 ^ 48 /\ forall x, base <= x < ptr e + usable -> usable < chunksize \/ x / chunksize = ptr e / chunksize -> object_base x s = Some (base, s).
Proof.
  intros HI Hin. destruct (block_entry s es e HI Hin) as (_ & _ & _ & Hbase & siz & Hsiz & Hr & _).
  destruct (usable_spec s es e HI Hin) as (siz' & Hsiz' & Eu & Hlen & Hpos & Hlt & _). assert (siz' = siz) as -> by congruence.
  eexists _, _. split_and!; [exact Hbase|exact Eu| |lia|done|lia|].
  - destruct (own e) as [b a|h] eqn:Ho; simpl.
    + destruct (heap_bin_block s es e b a HI Hin Ho) as (info & c & f & k & Hl & _). by destruct (located_below _ _ _ _ _ _ _ Hl).
    + destruct (heap_huge_block s es e h HI Hin Ho) as (Hok & _). destruct (huge_chunk _ h 0 Hok) as (_ & _ & Hc); [done|]. by apply is_chunk_pos.
  - intros x Hx Hu. destruct (own e) as [b a|h] eqn:Ho; cbn [base_of bin_of_owner] in *.
    + destruct (heap_bin_block s es e b a HI Hin Ho) as (info & c & f & k & Hl & Hp & _). apply (object_base_bin s b a info c f k x Hl).
      rw (bin_2_size_static b info (lc_info _ _ _ _ _ _ _ Hl)) in Hsiz. simplify_eq. lia.
    + destruct (heap_huge_block s es e h HI Hin Ho) as (Hok & Hp & _). apply object_base_huge; [done|]. destruct (hl_log _ _ _ _ _ Hok).
      replace (first_huge_bin_number + hb_log h) with (26 + (hb_log h + 21)) in Hsiz by (unfold first_huge_bin_number; lia).
      rewrite -> huge_bin_size in Hsiz by lia. simplify_eq. unfold pagesize in Hp. split; [lia|]. destruct Hu as [Hu|Ec].
      * destruct (decide (hb_log h = 0)) as [E0|Hne]; [rewrite -> E0 in *; change (2 ^ (0 + 21)) with chunksize in *; lia|].
        exfalso. assert (2 ^ 22 <= 2 ^ (hb_log h + 21)) by (apply Z.pow_le_mono_r; lia). unfold chunksize, log_chunksize in *. lia.
      * pose proof (hl_address _ _ _ _ _ Hok) as Ha. assert (ptr e / chunksize = hb_chunk h) as Ep.
        { replace (ptr e) with (hb_chunk h * chunksize + (ptr e - hb_address h)) by lia. rewrite -> Z.div_add_l by done.
          rewrite -> Z.div_small by (unfold chunksize, log_chunksize; lia). lia. }
        pose proof (Z.div_mod x chunksize ltac:(done)). pose proof (Z.mod_pos_bound x chunksize ltac:(done)). rewrite -> Ec, Ep in *. lia.
Qed.

(** ** Whole programs *)

Fixpoint run (calls : list call) (held : list (Z * Z)) : M (heap K T) (list (Z * Z)) :=
  match calls with
  | [] => mret held
  | c :: calls => held ← exec env c held; run calls held
  end.

Lemma run_simulated calls : Forall call_ok calls -> forall s held m es lost, simulates s held m es lost -> forall held' s', run calls held s = Some (held', s') ->
  exists m' es' lost', simulates s' held' m' es' lost' /\ specs calls m m'.
Proof.
  induction 1 as [|c calls Hc Hcs IH]; intros s held m es lost HS held' s' E; simpl in E.
  - injection E as <- <-. exists m, es, lost. split; [done|constructor].
  - apply bind_inv in E as (held1 & s1 & E1 & E2). pose proof (exec_simulated s held m es lost c HS Hc) as Hx. unfold simulated in Hx. rw E1 in Hx.
    destruct Hx as (m1 & es1 & lost1 & HS1 & Hspec & _). destruct (IH s1 held1 m1 es1 _ HS1 held' s' E2) as (m' & es' & lost' & HS' & Hss).
    exists m', es', lost'. split; [done|]. by econstructor.
Qed.

Lemma start_simulates (o : os K) (t : @sstate T) : simulates (no_heap o t) [] [] [] [].
Proof. split; [apply no_heap_inv|done|done]. Qed.
End simulation.

(** ** The claims *)

Section claims.
Context (K : Kernel) (KO : KernelOk K) (T : Scheduler) (TO : SchedulerOk T) (env : setting).

(** C1. The allocator implements the abstract memory: for any program that calls
    [malloc], [calloc], [realloc], [aligned_alloc], [posix_memalign], [memalign] and
    [free] and writes to its blocks, the blocks that it has are those of a run of
    the abstract memory, in which a new block never overlaps another one, blocks of
    [calloc] are zero, [realloc] keeps the contents, and nothing else changes the
    contents of a block; every byte of a block is mapped. An aligned block has the
    alignment that was asked for up to that of a page, and any alignment when no
    bin that the search meets has a multiple of it as its size. *)
Theorem malloc_refines (o : os K) (t : sstate) calls held (s : heap K T) : Forall call_ok calls -> run env calls [] (no_heap o t) = Some (held, s) ->
  exists m, specs calls [] m /\ held = (fun b => (b.1, Z.of_nat (length b.2))) <$> m /\
    forall i p bs k v, m !! i = Some (p, bs) -> bs !! k = Some v ->
      bytes s (p + Z.of_nat k) = v /\ mapped (kern (c_os (hchunks s))) (p + Z.of_nat k).
Proof.
  intros Hc E. destruct (run_simulated env calls Hc _ _ _ _ _ (start_simulates o t) held s E) as (m & es & lost & [HI -> ->] & Hs). exists (view s es).
  split; [done|]. split.
  - unfold view. rw -list_fmap_compose. apply list_fmap_ext. intros i e He. unfold extent. simpl. f_equal. symmetry. apply contents_length.
    by eapply (heap_block_length s es lost).
  - intros i p bs k v Hi Hk. unfold view in Hi. rw list_lookup_fmap fmap_Some in Hi. destruct Hi as (e & He & E'). simplify_eq.
    apply contents_lookup in Hk as [Hk ->]. split; [done|]. apply (block_mapped s (es ++ lost) e _ HI); [|unfold in_block; lia].
    apply elem_of_app. left. by eapply list_elem_of_lookup_2.
Qed.


(** C22. An address leads back to its object: the base of the object is at most the
    address of the block, the usable size that the allocator reports has room for
    the block, and every address of the object finds the same base when the object
    is smaller than a chunk or, in a huge object, the address is in its first chunk. *)
Theorem malloc_object (o : os K) (t : sstate) calls held (s : heap K T) i p n : Forall call_ok calls -> run env calls [] (no_heap o t) = Some (held, s) ->
  held !! i = Some (p, n) ->
  exists base usable, object_base p s = Some (base, s) /\ MALLOC_USABLE_SIZE p s = Some (usable, s) /\ 0 < base <= p /\ n <= usable /\ p + usable <= 2 ^ 48 /\
    forall x, base <= x < p + usable -> usable < chunksize \/ x / chunksize = p / chunksize -> object_base x s = Some (base, s).
Proof.
  intros Hcs E Hi. destruct (run_simulated env calls Hcs _ _ _ _ _ (start_simulates o t) held s E) as (m & es & lost & HS & _).
  destruct (held_block s held m es lost i p n HS Hi) as (e & He & <- & <- & _). pose proof (sm_heap _ _ _ _ _ HS) as HI.
  assert (e ∈ es ++ lost) as Hin by (apply elem_of_app; left; by eapply list_elem_of_lookup_2).
  by apply (object_of_block s (es ++ lost) e).
Qed.

(** C24. A block of [2 ^ j] bytes aligned to its own size is never aligned for
    [14 <= j <= 17]: in every state, [aligned_alloc] takes it from the large bin of
    that size, whose objects start one page into their chunk, so the address is
    4096 modulo the alignment. *)
Theorem aligned_alloc_misaligns (o : os K) (t : sstate) calls held (s : heap K T) j p n s' : Forall call_ok calls ->
  run env calls [] (no_heap o t) = Some (held, s) -> 14 <= j <= 17 ->
  exec env (Aligned_alloc j (2 ^ j)) held s = Some ((p, n) :: held, s') -> p mod 2 ^ j = pagesize.
Proof.
  intros Hcs E Hj Ex. destruct (run_simulated env calls Hcs _ _ _ _ _ (start_simulates o t) held s E) as (m & es & lost & HS & _).
  pose proof (aligned_alloc_page_off env s _ j (sm_heap _ _ _ _ _ HS) Hj) as Hm. unfold served in Hm. cbn [exec] in Ex.
  apply bind_inv in Ex as (r & s1 & E1 & E2). rw E1 in Hm. injection E2 as Eh <-.
  destruct Hm as (_ & _ & [(-> & _)|(b & Hr & Hp & _)]); [by apply (f_equal length) in Eh; unfold give in Eh; simpl in Eh; lia|].
  rewrite -> give_pos in Eh by lia. by simplify_eq.
Qed.
End claims.

(** ** A run *)

Definition sample_env : setting := Setting None None None 12345 false.
Definition sample_start : heap (simple_kernel 3) round_robin := no_heap (simple_os 3) (0 : @sstate round_robin).

(** Blocks of all three kinds, contents that move with [realloc], and a free. *)
Definition sample_program : list call :=
  [Malloc 100; Store 0 7 42; Malloc 3000000; Calloc 10 12; Realloc 2 20000; Aligned_alloc 12 8192; Posix_memalign 6 100; Memalign 8 1000; Free 1; Malloc 1000].

Lemma sample_run : exists held s, run sample_env sample_program [] sample_start = Some (held, s) /\
  held.*2 = [1000; 1000; 8192; 20000; 120; 3000000] /\ exists p, held !! 3%nat = Some (p, 20000) /\ bytes s (p + 7) = 42.
Proof.
  assert (match run sample_env sample_program [] sample_start with
    | Some (held, s) => bool_decide (held.*2 = [1000; 1000; 8192; 20000; 120; 3000000]) &&
        match held !! 3%nat with Some (p, n) => (n =? 20000) && (bytes s (p + 7) =? 42) | None => false end
    | None => false
    end = true) as H by (vm_compute; reflexivity).
  destruct (run sample_env sample_program [] sample_start) as [[held s]|]; [|done]. apply andb_true_iff in H as [?%bool_decide_eq_true H].
  destruct (held !! 3%nat) as [[p n]|] eqn:Hp; [|done]. apply andb_true_iff in H as [->%Z.eqb_eq ?%Z.eqb_eq].
  exists held, s. split; [reflexivity|]. split; [done|]. by exists p.
Qed.

Lemma sample_program_ok : Forall call_ok sample_program.
Proof. repeat constructor; simpl; (done || by exists 2). Qed.

Lemma malloc_refines_witness : exists held s m, run sample_env sample_program [] sample_start = Some (held, s) /\ specs sample_program [] m /\
  held = (fun b => (b.1, Z.of_nat (length b.2))) <$> m.
Proof.
  destruct sample_run as (held & s & E & _). exists held, s.
  destruct (malloc_refines (simple_kernel 3) (simple_kernel_ok 3) round_robin round_robin_ok sample_env (simple_os 3) 0 sample_program held s) as (m & Hm & Hh & _);
    [apply sample_program_ok|exact E|]. exists m. exact (conj E (conj Hm Hh)).
Defined.



Lemma sample_misaligned : exists p s', exec sample_env (Aligned_alloc 14 (2 ^ 14)) [] sample_start = Some ([(p, 2 ^ 14)], s').
Proof.
  assert (match exec sample_env (Aligned_alloc 14 (2 ^ 14)) [] sample_start with
    | Some ([(_, n)], _) => n =? 2 ^ 14 | _ => false end = true) as H by (vm_compute; reflexivity).
  destruct (exec sample_env (Aligned_alloc 14 (2 ^ 14)) [] sample_start) as [[[|[p n] [|]] s']|]; [discriminate H| |discriminate H..].
  apply Z.eqb_eq in H as ->. exists p, s'. reflexivity.
Qed.

Lemma aligned_alloc_misaligns_witness : exists p s', exec sample_env (Aligned_alloc 14 (2 ^ 14)) [] sample_start = Some ([(p, 2 ^ 14)], s') /\ p mod 2 ^ 14 = 4096.
Proof.
  destruct sample_misaligned as (p & s' & Ex). exists p, s'. split; [exact Ex|].
  apply (aligned_alloc_misaligns (simple_kernel 3) (simple_kernel_ok 3) round_robin round_robin_ok sample_env (simple_os 3) 0 [] [] sample_start 14 p (2 ^ 14) s');
    [constructor|reflexivity|lia|exact Ex].
Defined.

Lemma malloc_object_witness : exists held s p base usable, run sample_env sample_program [] sample_start = Some (held, s) /\ held !! 3%nat = Some (p, 20000) /\
  object_base p s = Some (base, s) /\ MALLOC_USABLE_SIZE p s = Some (usable, s) /\ 20000 <= usable.
Proof.
  destruct sample_run as (held & s & E & _ & p & Hp & _). exists held, s, p.
  destruct (malloc_object (simple_kernel 3) (simple_kernel_ok 3) round_robin round_robin_ok sample_env (simple_os 3) 0 sample_program held s 3 p 20000)
    as (base & usable & H1 & H2 & _ & H3 & _); [apply sample_program_ok|exact E|exact Hp|]. exists base, usable. exact (conj E (conj Hp (conj H1 (conj H2 H3)))).
Defined.
